(** * Consciousness World: a shallow embedding of the simulation engine

    The development follows the four classes of the engine:
    [WorldPhysics] (grid physics and the core state machine),
    [NeuralNetwork] (the feed-forward policy), [ConsciousEntity] (one agent)
    and [PopulationManager] (the steady-state roster).

    JavaScript numbers are embedded as exact rationals [Q]; values that the
    program only ever uses as integers (coordinates, ticks, ids, ages) are
    embedded as [Z].  In the forward pass of the network, where magnitudes
    compound from layer to layer, the numbers are followed beyond the
    finite ones as well: see [Number], with its infinities and its
    not-a-number.  The transcendental functions of [Math], the stream of
    values returned by [Math.random()] and the readings of [Date.now()] are
    fields of the [Runtime] interface, so every statement holds for every
    behaviour of the host. *)

From Stdlib Require Import ZArith QArith Qround Qabs Lqa List Lia String Bool.
From stdpp Require Import base option list.
Import ListNotations.

(** ** The JavaScript host *)

Module Js.

(** The part of the host the engine talks to.  [random_value n] is the
    value returned by the [n]-th call of [Math.random()] (always in
    $[0,1)$), [clock_value n] the value of the [n]-th call of [Date.now()].
    [spin_limit] bounds how many rounds of a rejection loop the model
    follows before it gives up with [Spinning]. *)
Class Runtime := {
  random_value : nat -> Q;
  random_range : forall n, (0 <= random_value n /\ random_value n < 1)%Q;
  clock_value : nat -> Z;
  Math_PI : Q;
  Math_sin : Q -> Q;
  Math_cos : Q -> Q;
  Math_exp : Q -> Q;
  Math_log : Q -> Q;
  Math_sqrt : Q -> Q;
  Math_exp_0 : forall x, (x == 0)%Q -> (Math_exp x == 1)%Q;
  Math_exp_nonneg : forall x, (0 <= Math_exp x)%Q;
  toString36 : Q -> string;
  spin_limit : nat
}.

(** Hidden state of the host: how many random numbers and clock readings
    have been handed out so far. *)
Record Host := { randoms_drawn : nat; clock_reads : nat }.

(** Code that draws random numbers or reads the clock, and always returns. *)
Definition Rand (A : Type) : Type := Host -> A * Host.

Definition ret {A} (a : A) : Rand A := fun h => (a, h).

Definition bind {A B} (m : Rand A) (k : A -> Rand B) : Rand B :=
  fun h => let (a, h') := m h in k a h'.

(** Exceptions: [Error msg] is [new Error(msg)]; [TypeError] is what the
    engine throws when a property of [undefined] is read. *)
Inductive Exception :=
| Error (message : string)
| TypeError.

(** How a call ends: it returns a value, it throws, or, in the model only,
    a rejection loop is still running after [spin_limit] rounds. *)
Inductive Outcome (A : Type) : Type :=
| Returned (a : A) (h : Host)
| Thrown (e : Exception)
| Spinning.
Arguments Returned {A} a h.
Arguments Thrown {A} e.
Arguments Spinning {A}.

(** Code that may throw or loop. *)
Definition Run (A : Type) : Type := Host -> Outcome A.

Definition return_ {A} (a : A) : Run A := fun h => Returned a h.

Definition throw {A} (e : Exception) : Run A := fun _ => Thrown e.

Definition and_then {A B} (m : Run A) (k : A -> Run B) : Run B :=
  fun h => match m h with
           | Returned a h' => k a h'
           | Thrown e => Thrown e
           | Spinning => Spinning
           end.

Definition lift {A} (m : Rand A) : Run A :=
  fun h => let (a, h') := m h in Returned a h'.

(** Code that may throw but neither loops nor talks to the host. *)
Definition Except (A : Type) : Type := Exception + A.

Definition of_except {A} (r : Except A) : Run A :=
  fun h => match r with
           | inl e => Thrown e
           | inr a => Returned a h
           end.

Declare Scope rand_scope.
Delimit Scope rand_scope with rand.
Notation "'let*' x ':=' m 'in' k" := (bind m (fun x => k))
  (at level 10, x name, m at level 100, k at level 200) : rand_scope.
Notation "'let*' ' p ':=' m 'in' k" := (bind m (fun pat => match pat with p => k end))
  (at level 10, p pattern, m at level 100, k at level 200) : rand_scope.

Declare Scope run_scope.
Delimit Scope run_scope with run.
Notation "'let*' x ':=' m 'in' k" := (and_then m (fun x => k))
  (at level 10, x name, m at level 100, k at level 200) : run_scope.
Notation "'let*' ' p ':=' m 'in' k" := (and_then m (fun pat => match pat with p => k end))
  (at level 10, p pattern, m at level 100, k at level 200) : run_scope.

(** A [for] statement whose body may throw or loop. *)
Fixpoint for_each_run {A S} (l : list A) (body : A -> S -> Run S) (s : S)
  : Run S :=
  match l with
  | [] => return_ s
  | a :: l' => and_then (body a s) (for_each_run l' body)
  end.

Section Host.
Context {rt : Runtime}.

(** [Math.random()] *)
Definition Math_random : Rand Q := fun h =>
  (random_value (randoms_drawn h),
   {| randoms_drawn := S (randoms_drawn h); clock_reads := clock_reads h |}).

(** [Date.now()] *)
Definition Date_now : Rand Z := fun h =>
  (clock_value (clock_reads h),
   {| randoms_drawn := randoms_drawn h; clock_reads := S (clock_reads h) |}).
End Host.

(** [Math.max(a, b)] and [Math.min(a, b)] *)
Definition Math_max (a b : Q) : Q := if Qlt_le_dec a b then b else a.
Definition Math_min (a b : Q) : Q := if Qlt_le_dec b a then b else a.

(** The idiom [Math.max(0, Math.min(1, v))]. *)
Definition clamp01 (v : Q) : Q := Math_max 0 (Math_min 1 v).

(** *** Numbers beyond the finite ones

    A JavaScript number as IEEE 754 arithmetic has it: a finite value, an
    infinity, or not-a-number.  A finite result whose magnitude reaches
    [overflow_threshold] is an infinity; the undefined forms (0 times
    infinity, infinity minus infinity, 0/0, infinity over infinity) are
    not-a-number, which every operation hands on.  Finite values are
    exact: rounding, underflow and the sign of zero are not followed. *)
Inductive Number :=
| Finite (v : Q)
| PosInfinity
| NegInfinity
| NaN.

(** [2^1024 - 2^970], half an ulp above [Number.MAX_VALUE]: an exact result
    of at least this magnitude rounds to an infinity. *)
Definition overflow_threshold : Q :=
  Eval vm_compute in inject_Z (2 ^ 1024 - 2 ^ 970).

(** The number an exact result becomes. *)
Definition number (v : Q) : Number :=
  if Qlt_le_dec v overflow_threshold then
    if Qlt_le_dec (- overflow_threshold) v then Finite v else NegInfinity
  else PosInfinity.

(** [-a] *)
Definition Number_opposite (a : Number) : Number :=
  match a with
  | Finite v => Finite (- v)
  | PosInfinity => NegInfinity
  | NegInfinity => PosInfinity
  | NaN => NaN
  end.

(** [a + b] *)
Definition Number_add (a b : Number) : Number :=
  match a, b with
  | NaN, _ | _, NaN => NaN
  | Finite v, Finite w => number (v + w)
  | PosInfinity, NegInfinity | NegInfinity, PosInfinity => NaN
  | PosInfinity, _ | _, PosInfinity => PosInfinity
  | NegInfinity, _ | _, NegInfinity => NegInfinity
  end.

(** [a - b] *)
Definition Number_sub (a b : Number) : Number :=
  Number_add a (Number_opposite b).

(** An infinity, positive or not, times or over the finite [v]: its sign
    follows the sign of [v], and with [v] zero the result is
    not-a-number. *)
Definition scaled_infinity (positive : bool) (v : Q) : Number :=
  if Qlt_le_dec 0 v then (if positive then PosInfinity else NegInfinity)
  else if Qlt_le_dec v 0 then (if positive then NegInfinity else PosInfinity)
  else NaN.

(** [a * b] *)
Definition Number_mul (a b : Number) : Number :=
  match a, b with
  | NaN, _ | _, NaN => NaN
  | Finite v, Finite w => number (v * w)
  | Finite v, PosInfinity | PosInfinity, Finite v => scaled_infinity true v
  | Finite v, NegInfinity | NegInfinity, Finite v => scaled_infinity false v
  | PosInfinity, PosInfinity | NegInfinity, NegInfinity => PosInfinity
  | PosInfinity, NegInfinity | NegInfinity, PosInfinity => NegInfinity
  end.

(** [a / b].  A zero divisor is taken for [+0]: the one division of the
    engine that is followed here divides by a sum of exponentials. *)
Definition Number_div (a b : Number) : Number :=
  match a, b with
  | NaN, _ | _, NaN => NaN
  | Finite v, Finite w =>
      if Qeq_dec w 0 then scaled_infinity true v else number (v / w)
  | Finite _, (PosInfinity | NegInfinity) => Finite 0
  | PosInfinity, Finite w => if Qlt_le_dec w 0 then NegInfinity else PosInfinity
  | NegInfinity, Finite w => if Qlt_le_dec w 0 then PosInfinity else NegInfinity
  | (PosInfinity | NegInfinity), (PosInfinity | NegInfinity) => NaN
  end.

(** [Math.max(a, b)] *)
Definition Number_max (a b : Number) : Number :=
  match a, b with
  | NaN, _ | _, NaN => NaN
  | PosInfinity, _ | _, PosInfinity => PosInfinity
  | NegInfinity, c | c, NegInfinity => c
  | Finite v, Finite w => Finite (Math_max v w)
  end.

(** [a < b] *)
Definition Number_less (a b : Number) : bool :=
  match a, b with
  | NaN, _ | _, NaN => false
  | Finite v, Finite w => if Qlt_le_dec v w then true else false
  | NegInfinity, (Finite _ | PosInfinity) => true
  | Finite _, PosInfinity => true
  | _, _ => false
  end.

(** [Math.exp(a)] *)
Definition Number_exp {rt : Runtime} (a : Number) : Number :=
  match a with
  | Finite v => number (Math_exp v)
  | PosInfinity => PosInfinity
  | NegInfinity => Finite 0
  | NaN => NaN
  end.

(** [Math.floor(Math.random() * n)] for an integer [n] *)
Definition floor_scaled (r : Q) (n : Z) : Z := Qfloor (r * inject_Z n).

(** [Math.round(v)]: the nearest integer, halves rounded up. *)
Definition Math_round (v : Q) : Z := Qfloor (v + (1 # 2)).

(** A [for] statement whose body updates the loop state. *)
Definition for_each {A S} (l : list A) (body : A -> S -> S) (s : S) : S :=
  fold_left (fun s a => body a s) l s.

(** The same when the body may throw. *)
Fixpoint for_each_except {A S} (l : list A) (body : A -> S -> Except S) (s : S)
  : Except S :=
  match l with
  | [] => inr s
  | a :: l' =>
      match body a s with
      | inl e => inl e
      | inr s' => for_each_except l' body s'
      end
  end.

(** The same when the body draws random numbers. *)
Fixpoint for_each_rand {A S} (l : list A) (body : A -> S -> Rand S) (s : S)
  : Rand S :=
  match l with
  | [] => ret s
  | a :: l' => bind (body a s) (for_each_rand l' body)
  end.

(** [for (let i = 0; i < n; i++)] ranges over these indices. *)
Definition upto (n : Z) : list Z := seqZ 0 n.

(** [for (let d = -1; d <= 1; d++)] *)
Definition around : list Z := [-1; 0; 1]%Z.

(** Arrays indexed by JavaScript numbers. *)
Definition at_index {A} (l : list A) (i : Z) : option A :=
  if (i <? 0)%Z then None else l !! Z.to_nat i.

(** Two-dimensional arrays of numbers.  [cell g x y] is [g[x][y]]; every
    read the engine makes lies inside the grid as long as the grid is
    [gridSize] by [gridSize] (see [WorldPhysics.grid_shaped]); outside,
    where JavaScript would produce [undefined], the model reads 0. *)
Abbreviation Grid := (list (list Q)) (only parsing).

Definition cell (g : Grid) (x y : Z) : Q :=
  match at_index g x with
  | Some row => match at_index row y with
                | Some v => v
                | None => 0%Q
                end
  | None => 0%Q
  end.

(** [g[x][y] = v] for indices inside the grid. *)
Definition set_cell (g : Grid) (x y : Z) (v : Q) : Grid :=
  if (x <? 0)%Z || (y <? 0)%Z then g
  else alter (fun row => <[Z.to_nat y := v]> row) (Z.to_nat x) g.

(** [Array(n).fill().map(() => Array(n).fill(0))] *)
Definition zero_grid (n : Z) : Grid :=
  replicate (Z.to_nat n) (replicate (Z.to_nat n) 0%Q).

End Js.

Import Js.

(** ** WorldPhysics.js *)

Module WorldPhysics.

Inductive CoreState := dormant | incubated | bloomed.

Inductive Phase := emit | collect.

(** An element of [lowerDimension.cores].  [moveAfterTick] is [None] while
    the property is absent from the object. *)
Record Core := {
  x : Z;
  y : Z;
  state : CoreState;
  incubationTime : Z;
  bloomTime : Z;
  temperatureExposure : Z;
  consecutiveHighTemp : Z;
  id : Z;
  moveAfterTick : option Z
}.

(** An element of [lowerDimension.energies]. *)
Record Energy := {
  energy_x : Z;
  energy_y : Z;
  createdAt : Z;
  active : bool;
  coreId : Z
}.

(** The object itself.  [temperature], [catalyserLower], [cores] and
    [energies] are the fields of [lowerDimension]; [catalyserUpper] is
    [upperDimension.catalyser]. *)
Record World := {
  gridSize : Z;
  tick : Z;
  phase : Phase;
  temperature : Grid;
  catalyserLower : Grid;
  cores : list Core;
  energies : list Energy;
  catalyserUpper : Grid
}.

(** The value returned by [getRawPhysicalProperties]. *)
Record RawProperties := {
  field1 : Q;
  field2 : Q;
  field3 : Q;
  field4 : Q;
  field5 : Q;
  confidence : Q
}.

#[global] Instance CoreState_eq_dec : EqDecision CoreState.
Proof. solve_decision. Defined.

#[global] Instance Phase_eq_dec : EqDecision Phase.
Proof. solve_decision. Defined.

(** Assignments to single fields. *)
Definition set_position (nx ny : Z) (c : Core) : Core :=
  {| x := nx; y := ny; state := state c; incubationTime := incubationTime c;
     bloomTime := bloomTime c; temperatureExposure := temperatureExposure c;
     consecutiveHighTemp := consecutiveHighTemp c; id := id c;
     moveAfterTick := moveAfterTick c |}.

Definition set_state (s : CoreState) (c : Core) : Core :=
  {| x := x c; y := y c; state := s; incubationTime := incubationTime c;
     bloomTime := bloomTime c; temperatureExposure := temperatureExposure c;
     consecutiveHighTemp := consecutiveHighTemp c; id := id c;
     moveAfterTick := moveAfterTick c |}.

Definition set_incubationTime (t : Z) (c : Core) : Core :=
  {| x := x c; y := y c; state := state c; incubationTime := t;
     bloomTime := bloomTime c; temperatureExposure := temperatureExposure c;
     consecutiveHighTemp := consecutiveHighTemp c; id := id c;
     moveAfterTick := moveAfterTick c |}.

Definition set_bloomTime (t : Z) (c : Core) : Core :=
  {| x := x c; y := y c; state := state c; incubationTime := incubationTime c;
     bloomTime := t; temperatureExposure := temperatureExposure c;
     consecutiveHighTemp := consecutiveHighTemp c; id := id c;
     moveAfterTick := moveAfterTick c |}.

Definition set_consecutiveHighTemp (k : Z) (c : Core) : Core :=
  {| x := x c; y := y c; state := state c; incubationTime := incubationTime c;
     bloomTime := bloomTime c; temperatureExposure := temperatureExposure c;
     consecutiveHighTemp := k; id := id c;
     moveAfterTick := moveAfterTick c |}.

Definition set_moveAfterTick (m : option Z) (c : Core) : Core :=
  {| x := x c; y := y c; state := state c; incubationTime := incubationTime c;
     bloomTime := bloomTime c; temperatureExposure := temperatureExposure c;
     consecutiveHighTemp := consecutiveHighTemp c; id := id c;
     moveAfterTick := m |}.

Definition set_tick (t : Z) (w : World) : World :=
  {| gridSize := gridSize w; tick := t; phase := phase w;
     temperature := temperature w; catalyserLower := catalyserLower w;
     cores := cores w; energies := energies w;
     catalyserUpper := catalyserUpper w |}.

Definition set_phase (p : Phase) (w : World) : World :=
  {| gridSize := gridSize w; tick := tick w; phase := p;
     temperature := temperature w; catalyserLower := catalyserLower w;
     cores := cores w; energies := energies w;
     catalyserUpper := catalyserUpper w |}.

Definition set_temperature (g : Grid) (w : World) : World :=
  {| gridSize := gridSize w; tick := tick w; phase := phase w;
     temperature := g; catalyserLower := catalyserLower w;
     cores := cores w; energies := energies w;
     catalyserUpper := catalyserUpper w |}.

Definition set_catalyserLower (g : Grid) (w : World) : World :=
  {| gridSize := gridSize w; tick := tick w; phase := phase w;
     temperature := temperature w; catalyserLower := g;
     cores := cores w; energies := energies w;
     catalyserUpper := catalyserUpper w |}.

Definition set_cores (cs : list Core) (w : World) : World :=
  {| gridSize := gridSize w; tick := tick w; phase := phase w;
     temperature := temperature w; catalyserLower := catalyserLower w;
     cores := cs; energies := energies w;
     catalyserUpper := catalyserUpper w |}.

Definition set_energies (es : list Energy) (w : World) : World :=
  {| gridSize := gridSize w; tick := tick w; phase := phase w;
     temperature := temperature w; catalyserLower := catalyserLower w;
     cores := cores w; energies := es;
     catalyserUpper := catalyserUpper w |}.

Definition set_catalyserUpper (g : Grid) (w : World) : World :=
  {| gridSize := gridSize w; tick := tick w; phase := phase w;
     temperature := temperature w; catalyserLower := catalyserLower w;
     cores := cores w; energies := energies w;
     catalyserUpper := g |}.

Section Physics.
Context {rt : Runtime}.
Local Open Scope Q_scope.

(** *** Construction *)

(** One cell of [generateTemperatureField]. *)
Definition generated_temperature (cx cy : Z) (noise : Q) : Q :=
  let temp := 0 in
  let temp := temp + Math_sin (inject_Z cx * 2 * Math_PI / 30) * 0.4 in
  let temp := temp + Math_sin (inject_Z cy * 2 * Math_PI / 45) * 0.2 in
  let temp := temp + Math_sin (inject_Z (cx + cy) * 2 * Math_PI / 25) * 0.15 in
  let temp := temp + (noise - 0.5) * 0.1 in
  clamp01 ((temp + 1) / 2).

Definition generateTemperatureField (n : Z) : Rand Grid :=
  for_each_rand (upto n) (fun cx g =>
    for_each_rand (upto n) (fun cy g =>
      let* r := Math_random in
      ret (set_cell g cx cy (generated_temperature cx cy r))) g)%rand
    (zero_grid n).

(** [Array(n).fill().map(() => Array(n).fill().map(() => Math.random() * 2))] *)
Definition random_catalyser (n : Z) : Rand Grid :=
  for_each_rand (upto n) (fun cx g =>
    for_each_rand (upto n) (fun cy g =>
      let* r := Math_random in
      ret (set_cell g cx cy (r * 2))) g)%rand
    (zero_grid n).

Definition numCores : Z := 50.

Definition initializeCores (n : Z) : Rand (list Core) :=
  for_each_rand (upto numCores) (fun i cs =>
    let* rx := Math_random in
    let* ry := Math_random in
    ret (cs ++ [ {| x := floor_scaled rx n; y := floor_scaled ry n;
                    state := dormant; incubationTime := 0;
                    bloomTime := 0; temperatureExposure := 0;
                    consecutiveHighTemp := 0; id := i;
                    moveAfterTick := None |} ]))%rand
    [].

(** [new WorldPhysics(gridSize)] *)
Definition constructor (n : Z) : Rand World :=
  (let* t := generateTemperatureField n in
   let* up := random_catalyser n in
   let* cs := initializeCores n in
   ret {| gridSize := n; tick := 0; phase := emit;
          temperature := t; catalyserLower := zero_grid n;
          cores := cs; energies := []; catalyserUpper := up |})%rand.

(** [reset()] *)
Definition reset (w : World) : Rand World :=
  let n := gridSize w in
  (let* t := generateTemperatureField n in
   let* up := random_catalyser n in
   let* cs := initializeCores n in
   ret {| gridSize := n; tick := 0; phase := emit;
          temperature := t; catalyserLower := zero_grid n;
          cores := cs; energies := []; catalyserUpper := up |})%rand.

(** *** Temperature *)

(** First loop of [shiftTemperature]: the field moves one cell along x. *)
Definition shifted (n : Z) (old : Grid) : Grid :=
  for_each (upto n) (fun cx g =>
    for_each (upto n) (fun cy g =>
      let newX := Z.rem (cx + 1) n in
      set_cell g newX cy (cell old cx cy)) g)
    (zero_grid n).

(** The sum and the number of the eight neighbours of a cell. *)
Definition neighbours8 (n : Z) (g : Grid) (cx cy : Z) : Q * Z :=
  for_each around (fun dx acc =>
    for_each around (fun dy acc =>
      if (dx =? 0)%Z && (dy =? 0)%Z then acc
      else
        let nx := Z.rem (cx + dx + n) n in
        let ny := Z.rem (cy + dy + n) n in
        (fst acc + cell g nx ny, (snd acc + 1)%Z)) acc)
    (0, 0%Z).

Definition diffusionStrength : Q := 0.1.

(** Body of the second loop of [shiftTemperature]; the array is updated
    in place, so cells already visited are read with their new value. *)
Definition diffuse_cell (n : Z) (cx cy : Z) (g : Grid) : Rand Grid :=
  let diffusedTemp := cell g cx cy in
  let '(neighborSum, neighborCount) := neighbours8 n g cx cy in
  let diffusedTemp :=
    if (0 <? neighborCount)%Z then
      let avgNeighbor := neighborSum / inject_Z neighborCount in
      cell g cx cy * (1 - diffusionStrength) + avgNeighbor * diffusionStrength
    else diffusedTemp in
  (let* r := Math_random in
   let diffusedTemp := diffusedTemp + (r - 0.5) * 0.02 in
   ret (set_cell g cx cy (clamp01 diffusedTemp)))%rand.

Definition shiftTemperature (w : World) : Rand World :=
  let n := gridSize w in
  (let* g := for_each_rand (upto n) (fun cx g =>
               for_each_rand (upto n) (fun cy g => diffuse_cell n cx cy g) g)
               (shifted n (temperature w)) in
   ret (set_temperature g w))%rand.

(** *** Catalyser exchange *)

Definition emitPhase (w : World) : World :=
  let n := gridSize w in
  let '(lo, up) :=
    for_each (upto n) (fun cx st =>
      for_each (upto n) (fun cy st =>
        let '(lo, up) := st in
        let lo := set_cell lo cx cy (cell lo cx cy + cell up cx cy) in
        let up := set_cell up cx cy (cell up cx cy * 0.8) in
        (lo, up)) st)
      (catalyserLower w, catalyserUpper w) in
  set_catalyserUpper up (set_catalyserLower lo w).

(** The in-grid cells of the 3 by 3 block around a cell, with their upper
    densities, in the order the source pushes them. *)
Definition block_densities (n : Z) (up : Grid) (cx cy : Z)
  : list (Z * Z * Q) :=
  for_each around (fun dx acc =>
    for_each around (fun dy acc =>
      let nx := (cx + dx)%Z in
      let ny := (cy + dy)%Z in
      if (0 <=? nx)%Z && (nx <? n)%Z && (0 <=? ny)%Z && (ny <? n)%Z
      then acc ++ [(nx, ny, cell up nx ny)]
      else acc) acc)
    [].

Definition total_density (neighbors : list (Z * Z * Q)) : Q :=
  for_each neighbors (fun nb acc => acc + snd nb) 0.

(** Body of the first loop of [collectPhase]; the state is
    [newCatalyser] and [lowerDimension.catalyser]. *)
Definition collect_cell (n : Z) (up : Grid) (cx cy : Z) (st : Grid * Grid)
  : Grid * Grid :=
  let '(newCatalyser, lo) := st in
  let currentCatalyser := cell lo cx cy in
  if Qlt_le_dec 0 currentCatalyser then
    let neighbors := block_densities n up cx cy in
    let totalDensity := total_density neighbors in
    let newCatalyser :=
      if Qlt_le_dec 0 totalDensity then
        for_each neighbors (fun nb g =>
          let '(nx, ny, density) := nb in
          let proportion := density / totalDensity in
          set_cell g nx ny (cell g nx ny + currentCatalyser * proportion))
          newCatalyser
      else newCatalyser in
    (newCatalyser, set_cell lo cx cy 0)
  else (newCatalyser, lo).

Definition collectPhase (w : World) : World :=
  let n := gridSize w in
  let '(newCatalyser, lo) :=
    for_each (upto n) (fun cx st =>
      for_each (upto n) (fun cy st =>
        collect_cell n (catalyserUpper w) cx cy st) st)
      (zero_grid n, catalyserLower w) in
  let up :=
    for_each (upto n) (fun cx up =>
      for_each (upto n) (fun cy up =>
        let up := set_cell up cx cy (cell up cx cy + cell newCatalyser cx cy) in
        set_cell up cx cy (Math_min 2 (cell up cx cy))) up)
      (catalyserUpper w) in
  set_catalyserUpper up (set_catalyserLower lo w).

(** *** Cores *)

Definition moves : list (Z * Z) :=
  [(-1, -1); (0, -1); (1, -1);
   (-1, 0);           (1, 0);
   (-1, 1);  (0, 1);  (1, 1)]%Z.

(** [moveCore(core)].  The index is below [moves.length] because
    [Math.random()] is below 1. *)
Definition moveCore (n : Z) (c : Core) : Rand Core :=
  (let* r := Math_random in
   let move := nth (Z.to_nat (floor_scaled r 8)) moves (0, 0)%Z in
   let nx := Z.rem (x c + fst move + n) n in
   let ny := Z.rem (y c + snd move + n) n in
   ret (set_position nx ny c))%rand.

(** [if (core.moveAfterTick && this.tick >= core.moveAfterTick)], with
    the truthiness test of JavaScript on the stored number. *)
Definition move_is_due (now : Z) (c : Core) : bool :=
  match moveAfterTick c with
  | Some t => negb (t =? 0)%Z && (t <=? now)%Z
  | None => false
  end.

Definition delayed_move (n now : Z) (c : Core) : Rand Core :=
  if move_is_due now c then
    (let* c := moveCore n c in
     ret (set_moveAfterTick None c))%rand
  else ret c.

(** First state transition: [dormant] to [incubated]. *)
Definition incubate (now : Z) (catalyserAmount : Q) (c : Core) : Core :=
  if decide (state c = dormant) then
    if Qlt_le_dec 0.2 catalyserAmount then
      set_consecutiveHighTemp 0
        (set_incubationTime now (set_state incubated c))
    else c
  else c.

(** Second block: counting warm updates while [incubated], and blooming.
    The second component is the energy manifestation pushed, if any. *)
Definition warm (now : Z) (temp : Q) (c : Core) : Core * option Energy :=
  if decide (state c = incubated) then
    if Qlt_le_dec 0.2 temp then
      let c := set_consecutiveHighTemp (consecutiveHighTemp c + 1) c in
      if (5 <=? consecutiveHighTemp c)%Z then
        let c := set_bloomTime now (set_state bloomed c) in
        (c, Some {| energy_x := x c; energy_y := y c; createdAt := now;
                    active := true; coreId := id c |})
      else (c, None)
    else (set_consecutiveHighTemp 0 c, None)
  else (c, None).

(** [if (core.state === 'bloomed' && this.tick - core.bloomTime >= 5)] *)
Definition bloom_is_over (now : Z) (c : Core) : bool :=
  bool_decide (state c = bloomed) && (5 <=? now - bloomTime c)%Z.

(** Body of the [forEach] of [updateCores].  The loop reads and writes
    the tick, the grids and the energies of the world, never its list of
    cores, which is rebuilt from the results. *)
Definition updateCore (c : Core) (w : World) : Rand (Core * World) :=
  (let* c := delayed_move (gridSize w) (tick w) c in
   let catalyserAmount := cell (catalyserLower w) (x c) (y c) in
   let temp := cell (temperature w) (x c) (y c) in
   let c := incubate (tick w) catalyserAmount c in
   let '(c, pushed) := warm (tick w) temp c in
   let w := match pushed with
            | Some e => set_energies (energies w ++ [e]) w
            | None => w
            end in
   if bloom_is_over (tick w) c then
     let c := set_consecutiveHighTemp 0 (set_state dormant c) in
     let w := set_catalyserLower
                (set_cell (catalyserLower w) (x c) (y c)
                   (cell (catalyserLower w) (x c) (y c) + 0.1)) w in
     let* c := moveCore (gridSize w) c in
     ret (c, w)
   else ret (c, w))%rand.

Fixpoint updateCores_loop (cs : list Core) (w : World)
  : Rand (list Core * World) :=
  match cs with
  | [] => ret ([], w)
  | c :: rest =>
      (let* '(c', w) := updateCore c w in
       let* '(rest', w) := updateCores_loop rest w in
       ret (c' :: rest', w))%rand
  end.

(** The filter that drops energies five ticks after their creation. *)
Definition still_fresh (now : Z) (e : Energy) : bool :=
  negb (5 <=? now - createdAt e)%Z.

Definition updateCores (w : World) : Rand World :=
  (let* '(cs, w) := updateCores_loop (cores w) w in
   let w := set_cores cs w in
   ret (set_energies (List.filter (still_fresh (tick w)) (energies w)) w))%rand.

(** [scheduleCoreMovement(coreId, delay)] *)
Definition scheduleCoreMovement (coreId : Z) (delay : Z) (w : World) : World :=
  match list_find (fun c => id c = coreId) (cores w) with
  | Some (k, _) =>
      set_cores (alter (set_moveAfterTick (Some (tick w + delay)%Z)) k (cores w)) w
  | None => w
  end.

(** *** Sensing and feeding *)

Definition coreValue (c : option Core) : Q :=
  match c with
  | None => 0
  | Some c => match state c with
              | dormant => 0.3
              | incubated => 0.6
              | bloomed => 0.9
              end
  end.

(** Sum and number of the in-grid neighbours' temperature plus catalyser. *)
Definition neighbour_influence (w : World) (px py : Z) : Q * Z :=
  let n := gridSize w in
  for_each around (fun dx acc =>
    for_each around (fun dy acc =>
      if (dx =? 0)%Z && (dy =? 0)%Z then acc
      else
        let nx := (px + dx)%Z in
        let ny := (py + dy)%Z in
        if (0 <=? nx)%Z && (nx <? n)%Z && (0 <=? ny)%Z && (ny <? n)%Z
        then (fst acc + (cell (temperature w) nx ny + cell (catalyserLower w) nx ny),
              (snd acc + 1)%Z)
        else acc) acc)
    (0, 0%Z).

Definition baseConfidence (distance : Z) : Q :=
  if (distance =? 0)%Z then 1.0
  else if (distance =? 1)%Z then 0.9
  else if (distance =? 2)%Z then 0.7
  else if (distance =? 3)%Z then 0.5
  else if (distance =? 4)%Z then 0.3
  else 0.1.

Definition out_of_bounds (w : World) (px py : Z) : bool :=
  (px <? 0)%Z || (gridSize w <=? px)%Z || (py <? 0)%Z || (gridSize w <=? py)%Z.

(** [getRawPhysicalProperties(x, y, distance, observerEnergy)] *)
Definition getRawPhysicalProperties (w : World) (px py : Z) (distance : Z)
    (observerEnergy : Q) : Rand RawProperties :=
  if out_of_bounds w px py then
    ret {| field1 := 0; field2 := 0; field3 := 0; field4 := 0; field5 := 0;
           confidence := 0 |}
  else
    let temp := cell (temperature w) px py in
    let catalyser := cell (catalyserLower w) px py in
    let core := List.find (fun c => (x c =? px)%Z && (y c =? py)%Z) (cores w) in
    let hasEnergy :=
      existsb (fun e => (energy_x e =? px)%Z && (energy_y e =? py)%Z && active e)
              (energies w) in
    let coreValue := coreValue core in
    let energyValue := if hasEnergy then 1.0 else 0 in
    let now := inject_Z (tick w) in
    let f1 := (temp * 0.7 + catalyser * 0.3) * (1 + Math_sin (now * 0.1) * 0.1) in
    let f2 := (coreValue * 0.6 + temp * catalyser * 0.4) + Math_cos (now * 0.05) * 0.1 in
    let f3 := temp * catalyser * (1 + coreValue) + energyValue * 0.8 in
    let f3 := f3 + Math_sin (inject_Z (px + py + tick w) * 0.1) * 0.1 in
    let f4 := temp * 0.5 + catalyser * 0.3 + coreValue * 0.2 in
    let f5 := 0 in
    let '(neighborInfluence, neighborCount) := neighbour_influence w px py in
    let f4 := if (0 <? neighborCount)%Z
              then f4 + (neighborInfluence / inject_Z neighborCount) * 0.2
              else f4 in
    let energyMultiplier := Math_max 0.1 (Math_min 1.0 (observerEnergy / 100.0)) in
    let finalConfidence := baseConfidence distance * energyMultiplier in
    let noiseLevel := 1 - finalConfidence in
    (let* '(f1, f2, f3, f4, f5) :=
       if (0 <? distance)%Z || (if Qlt_le_dec observerEnergy 100 then true else false)
       then
         let energyNoise := (1 - energyMultiplier) * 0.3 in
         let totalNoise := noiseLevel * 0.2 + energyNoise in
         let* r1 := Math_random in
         let* r2 := Math_random in
         let* r3 := Math_random in
         let* r4 := Math_random in
         let* r5 := Math_random in
         ret (f1 + (r1 - 0.5) * totalNoise,
              f2 + (r2 - 0.5) * totalNoise,
              f3 + (r3 - 0.5) * totalNoise,
              f4 + (r4 - 0.5) * totalNoise,
              f5 + (r5 - 0.5) * totalNoise)
       else ret (f1, f2, f3, f4, f5) in
     ret {| field1 := clamp01 f1; field2 := clamp01 f2; field3 := clamp01 f3;
            field4 := clamp01 f4; field5 := clamp01 f5;
            confidence := finalConfidence |})%rand.

(** The predicate of the [findIndex] of [consumeEnergy]. *)
Definition edible (px py : Z) (e : Energy) : Prop :=
  energy_x e = px /\ energy_y e = py /\ active e = true.

#[global] Instance edible_dec px py e : Decision (edible px py e).
Proof. unfold edible. apply _. Defined.

(** [consumeEnergy(x, y)]: the energy value gained and the world after. *)
Definition consumeEnergy (px py : Z) (w : World) : Z * World :=
  match list_find (edible px py) (energies w) with
  | Some (energyIndex, energy) =>
      let w := scheduleCoreMovement (coreId energy) 3 w in
      let w := set_energies (delete energyIndex (energies w)) w in
      (10%Z, w)
  | None => (0%Z, w)
  end.

(** The [if (this.phase === 'emit') ... else ...] of [step]. *)
Definition exchange (w : World) : World :=
  match phase w with
  | emit => set_phase collect (emitPhase w)
  | collect =>
      let w := set_phase emit (collectPhase w) in
      set_tick (tick w + 1)%Z w
  end.

(** [step()] *)
Definition step (w : World) : Rand World :=
  (let* w := shiftTemperature w in
   updateCores (exchange w))%rand.

(** *** Summary *)

(** The value of [getWorldState()]. *)
Record WorldState := {
  ws_tick : Z;
  ws_phase : Phase;
  ws_cores : nat;
  ws_energies : nat;
  activeEnergies : nat;
  dormantCores : nat;
  incubatedCores : nat;
  bloomedCores : nat
}.

(** [cores.filter(c => c.state === s).length] *)
Definition count_state (s : CoreState) (cs : list Core) : nat :=
  length (List.filter (fun c => bool_decide (state c = s)) cs).

(** [getWorldState()] *)
Definition getWorldState (w : World) : WorldState :=
  {| ws_tick := tick w;
     ws_phase := phase w;
     ws_cores := length (cores w);
     ws_energies := length (energies w);
     activeEnergies := length (List.filter active (energies w));
     dormantCores := count_state dormant (cores w);
     incubatedCores := count_state incubated (cores w);
     bloomedCores := count_state bloomed (cores w) |}.

End Physics.

End WorldPhysics.

(** ** NeuralNetwork.js *)

Module NeuralNetwork.

(** A layer object [{weights, biases}]: [weights] has one row per neuron. *)
Record Layer := {
  weights : list (list Q);
  biases : list Q
}.

(** A [NeuralNetwork] object.  The two cache fields belong to the
    Box-Muller generator of the object. *)
Record Network := {
  layers : list Layer;
  hasSpareGaussian : bool;
  spareGaussian : Q
}.

(** An element of [getArchitecture().structure]. *)
Record LayerInfo := {
  neurons : nat;
  inputs : nat;
  info_weights : nat;
  info_biases : nat;
  parameters : nat
}.

(** The value of [getArchitecture()]. *)
Record Architecture := {
  arch_layers : nat;
  structure : list LayerInfo;
  totalParameters : nat
}.

(** The value of [serialize()], and the argument of [deserialize]: a field
    that is missing (or [null]) is [None]. *)
Record Serialized := {
  data_layers : option (list Layer);
  data_architecture : option Architecture;
  version : string;
  serializedAt : Z
}.

Definition set_layers (ls : list Layer) (net : Network) : Network :=
  {| layers := ls; hasSpareGaussian := hasSpareGaussian net;
     spareGaussian := spareGaussian net |}.

Definition set_cache (b : bool) (z : Q) (net : Network) : Network :=
  {| layers := layers net; hasSpareGaussian := b; spareGaussian := z |}.

Section Network.
Context {rt : Runtime}.
Local Open Scope Q_scope.

(** *** Random initialisation *)

(** [let u = 0; while (u === 0) u = Math.random();] followed for at most
    [fuel] rounds. *)
Fixpoint draw_nonzero (fuel : nat) : Run Q :=
  match fuel with
  | O => fun _ => Spinning
  | S fuel' =>
      (let* u := lift Math_random in
       if Qeq_bool u 0 then draw_nonzero fuel' else return_ u)%run
  end.

(** [gaussianRandom()]: the value and the object with its cache updated. *)
Definition gaussianRandom (this : Network) : Run (Q * Network) :=
  if hasSpareGaussian this then
    return_ (spareGaussian this, set_cache false (spareGaussian this) this)
  else
    (let* u := draw_nonzero spin_limit in
     let* v := draw_nonzero spin_limit in
     let z0 := Math_sqrt (-2.0 * Math_log u) * Math_cos (2 * Math_PI * v) in
     let z1 := Math_sqrt (-2.0 * Math_log u) * Math_sin (2 * Math_PI * v) in
     return_ (z0, set_cache true z1 this))%run.

(** [Array(size).fill().map(() => this.gaussianRandom() * std)] *)
Fixpoint randomArray (size : nat) (std : Q) (this : Network)
  : Run (list Q * Network) :=
  match size with
  | O => return_ ([], this)
  | S size' =>
      (let* '(z, this) := gaussianRandom this in
       let* '(rest, this) := randomArray size' std this in
       return_ (z * std :: rest, this))%run
  end.

Fixpoint randomMatrix (rows cols : nat) (std : Q) (this : Network)
  : Run (list (list Q) * Network) :=
  match rows with
  | O => return_ ([], this)
  | S rows' =>
      (let* '(row, this) := randomArray cols std this in
       let* '(rest, this) := randomMatrix rows' cols std this in
       return_ (row :: rest, this))%run
  end.

(** The loop of the constructor over [sizes[i-1]], [sizes[i]]. *)
Fixpoint initial_layers (previous : nat) (sizes : list nat) (this : Network)
  : Run Network :=
  match sizes with
  | [] => return_ this
  | size :: sizes' =>
      (let* '(w, this) := randomMatrix size previous 0.1 this in
       let* '(b, this) := randomArray size 0.1 this in
       let this := set_layers (layers this ++ [ {| weights := w; biases := b |} ]) this in
       initial_layers size sizes' this)%run
  end.

(** [new NeuralNetwork(inputSize, hiddenSizes, outputSize)].  The cache
    fields do not exist yet while the layers are drawn, which reads as
    no spare value; they are initialised last. *)
Definition constructor (inputSize : nat) (hiddenSizes : list nat)
    (outputSize : nat) : Run Network :=
  let this := {| layers := []; hasSpareGaussian := false; spareGaussian := 0 |} in
  (let* this := initial_layers inputSize (hiddenSizes ++ [outputSize]) this in
   return_ (set_cache false 0 this))%run.

(** *** Forward pass *)

(** [let sum = b; for (k < activation.length) sum += row[k] * activation[k]].
    A missing [row[k]] is [undefined], and [undefined * activation[k]] is
    not-a-number. *)
Fixpoint weighted_sum (sum : Number) (row : list Q) (activation : list Number)
    {struct activation} : Number :=
  match activation with
  | [] => sum
  | a :: activation' =>
      match row with
      | [] => weighted_sum (Number_add sum NaN) [] activation'
      | w :: row' =>
          weighted_sum (Number_add sum (Number_mul (Finite w) a)) row' activation'
      end
  end.

(** The loop over the neurons [j] of one layer.  A missing [biases[j]] is
    [undefined], which counts as not-a-number in every use made of it: in
    the sum, in [Math.max(0, sum)] and, for the output layer, in the
    softmax. *)
Fixpoint neurons_out (is_output : bool) (rows : list (list Q)) (bs : list Q)
    (activation : list Number) : list Number :=
  match rows with
  | [] => []
  | row :: rows' =>
      let bias := match bs with
                  | [] => NaN
                  | b :: _ => Finite b
                  end in
      let sum := weighted_sum bias row activation in
      (if is_output then sum else Number_max (Finite 0) sum)
        :: neurons_out is_output rows' (List.tl bs) activation
  end.

(** The loop over the layers: the activation of the last one. *)
Fixpoint forward_layers (ls : list Layer) (activation : list Number)
  : list Number :=
  match ls with
  | [] => activation
  | l :: ls' =>
      forward_layers ls'
        (neurons_out (match ls' with [] => true | _ => false end)
           (weights l) (biases l) activation)
  end.

(** [Math.max(...arr)]: minus infinity for no argument. *)
Definition maximum (arr : list Number) : Number :=
  for_each arr (fun v m => Number_max m v) NegInfinity.

(** [exps.reduce((a, b) => a + b, 0)] *)
Definition sum_numbers (l : list Number) : Number :=
  for_each l (fun b a => Number_add a b) (Finite 0).

(** [softmax(arr)] *)
Definition softmax (arr : list Number) : list Number :=
  let max := maximum arr in
  let exps := map (fun x => Number_exp (Number_sub x max)) arr in
  let sumExps := sum_numbers exps in
  map (fun x => Number_div x sumExps) exps.

(** [forward(input)], for an input of finite numbers. *)
Definition forward (this : Network) (input : list Q) : list Number :=
  softmax (forward_layers (layers this) (map Finite input)).

(** The exact sum of finite numbers, in the order of [reduce]. *)
Definition sum_list (l : list Q) : Q :=
  for_each l (fun b a => a + b) 0.

(** *** Mutation, cloning, learning *)

(** [Math.random() < mutationRate ? w + this.gaussianRandom() * mutationStrength : w] *)
Definition mutate_value (mutationRate mutationStrength : Q) (w : Q)
    (this : Network) : Run (Q * Network) :=
  (let* r := lift Math_random in
   if Qlt_le_dec r mutationRate then
     let* '(z, this) := gaussianRandom this in
     return_ (w + z * mutationStrength, this)
   else return_ (w, this))%run.

(** [arr.map(f)] for an [f] that changes [this]. *)
Fixpoint map_run {A B S} (f : A -> S -> Run (B * S)) (l : list A) (s : S)
  : Run (list B * S) :=
  match l with
  | [] => return_ ([], s)
  | a :: l' =>
      (let* '(b, s) := f a s in
       let* '(bs, s) := map_run f l' s in
       return_ (b :: bs, s))%run
  end.

Definition mutate_layer (mutationRate mutationStrength : Q) (layer : Layer)
    (this : Network) : Run (Layer * Network) :=
  (let* '(w, this) :=
     map_run (map_run (mutate_value mutationRate mutationStrength))
             (weights layer) this in
   let* '(b, this) :=
     map_run (mutate_value mutationRate mutationStrength) (biases layer) this in
   return_ ({| weights := w; biases := b |}, this))%run.

(** [mutate(mutationRate, mutationStrength)]: the new network, and [this],
    whose generator cache has been used. *)
Definition mutate (mutationRate mutationStrength : Q) (this : Network)
  : Run (Network * Network) :=
  (let* newNetwork := constructor 1 [1%nat] 1 in
   let* '(ls, this) :=
     map_run (mutate_layer mutationRate mutationStrength) (layers this) this in
   return_ (set_layers ls newNetwork, this))%run.

(** [clone()] *)
Definition clone (this : Network) : Run Network :=
  (let* newNetwork := constructor 1 [1%nat] 1 in
   let ls := map (fun layer =>
               {| weights := map (fun row => row) (weights layer);
                  biases := biases layer |}) (layers this) in
   return_ (set_layers ls newNetwork))%run.

(** The loop [weights[actionIndex][i] += learningRate * reward * input[i]].
    [input[i]] exists whenever the input is at least as long as the row;
    the model reads 0 beyond it. *)
Definition nudged_row (learningRate reward : Q) (input row : list Q) : list Q :=
  imap (fun i w => w + learningRate * reward * nth i input 0) row.

(** [applyREINFORCE(input, actionIndex, reward, learningRate)].  Reading
    a missing output layer or a missing row throws. *)
Definition applyREINFORCE (input : list Q) (actionIndex : nat) (reward : Q)
    (learningRate : Q) (this : Network) : Except Network :=
  if Qlt_le_dec (Qabs reward) 0.01 then inr this
  else
    match last (layers this) with
    | None => inl TypeError
    | Some outputLayer =>
        match weights outputLayer !! actionIndex with
        | None => inl TypeError
        | Some row =>
            let w := <[actionIndex := nudged_row learningRate reward input row]>
                       (weights outputLayer) in
            let b := alter (fun b => b + learningRate * reward) actionIndex
                       (biases outputLayer) in
            inr (set_layers
                   (<[Nat.pred (length (layers this)) :=
                        {| weights := w; biases := b |}]> (layers this))
                   this)
        end
    end.

(** *** Serialisation *)

Definition layer_info (layer : Layer) : Except LayerInfo :=
  match weights layer with
  | [] => inl TypeError
  | row0 :: _ =>
      let neurons := length (weights layer) in
      let inputs := length row0 in
      let w := (neurons * inputs)%nat in
      let b := length (biases layer) in
      inr {| neurons := neurons; inputs := inputs; info_weights := w;
             info_biases := b; parameters := (w + b)%nat |}
  end.

Fixpoint architecture_loop (ls : list Layer) (acc : Architecture)
  : Except Architecture :=
  match ls with
  | [] => inr acc
  | layer :: ls' =>
      match layer_info layer with
      | inl e => inl e
      | inr layerInfo =>
          architecture_loop ls'
            {| arch_layers := arch_layers acc;
               structure := structure acc ++ [layerInfo];
               totalParameters := (totalParameters acc + parameters layerInfo)%nat |}
      end
  end.

(** [getArchitecture()] *)
Definition getArchitecture (this : Network) : Except Architecture :=
  architecture_loop (layers this)
    {| arch_layers := length (layers this); structure := [];
       totalParameters := 0 |}.

(** [serialize()] *)
Definition serialize (this : Network) : Run Serialized :=
  (let ls := map (fun layer => {| weights := weights layer; biases := biases layer |})
                 (layers this) in
   let* architecture := of_except (getArchitecture this) in
   let* now := lift Date_now in
   return_ {| data_layers := Some ls; data_architecture := Some architecture;
              version := "1.0"; serializedAt := now |})%run.

(** The [forEach] of [deserialize]: entry [index] of the data replaces
    layer [index] of the network when the network has such a layer. *)
Definition overwrite_layers (data : list Layer) (own : list Layer) : list Layer :=
  for_each (imap (fun index layerData => (index, layerData)) data)
    (fun '(index, layerData) own =>
       if (index <? length own)%nat
       then <[index := {| weights := map (fun row => row) (weights layerData);
                          biases := biases layerData |}]> own
       else own)
    own.

(** [NeuralNetwork.deserialize(data)] *)
Definition deserialize (data : Serialized) : Run Network :=
  match data_layers data, data_architecture data with
  | Some dataLayers, Some architecture =>
      let structure := structure architecture in
      match structure with
      | [] => throw TypeError
      | first :: _ =>
          let inputSize := inputs first in
          let hiddenSizes := map neurons (removelast structure) in
          let outputSize := neurons (List.last structure first) in
          (let* network := constructor inputSize hiddenSizes outputSize in
           return_ (set_layers (overwrite_layers dataLayers (layers network))
                               network))%run
      end
  | _, _ => throw (Error "Invalid serialized network data")
  end.

(** *** Comparing networks *)

(** [totalDifference += Math.abs(a - b); totalParameters++], where [b] is
    an entry of the other network that may be missing; a [totalDifference]
    of [None] is not-a-number, which is what a missing entry makes of it
    for good. *)
Definition add_difference (a : Q) (b : option Q) (acc : option Q * nat)
  : option Q * nat :=
  (match fst acc, b with
   | Some total, Some b => Some (total + Qabs (a - b))
   | _, _ => None
   end, S (snd acc)).

(** The loops over the entries [k] of a row, or [j] of the biases. *)
Definition compare_values (mine theirs : list Q) (acc : option Q * nat)
  : option Q * nat :=
  for_each (imap (fun k a => (k, a)) mine)
    (fun '(k, a) acc => add_difference a (theirs !! k) acc) acc.

(** The loop over the rows [j] of a layer.  The row of the other network
    is read inside the loop over [k], so that a missing row throws only
    when the row of this network has an entry. *)
Definition compare_rows (mine theirs : list (list Q)) (acc : option Q * nat)
  : Except (option Q * nat) :=
  for_each_except (imap (fun j row => (j, row)) mine)
    (fun '(j, row) acc =>
       match row with
       | [] => inr acc
       | _ :: _ =>
           match theirs !! j with
           | None => inl TypeError
           | Some otherRow => inr (compare_values row otherRow acc)
           end
       end) acc.

(** [calculateSimilarity(other)]; the number returned is [None] when it is
    not-a-number. *)
Definition calculateSimilarity (this other : Network) : Except (option Q) :=
  if negb (length (layers this) =? length (layers other))%nat then inr (Some 0)
  else
    match for_each_except (combine (layers this) (layers other))
            (fun '(thisLayer, otherLayer) acc =>
               match compare_rows (weights thisLayer) (weights otherLayer) acc with
               | inl e => inl e
               | inr acc =>
                   inr (compare_values (biases thisLayer) (biases otherLayer) acc)
               end) (Some 0, 0%nat) with
    | inl e => inl e
    | inr (totalDifference, totalParameters) =>
        match totalDifference, totalParameters with
        | Some total, S _ =>
            let averageDifference := total / inject_Z (Z.of_nat totalParameters) in
            inr (Some (Math_max 0 (1 - averageDifference)))
        | _, _ => inr None
        end
    end.

End Network.

End NeuralNetwork.

(** ** ConsciousEntity.js *)

Module ConsciousEntity.

Import WorldPhysics.

(** An element of [vision]: the offsets, the distance and the properties
    spread into the object. *)
Record VisionPoint := {
  relativeX : Z;
  relativeY : Z;
  distance : Z;
  seen : RawProperties
}.

(** An element of [memory]. *)
Record Memory := {
  mem_tick : Z;
  mem_x : Z;
  mem_y : Z;
  mem_fields : RawProperties;
  mem_energy : Q;
  mem_action : string;
  mem_outcome : string;
  mem_age : Z
}.

(** An element of [recentOutcomes]. *)
Record Feedback := {
  fb_action : nat;
  reward : Q;
  fb_tick : Z
}.

(** A [ConsciousEntity] object. *)
Record Entity := {
  x : Z;
  y : Z;
  gridSize : Z;
  energy : Q;
  age : Z;
  totalEnergyGained : Z;
  fitness : Z;
  brain : NeuralNetwork.Network;
  vision : list VisionPoint;
  memory : list Memory;
  memoryCapacity : nat;
  recentOutcomes : list Feedback;
  lastTotalEnergy : Z;
  lastAction : string;
  lastActionIndex : nat;
  id : string
}.

Definition set_xy (nx ny : Z) (e : Entity) : Entity :=
  {| x := nx; y := ny; gridSize := gridSize e; energy := energy e; age := age e;
     totalEnergyGained := totalEnergyGained e; fitness := fitness e;
     brain := brain e; vision := vision e; memory := memory e;
     memoryCapacity := memoryCapacity e; recentOutcomes := recentOutcomes e;
     lastTotalEnergy := lastTotalEnergy e; lastAction := lastAction e;
     lastActionIndex := lastActionIndex e; id := id e |}.

Definition set_energy (v : Q) (e : Entity) : Entity :=
  {| x := x e; y := y e; gridSize := gridSize e; energy := v; age := age e;
     totalEnergyGained := totalEnergyGained e; fitness := fitness e;
     brain := brain e; vision := vision e; memory := memory e;
     memoryCapacity := memoryCapacity e; recentOutcomes := recentOutcomes e;
     lastTotalEnergy := lastTotalEnergy e; lastAction := lastAction e;
     lastActionIndex := lastActionIndex e; id := id e |}.

Definition set_age (v : Z) (e : Entity) : Entity :=
  {| x := x e; y := y e; gridSize := gridSize e; energy := energy e; age := v;
     totalEnergyGained := totalEnergyGained e; fitness := fitness e;
     brain := brain e; vision := vision e; memory := memory e;
     memoryCapacity := memoryCapacity e; recentOutcomes := recentOutcomes e;
     lastTotalEnergy := lastTotalEnergy e; lastAction := lastAction e;
     lastActionIndex := lastActionIndex e; id := id e |}.

Definition set_totalEnergyGained (v : Z) (e : Entity) : Entity :=
  {| x := x e; y := y e; gridSize := gridSize e; energy := energy e; age := age e;
     totalEnergyGained := v; fitness := fitness e;
     brain := brain e; vision := vision e; memory := memory e;
     memoryCapacity := memoryCapacity e; recentOutcomes := recentOutcomes e;
     lastTotalEnergy := lastTotalEnergy e; lastAction := lastAction e;
     lastActionIndex := lastActionIndex e; id := id e |}.

Definition set_fitness (v : Z) (e : Entity) : Entity :=
  {| x := x e; y := y e; gridSize := gridSize e; energy := energy e; age := age e;
     totalEnergyGained := totalEnergyGained e; fitness := v;
     brain := brain e; vision := vision e; memory := memory e;
     memoryCapacity := memoryCapacity e; recentOutcomes := recentOutcomes e;
     lastTotalEnergy := lastTotalEnergy e; lastAction := lastAction e;
     lastActionIndex := lastActionIndex e; id := id e |}.

Definition set_brain (v : NeuralNetwork.Network) (e : Entity) : Entity :=
  {| x := x e; y := y e; gridSize := gridSize e; energy := energy e; age := age e;
     totalEnergyGained := totalEnergyGained e; fitness := fitness e;
     brain := v; vision := vision e; memory := memory e;
     memoryCapacity := memoryCapacity e; recentOutcomes := recentOutcomes e;
     lastTotalEnergy := lastTotalEnergy e; lastAction := lastAction e;
     lastActionIndex := lastActionIndex e; id := id e |}.

Definition set_vision (v : list VisionPoint) (e : Entity) : Entity :=
  {| x := x e; y := y e; gridSize := gridSize e; energy := energy e; age := age e;
     totalEnergyGained := totalEnergyGained e; fitness := fitness e;
     brain := brain e; vision := v; memory := memory e;
     memoryCapacity := memoryCapacity e; recentOutcomes := recentOutcomes e;
     lastTotalEnergy := lastTotalEnergy e; lastAction := lastAction e;
     lastActionIndex := lastActionIndex e; id := id e |}.

Definition set_memory (v : list Memory) (e : Entity) : Entity :=
  {| x := x e; y := y e; gridSize := gridSize e; energy := energy e; age := age e;
     totalEnergyGained := totalEnergyGained e; fitness := fitness e;
     brain := brain e; vision := vision e; memory := v;
     memoryCapacity := memoryCapacity e; recentOutcomes := recentOutcomes e;
     lastTotalEnergy := lastTotalEnergy e; lastAction := lastAction e;
     lastActionIndex := lastActionIndex e; id := id e |}.

Definition set_recentOutcomes (v : list Feedback) (e : Entity) : Entity :=
  {| x := x e; y := y e; gridSize := gridSize e; energy := energy e; age := age e;
     totalEnergyGained := totalEnergyGained e; fitness := fitness e;
     brain := brain e; vision := vision e; memory := memory e;
     memoryCapacity := memoryCapacity e; recentOutcomes := v;
     lastTotalEnergy := lastTotalEnergy e; lastAction := lastAction e;
     lastActionIndex := lastActionIndex e; id := id e |}.

Definition set_lastTotalEnergy (v : Z) (e : Entity) : Entity :=
  {| x := x e; y := y e; gridSize := gridSize e; energy := energy e; age := age e;
     totalEnergyGained := totalEnergyGained e; fitness := fitness e;
     brain := brain e; vision := vision e; memory := memory e;
     memoryCapacity := memoryCapacity e; recentOutcomes := recentOutcomes e;
     lastTotalEnergy := v; lastAction := lastAction e;
     lastActionIndex := lastActionIndex e; id := id e |}.

Definition set_lastAction (name : string) (index : nat) (e : Entity) : Entity :=
  {| x := x e; y := y e; gridSize := gridSize e; energy := energy e; age := age e;
     totalEnergyGained := totalEnergyGained e; fitness := fitness e;
     brain := brain e; vision := vision e; memory := memory e;
     memoryCapacity := memoryCapacity e; recentOutcomes := recentOutcomes e;
     lastTotalEnergy := lastTotalEnergy e; lastAction := name;
     lastActionIndex := index; id := id e |}.

Definition set_field5 (v : Q) (p : RawProperties) : RawProperties :=
  {| field1 := field1 p; field2 := field2 p; field3 := field3 p;
     field4 := field4 p; field5 := v; confidence := confidence p |}.

Section Entity.
Context {rt : Runtime}.
Local Open Scope Q_scope.

(** *** Construction *)

Definition inputSize : nat := (81 * 5 + 81 + 6 + 50)%nat.
Definition hiddenSizes : list nat := [256; 128; 64]%nat.
Definition outputSize : nat := 5%nat.

(** [value ?? Math.floor(Math.random() * gridSize)] *)
Definition or_random_cell (value : option Z) (n : Z) : Rand Z :=
  match value with
  | Some v => ret v
  | None => (let* r := Math_random in ret (floor_scaled r n))%rand
  end.

(** [new ConsciousEntity(x, y, brain, gridSize)] *)
Definition constructor (ox oy : option Z) (obrain : option NeuralNetwork.Network)
    (n : Z) : Run Entity :=
  (let* px := lift (or_random_cell ox n) in
   let* py := lift (or_random_cell oy n) in
   let* b := match obrain with
             | Some b => return_ b
             | None => NeuralNetwork.constructor inputSize hiddenSizes outputSize
             end in
   let* r := lift Math_random in
   return_ {| x := px; y := py; gridSize := n; energy := 100; age := 0;
              totalEnergyGained := 0; fitness := 0; brain := b;
              vision := []; memory := []; memoryCapacity := 50;
              recentOutcomes := []; lastTotalEnergy := 0;
              lastAction := "unknown"; lastActionIndex := 4;
              id := toString36 r |})%run.

(** *** Perception *)

Definition manhattan (ax ay bx by_ : Z) : Z := (Z.abs (ax - bx) + Z.abs (ay - by_))%Z.

(** The filter of [calculateLifeForce]. *)
Definition is_nearby (this : Entity) (px py : Z) (entity : Entity) : bool :=
  if Qlt_le_dec 0 (energy entity) then
    if (x entity =? x this)%Z && (y entity =? y this)%Z then false
    else (manhattan (x entity) (y entity) px py <=? 2)%Z
  else false.

(** [calculateLifeForce(x, y, otherEntities)] *)
Definition calculateLifeForce (this : Entity) (px py : Z)
    (otherEntities : list Entity) : Rand Q :=
  if (px <? 0)%Z || (gridSize this <=? px)%Z || (py <? 0)%Z || (gridSize this <=? py)%Z
  then ret 0
  else
    let nearbyEntities := List.filter (is_nearby this px py) otherEntities in
    match nearbyEntities with
    | [] => ret 0
    | _ :: _ =>
        let f5 := Math_min 0.8 (0.2 * inject_Z (Z.of_nat (length nearbyEntities))) in
        let totalInfluence :=
          for_each nearbyEntities (fun entity total =>
            let distance := manhattan (x entity) (y entity) px py in
            let distanceWeight := 1.0 / (1 + inject_Z distance * 0.5) in
            let energyInfluence := energy entity / 100.0 in
            total + energyInfluence * distanceWeight) 0 in
        let f5 := f5 + totalInfluence * 0.2 in
        (let* now := Date_now in
         let f5 := f5 + Math_sin ((inject_Z (px * py) + inject_Z now * 0.001) * 0.1) * 0.05 in
         ret (clamp01 f5))%rand
    end.

(** [for (let d = -visionRadius; d <= visionRadius; d++)] *)
Definition visionRadius : Z := 4.
Definition window : list Z := seqZ (- visionRadius) (2 * visionRadius + 1).

(** [updateVision(world, otherEntities)] *)
Definition updateVision (w : World) (otherEntities : list Entity) (this : Entity)
  : Rand Entity :=
  (let* points :=
     for_each_rand window (fun dx points =>
       for_each_rand window (fun dy points =>
         let px := (x this + dx)%Z in
         let py := (y this + dy)%Z in
         let distance := (Z.abs dx + Z.abs dy)%Z in
         let* properties := getRawPhysicalProperties w px py distance (energy this) in
         let* f5 := calculateLifeForce this px py otherEntities in
         ret (points ++ [ {| relativeX := dx; relativeY := dy; distance := distance;
                             seen := set_field5 f5 properties |} ])) points) [] in
   ret (set_vision points this))%rand.

(** *** Memory *)

(** The observation handed to [addMemory]: a vision point with [action]
    and [outcome] added. *)
Definition addMemory (point : VisionPoint) (action outcome : string) (now : Z)
    (this : Entity) : Entity :=
  let m := {| mem_tick := now; mem_x := x this; mem_y := y this;
              mem_fields := seen point; mem_energy := energy this;
              mem_action := if String.eqb action "" then lastAction this else action;
              mem_outcome := if String.eqb outcome "" then "none" else outcome;
              mem_age := age this |} in
  let memory := memory this ++ [m] in
  let memory := if (memoryCapacity this <? length memory)%nat
                then List.tl memory else memory in
  set_memory memory this.

(** The ten values that encode one memory. *)
Definition encode_memory (this : Entity) (now : Z) (mem : Memory) : list Q :=
  [ inject_Z (now - mem_tick mem) / 1000.0;
    inject_Z (Z.abs (x this - mem_x mem)) / inject_Z (gridSize this);
    inject_Z (Z.abs (y this - mem_y mem)) / inject_Z (gridSize this);
    field1 (mem_fields mem);
    field2 (mem_fields mem);
    field3 (mem_fields mem);
    field4 (mem_fields mem);
    field5 (mem_fields mem);
    confidence (mem_fields mem);
    if String.eqb (mem_outcome mem) "energy_gained" then 1.0
    else if String.eqb (mem_outcome mem) "energy_lost" then -1.0 else 0.0 ].

(** [this.memory.slice(-5)] *)
Definition last_five {A} (l : list A) : list A := drop (length l - 5) l.

(** [getMemorySummary()]: the most recent memory comes first, and the
    summary is filled up with zeros to 50 values. *)
Definition getMemorySummary (this : Entity) : Rand (list Q) :=
  match memory this with
  | [] => ret (replicate 50 0)
  | _ :: _ =>
      let recentMemories := last_five (memory this) in
      (let* encoded :=
         for_each_rand (rev recentMemories) (fun mem acc =>
           let* now := Date_now in
           ret (acc ++ encode_memory this now mem)) [] in
       ret (encoded ++ replicate (50 - length encoded) 0))%rand
  end.

(** [getCellInput(tick)] *)
Definition getCellInput (now : Z) (this : Entity) : Rand (list Q) :=
  let fields :=
    flat_map (fun p => [field1 (seen p); field2 (seen p); field3 (seen p);
                        field4 (seen p); field5 (seen p)]) (vision this) in
  let confidences := map (fun p => confidence (seen p)) (vision this) in
  let cyclePosition := inject_Z (Z.rem now 100) / 100.0 in
  let internal :=
    [ energy this / 100.0;
      inject_Z (x this) / inject_Z (gridSize this);
      inject_Z (y this) / inject_Z (gridSize this);
      Math_sin (2 * Math_PI * cyclePosition);
      Math_cos (2 * Math_PI * cyclePosition);
      cyclePosition ] in
  (let* memorySummary := getMemorySummary this in
   ret (fields ++ confidences ++ internal ++ memorySummary))%rand.

(** *** Deciding and acting *)

(** The sampling loop of [makeDecision]: [i] is the index of the head of
    [probs].  With not-a-number probabilities no comparison succeeds and
    the default is returned. *)
Fixpoint sample (rand : Q) (cumProb : Number) (i : nat) (probs : list Number)
  : nat :=
  match probs with
  | [] => 4%nat
  | p :: probs' =>
      let cumProb := Number_add cumProb p in
      if Number_less (Finite rand) cumProb then i
      else sample rand cumProb (S i) probs'
  end.

(** [makeDecision(tick)] *)
Definition makeDecision (now : Z) (this : Entity) : Rand nat :=
  (let* input := getCellInput now this in
   let actionProbs := NeuralNetwork.forward (brain this) input in
   let* rand := Math_random in
   ret (sample rand (Finite 0) 0 actionProbs))%rand.

Definition action_moves : list (Z * Z) :=
  [(0, -1); (0, 1); (-1, 0); (1, 0); (0, 0)]%Z.

Definition actionNames : list string :=
  ["up"; "down"; "left"; "right"; "stay"]%string.

(** [executeAction(action)]; an action without a move throws when the
    components of the move are read. *)
Definition executeAction (action : nat) (this : Entity) : Except Entity :=
  match action_moves !! action with
  | None => inl TypeError
  | Some move =>
      let n := gridSize this in
      let nx := Z.rem (x this + fst move + n) n in
      let ny := Z.rem (y this + snd move + n) n in
      inr (set_lastAction (nth action actionNames ""%string) action
             (set_xy nx ny this))
  end.

(** [applyREINFORCELearning()] *)
Definition applyREINFORCELearning (this : Entity) : Run Entity :=
  match recentOutcomes this with
  | [] => return_ this
  | _ :: _ =>
      let learningRate := 0.001 in
      let avgReward :=
        for_each (recentOutcomes this) (fun outcome sum => sum + reward outcome) 0
        / inject_Z (Z.of_nat (length (recentOutcomes this))) in
      if Qlt_le_dec (Qabs avgReward) 0.01 then return_ this
      else
        (let* input := lift (getCellInput 0 this) in
         let* b := of_except
                     (NeuralNetwork.applyREINFORCE input (lastActionIndex this)
                        avgReward learningRate (brain this)) in
         return_ (set_brain b this))%run
  end.

(** *** One tick of an entity *)

(** [otherEntities] is an array of entity objects, and the entity being
    updated can be one of them: [None] marks the entry that is this very
    object, so that it is read in its current state. *)
Definition resolve (this : Entity) (otherEntities : list (option Entity))
  : list Entity :=
  map (fun o => match o with Some e => e | None => this end) otherEntities.

(** [this.recentOutcomes.filter(outcome => tick - outcome.tick <= 10)] *)
Definition is_recent (now : Z) (outcome : Feedback) : bool :=
  (now - fb_tick outcome <=? 10)%Z.

(** The block of [update] that records the current observation. *)
Definition recordExperience (now : Z) (this : Entity) : Entity :=
  match List.find (fun v => (distance v =? 0)%Z) (vision this) with
  | None => this
  | Some currentObservation =>
      let previousEnergy := energy this + 0.5 in
      let outcome :=
        if (lastTotalEnergy this <? totalEnergyGained this)%Z then "energy_gained"%string
        else if Qlt_le_dec (energy this) (previousEnergy - 0.5) then "energy_lost"%string
        else "moved"%string in
      let this := addMemory currentObservation (lastAction this) outcome now this in
      set_lastTotalEnergy (totalEnergyGained this) this
  end.

(** [this.energy -= 0.5; this.age++;] *)
Definition decay (this : Entity) : Entity :=
  let this := set_energy (energy this - 0.5) this in
  set_age (age this + 1)%Z this.

(** The block [if (energyGained > 0) { ... }] of [update]. *)
Definition credit (energyGained : Z) (now : Z) (this : Entity) : Entity :=
  if (0 <? energyGained)%Z then
    let this := set_energy (energy this + inject_Z energyGained) this in
    let this := set_totalEnergyGained (totalEnergyGained this + energyGained)%Z this in
    set_recentOutcomes
      (recentOutcomes this ++
         [ {| fb_action := lastActionIndex this; reward := 1.0; fb_tick := now |} ])
      this
  else this.

(** The block [if (this.energy < 20) { ... }] of [update]. *)
Definition warn (now : Z) (this : Entity) : Entity :=
  if Qlt_le_dec (energy this) 20 then
    set_recentOutcomes
      (recentOutcomes this ++
         [ {| fb_action := lastActionIndex this; reward := -0.1; fb_tick := now |} ])
      this
  else this.

(** [this.recentOutcomes = this.recentOutcomes.filter(...)] *)
Definition prune (now : Z) (this : Entity) : Entity :=
  set_recentOutcomes (List.filter (is_recent now) (recentOutcomes this)) this.

(** The first half of [update]: decay, feeding, feedback, perception and
    memory, up to the comment "Make decision and execute action". *)
Definition sense (w : World) (otherEntities : list (option Entity)) (now : Z)
    (this : Entity) : Rand (Entity * World) :=
  let this := decay this in
  let fed := consumeEnergy (x this) (y this) w in
  let this := prune now (warn now (credit (fst fed) now this)) in
  (let* this := updateVision (snd fed) (resolve this otherEntities) this in
   ret (recordExperience now this, snd fed))%rand.

(** [update(world, otherEntities, tick)]: whether the entity survived,
    the entity and the world afterwards. *)
Definition update (w : World) (otherEntities : list (option Entity)) (now : Z)
    (this : Entity) : Run (bool * Entity * World) :=
  (let* '(this, w) := lift (sense w otherEntities now this) in
   let* action := lift (makeDecision now this) in
   let* this := applyREINFORCELearning this in
   let* this := of_except (executeAction action this) in
   let this := set_fitness (age this + totalEnergyGained this)%Z this in
   return_ (if Qlt_le_dec 0 (energy this) then true else false, this, w))%run.

(** *** Offspring and copies *)

(** [reproduce(mutationRate, mutationStrength)]: the child, and this
    entity, whose brain has lent its generator to the mutation. *)
Definition reproduce (mutationRate mutationStrength : Q) (this : Entity)
  : Run (Entity * Entity) :=
  (let* child := constructor None None None (gridSize this) in
   let* '(b, own) := NeuralNetwork.mutate mutationRate mutationStrength (brain this) in
   return_ (set_brain b child, set_brain own this))%run.

(** [clone()] *)
Definition clone (this : Entity) : Run Entity :=
  (let* copy := constructor (Some (x this)) (Some (y this)) None (gridSize this) in
   let* b := NeuralNetwork.clone (brain this) in
   let copy := set_brain b copy in
   let copy := set_energy (energy this) copy in
   let copy := set_age (age this) copy in
   let copy := set_totalEnergyGained (totalEnergyGained this) copy in
   return_ (set_fitness (fitness this) copy))%run.

End Entity.

End ConsciousEntity.

(** ** PopulationManager.js *)

Module PopulationManager.

Import ConsciousEntity.

(** An element of [generationStats]. *)
Record GenerationStat := {
  stat_tick : Z;
  stat_generation : Z;
  livingCount : nat;
  averageEnergy : Z;
  averageFitness : Z;
  stat_bestFitness : Z
}.

(** A [PopulationManager] object.  The roster [entities] holds the entity
    objects themselves. *)
Record Population := {
  populationSize : nat;
  pop_gridSize : Z;
  entities : list Entity;
  generation : Z;
  totalDeaths : Z;
  bestFitness : Z;
  allTimeBest : option Entity;
  mutationRate : Q;
  mutationStrength : Q;
  generationStats : list GenerationStat
}.

Definition set_entities (es : list Entity) (p : Population) : Population :=
  {| populationSize := populationSize p; pop_gridSize := pop_gridSize p;
     entities := es; generation := generation p; totalDeaths := totalDeaths p;
     bestFitness := bestFitness p; allTimeBest := allTimeBest p;
     mutationRate := mutationRate p; mutationStrength := mutationStrength p;
     generationStats := generationStats p |}.

Definition set_generation (g : Z) (p : Population) : Population :=
  {| populationSize := populationSize p; pop_gridSize := pop_gridSize p;
     entities := entities p; generation := g; totalDeaths := totalDeaths p;
     bestFitness := bestFitness p; allTimeBest := allTimeBest p;
     mutationRate := mutationRate p; mutationStrength := mutationStrength p;
     generationStats := generationStats p |}.

Definition set_totalDeaths (d : Z) (p : Population) : Population :=
  {| populationSize := populationSize p; pop_gridSize := pop_gridSize p;
     entities := entities p; generation := generation p; totalDeaths := d;
     bestFitness := bestFitness p; allTimeBest := allTimeBest p;
     mutationRate := mutationRate p; mutationStrength := mutationStrength p;
     generationStats := generationStats p |}.

Definition set_best (f : Z) (e : Entity) (p : Population) : Population :=
  {| populationSize := populationSize p; pop_gridSize := pop_gridSize p;
     entities := entities p; generation := generation p;
     totalDeaths := totalDeaths p;
     bestFitness := f; allTimeBest := Some e;
     mutationRate := mutationRate p; mutationStrength := mutationStrength p;
     generationStats := generationStats p |}.

Section Population.
Context {rt : Runtime}.
Local Open Scope Q_scope.

(** [initializePopulation()] *)
Fixpoint initializePopulation (count : nat) (n : Z) : Run (list Entity) :=
  match count with
  | O => return_ []
  | S count' =>
      (let* e := constructor None None None n in
       let* rest := initializePopulation count' n in
       return_ (e :: rest))%run
  end.

(** [new PopulationManager(populationSize, gridSize)] *)
Definition new (size : nat) (n : Z) : Run Population :=
  (let* es := initializePopulation size n in
   return_ {| populationSize := size; pop_gridSize := n; entities := es;
              generation := 0; totalDeaths := 0; bestFitness := 0;
              allTimeBest := None; mutationRate := 0.1;
              mutationStrength := 0.1; generationStats := [] |})%run.

(** [reset()] *)
Definition reset (p : Population) : Run Population :=
  (let* es := initializePopulation (populationSize p) (pop_gridSize p) in
   return_ {| populationSize := populationSize p;
              pop_gridSize := pop_gridSize p; entities := es;
              generation := 0; totalDeaths := 0; bestFitness := 0;
              allTimeBest := None; mutationRate := mutationRate p;
              mutationStrength := mutationStrength p;
              generationStats := [] |})%run.

(** [entity && entity.energy > 0] *)
Definition is_living (e : Entity) : bool :=
  if Qlt_le_dec 0 (energy e) then true else false.

(** [findBestLivingEntity()], with the slot of the entity found.  The
    state of the loop is [bestEntity] and [bestFitness]. *)
Definition findBestLivingEntity (es : list Entity) : option (nat * Entity) :=
  fst (for_each (imap (fun i e => (i, e)) es)
         (fun '(i, entity) '(bestEntity, bestFitness) =>
            if is_living entity then
              if (bestFitness <? fitness entity)%Z
              then (Some (i, entity), fitness entity)
              else (bestEntity, bestFitness)
            else (bestEntity, bestFitness))
         (None, (-1)%Z)).

(** [handleEntityDeath(entityIndex)] without a database.  Reading the
    fitness of a missing entity throws. *)
Definition handleEntityDeath (entityIndex : nat) (p : Population)
  : Run Population :=
  match entities p !! entityIndex with
  | None => throw TypeError
  | Some deadEntity =>
      let p := set_totalDeaths (totalDeaths p + 1)%Z p in
      (let* p := if (bestFitness p <? fitness deadEntity)%Z
                 then (let* copy := clone deadEntity in
                       return_ (set_best (fitness deadEntity) copy p))
                 else return_ p in
       let bestParent := findBestLivingEntity (entities p) in
       let* '(newEntity, p) :=
         match bestParent with
         | Some (slot, parent) =>
             let* '(child, parent) :=
               reproduce (mutationRate p) (mutationStrength p) parent in
             return_ (child, set_entities (<[slot := parent]> (entities p)) p)
         | None =>
             let* fresh := constructor None None None (pop_gridSize p) in
             return_ (fresh, p)
         end in
       let p := set_entities (<[entityIndex := newEntity]> (entities p)) p in
       return_ (set_generation (generation p + 1)%Z p))%run
  end.

(** The array [livingEntities] of [update] holds objects of the roster.
    An entry is the slot the object was taken from, together with the
    object itself once it has been replaced in the roster. *)
Definition Snapshot : Type := list (nat * option Entity).

Definition take_snapshot (es : list Entity) : Snapshot :=
  omap (fun '(i, e) => if is_living e then Some (i, None) else None)
       (imap (fun i e => (i, e)) es).

(** The array as the entity in slot [self] sees it. *)
Definition view (es : list Entity) (self : nat) (snapshot : Snapshot)
  : list (option Entity) :=
  omap (fun '(slot, departed) =>
          match departed with
          | Some e => Some (Some e)
          | None => if (slot =? self)%nat then Some None
                    else match es !! slot with
                         | Some e => Some (Some e)
                         | None => None
                         end
          end) snapshot.

Definition mark_departed (slot : nat) (e : Entity) (snapshot : Snapshot) : Snapshot :=
  map (fun '(s, departed) =>
         match departed with
         | None => if (s =? slot)%nat then (s, Some e) else (s, departed)
         | Some _ => (s, departed)
         end) snapshot.

(** State of the loop of [update]. *)
Record Loop := {
  loop_population : Population;
  loop_world : WorldPhysics.World;
  loop_living : Snapshot
}.

(** Body of the loop of [update] for slot [i], without a database. *)
Definition update_slot (now : Z) (i : nat) (st : Loop) : Run Loop :=
  let p := loop_population st in
  match entities p !! i with
  | None => return_ st
  | Some entity =>
      if is_living entity then
        (let* '(survived, entity, w) :=
           ConsciousEntity.update (loop_world st)
             (view (entities p) i (loop_living st)) now entity in
         let p := set_entities (<[i := entity]> (entities p)) p in
         if survived then
           return_ {| loop_population := p; loop_world := w;
                      loop_living := loop_living st |}
         else
           let* p := handleEntityDeath i p in
           return_ {| loop_population := p; loop_world := w;
                      loop_living := mark_departed i entity (loop_living st) |})%run
      else return_ st
  end.

(** [update(world, tick)] without a database: the population and the
    world afterwards. *)
Definition update (w : WorldPhysics.World) (now : Z) (p : Population)
  : Run (Population * WorldPhysics.World) :=
  (let* st := for_each_run (seq 0 (length (entities p))) (update_slot now)
                {| loop_population := p; loop_world := w;
                   loop_living := take_snapshot (entities p) |} in
   return_ (loop_population st, loop_world st))%run.

(** [getLivingEntities()] *)
Definition getLivingEntities (p : Population) : list Entity :=
  List.filter is_living (entities p).

(** The loop of [forceEvolution]; its state is [weakestIndex] with
    [weakestFitness] ([None] for -1 and [Infinity]) and [strongest] with
    [strongestFitness]. *)
Definition extremes (es : list Entity)
  : option (nat * Z) * (option (nat * Entity) * Z) :=
  for_each (imap (fun i e => (i, e)) es)
    (fun '(i, entity) '(weakest, (strongest, strongestFitness)) =>
       if is_living entity then
         let weakest :=
           match weakest with
           | None => Some (i, fitness entity)
           | Some (_, weakestFitness) =>
               if (fitness entity <? weakestFitness)%Z
               then Some (i, fitness entity) else weakest
           end in
         if (strongestFitness <? fitness entity)%Z
         then (weakest, (Some (i, entity), fitness entity))
         else (weakest, (strongest, strongestFitness))
       else (weakest, (strongest, strongestFitness)))
    (None, (None, (-1)%Z)).

(** [forceEvolution()] *)
Definition forceEvolution (p : Population) : Run Population :=
  match entities p with
  | [] => return_ p
  | _ :: _ =>
      match getLivingEntities p with
      | [] => return_ p
      | _ :: _ =>
          match extremes (entities p) with
          | (Some (weakestIndex, _), (Some (slot, strongest), _)) =>
              (let* '(child, strongest) :=
                 reproduce (mutationRate p) (mutationStrength p) strongest in
               let es := <[slot := strongest]> (entities p) in
               return_ (set_entities (<[weakestIndex := child]> es) p))%run
          | _ => return_ p
          end
      end
  end.

(** *** Statistics *)

(** The value of [getPopulationStats()]. *)
Record PopulationStats := {
  stats_livingCount : nat;
  stats_totalEnergy : Z;
  stats_totalAge : Z;
  stats_averageEnergy : Z;
  stats_averageAge : Z;
  stats_averageFitness : Z;
  stats_bestCurrentFitness : Z;
  stats_generation : Z;
  stats_totalDeaths : Z;
  stats_bestAllTimeFitness : Z
}.

(** [getPopulationStats()].  Ages and fitnesses are integers, so that
    [Math.max(...living.map(entity => entity.fitness))] is a maximum of
    integers. *)
Definition getPopulationStats (p : Population) : PopulationStats :=
  let living := getLivingEntities p in
  match living with
  | [] =>
      {| stats_livingCount := 0; stats_totalEnergy := 0; stats_totalAge := 0;
         stats_averageEnergy := 0; stats_averageAge := 0;
         stats_averageFitness := 0; stats_bestCurrentFitness := 0;
         stats_generation := generation p; stats_totalDeaths := totalDeaths p;
         stats_bestAllTimeFitness := bestFitness p |}
  | first :: rest =>
      let count := inject_Z (Z.of_nat (length living)) in
      let totalEnergy := for_each living (fun entity sum => sum + energy entity) 0 in
      let totalAge := for_each living (fun entity sum => (sum + age entity)%Z) 0%Z in
      let totalFitness :=
        for_each living (fun entity sum => (sum + fitness entity)%Z) 0%Z in
      let bestCurrentFitness :=
        for_each rest (fun entity best => Z.max best (fitness entity)) (fitness first) in
      {| stats_livingCount := length living;
         stats_totalEnergy := Math_round totalEnergy;
         stats_totalAge := Math_round (inject_Z totalAge);
         stats_averageEnergy := Math_round (totalEnergy / count);
         stats_averageAge := Math_round (inject_Z totalAge / count);
         stats_averageFitness := Math_round (inject_Z totalFitness / count);
         stats_bestCurrentFitness := Math_round (inject_Z bestCurrentFitness);
         stats_generation := generation p; stats_totalDeaths := totalDeaths p;
         stats_bestAllTimeFitness := Math_round (inject_Z (bestFitness p)) |}
  end.

Definition set_generationStats (history : list GenerationStat) (p : Population)
  : Population :=
  {| populationSize := populationSize p; pop_gridSize := pop_gridSize p;
     entities := entities p; generation := generation p;
     totalDeaths := totalDeaths p;
     bestFitness := bestFitness p; allTimeBest := allTimeBest p;
     mutationRate := mutationRate p; mutationStrength := mutationStrength p;
     generationStats := history |}.

(** [recordGenerationStats(tick)] *)
Definition recordGenerationStats (now : Z) (p : Population) : Population :=
  let stats := getPopulationStats p in
  let history :=
    generationStats p ++
    [ {| stat_tick := now; stat_generation := stats_generation stats;
         livingCount := stats_livingCount stats;
         averageEnergy := stats_averageEnergy stats;
         averageFitness := stats_averageFitness stats;
         stat_bestFitness := stats_bestCurrentFitness stats |} ] in
  let history := if (100 <? length history)%nat then List.tl history else history in
  set_generationStats history p.

End Population.

End PopulationManager.

(** * Vocabulary of the statements *)

(** ** Grids *)

(** Every stored cell of a grid satisfies [P]. *)
Definition grid_all (P : Q -> Prop) (g : Grid) : Prop := Forall (Forall P) g.

(** The grid has [n] rows of [n] cells. *)
Definition grid_shaped (n : Z) (g : Grid) : Prop :=
  length g = Z.to_nat n /\ Forall (fun row => length row = Z.to_nat n) g.

(** ** Worlds *)

Section Reachability.
Context {rt : Runtime}.
Import WorldPhysics.

(** The worlds a host can hold: built with a positive grid size or reset,
    then stepped, with energy consumed in between.  (Sensing does not
    change the world.)  The host state at each call is arbitrary, which
    accounts for random numbers drawn elsewhere in the meantime. *)
Inductive reachable : World -> Prop :=
| reachable_new n h : (0 < n)%Z -> reachable (fst (constructor n h))
| reachable_reset w h : reachable w -> reachable (fst (reset w h))
| reachable_step w h : reachable w -> reachable (fst (step w h))
| reachable_consume w px py :
    reachable w -> reachable (snd (consumeEnergy px py w)).

End Reachability.

(** The cell (px, py) lies on a grid of size [n]. *)
Definition on_grid (n px py : Z) : Prop := (0 <= px < n /\ 0 <= py < n)%Z.

(** The three grids of a world have its size, and its cores and energies
    sit on cells of the grid. *)
Definition well_placed (w : WorldPhysics.World) : Prop :=
  let n := WorldPhysics.gridSize w in
  (0 < n)%Z /\
  grid_shaped n (WorldPhysics.temperature w) /\
  grid_shaped n (WorldPhysics.catalyserLower w) /\
  grid_shaped n (WorldPhysics.catalyserUpper w) /\
  Forall (fun c => on_grid n (WorldPhysics.x c) (WorldPhysics.y c))
         (WorldPhysics.cores w) /\
  Forall (fun e => on_grid n (WorldPhysics.energy_x e) (WorldPhysics.energy_y e))
         (WorldPhysics.energies w).

(** A world of one cell whose temperature is one half. *)
Definition temperate (w : WorldPhysics.World) : Prop :=
  WorldPhysics.gridSize w = 1%Z /\
  exists v, WorldPhysics.temperature w = [[v]] /\ (v == 1 # 2)%Q.

(** An energy manifestation of the world is active and less than five
    ticks old. *)
Definition fresh_energy (w : WorldPhysics.World) (e : WorldPhysics.Energy) : Prop :=
  WorldPhysics.active e = true /\
  (WorldPhysics.createdAt e <= WorldPhysics.tick w)%Z /\
  (WorldPhysics.tick w - WorldPhysics.createdAt e < 5)%Z.

(** The other phase. *)
Definition other_phase (p : WorldPhysics.Phase) : WorldPhysics.Phase :=
  match p with
  | WorldPhysics.emit => WorldPhysics.collect
  | WorldPhysics.collect => WorldPhysics.emit
  end.

(** ** The life of a core *)

Section CoreLife.
Context {rt : Runtime}.
Import WorldPhysics.

(** A world as the host first sees it: just constructed, or just reset. *)
Inductive fresh : World -> Prop :=
| fresh_new n h : (0 < n)%Z -> fresh (fst (constructor n h))
| fresh_reset w h : reachable w -> fresh (fst (reset w h)).

(** What happens around one call of [step]: the state of the host when it
    is called, and the cells on which entities consume energy afterwards,
    before the next call. *)
Record Round := {
  host_state : Host;
  meals : list (Z * Z)
}.

Definition feed (cells : list (Z * Z)) (w : World) : World :=
  for_each cells (fun cell w => snd (consumeEnergy (fst cell) (snd cell) w)) w.

(** The world after [k] rounds. *)
Fixpoint world_at (w0 : World) (rounds : nat -> Round) (k : nat) : World :=
  match k with
  | O => w0
  | S k' =>
      feed (meals (rounds k'))
           (fst (step (world_at w0 rounds k') (host_state (rounds k'))))
  end.

(** The world and the host at the moment [step] calls [updateCores]. *)
Definition prepared (w : World) (h : Host) : World * Host :=
  let (w1, h1) := shiftTemperature w h in (exchange w1, h1).

(** The world and the host when the loop of [updateCores] reaches the
    core in slot [i]. *)
Definition turn (i : nat) (w : World) (h : Host) : World * Host :=
  let r := updateCores_loop (take i (cores w)) w h in (snd (fst r), snd r).

(** What the core in slot [i] reads during [step]: the core once its
    pending move is done, and the catalyser and the temperature at the cell
    it is on then. *)
Definition reading (i : nat) (w : World) (h : Host) : option (Core * Q * Q) :=
  match cores w !! i with
  | None => None
  | Some c =>
      let (w2, h2) := prepared w h in
      let (w3, h3) := turn i w2 h2 in
      let c1 := fst (delayed_move (gridSize w3) (tick w3) c h3) in
      Some (c1, cell (catalyserLower w3) (x c1) (y c1),
                cell (temperature w3) (x c1) (y c1))
  end.

(** The core in slot [i] reads a temperature above 0.2 during [step]. *)
Definition reads_warm (i : nat) (w : World) (h : Host) : Prop :=
  exists c1 cat temp, reading i w h = Some (c1, cat, temp) /\ (0.2 < temp)%Q.

(** The energies of the world just before and just after the turn of the
    core in slot [i] during [step]. *)
Definition energies_before_turn (i : nat) (w : World) (h : Host) : list Energy :=
  let (w2, h2) := prepared w h in energies (fst (turn i w2 h2)).

Definition energies_after_turn (i : nat) (w : World) (h : Host) : list Energy :=
  let (w2, h2) := prepared w h in energies (fst (turn (S i) w2 h2)).

(** What one update does to a core: [c] is the core before, [c1] the core
    after its pending move, [cat] and [temp] what it reads, [c'] the core
    after; [before] and [after] are the energies of the world. *)
Definition core_update (now : Z) (c c1 : Core) (cat temp : Q) (c' : Core)
    (before after : list Energy) : Prop :=
  (state c = dormant ->
     (0.2 < cat -> state c' = incubated /\
        ((0.2 < temp /\ consecutiveHighTemp c' = 1%Z) \/
         (temp <= 0.2 /\ consecutiveHighTemp c' = 0%Z)))%Q /\
     (cat <= 0.2 -> state c' = dormant)%Q /\
     after = before) /\
  (state c = incubated ->
     ((0.2 < temp)%Q /\ (4 <= consecutiveHighTemp c)%Z ->
        state c' = bloomed /\ bloomTime c' = now /\
        after = before ++
          [ {| energy_x := x c1; energy_y := y c1; createdAt := now;
               active := true; coreId := id c |} ]) /\
     ((0.2 < temp)%Q /\ (consecutiveHighTemp c < 4)%Z ->
        state c' = incubated /\
        consecutiveHighTemp c' = (consecutiveHighTemp c + 1)%Z /\
        after = before) /\
     ((temp <= 0.2)%Q ->
        state c' = incubated /\ consecutiveHighTemp c' = 0%Z /\
        after = before)) /\
  (state c = bloomed ->
     ((5 <= now - bloomTime c)%Z -> state c' = dormant) /\
     ((now - bloomTime c < 5)%Z ->
        state c' = bloomed /\ bloomTime c' = bloomTime c) /\
     after = before).

(** Two cores at the same point of their life. *)
Definition same_stage (c c' : Core) : Prop :=
  state c' = state c /\ consecutiveHighTemp c' = consecutiveHighTemp c /\
  bloomTime c' = bloomTime c /\ id c' = id c.

(** The core in slot [i] is incubated after [k] rounds. *)
Definition incubated_at (w0 : World) (rounds : nat -> Round) (i k : nat) : Prop :=
  exists c, cores (world_at w0 rounds k) !! i = Some c /\ state c = incubated.

(** The counter of an incubated core counts the warm readings of the
    latest rounds, during which the core has stayed incubated; a bloomed
    core bloomed at most four ticks ago. *)
Definition counted (w0 : World) (rounds : nat -> Round) (k : nat) : Prop :=
  forall i c, cores (world_at w0 rounds k) !! i = Some c ->
    (state c = incubated ->
       (0 <= consecutiveHighTemp c <= 4)%Z /\
       forall j : nat, (Z.of_nat j < consecutiveHighTemp c)%Z ->
         (j < k)%nat /\
         reads_warm i (world_at w0 rounds (k - 1 - j))
                      (host_state (rounds (k - 1 - j))) /\
         incubated_at w0 rounds i (k - j)) /\
    (state c = bloomed ->
       (0 <= tick (world_at w0 rounds k) - bloomTime c <= 4)%Z).

End CoreLife.

(** The ranges of the three fields. *)
Definition unit_interval (v : Q) : Prop := (0 <= v /\ v <= 1)%Q.
Definition nonnegative (v : Q) : Prop := (0 <= v)%Q.
Definition at_most_two (v : Q) : Prop := (0 <= v /\ v <= 2)%Q.

Definition fields_in_range (w : WorldPhysics.World) : Prop :=
  grid_all unit_interval (WorldPhysics.temperature w) /\
  grid_all nonnegative (WorldPhysics.catalyserLower w) /\
  grid_all at_most_two (WorldPhysics.catalyserUpper w).

(** ** Calls that return *)

(** The random generator of the host never answers 0 [spin_limit] times in
    a row, so that no rejection loop is cut short by the model. *)
Definition fair {rt : Runtime} : Prop :=
  forall n, exists k, (k < spin_limit)%nat /\ ~ (random_value (n + k) == 0)%Q.

(** Whatever the state of the host, the call returns, with a value that
    satisfies [P]. *)
Definition ensures {A} (m : Run A) (P : A -> Prop) : Prop :=
  forall h, exists a h', m h = Returned a h' /\ P a.

(** ** Networks *)

(** The shape of a layer: the number of rows, the length of each row and
    the number of biases. *)
Definition shape_of (l : NeuralNetwork.Layer) : nat * list nat * nat :=
  (length (NeuralNetwork.weights l), map length (NeuralNetwork.weights l),
   length (NeuralNetwork.biases l)).

(** The shapes the constructor gives to the layers for the sizes
    [previous :: sizes]. *)
Fixpoint shapes_for (previous : nat) (sizes : list nat)
  : list (nat * list nat * nat) :=
  match sizes with
  | [] => []
  | size :: rest => (size, replicate size previous, size) :: shapes_for size rest
  end.

(** The network has the layers of [new NeuralNetwork(inputSize,
    hiddenSizes, outputSize)]. *)
Definition has_architecture (inputSize : nat) (hiddenSizes : list nat)
    (outputSize : nat) (net : NeuralNetwork.Network) : Prop :=
  map shape_of (NeuralNetwork.layers net)
  = shapes_for inputSize (hiddenSizes ++ [outputSize]).

(** The number of weights and biases of a network. *)
Definition parameter_count (net : NeuralNetwork.Network) : nat :=
  list_sum (map (fun l => (list_sum (map length (NeuralNetwork.weights l))
                           + length (NeuralNetwork.biases l))%nat)
                (NeuralNetwork.layers net)).

(** The state of the loops of [calculateSimilarity] is the running total
    of the differences, when it is a number, and the number of parameters
    met.  The total is not negative. *)
Definition total_nonneg (acc : option Q * nat) : Prop :=
  forall total, fst acc = Some total -> (0 <= total)%Q.

(** From [acc] to [acc'] the loops have met [count] parameters and added
    nothing to the total. *)
Definition no_difference (acc acc' : option Q * nat) (count : nat) : Prop :=
  snd acc' = (snd acc + count)%nat /\
  forall total, fst acc = Some total ->
    exists total', fst acc' = Some total' /\ (total' == total)%Q.

(** The record [getArchitecture] writes for a layer that has a row. *)
Definition layer_record (l : NeuralNetwork.Layer) : NeuralNetwork.LayerInfo :=
  let neurons := length (NeuralNetwork.weights l) in
  let inputs := match NeuralNetwork.weights l with
                | [] => 0%nat
                | row0 :: _ => length row0
                end in
  {| NeuralNetwork.neurons := neurons;
     NeuralNetwork.inputs := inputs;
     NeuralNetwork.info_weights := neurons * inputs;
     NeuralNetwork.info_biases := length (NeuralNetwork.biases l);
     NeuralNetwork.parameters :=
       neurons * inputs + length (NeuralNetwork.biases l) |}.

(** The shape a record of the architecture declares. *)
Definition declared (info : NeuralNetwork.LayerInfo) : nat * list nat * nat :=
  (NeuralNetwork.neurons info,
   replicate (NeuralNetwork.neurons info) (NeuralNetwork.inputs info),
   NeuralNetwork.info_biases info).

(** The serialized layers are those the architecture record describes:
    as many, and each of the declared shape. *)
Definition consistent (ls : list NeuralNetwork.Layer)
    (arch : NeuralNetwork.Architecture) : Prop :=
  map shape_of ls = map declared (NeuralNetwork.structure arch).

(** The reading of the claim on [deserialize]: data whose layers disagree
    with its architecture record is refused with an [Error]. *)
Definition validates_shapes : Prop :=
  forall (rt : Runtime) (data : NeuralNetwork.Serialized) (h : Host) ls arch,
    NeuralNetwork.data_layers data = Some ls ->
    NeuralNetwork.data_architecture data = Some arch ->
    ~ consistent ls arch ->
    exists message, NeuralNetwork.deserialize data h = Thrown (Error message).

(** The shapes of the network that [deserialize] constructs from the
    architecture record before it copies the data in. *)
Definition constructed_shapes (arch : NeuralNetwork.Architecture)
  : list (nat * list nat * nat) :=
  match NeuralNetwork.structure arch with
  | [] => []
  | first :: _ =>
      shapes_for (NeuralNetwork.inputs first)
                 (map NeuralNetwork.neurons (NeuralNetwork.structure arch))
  end.

(** ** Entities *)

Section Orders.
Context {rt : Runtime}.
Import ConsciousEntity.

(** Modelled from the spec's words: [update] in the order the
    specification gives, with the output nudge applied before the next
    action is chosen.  The source is [ConsciousEntity.update]; this
    definition only serves to compare the two orders. *)
Definition update_nudge_first (w : WorldPhysics.World)
    (otherEntities : list (option Entity)) (now : Z) (this : Entity)
  : Run (bool * Entity * WorldPhysics.World) :=
  (let* '(this, w) := lift (sense w otherEntities now this) in
   let* this := applyREINFORCELearning this in
   let* action := lift (makeDecision now this) in
   let* this := of_except (executeAction action this) in
   let this := set_fitness (age this + totalEnergyGained this)%Z this in
   return_ (if Qlt_le_dec 0 (energy this) then true else false, this, w))%run.

(** The action an update ended up taking. *)
Definition action_taken (r : Outcome (bool * Entity * WorldPhysics.World))
  : option nat :=
  match r with
  | Returned (_, this, _) _ => Some (lastActionIndex this)
  | _ => None
  end.

End Orders.

(** The reading of the claim on the order inside [update]: the action
    taken is the one chosen by the policy after the nudge. *)
Definition nudge_precedes_choice : Prop :=
  forall (rt : Runtime) w otherEntities now this h,
    action_taken (ConsciousEntity.update w otherEntities now this h)
    = action_taken (update_nudge_first w otherEntities now this h).

(** The architecture every entity is born with. *)
Definition standard (net : NeuralNetwork.Network) : Prop :=
  has_architecture ConsciousEntity.inputSize ConsciousEntity.hiddenSizes
    ConsciousEntity.outputSize net.

(** An entity as the engine makes them: a standard brain, a last action
    among the five, and counters that are not negative. *)
Definition sound (e : ConsciousEntity.Entity) : Prop :=
  standard (ConsciousEntity.brain e) /\
  (ConsciousEntity.lastActionIndex e < 5)%nat /\
  (0 <= ConsciousEntity.age e)%Z /\
  (0 <= ConsciousEntity.totalEnergyGained e)%Z /\
  (0 <= ConsciousEntity.fitness e)%Z.

(** The same entity object, whose brain may since have lent its random
    generator to a mutation: everything is equal but the generator cache
    of the brain. *)
Definition same_individual (e e' : ConsciousEntity.Entity) : Prop :=
  exists own,
    NeuralNetwork.layers own = NeuralNetwork.layers (ConsciousEntity.brain e) /\
    e' = ConsciousEntity.set_brain own e.

(** ** Populations *)

Section Roster.
Context {rt : Runtime}.
Import ConsciousEntity PopulationManager.

(** [child] is a mutated offspring of [parent]: a newly constructed entity
    (energy 100, age 0, no memory) whose brain is the result of
    [parent.brain.mutate(rate, strength)]. *)
Definition offspring (rate strength : Q) (parent child : Entity) : Prop :=
  exists h1 own h2,
    NeuralNetwork.mutate rate strength (brain parent) h1
      = Returned (brain child, own) h2 /\
    energy child = 100%Q /\ age child = 0%Z /\ fitness child = 0%Z /\
    totalEnergyGained child = 0%Z /\ memory child = [].

(** [fresh] is a newly and randomly constructed entity. *)
Definition newcomer (n : Z) (fresh : Entity) : Prop :=
  exists h1 h2, constructor None None None n h1 = Returned fresh h2.

(** [parent], in slot [j], is the living entity of the roster with the
    highest fitness, the first of them in the order of the slots. *)
Definition fittest_living (roster : list Entity) (j : nat) (parent : Entity) : Prop :=
  roster !! j = Some parent /\ is_living parent = true /\
  forall k e, roster !! k = Some e -> is_living e = true ->
    (fitness e <= fitness parent)%Z /\ (fitness e = fitness parent -> (j <= k)%nat).

(** The state of the loop of [update] when it reaches slot [k]. *)
Definition reaching (now : Z) (k : nat) (p : Population) (w : WorldPhysics.World)
  : Run Loop :=
  for_each_run (seq 0 k) (update_slot now)
    {| loop_population := p; loop_world := w;
       loop_living := take_snapshot (entities p) |}.

(** What the loop of [update] does at slot [i]: [st] is the state on
    reaching the slot, at host state [h], and [st'] the state after it. *)
Definition slot_outcome (now : Z) (i : nat) (st : Loop) (h : Host) (st' : Loop)
  : Prop :=
  let p := loop_population st in
  let p' := loop_population st' in
  exists entity, entities p !! i = Some entity /\
    (is_living entity = false -> st' = st) /\
    (is_living entity = true ->
       exists survived entity' w1 h1,
         ConsciousEntity.update (loop_world st)
           (view (entities p) i (loop_living st)) now entity h
           = Returned (survived, entity', w1) h1 /\
         survived = is_living entity' /\
         let roster := <[i := entity']> (entities p) in
         (survived = true ->
            entities p' = roster /\
            generation p' = generation p /\ totalDeaths p' = totalDeaths p) /\
         (survived = false ->
            generation p' = (generation p + 1)%Z /\
            totalDeaths p' = (totalDeaths p + 1)%Z /\
            match findBestLivingEntity roster with
            | Some (j, parent) =>
                fittest_living roster j parent /\ j <> i /\
                exists child parent',
                  offspring (mutationRate p) (mutationStrength p) parent child /\
                  same_individual parent parent' /\
                  entities p' = <[i := child]> (<[j := parent']> roster)
            | None =>
                (forall k e, roster !! k = Some e -> is_living e = false) /\
                exists fresh,
                  newcomer (pop_gridSize p) fresh /\
                  entities p' = <[i := fresh]> roster
            end)).

(** The populations a host can hold when it asked for [size] entities. *)
Inductive reachable_population (size : nat) : Population -> Prop :=
| population_new n h p h' :
    new size n h = Returned p h' -> reachable_population size p
| population_reset p h p' h' :
    reachable_population size p -> reset p h = Returned p' h' ->
    reachable_population size p'
| population_update p w now h p' w' h' :
    reachable_population size p ->
    PopulationManager.update w now p h = Returned (p', w') h' ->
    reachable_population size p'
| population_forceEvolution p h p' h' :
    reachable_population size p -> forceEvolution p h = Returned p' h' ->
    reachable_population size p'.

End Roster.

(** The best fitness on record is the fitness of the snapshot kept with
    it; without a snapshot it is 0. *)
Definition snapshot_consistent (p : PopulationManager.Population) : Prop :=
  match PopulationManager.allTimeBest p with
  | Some snapshot =>
      ConsciousEntity.fitness snapshot = PopulationManager.bestFitness p
  | None => PopulationManager.bestFitness p = 0%Z
  end.

(** From [p] to [p'] the counters of deaths and births have moved
    together, the best fitness on record has not fallen, and the
    configuration is unchanged. *)
Definition counters_advance (p p' : PopulationManager.Population) : Prop :=
  (PopulationManager.generation p <= PopulationManager.generation p')%Z /\
  (PopulationManager.generation p' - PopulationManager.generation p
   = PopulationManager.totalDeaths p' - PopulationManager.totalDeaths p)%Z /\
  (PopulationManager.bestFitness p <= PopulationManager.bestFitness p')%Z /\
  PopulationManager.populationSize p' = PopulationManager.populationSize p /\
  PopulationManager.pop_gridSize p' = PopulationManager.pop_gridSize p /\
  PopulationManager.mutationRate p' = PopulationManager.mutationRate p /\
  PopulationManager.mutationStrength p' = PopulationManager.mutationStrength p /\
  PopulationManager.generationStats p' = PopulationManager.generationStats p.

(** Every slot of a roster holds a living entity. *)
Definition all_living (es : list ConsciousEntity.Entity) : Prop :=
  Forall (fun e => PopulationManager.is_living e = true) es.

(** ** Magnitudes *)

(** A magnitude at which the sums of a network of the standard
    architecture stay far from the overflow threshold. *)
Definition magnitude_limit : Q := inject_Z (10 ^ 30).

Definition moderate (v : Q) : Prop := (Qabs v <= magnitude_limit)%Q.

(** Every weight and bias of the network is of moderate magnitude. *)
Definition moderate_network (net : NeuralNetwork.Network) : Prop :=
  Forall (fun l => Forall (Forall moderate) (NeuralNetwork.weights l) /\
                   Forall moderate (NeuralNetwork.biases l))
         (NeuralNetwork.layers net).

(** The largest magnitude of a neuron with [inputs] inputs of magnitude
    at most [A], when weights and bias are of magnitude at most [B]. *)
Definition neuron_bound (B : Q) (inputs : nat) (A : Q) : Q :=
  (B + inject_Z (Z.of_nat inputs) * (B * A))%Q.

(** Through layers of the given sizes no neuron can reach the overflow
    threshold. *)
Fixpoint stays_in_range (B : Q) (previous : nat) (sizes : list nat) (A : Q)
  : Prop :=
  match sizes with
  | [] => True
  | size :: sizes' =>
      (neuron_bound B previous A < overflow_threshold)%Q /\
      stays_in_range B size sizes' (neuron_bound B previous A)
  end.

(** The largest magnitude the activation of the last of these layers
    can have. *)
Fixpoint activation_bound (B : Q) (previous : nat) (sizes : list nat) (A : Q)
  : Q :=
  match sizes with
  | [] => A
  | size :: sizes' => activation_bound B size sizes' (neuron_bound B previous A)
  end.

(** C6 as the claim words it: for every input of the correct size the
    outputs are five numbers whose sum is within 1e-6 of 1. *)
Definition always_sums_to_one : Prop :=
  forall (rt : Runtime) (net : NeuralNetwork.Network) (input : list Q),
    has_architecture 542 [256; 128; 64]%nat 5 net ->
    length input = 542%nat ->
    exists probs,
      NeuralNetwork.forward net input = map Finite probs /\
      length probs = 5%nat /\
      (Qabs (NeuralNetwork.sum_list probs - 1) <= 0.000001)%Q.

(** ** A host and a small world to run the definitions on *)

Module Sample.

(** 0 is not above 1, in the form the order of [Q] unfolds to. *)
Definition Z_compare_0_1 (H : (0 ?= 1)%Z = Gt) : False :=
  eq_ind Lt (fun c => match c with Gt => False | _ => True end) I Gt H.

(** A host whose random generator always answers one half and whose
    transcendental functions are constant. *)
Definition steady : Runtime := {|
  random_value := fun _ => 1 # 2;
  random_range := fun _ => conj (fun H => Z_compare_0_1 H) eq_refl;
  clock_value := fun n => Z.of_nat n;
  Math_PI := 3;
  Math_sin := fun _ => 0%Q;
  Math_cos := fun _ => 1%Q;
  Math_exp := fun _ => 1%Q;
  Math_log := fun _ => 0%Q;
  Math_sqrt := fun _ => 0%Q;
  Math_exp_0 := fun _ _ => eq_refl;
  Math_exp_nonneg := fun _ H => Z_compare_0_1 H;
  toString36 := fun _ => "i"%string;
  spin_limit := 1
|}.

Definition start : Host := {| randoms_drawn := 0; clock_reads := 0 |}.

(** A host whose random generator always answers one fifth and whose
    exponential has two values: one half below 0, and 1 from 0 on. *)
Definition coarse : Runtime.
Proof.
  refine {|
    random_value := fun _ => 1 # 5;
    random_range := fun _ => conj (fun H => Z_compare_0_1 H) eq_refl;
    clock_value := fun n => Z.of_nat n;
    Math_PI := 3;
    Math_sin := fun _ => 0%Q;
    Math_cos := fun _ => 1%Q;
    Math_exp := fun v => if Qlt_le_dec v 0 then (1 # 2)%Q else 1%Q;
    Math_log := fun _ => 0%Q;
    Math_sqrt := fun _ => 0%Q;
    Math_exp_0 := _;
    Math_exp_nonneg := _;
    toString36 := fun _ => "i"%string;
    spin_limit := 1
  |}.
  - intros v Hv. destruct (Qlt_le_dec v 0) as [Hneg|_]; [|reflexivity].
    exfalso. rewrite Hv in Hneg. exact (Qlt_irrefl 0 Hneg).
  - intros v. destruct (Qlt_le_dec v 0); discriminate.
Defined.

Import WorldPhysics.

Definition core_at (cx cy : Z) (s : CoreState) (i : Z) : Core :=
  {| x := cx; y := cy; state := s; incubationTime := 0; bloomTime := 6;
     temperatureExposure := 0; consecutiveHighTemp := 5; id := i;
     moveAfterTick := None |}.

Definition energy_at (cx cy : Z) (i : Z) : Energy :=
  {| energy_x := cx; energy_y := cy; createdAt := 6; active := true;
     coreId := i |}.

(** Two bloomed cores on the same cell of a 2 by 2 world, each with its
    energy manifestation, and a third energy elsewhere. *)
Definition crowded : World :=
  {| gridSize := 2; tick := 7; phase := emit;
     temperature := zero_grid 2; catalyserLower := zero_grid 2;
     cores := [core_at 1 1 bloomed 0; core_at 1 1 bloomed 1; core_at 0 1 bloomed 2];
     energies := [energy_at 0 1 2; energy_at 1 1 0; energy_at 1 1 1];
     catalyserUpper := zero_grid 2 |}.

(** The world built at size 2 by the steady host: its fifty cores all
    sit on cell (1,1). *)
Definition newborn : World := fst (constructor (rt := steady) 2 start).

(** The world built at size 1 by the steady host, and the world it has
    become after five steps, when its cores have bloomed. *)
Definition seedling : World := fst (constructor (rt := steady) 1 start).

Definition stepped (w : World) : World := fst (step (rt := steady) w start).

Definition sprouted : World :=
  stepped (stepped (stepped (stepped (stepped seedling)))).

(** Rounds in which nothing is eaten. *)
Definition quiet : nat -> Round :=
  fun _ => {| host_state := start; meals := [] |}.

Definition newborn_core : Core :=
  {| x := 1; y := 1; state := dormant; incubationTime := 0; bloomTime := 0;
     temperatureExposure := 0; consecutiveHighTemp := 0; id := 0;
     moveAfterTick := None |}.

(** A layer, and the network of the standard architecture, with every
    weight and bias 0. *)
Definition blank_layer (inputs outputs : nat) : NeuralNetwork.Layer :=
  {| NeuralNetwork.weights := replicate outputs (replicate inputs 0%Q);
     NeuralNetwork.biases := replicate outputs 0%Q |}.

Definition blank_brain : NeuralNetwork.Network :=
  {| NeuralNetwork.layers :=
       [blank_layer 542 256; blank_layer 256 128; blank_layer 128 64;
        blank_layer 64 5];
     NeuralNetwork.hasSpareGaussian := false;
     NeuralNetwork.spareGaussian := 0 |}.

(** The blank network with one weight of 10, from the first input to the
    first neuron, and an input whose first entry is 1e308. *)
Definition loud_layer : NeuralNetwork.Layer :=
  {| NeuralNetwork.weights :=
       (10%Q :: replicate 541 0%Q) :: replicate 255 (replicate 542 0%Q);
     NeuralNetwork.biases := replicate 256 0%Q |}.

Definition loud_brain : NeuralNetwork.Network :=
  {| NeuralNetwork.layers :=
       [loud_layer; blank_layer 256 128; blank_layer 128 64; blank_layer 64 5];
     NeuralNetwork.hasSpareGaussian := false;
     NeuralNetwork.spareGaussian := 0 |}.

Definition huge_input : list Q := inject_Z (10 ^ 308) :: replicate 541 0%Q.

(** Serialized data with two layers, the first of 2 neurons with 3 inputs,
    under an architecture record that declares one layer of 1 neuron with
    1 input. *)
Definition wide_layer : NeuralNetwork.Layer :=
  {| NeuralNetwork.weights := [[1; 2; 3]; [4; 5; 6]]%Q;
     NeuralNetwork.biases := [7; 8]%Q |}.

Definition narrow_layer : NeuralNetwork.Layer :=
  {| NeuralNetwork.weights := [[9]]%Q; NeuralNetwork.biases := [10]%Q |}.

Definition surplus : NeuralNetwork.Serialized :=
  {| NeuralNetwork.data_layers := Some [wide_layer; narrow_layer];
     NeuralNetwork.data_architecture :=
       Some {| NeuralNetwork.arch_layers := 1;
               NeuralNetwork.structure :=
                 [ {| NeuralNetwork.neurons := 1; NeuralNetwork.inputs := 1;
                      NeuralNetwork.info_weights := 1;
                      NeuralNetwork.info_biases := 1;
                      NeuralNetwork.parameters := 2 |} ];
               NeuralNetwork.totalParameters := 2 |};
     NeuralNetwork.version := "1.0";
     NeuralNetwork.serializedAt := 0 |}.

(** A network of two layers, 3 to 2 to 1. *)
Definition small_brain : NeuralNetwork.Network :=
  {| NeuralNetwork.layers :=
       [wide_layer;
        {| NeuralNetwork.weights := [[1 # 2; -1 # 3]]%Q;
           NeuralNetwork.biases := [1 # 4]%Q |}];
     NeuralNetwork.hasSpareGaussian := true;
     NeuralNetwork.spareGaussian := 1 # 5 |}.

(** A single layer of five neurons that ignores its 542 inputs. *)
Definition flat_brain : NeuralNetwork.Network :=
  {| NeuralNetwork.layers := [blank_layer 542 5];
     NeuralNetwork.hasSpareGaussian := false;
     NeuralNetwork.spareGaussian := 0 |}.

(** A hungry entity with that brain on cell (0,0). *)
Definition hungry : ConsciousEntity.Entity :=
  {| ConsciousEntity.x := 0; ConsciousEntity.y := 0;
     ConsciousEntity.gridSize := 2; ConsciousEntity.energy := 10;
     ConsciousEntity.age := 3; ConsciousEntity.totalEnergyGained := 0;
     ConsciousEntity.fitness := 3; ConsciousEntity.brain := flat_brain;
     ConsciousEntity.vision := []; ConsciousEntity.memory := [];
     ConsciousEntity.memoryCapacity := 50;
     ConsciousEntity.recentOutcomes := [];
     ConsciousEntity.lastTotalEnergy := 0;
     ConsciousEntity.lastAction := "stay";
     ConsciousEntity.lastActionIndex := 4;
     ConsciousEntity.id := "hungry" |}.

Definition incubating_core : Core :=
  {| x := 1; y := 1; state := incubated; incubationTime := 0; bloomTime := 0;
     temperatureExposure := 0; consecutiveHighTemp := 1; id := 0;
     moveAfterTick := None |}.

(** An entity of the standard architecture with the given energy. *)
Definition with_energy (level : Q) (name : string) : ConsciousEntity.Entity :=
  {| ConsciousEntity.x := 0; ConsciousEntity.y := 0;
     ConsciousEntity.gridSize := 2; ConsciousEntity.energy := level;
     ConsciousEntity.age := 3; ConsciousEntity.totalEnergyGained := 0;
     ConsciousEntity.fitness := 3; ConsciousEntity.brain := blank_brain;
     ConsciousEntity.vision := []; ConsciousEntity.memory := [];
     ConsciousEntity.memoryCapacity := 50;
     ConsciousEntity.recentOutcomes := [];
     ConsciousEntity.lastTotalEnergy := 0;
     ConsciousEntity.lastAction := "stay";
     ConsciousEntity.lastActionIndex := 4;
     ConsciousEntity.id := name |}.

(** A population of two: an entity on its last half unit of energy, and a
    well fed one. *)
Definition pair : PopulationManager.Population :=
  {| PopulationManager.populationSize := 2;
     PopulationManager.pop_gridSize := 2;
     PopulationManager.entities :=
       [with_energy (1 # 2) "starving"; with_energy 50 "fed"];
     PopulationManager.generation := 0;
     PopulationManager.totalDeaths := 0;
     PopulationManager.bestFitness := 0;
     PopulationManager.allTimeBest := None;
     PopulationManager.mutationRate := 1 # 10;
     PopulationManager.mutationStrength := 1 # 10;
     PopulationManager.generationStats := [] |}.

End Sample.

(** * Properties *)

(** ** Loops and grids *)

Section LoopFacts.
Context {A S : Type}.

(** A property kept by the body of a loop is kept by the loop. *)
Lemma for_each_invariant (I : S -> Prop) (l : list A) (body : A -> S -> S) s :
  I s -> (forall a s, In a l -> I s -> I (body a s)) -> I (for_each l body s).
Proof.
  unfold for_each. revert s.
  induction l as [|a l IH]; intros s Hs Hbody; simpl; [exact Hs|].
  apply IH.
  - apply Hbody; [now left | exact Hs].
  - intros b s' Hb. apply Hbody. now right.
Qed.

Lemma for_each_rand_invariant (I : S -> Prop) (l : list A)
    (body : A -> S -> Rand S) s h :
  I s -> (forall a s h, In a l -> I s -> I (fst (body a s h))) ->
  I (fst (for_each_rand l body s h)).
Proof.
  revert s h.
  induction l as [|a l IH]; intros s h Hs Hbody; simpl; [exact Hs|].
  unfold bind. specialize (Hbody a s h) as Ha.
  destruct (body a s h) as [s' h']. simpl in Ha.
  apply IH.
  - apply Ha; [now left | exact Hs].
  - intros b s'' h'' Hb. apply Hbody. now right.
Qed.
End LoopFacts.

Section GridFacts.
Variable P : Q -> Prop.

Lemma grid_all_zero n : P 0%Q -> grid_all P (zero_grid n).
Proof.
  intros H0. unfold grid_all, zero_grid.
  apply Forall_replicate, Forall_replicate, H0.
Qed.

Lemma grid_all_cell g cx cy : P 0%Q -> grid_all P g -> P (cell g cx cy).
Proof.
  intros H0 Hg. unfold cell.
  destruct (at_index g cx) as [row|] eqn:Hrow; [|exact H0].
  destruct (at_index row cy) as [v|] eqn:Hv; [|exact H0].
  unfold at_index in Hrow, Hv.
  destruct (cx <? 0)%Z; [discriminate|].
  destruct (cy <? 0)%Z; [discriminate|].
  eapply Forall_lookup_1 in Hrow; [|exact Hg].
  eapply Forall_lookup_1 in Hv; [|exact Hrow]. exact Hv.
Qed.

Lemma grid_all_set_cell g cx cy v : P v -> grid_all P g -> grid_all P (set_cell g cx cy v).
Proof.
  intros Hv Hg. unfold set_cell.
  destruct ((cx <? 0)%Z || (cy <? 0)%Z); [exact Hg|].
  unfold grid_all. apply Forall_alter; [exact Hg|].
  intros row Hrow Hin. apply Forall_insert; assumption.
Qed.
End GridFacts.

Lemma grid_all_weaken (P R : Q -> Prop) g :
  (forall v, P v -> R v) -> grid_all P g -> grid_all R g.
Proof.
  intros HPR Hg. unfold grid_all in *.
  eapply Forall_impl; [exact Hg|]. intros row Hrow.
  eapply Forall_impl; [exact Hrow|]. exact HPR.
Qed.

Lemma set_cell_twice g cx cy v1 v2 :
  set_cell (set_cell g cx cy v1) cx cy v2 = set_cell g cx cy v2.
Proof.
  unfold set_cell. destruct ((cx <? 0)%Z || (cy <? 0)%Z); [reflexivity|].
  rewrite list_alter_alter_eq. apply list_alter_ext; [|reflexivity].
  intros row _. simpl. apply list_insert_insert_eq.
Qed.

Lemma grid_shaped_zero n : grid_shaped n (zero_grid n).
Proof.
  unfold grid_shaped, zero_grid. split.
  - apply length_replicate.
  - apply Forall_replicate, length_replicate.
Qed.

Lemma grid_shaped_set_cell n g cx cy v :
  grid_shaped n g -> grid_shaped n (set_cell g cx cy v).
Proof.
  intros [Hlen Hrows]. unfold set_cell.
  destruct ((cx <? 0)%Z || (cy <? 0)%Z); [split; assumption|].
  split.
  - rewrite length_alter. exact Hlen.
  - apply Forall_alter; [exact Hrows|].
    intros row Hrow Hin. rewrite length_insert. exact Hin.
Qed.

Lemma clamp01_range v : (0 <= clamp01 v /\ clamp01 v <= 1)%Q.
Proof.
  unfold clamp01, Math_max, Math_min.
  destruct (Qlt_le_dec v 1); destruct (Qlt_le_dec 0 _); lra.
Qed.

(** ** WorldPhysics: sensing and feeding *)

Section Feeding.
Import WorldPhysics.
Context {rt : Runtime}.

Lemma scheduleCoreMovement_energies coreId delay w :
  energies (scheduleCoreMovement coreId delay w) = energies w.
Proof.
  unfold scheduleCoreMovement.
  destruct (list_find _ (cores w)) as [[k c]|]; reflexivity.
Qed.

Lemma filter_delete_match {A} (P : A -> Prop) `{forall a, Decision (P a)}
    (l : list A) k a :
  l !! k = Some a -> P a ->
  length (filter P (delete k l)) = (length (filter P l) - 1)%nat.
Proof.
  revert k. induction l as [|b l IH]; intros k Hk Ha; [discriminate|].
  destruct k as [|k]; simpl in *.
  - injection Hk as ->. rewrite filter_cons_True by assumption.
    simpl. lia.
  - destruct (decide (P b)).
    + rewrite !filter_cons_True by assumption. simpl.
      rewrite (IH k Hk Ha).
      assert (1 <= length (filter P l))%nat; [|lia].
      clear IH. revert k Hk. induction l as [|c l IHl]; intros k Hk; [discriminate|].
      destruct k as [|k]; simpl in Hk.
      * injection Hk as ->. rewrite filter_cons_True by assumption. simpl. lia.
      * destruct (decide (P c)).
        -- rewrite filter_cons_True by assumption. simpl. lia.
        -- rewrite filter_cons_False by assumption. eauto.
    + rewrite !filter_cons_False by assumption. eauto.
Qed.

(** C10.  When two or more active energy manifestations lie on the cell
    [(px, py)], [consumeEnergy] returns 10 and removes the earliest of them
    and nothing else: the list of energies afterwards is the old list with
    that one position deleted, so one match fewer remains.  Only the core
    of that energy is scheduled: the first core whose id is the energy's
    [coreId] gets [moveAfterTick = tick + 3], every other core, and every
    other field of the world, is unchanged. *)
Theorem consumeEnergy_takes_earliest (w : World) (px py : Z) :
  (2 <= length (filter (edible px py) (energies w)))%nat ->
  exists (k : nat) (e : Energy),
    energies w !! k = Some e /\ edible px py e /\
    (forall j e', energies w !! j = Some e' -> (j < k)%nat -> ~ edible px py e') /\
    fst (consumeEnergy px py w) = 10%Z /\
    energies (snd (consumeEnergy px py w)) = delete k (energies w) /\
    length (filter (edible px py) (energies (snd (consumeEnergy px py w))))
      = (length (filter (edible px py) (energies w)) - 1)%nat /\
    (forall j c, list_find (fun c => id c = coreId e) (cores w) = Some (j, c) ->
       cores (snd (consumeEnergy px py w)) !! j
         = Some (set_moveAfterTick (Some (tick w + 3)%Z) c)) /\
    (forall j c, cores w !! j = Some c ->
       list_find (fun c => id c = coreId e) (cores w) <> Some (j, c) ->
       cores (snd (consumeEnergy px py w)) !! j = Some c) /\
    length (cores (snd (consumeEnergy px py w))) = length (cores w) /\
    tick (snd (consumeEnergy px py w)) = tick w /\
    phase (snd (consumeEnergy px py w)) = phase w /\
    temperature (snd (consumeEnergy px py w)) = temperature w /\
    catalyserLower (snd (consumeEnergy px py w)) = catalyserLower w /\
    catalyserUpper (snd (consumeEnergy px py w)) = catalyserUpper w.
Proof.
  intros Htwo.
  destruct (list_find (edible px py) (energies w)) as [[k e]|] eqn:Hfind.
  - pose proof Hfind as Hspec. apply list_find_Some in Hspec.
    destruct Hspec as (Hk & He & Hfirst).
    exists k, e. unfold consumeEnergy. rewrite Hfind. simpl.
    rewrite scheduleCoreMovement_energies.
    assert (Hsame : forall (A : Type) (f : World -> A),
               (forall cs v, f (set_cores cs v) = f v) ->
               f (scheduleCoreMovement (coreId e) 3 w) = f w).
    { intros A f Hf. unfold scheduleCoreMovement.
      destruct (list_find _ (cores w)) as [[i c0]|]; [apply Hf | reflexivity]. }
    split_and!; try assumption; try reflexivity.
    + apply (filter_delete_match _ _ k e); assumption.
    + intros j c Hj. unfold scheduleCoreMovement. rewrite Hj. simpl.
      apply list_find_Some in Hj. destruct Hj as (Hj & _ & _).
      rewrite list_lookup_alter_eq, Hj. reflexivity.
    + intros j c Hj Hne. unfold scheduleCoreMovement.
      destruct (list_find _ (cores w)) as [[i c0]|] eqn:Hc; simpl; [|exact Hj].
      destruct (decide (i = j)) as [->|Hij].
      * exfalso. apply Hne. apply list_find_Some in Hc.
        destruct Hc as (Hc & _). congruence.
      * rewrite list_lookup_alter_ne by exact Hij. exact Hj.
    + unfold scheduleCoreMovement.
      destruct (list_find _ (cores w)) as [[i c0]|]; simpl; [|reflexivity].
      apply length_alter.
    + apply (Hsame _ tick). reflexivity.
    + apply (Hsame _ phase). reflexivity.
    + apply (Hsame _ temperature). reflexivity.
    + apply (Hsame _ catalyserLower). reflexivity.
    + apply (Hsame _ catalyserUpper). reflexivity.
  - exfalso. apply list_find_None in Hfind.
    destruct (filter (edible px py) (energies w)) as [|a l] eqn:Hf; [simpl in Htwo; lia|].
    assert (Ha : a ∈ filter (edible px py) (energies w)) by (rewrite Hf; left).
    apply list_elem_of_filter in Ha. destruct Ha as [Ha Hin].
    rewrite Forall_forall in Hfind. apply (Hfind a); assumption.
Qed.

(** At the crowded world the earliest match on cell (1,1) is taken. *)
Lemma consumeEnergy_takes_earliest_witness :
  (2 <= length (filter (edible 1 1) (energies Sample.crowded)))%nat /\
  exists (k : nat) (e : Energy),
    energies Sample.crowded !! k = Some e /\ edible 1 1 e /\
    (forall j e', energies Sample.crowded !! j = Some e' -> (j < k)%nat ->
                  ~ edible 1 1 e') /\
    fst (consumeEnergy 1 1 Sample.crowded) = 10%Z /\
    energies (snd (consumeEnergy 1 1 Sample.crowded))
      = delete k (energies Sample.crowded) /\
    length (filter (edible 1 1) (energies (snd (consumeEnergy 1 1 Sample.crowded))))
      = (length (filter (edible 1 1) (energies Sample.crowded)) - 1)%nat /\
    (forall j c, list_find (fun c => id c = coreId e) (cores Sample.crowded) = Some (j, c) ->
       cores (snd (consumeEnergy 1 1 Sample.crowded)) !! j
         = Some (set_moveAfterTick (Some (tick Sample.crowded + 3)%Z) c)) /\
    (forall j c, cores Sample.crowded !! j = Some c ->
       list_find (fun c => id c = coreId e) (cores Sample.crowded) <> Some (j, c) ->
       cores (snd (consumeEnergy 1 1 Sample.crowded)) !! j = Some c) /\
    length (cores (snd (consumeEnergy 1 1 Sample.crowded)))
      = length (cores Sample.crowded) /\
    tick (snd (consumeEnergy 1 1 Sample.crowded)) = tick Sample.crowded /\
    phase (snd (consumeEnergy 1 1 Sample.crowded)) = phase Sample.crowded /\
    temperature (snd (consumeEnergy 1 1 Sample.crowded)) = temperature Sample.crowded /\
    catalyserLower (snd (consumeEnergy 1 1 Sample.crowded))
      = catalyserLower Sample.crowded /\
    catalyserUpper (snd (consumeEnergy 1 1 Sample.crowded))
      = catalyserUpper Sample.crowded.
Proof.
  split.
  - vm_compute. lia.
  - apply (consumeEnergy_takes_earliest Sample.crowded 1 1). vm_compute. lia.
Defined.

(** C9.  For coordinates outside the grid, whatever the distance and the
    observer's energy, [getRawPhysicalProperties] returns the reading whose
    five fields and confidence are 0; it returns at once, without reading
    the grids and without drawing a random number. *)
Theorem getRawPhysicalProperties_out_of_bounds
    (w : World) (px py distance : Z) (observerEnergy : Q) (h : Host) :
  (px < 0 \/ gridSize w <= px \/ py < 0 \/ gridSize w <= py)%Z ->
  getRawPhysicalProperties w px py distance observerEnergy h
  = ({| field1 := 0; field2 := 0; field3 := 0; field4 := 0; field5 := 0;
        confidence := 0 |}, h).
Proof.
  intros Hout. unfold getRawPhysicalProperties.
  assert (out_of_bounds w px py = true) as ->; [|reflexivity].
  unfold out_of_bounds.
  destruct Hout as [H | [H | [H | H]]].
  - apply Z.ltb_lt in H. rewrite H. reflexivity.
  - apply Z.leb_le in H. rewrite H. apply orb_true_iff. left.
    apply orb_true_iff. left. apply orb_true_r.
  - apply Z.ltb_lt in H. rewrite H. apply orb_true_iff. left. apply orb_true_r.
  - apply Z.leb_le in H. rewrite H. apply orb_true_r.
Qed.

End Feeding.

(** A reading one cell to the left of the crowded world. *)
Lemma getRawPhysicalProperties_out_of_bounds_witness :
  (-1 < 0 \/ WorldPhysics.gridSize Sample.crowded <= -1 \/ 0 < 0
   \/ WorldPhysics.gridSize Sample.crowded <= 0)%Z /\
  WorldPhysics.getRawPhysicalProperties (rt := Sample.steady)
    Sample.crowded (-1) 0 3 40 Sample.start
  = ({| WorldPhysics.field1 := 0; WorldPhysics.field2 := 0;
        WorldPhysics.field3 := 0; WorldPhysics.field4 := 0;
        WorldPhysics.field5 := 0; WorldPhysics.confidence := 0 |}, Sample.start).
Proof.
  split.
  - left. lia.
  - apply (getRawPhysicalProperties_out_of_bounds (rt := Sample.steady)). left. lia.
Defined.

(** ** WorldPhysics: the ranges of the fields *)

Section FieldRanges.
Import WorldPhysics.
Context {rt : Runtime}.
Local Open Scope Q_scope.

Lemma unit_interval_0 : unit_interval 0.
Proof. unfold unit_interval. lra. Qed.

Lemma nonnegative_0 : nonnegative 0.
Proof. unfold nonnegative. lra. Qed.

Lemma at_most_two_0 : at_most_two 0.
Proof. unfold at_most_two. lra. Qed.

Lemma generateTemperatureField_range n h :
  grid_all unit_interval (fst (generateTemperatureField n h)).
Proof.
  unfold generateTemperatureField.
  apply for_each_rand_invariant; [apply grid_all_zero, unit_interval_0|].
  intros cx g h1 _ Hg.
  apply for_each_rand_invariant; [exact Hg|].
  intros cy g' h2 _ Hg'. simpl.
  apply grid_all_set_cell; [|exact Hg'].
  apply clamp01_range.
Qed.

Lemma random_catalyser_range n h :
  grid_all at_most_two (fst (random_catalyser n h)).
Proof.
  unfold random_catalyser.
  apply for_each_rand_invariant; [apply grid_all_zero, at_most_two_0|].
  intros cx g h1 _ Hg.
  apply for_each_rand_invariant; [exact Hg|].
  intros cy g' h2 _ Hg'. simpl.
  apply grid_all_set_cell; [|exact Hg'].
  pose proof (random_range (randoms_drawn h2)) as [Hlo Hhi].
  unfold at_most_two. lra.
Qed.

Lemma constructor_fields n h :
  fields_in_range (fst (constructor n h)).
Proof.
  unfold constructor, bind.
  pose proof (generateTemperatureField_range n h) as Ht.
  destruct (generateTemperatureField n h) as [t h1].
  pose proof (random_catalyser_range n h1) as Hu.
  destruct (random_catalyser n h1) as [up h2].
  destruct (initializeCores n h2) as [cs h3]. simpl in *.
  split; [exact Ht|]. split; [|exact Hu].
  apply grid_all_zero, nonnegative_0.
Qed.

Lemma reset_fields w h :
  fields_in_range (fst (reset w h)).
Proof.
  unfold reset, bind.
  pose proof (generateTemperatureField_range (gridSize w) h) as Ht.
  destruct (generateTemperatureField (gridSize w) h) as [t h1].
  pose proof (random_catalyser_range (gridSize w) h1) as Hu.
  destruct (random_catalyser (gridSize w) h1) as [up h2].
  destruct (initializeCores (gridSize w) h2) as [cs h3]. simpl in *.
  split; [exact Ht|]. split; [|exact Hu].
  apply grid_all_zero, nonnegative_0.
Qed.

Lemma shifted_range n old :
  grid_all unit_interval old -> grid_all unit_interval (shifted n old).
Proof.
  intros Hold. unfold shifted.
  apply for_each_invariant; [apply grid_all_zero, unit_interval_0|].
  intros cx g _ Hg.
  apply for_each_invariant; [exact Hg|].
  intros cy g' _ Hg'.
  apply grid_all_set_cell; [|exact Hg'].
  apply grid_all_cell; [apply unit_interval_0 | exact Hold].
Qed.

Lemma diffuse_cell_range n cx cy g h :
  grid_all unit_interval g -> grid_all unit_interval (fst (diffuse_cell n cx cy g h)).
Proof.
  intros Hg. unfold diffuse_cell.
  destruct (neighbours8 n g cx cy) as [neighborSum neighborCount]. simpl.
  apply grid_all_set_cell; [|exact Hg].
  apply clamp01_range.
Qed.

Lemma shiftTemperature_temperature w h :
  grid_all unit_interval (temperature w) ->
  grid_all unit_interval (temperature (fst (shiftTemperature w h))).
Proof.
  intros Hw. unfold shiftTemperature, bind.
  match goal with
  | |- context [for_each_rand ?l ?b ?s h] =>
      pose proof (for_each_rand_invariant (grid_all unit_interval) l b s h) as Hloop;
      destruct (for_each_rand l b s h) as [g h1]
  end.
  simpl in *. apply Hloop; [apply shifted_range, Hw|].
  intros cx g0 h0 _ Hg0.
  apply for_each_rand_invariant; [exact Hg0|].
  intros cy g1 h2 _ Hg1. apply diffuse_cell_range, Hg1.
Qed.

Lemma shiftTemperature_others w h :
  catalyserLower (fst (shiftTemperature w h)) = catalyserLower w /\
  catalyserUpper (fst (shiftTemperature w h)) = catalyserUpper w.
Proof.
  unfold shiftTemperature, bind.
  destruct (for_each_rand _ _ _ h) as [g h1]. split; reflexivity.
Qed.

Lemma emitPhase_fields w :
  fields_in_range w -> fields_in_range (emitPhase w).
Proof.
  intros (Ht & Hlo & Hup). unfold emitPhase.
  match goal with
  | |- context [for_each ?l ?b ?s] =>
      pose proof (for_each_invariant
                    (fun st => grid_all nonnegative (fst st)
                               /\ grid_all at_most_two (snd st)) l b s) as Hloop;
      destruct (for_each l b s) as [lo up]
  end.
  simpl in Hloop. destruct Hloop as [Hlo' Hup'].
  - split; assumption.
  - intros cx st _ Hst.
    apply for_each_invariant; [exact Hst|].
    intros cy [lo1 up1] _ [Hlo1 Hup1]. simpl in *.
    pose proof (grid_all_cell _ lo1 cx cy nonnegative_0 Hlo1) as Hc1.
    pose proof (grid_all_cell _ up1 cx cy at_most_two_0 Hup1) as Hc2.
    unfold nonnegative, at_most_two in Hc1, Hc2.
    split; apply grid_all_set_cell; try assumption.
    + unfold nonnegative. lra.
    + unfold at_most_two. lra.
  - split; [exact Ht|]. split; assumption.
Qed.

Lemma block_densities_nonneg n up cx cy :
  grid_all nonnegative up ->
  Forall (fun nb => 0 <= snd nb) (block_densities n up cx cy).
Proof.
  intros Hup. unfold block_densities.
  apply for_each_invariant; [constructor|].
  intros dx acc _ Hacc.
  apply for_each_invariant; [exact Hacc|].
  intros dy acc' _ Hacc'.
  destruct (_ && _); [|exact Hacc'].
  apply Forall_app. split; [exact Hacc'|].
  constructor; [|constructor]. simpl.
  apply (grid_all_cell nonnegative); [apply nonnegative_0 | exact Hup].
Qed.

Lemma share_nonneg (current density total : Q) :
  0 < current -> 0 <= density -> 0 < total -> 0 <= current * (density / total).
Proof.
  intros Hc Hd Ht. apply Qmult_le_0_compat; [lra|].
  unfold Qdiv. apply Qmult_le_0_compat; [exact Hd|].
  apply Qlt_le_weak, Qinv_lt_0_compat, Ht.
Qed.

Lemma collect_cell_nonneg n up cx cy st :
  grid_all nonnegative up ->
  grid_all nonnegative (fst st) /\ grid_all nonnegative (snd st) ->
  grid_all nonnegative (fst (collect_cell n up cx cy st)) /\
  grid_all nonnegative (snd (collect_cell n up cx cy st)).
Proof.
  intros Hup [Hnew Hlo]. destruct st as [newCatalyser lo]. simpl in *.
  unfold collect_cell.
  destruct (Qlt_le_dec 0 (cell lo cx cy)) as [Hcur|_]; [|split; assumption].
  simpl. split.
  - destruct (Qlt_le_dec 0 (total_density _)) as [Htot|_]; [|exact Hnew].
    apply for_each_invariant; [exact Hnew|].
    intros [[nx ny] density] g Hin Hg.
    apply grid_all_set_cell; [|exact Hg].
    pose proof (block_densities_nonneg n up cx cy Hup) as Hden.
    rewrite Forall_forall in Hden.
    apply list_elem_of_In in Hin. specialize (Hden _ Hin). simpl in Hden.
    pose proof (grid_all_cell _ g nx ny nonnegative_0 Hg) as Hold.
    pose proof (share_nonneg _ _ _ Hcur Hden Htot) as Hshare.
    unfold nonnegative in *. lra.
  - apply grid_all_set_cell; [apply nonnegative_0 | exact Hlo].
Qed.

Lemma at_most_two_nonnegative v : at_most_two v -> nonnegative v.
Proof. unfold at_most_two, nonnegative. intros [H _]. exact H. Qed.

Lemma collectPhase_fields w :
  fields_in_range w -> fields_in_range (collectPhase w).
Proof.
  intros (Ht & Hlo & Hup). unfold collectPhase.
  pose proof (grid_all_weaken _ _ _ at_most_two_nonnegative Hup) as Hup0.
  match goal with
  | |- context [for_each ?l ?b (zero_grid ?n, ?lo0)] =>
      pose proof (for_each_invariant
                    (fun st => grid_all nonnegative (fst st)
                               /\ grid_all nonnegative (snd st)) l b (zero_grid n, lo0))
        as Hloop;
      destruct (for_each l b (zero_grid n, lo0)) as [newCatalyser lo]
  end.
  simpl in Hloop. destruct Hloop as [Hnew Hlo'].
  - split; [apply grid_all_zero, nonnegative_0 | exact Hlo].
  - intros cx st _ Hst.
    apply for_each_invariant; [exact Hst|].
    intros cy st' _ Hst'. apply collect_cell_nonneg; assumption.
  - split; [exact Ht|]. split; [exact Hlo'|]. simpl.
    apply for_each_invariant; [exact Hup|].
    intros cx up _ Hup1.
    apply for_each_invariant; [exact Hup1|].
    intros cy up' _ Hup2.
    rewrite set_cell_twice.
    apply grid_all_set_cell; [|exact Hup2].
    pose proof (grid_all_weaken _ _ _ at_most_two_nonnegative Hup2) as Hup3.
    pose proof (grid_all_cell _ up' cx cy nonnegative_0 Hup3) as Hold.
    pose proof (grid_all_cell _ newCatalyser cx cy nonnegative_0 Hnew) as Hadd.
    match goal with
    | |- at_most_two (Math_min 2 (cell ?g cx cy)) =>
        assert (Hv : nonnegative (cell g cx cy))
    end.
    { apply grid_all_cell; [apply nonnegative_0|].
      apply grid_all_set_cell; [|exact Hup3].
      unfold nonnegative in *. lra. }
    unfold at_most_two, Math_min, nonnegative in *.
    destruct (Qlt_le_dec _ 2); lra.
Qed.

(** What one round of the loop over the cores does to the world: it may
    push an energy and release catalyser at one cell, nothing else. *)
Lemma updateCore_world c w h :
  let w' := snd (fst (updateCore c w h)) in
  gridSize w' = gridSize w /\ tick w' = tick w /\ phase w' = phase w /\
  temperature w' = temperature w /\ catalyserUpper w' = catalyserUpper w /\
  cores w' = cores w /\
  (grid_all nonnegative (catalyserLower w) -> grid_all nonnegative (catalyserLower w')).
Proof.
  unfold updateCore, bind.
  destruct (delayed_move (gridSize w) (tick w) c h) as [c1 h1].
  destruct (warm (tick w) _ (incubate (tick w) _ c1)) as [c2 pushed].
  assert (Hrelease : forall (lo : Grid) cx cy,
             grid_all nonnegative lo ->
             grid_all nonnegative (set_cell lo cx cy (cell lo cx cy + 0.1))).
  { intros lo cx cy Hlo. apply grid_all_set_cell; [|exact Hlo].
    pose proof (grid_all_cell _ lo cx cy nonnegative_0 Hlo) as Hc.
    unfold nonnegative in *. lra. }
  destruct pushed as [e|]; simpl;
    (destruct (bloom_is_over (tick w) c2); simpl;
     [ split_and!; try reflexivity; apply Hrelease
     | split_and!; try reflexivity; intros Hlo; exact Hlo ]).
Qed.

Lemma updateCores_loop_world cs w h :
  let w' := snd (fst (updateCores_loop cs w h)) in
  gridSize w' = gridSize w /\ tick w' = tick w /\ phase w' = phase w /\
  temperature w' = temperature w /\ catalyserUpper w' = catalyserUpper w /\
  cores w' = cores w /\
  (grid_all nonnegative (catalyserLower w) -> grid_all nonnegative (catalyserLower w')).
Proof.
  revert w h. induction cs as [|c cs IH]; intros w h; simpl.
  - split_and!; try reflexivity. intros H; exact H.
  - unfold bind.
    pose proof (updateCore_world c w h) as Hc.
    destruct (updateCore c w h) as [[c' w1] h1]. simpl in Hc.
    pose proof (IH w1 h1) as Hrest.
    destruct (updateCores_loop cs w1 h1) as [[rest w2] h2]. simpl in *.
    destruct Hc as (? & ? & ? & ? & ? & ? & Hlo1).
    destruct Hrest as (? & ? & ? & ? & ? & ? & Hlo2).
    split_and!; try congruence. intros Hlo. apply Hlo2, Hlo1, Hlo.
Qed.

Lemma updateCores_fields w h :
  fields_in_range w -> fields_in_range (fst (updateCores w h)).
Proof.
  intros (Ht & Hlo & Hup). unfold updateCores, bind.
  pose proof (updateCores_loop_world (cores w) w h) as Hloop.
  destruct (updateCores_loop (cores w) w h) as [[cs w1] h1]. simpl in *.
  destruct Hloop as (_ & _ & _ & Ht1 & Hup1 & _ & Hlo1).
  unfold fields_in_range. simpl. rewrite Ht1, Hup1.
  split; [exact Ht|]. split; [apply Hlo1, Hlo | exact Hup].
Qed.

Lemma step_fields w h :
  fields_in_range w -> fields_in_range (fst (step w h)).
Proof.
  intros Hw. unfold step, bind.
  pose proof (shiftTemperature_temperature w h (proj1 Hw)) as Ht.
  pose proof (shiftTemperature_others w h) as [Hlo Hup].
  destruct (shiftTemperature w h) as [w1 h1]. simpl in *.
  assert (Hw1 : fields_in_range w1).
  { destruct Hw as (_ & Hl & Hu). split; [exact Ht|].
    rewrite Hlo, Hup. split; assumption. }
  apply updateCores_fields. unfold exchange.
  destruct (phase w1).
  - apply (emitPhase_fields w1 Hw1).
  - apply (collectPhase_fields w1 Hw1).
Qed.

Lemma consumeEnergy_fields px py w :
  fields_in_range w -> fields_in_range (snd (consumeEnergy px py w)).
Proof.
  intros Hw. unfold consumeEnergy.
  destruct (list_find _ (energies w)) as [[k e]|]; [|exact Hw].
  simpl. unfold scheduleCoreMovement.
  destruct (list_find _ (cores w)) as [[i c]|]; exact Hw.
Qed.

(** C3.  In every world reached from a freshly constructed or reset world
    by any number of calls of [step] (and of [consumeEnergy] in between),
    every cell of [temperature] lies in $[0,1]$, every cell of the lower
    catalyser field is at least 0 and every cell of the upper catalyser
    field lies in $[0,2]$. *)
Theorem reachable_fields_in_range (w : World) :
  reachable w ->
  grid_all (fun v => 0 <= v /\ v <= 1) (temperature w) /\
  grid_all (fun v => 0 <= v) (catalyserLower w) /\
  grid_all (fun v => 0 <= v /\ v <= 2) (catalyserUpper w).
Proof.
  intros Hw. change (fields_in_range w).
  induction Hw as [n h Hn | w h _ IH | w h _ IH | w px py _ IH].
  - apply constructor_fields.
  - apply reset_fields.
  - apply step_fields, IH.
  - apply consumeEnergy_fields, IH.
Qed.

End FieldRanges.

(** The world built at size 2 and stepped three times is in range. *)
Lemma reachable_fields_in_range_witness :
  let w0 := fst (WorldPhysics.constructor (rt := Sample.steady) 2 Sample.start) in
  let w1 := fst (WorldPhysics.step (rt := Sample.steady) w0 Sample.start) in
  let w2 := fst (WorldPhysics.step (rt := Sample.steady) w1 Sample.start) in
  let w3 := fst (WorldPhysics.step (rt := Sample.steady) w2 Sample.start) in
  reachable (rt := Sample.steady) w3 /\
  grid_all (fun v => 0 <= v /\ v <= 1)%Q (WorldPhysics.temperature w3) /\
  grid_all (fun v => 0 <= v)%Q (WorldPhysics.catalyserLower w3) /\
  grid_all (fun v => 0 <= v /\ v <= 2)%Q (WorldPhysics.catalyserUpper w3).
Proof.
  intros w0 w1 w2 w3.
  assert (Hreach : reachable (rt := Sample.steady) w3).
  { repeat apply reachable_step. apply reachable_new. lia. }
  split; [exact Hreach|].
  apply (reachable_fields_in_range (rt := Sample.steady) w3 Hreach).
Defined.

(** ** WorldPhysics: the state machine of a core *)

Section CoreMachine.
Import WorldPhysics.
Context {rt : Runtime}.
Local Open Scope Q_scope.

Lemma delayed_move_keeps n now c h :
  let c1 := fst (delayed_move n now c h) in
  state c1 = state c /\
  consecutiveHighTemp c1 = consecutiveHighTemp c /\
  bloomTime c1 = bloomTime c /\ id c1 = id c.
Proof.
  unfold delayed_move. destruct (move_is_due now c); simpl; auto.
Qed.

Lemma incubate_dormant now cat c :
  state c = dormant ->
  incubate now cat c =
  if Qlt_le_dec 0.2 cat
  then set_consecutiveHighTemp 0 (set_incubationTime now (set_state incubated c))
  else c.
Proof.
  intros Hc. unfold incubate. destruct (decide (state c = dormant)); [reflexivity|].
  contradiction.
Qed.

Lemma incubate_awake now cat c :
  state c <> dormant -> incubate now cat c = c.
Proof.
  intros Hc. unfold incubate. destruct (decide (state c = dormant)); [|reflexivity].
  contradiction.
Qed.

Lemma warm_idle now temp c :
  state c <> incubated -> warm now temp c = (c, None).
Proof.
  intros Hc. unfold warm. destruct (decide (state c = incubated)); [|reflexivity].
  contradiction.
Qed.

Lemma warm_incubated now temp c :
  state c = incubated ->
  warm now temp c =
  if Qlt_le_dec 0.2 temp then
    if (5 <=? consecutiveHighTemp c + 1)%Z then
      (set_bloomTime now
         (set_state bloomed (set_consecutiveHighTemp (consecutiveHighTemp c + 1) c)),
       Some {| energy_x := x c; energy_y := y c; createdAt := now;
               active := true; coreId := id c |})
    else (set_consecutiveHighTemp (consecutiveHighTemp c + 1) c, None)
  else (set_consecutiveHighTemp 0 c, None).
Proof.
  intros Hc. unfold warm. destruct (decide (state c = incubated)); [|contradiction].
  reflexivity.
Qed.

Lemma bloom_is_over_awake now c :
  state c <> bloomed -> bloom_is_over now c = false.
Proof.
  intros Hc. unfold bloom_is_over. rewrite bool_decide_eq_false_2 by exact Hc.
  reflexivity.
Qed.

Lemma bloom_is_over_bloomed now c :
  state c = bloomed -> bloom_is_over now c = (5 <=? now - bloomTime c)%Z.
Proof.
  intros Hc. unfold bloom_is_over. rewrite bool_decide_eq_true_2 by exact Hc.
  reflexivity.
Qed.

(** One round of the loop over the cores, seen from the core: [c1] is the
    core after its pending move, [cat] and [temp] what it reads. *)
Lemma updateCore_summary c w h :
  let c1 := fst (delayed_move (gridSize w) (tick w) c h) in
  core_update (tick w) c c1
    (cell (catalyserLower w) (x c1) (y c1))
    (cell (temperature w) (x c1) (y c1))
    (fst (fst (updateCore c w h)))
    (energies w) (energies (snd (fst (updateCore c w h)))).
Proof.
  intros c1. unfold core_update.
  set (now := tick w) in *.
  set (cat := cell (catalyserLower w) (x c1) (y c1)).
  set (temp := cell (temperature w) (x c1) (y c1)).
  set (c' := fst (fst (updateCore c w h))).
  set (w' := snd (fst (updateCore c w h))).
  pose proof (delayed_move_keeps (gridSize w) now c h) as (Hs & Hk & Hb & Hi).
  fold c1 in Hs, Hk, Hb, Hi.
  assert (Hrun : forall c3 pushed,
    warm now temp (incubate now cat c1) = (c3, pushed) ->
    bloom_is_over now c3 = false ->
    c' = c3 /\ w' = match pushed with
                    | Some e => set_energies (energies w ++ [e]) w
                    | None => w
                    end).
  { intros c3 pushed Hwarm Hover.
    subst c' w'. unfold updateCore, bind. subst c1 cat temp now.
    destruct (delayed_move (gridSize w) (tick w) c h) as [d h1]. simpl in *.
    rewrite Hwarm. destruct pushed as [e|]; simpl; rewrite Hover; split; reflexivity. }
  assert (Hend : forall c3,
    warm now temp (incubate now cat c1) = (c3, None) ->
    bloom_is_over now c3 = true ->
    state c' = dormant /\ energies w' = energies w).
  { intros c3 Hwarm Hover.
    subst c' w'. unfold updateCore, bind. subst c1 cat temp now.
    destruct (delayed_move (gridSize w) (tick w) c h) as [d h1]. simpl in *.
    rewrite Hwarm. simpl. rewrite Hover. simpl. split; reflexivity. }
  clearbody c' w' c1 cat temp.
  split; [|split]; intros Hstate; rewrite <- Hs in Hstate.
  - rewrite (incubate_dormant _ _ _ Hstate) in Hrun.
    destruct (Qlt_le_dec 0.2 cat) as [Hcat|Hcat].
    + rewrite warm_incubated in Hrun by reflexivity. simpl in Hrun.
      destruct (Qlt_le_dec 0.2 temp) as [Htemp|Htemp];
        (edestruct Hrun as [-> ->];
         [reflexivity | apply bloom_is_over_awake; simpl; congruence |]); simpl.
      * split; [|split; [intros; lra | reflexivity]].
        intros _. split; [reflexivity|]. left. split; [exact Htemp | reflexivity].
      * split; [|split; [intros; lra | reflexivity]].
        intros _. split; [reflexivity|]. right. split; [exact Htemp | reflexivity].
    + rewrite warm_idle in Hrun by congruence.
      edestruct Hrun as [-> ->];
        [reflexivity | apply bloom_is_over_awake; congruence |].
      split; [intros; lra|]. split; [intros _; exact Hstate | reflexivity].
  - rewrite incubate_awake in Hrun by congruence.
    rewrite (warm_incubated _ _ _ Hstate) in Hrun. rewrite Hk, Hi in Hrun.
    destruct (Qlt_le_dec 0.2 temp) as [Htemp|Htemp].
    + destruct (5 <=? consecutiveHighTemp c + 1)%Z eqn:Hfive.
      * apply Z.leb_le in Hfive.
        edestruct Hrun as [-> ->]; [reflexivity | |].
        { rewrite bloom_is_over_bloomed by reflexivity. simpl.
          apply Z.leb_gt. lia. }
        simpl. split; [|split; intros; [lia | lra]].
        intros _. split_and!; reflexivity.
      * apply Z.leb_gt in Hfive.
        edestruct Hrun as [-> ->];
          [reflexivity | apply bloom_is_over_awake; simpl; congruence |].
        simpl. split; [intros; lia|]. split; [|intros; lra].
        intros _. split_and!; [exact Hstate | reflexivity | reflexivity].
    + edestruct Hrun as [-> ->];
        [reflexivity | apply bloom_is_over_awake; simpl; congruence |].
      simpl. split; [intros; lra|]. split; [intros; lra|].
      intros _. split_and!; [exact Hstate | reflexivity | reflexivity].
  - rewrite incubate_awake in Hrun, Hend by congruence.
    rewrite warm_idle in Hrun, Hend by congruence.
    specialize (Hrun c1 None eq_refl). specialize (Hend c1 eq_refl).
    rewrite (bloom_is_over_bloomed _ _ Hstate), Hb in Hrun, Hend.
    destruct (5 <=? now - bloomTime c)%Z eqn:Hfive.
    + apply Z.leb_le in Hfive. destruct (Hend eq_refl) as [Hd He].
      split; [intros _; exact Hd|]. split; [intros; lia | exact He].
    + apply Z.leb_gt in Hfive. destruct (Hrun eq_refl) as [-> ->].
      split; [intros; lia|]. split; [|reflexivity].
      intros _. split; [exact Hstate | exact Hb].
Qed.

Lemma updateCores_loop_app cs1 cs2 w h :
  updateCores_loop (cs1 ++ cs2) w h =
  let r1 := updateCores_loop cs1 w h in
  let r2 := updateCores_loop cs2 (snd (fst r1)) (snd r1) in
  (fst (fst r1) ++ fst (fst r2), snd (fst r2), snd r2).
Proof.
  revert w h. induction cs1 as [|c cs1 IH]; intros w h; simpl.
  - destruct (updateCores_loop cs2 w h) as [[r2 w2] h2]. reflexivity.
  - unfold bind. destruct (updateCore c w h) as [[c' w1] h1].
    rewrite IH. simpl.
    destruct (updateCores_loop cs1 w1 h1) as [[r1 w2] h2]. simpl.
    destruct (updateCores_loop cs2 w2 h2) as [[r2 w3] h3]. reflexivity.
Qed.

Lemma updateCores_loop_length cs w h :
  length (fst (fst (updateCores_loop cs w h))) = length cs.
Proof.
  revert w h. induction cs as [|c cs IH]; intros w h; simpl; [reflexivity|].
  unfold bind. destruct (updateCore c w h) as [[c' w1] h1].
  specialize (IH w1 h1).
  destruct (updateCores_loop cs w1 h1) as [[r w2] h2]. simpl in *. lia.
Qed.

(** The result in slot [i] is the body of the loop applied to the core in
    slot [i], in the world left by the cores before it. *)
Lemma updateCores_loop_lookup cs w h i c :
  cs !! i = Some c ->
  let r := updateCores_loop (take i cs) w h in
  fst (fst (updateCores_loop cs w h)) !! i
  = Some (fst (fst (updateCore c (snd (fst r)) (snd r)))).
Proof.
  intros Hi r.
  rewrite <- (take_drop_middle cs i c Hi) at 1.
  rewrite updateCores_loop_app. cbv zeta. cbn [fst snd]. fold r.
  pose proof (updateCores_loop_length (take i cs) w h) as Hlen. fold r in Hlen.
  apply lookup_lt_Some in Hi. rewrite length_take in Hlen.
  rewrite lookup_app_r by lia.
  replace (i - length (fst (fst r)))%nat with 0%nat by lia.
  simpl. unfold bind.
  destruct (updateCore c (snd (fst r)) (snd r)) as [[c' w1] h1].
  destruct (updateCores_loop _ w1 h1) as [[rest w2] h2]. reflexivity.
Qed.

Lemma shiftTemperature_keeps w h :
  let w1 := fst (shiftTemperature w h) in
  cores w1 = cores w /\ energies w1 = energies w /\ tick w1 = tick w /\
  gridSize w1 = gridSize w /\ phase w1 = phase w.
Proof.
  unfold shiftTemperature, bind.
  destruct (for_each_rand _ _ _ h) as [g h1]. simpl. split_and!; reflexivity.
Qed.

Lemma exchange_keeps w :
  cores (exchange w) = cores w /\ energies (exchange w) = energies w /\
  gridSize (exchange w) = gridSize w /\
  (tick w <= tick (exchange w) <= tick w + 1)%Z.
Proof.
  unfold exchange, emitPhase, collectPhase.
  destruct (phase w).
  - destruct (for_each _ _ (catalyserLower w, catalyserUpper w)) as [lo up].
    simpl. split_and!; try reflexivity; lia.
  - destruct (for_each _ _ (zero_grid (gridSize w), catalyserLower w))
      as [newCatalyser lo].
    simpl. split_and!; try reflexivity; lia.
Qed.

Lemma prepared_keeps w h :
  let w2 := fst (prepared w h) in
  cores w2 = cores w /\ energies w2 = energies w /\ gridSize w2 = gridSize w /\
  (tick w <= tick w2 <= tick w + 1)%Z.
Proof.
  unfold prepared.
  pose proof (shiftTemperature_keeps w h) as (Hc & He & Ht & Hg & _).
  destruct (shiftTemperature w h) as [w1 h1]. simpl in *.
  pose proof (exchange_keeps w1) as (Hc' & He' & Hg' & Ht').
  split_and!; try congruence; lia.
Qed.

Lemma step_prepared w h :
  step w h = updateCores (fst (prepared w h)) (snd (prepared w h)).
Proof.
  unfold step, prepared, bind.
  destruct (shiftTemperature w h) as [w1 h1]. reflexivity.
Qed.

Lemma turn_keeps i w h :
  let w3 := fst (turn i w h) in
  gridSize w3 = gridSize w /\ tick w3 = tick w /\
  temperature w3 = temperature w /\ cores w3 = cores w.
Proof.
  unfold turn. simpl.
  pose proof (updateCores_loop_world (take i (cores w)) w h) as Hw.
  simpl in Hw. destruct Hw as (Hg & Ht & _ & Htemp & _ & Hc & _).
  split_and!; assumption.
Qed.

Lemma turn_S i w h c :
  cores w !! i = Some c ->
  turn (S i) w h =
  let r := updateCore c (fst (turn i w h)) (snd (turn i w h)) in
  (snd (fst r), snd r).
Proof.
  intros Hc. unfold turn.
  rewrite (take_S_r _ _ _ Hc), updateCores_loop_app. cbv zeta. cbn [fst snd].
  simpl. unfold bind.
  destruct (updateCore c _ _) as [[c' w1] h1]. reflexivity.
Qed.

Lemma updateCores_result w h :
  cores (fst (updateCores w h)) = fst (fst (updateCores_loop (cores w) w h)) /\
  tick (fst (updateCores w h)) = tick w /\
  energies (fst (updateCores w h))
  = List.filter (still_fresh (tick w))
      (energies (snd (fst (updateCores_loop (cores w) w h)))).
Proof.
  unfold updateCores, bind.
  pose proof (updateCores_loop_world (cores w) w h) as Hw.
  destruct (updateCores_loop (cores w) w h) as [[cs w1] h1]. simpl in *.
  destruct Hw as (_ & Ht & _). rewrite Ht. split_and!; reflexivity.
Qed.

(** One call of [step], seen from the core in slot [i]. *)
Lemma step_core w h i c :
  cores w !! i = Some c ->
  exists c1 cat temp c',
    reading i w h = Some (c1, cat, temp) /\
    cores (fst (step w h)) !! i = Some c' /\
    core_update (tick (fst (step w h))) c c1 cat temp c'
      (energies_before_turn i w h) (energies_after_turn i w h).
Proof.
  intros Hc.
  unfold reading, energies_before_turn, energies_after_turn. rewrite Hc.
  rewrite step_prepared.
  pose proof (prepared_keeps w h) as (Hcs & _ & _ & _).
  destruct (prepared w h) as [w2 h2]. cbn [fst snd] in *.
  assert (Hc2 : cores w2 !! i = Some c) by (rewrite Hcs; exact Hc).
  rewrite (turn_S _ _ _ _ Hc2).
  pose proof (turn_keeps i w2 h2) as (Hg & Ht & _ & _).
  pose proof (updateCores_loop_lookup (cores w2) w2 h2 i c Hc2) as Hlook.
  pose proof (updateCores_result w2 h2) as (Hres & Htick & _).
  cbv zeta in Hlook.
  change (updateCores_loop (take i (cores w2)) w2 h2).1.2
    with (fst (turn i w2 h2)) in Hlook.
  change (updateCores_loop (take i (cores w2)) w2 h2).2
    with (snd (turn i w2 h2)) in Hlook.
  destruct (turn i w2 h2) as [w3 h3]. cbn [fst snd] in *.
  eexists _, _, _, _. split; [reflexivity|].
  split; [rewrite Hres; exact Hlook|].
  rewrite Htick, <- Ht.
  apply (updateCore_summary c w3 h3).
Qed.

Lemma step_tick w h :
  (tick w <= tick (fst (step w h)) <= tick w + 1)%Z.
Proof.
  rewrite step_prepared.
  pose proof (prepared_keeps w h) as (_ & _ & _ & Ht).
  pose proof (updateCores_result (fst (prepared w h)) (snd (prepared w h)))
    as (_ & Htick & _).
  rewrite Htick. exact Ht.
Qed.

Lemma step_cores_length w h :
  length (cores (fst (step w h))) = length (cores w).
Proof.
  rewrite step_prepared.
  pose proof (prepared_keeps w h) as (Hcs & _).
  pose proof (updateCores_result (fst (prepared w h)) (snd (prepared w h)))
    as (Hres & _).
  rewrite Hres, updateCores_loop_length, Hcs. reflexivity.
Qed.

Lemma same_stage_refl c : same_stage c c.
Proof. unfold same_stage. auto. Qed.

Lemma same_stage_trans c1 c2 c3 :
  same_stage c1 c2 -> same_stage c2 c3 -> same_stage c1 c3.
Proof.
  unfold same_stage. intros (? & ? & ? & ?) (? & ? & ? & ?).
  split_and!; congruence.
Qed.

(** Consuming energy leaves the tick and the stage of every core alone. *)
Lemma consumeEnergy_stage px py w :
  let w' := snd (consumeEnergy px py w) in
  tick w' = tick w /\ length (cores w') = length (cores w) /\
  forall i c, cores w !! i = Some c ->
    exists c', cores w' !! i = Some c' /\ same_stage c c'.
Proof.
  unfold consumeEnergy.
  destruct (list_find _ (energies w)) as [[k e]|]; simpl.
  - unfold scheduleCoreMovement.
    destruct (list_find _ (cores w)) as [[j cj]|]; simpl.
    + split; [reflexivity|]. split; [apply length_alter|].
      intros i c Hc. destruct (decide (j = i)) as [->|Hne].
      * rewrite list_lookup_alter_eq, Hc. simpl. eexists. split; [reflexivity|].
        unfold same_stage. simpl. auto.
      * rewrite list_lookup_alter_ne by exact Hne.
        exists c. split; [exact Hc | apply same_stage_refl].
    + split; [reflexivity|]. split; [reflexivity|].
      intros i c Hc. exists c. split; [exact Hc | apply same_stage_refl].
  - split; [reflexivity|]. split; [reflexivity|].
    intros i c Hc. exists c. split; [exact Hc | apply same_stage_refl].
Qed.

Lemma feed_stage cells w :
  tick (feed cells w) = tick w /\
  length (cores (feed cells w)) = length (cores w) /\
  forall i c, cores w !! i = Some c ->
    exists c', cores (feed cells w) !! i = Some c' /\ same_stage c c'.
Proof.
  unfold feed.
  apply (for_each_invariant (fun w' =>
    tick w' = tick w /\ length (cores w') = length (cores w) /\
    forall i c, cores w !! i = Some c ->
      exists c', cores w' !! i = Some c' /\ same_stage c c')).
  - split; [reflexivity|]. split; [reflexivity|].
    intros i c Hc. exists c. split; [exact Hc | apply same_stage_refl].
  - intros [px py] w1 _ (Ht & Hl & Hcs). simpl.
    pose proof (consumeEnergy_stage px py w1) as (Ht' & Hl' & Hcs').
    simpl in *. split; [congruence|]. split; [congruence|].
    intros i c Hc. destruct (Hcs i c Hc) as (c1 & Hc1 & Hs1).
    destruct (Hcs' i c1 Hc1) as (c2 & Hc2 & Hs2).
    exists c2. split; [exact Hc2 | eapply same_stage_trans; eassumption].
Qed.

Lemma initializeCores_dormant n h :
  Forall (fun c => state c = dormant) (fst (initializeCores n h)).
Proof.
  unfold initializeCores.
  apply for_each_rand_invariant; [constructor|].
  intros i cs h1 _ Hcs. simpl.
  apply Forall_app. split; [exact Hcs|]. constructor; [reflexivity | constructor].
Qed.

Lemma fresh_dormant w0 :
  fresh w0 -> forall i c, cores w0 !! i = Some c -> state c = dormant.
Proof.
  intros Hfresh i c Hc.
  assert (Hall : Forall (fun c => state c = dormant) (cores w0)).
  { destruct Hfresh as [n h _ | w h _].
    - unfold constructor, bind.
      destruct (generateTemperatureField n h) as [t h1].
      destruct (random_catalyser n h1) as [up h2].
      pose proof (initializeCores_dormant n h2) as Hd.
      destruct (initializeCores n h2) as [cs h3]. exact Hd.
    - unfold reset, bind.
      destruct (generateTemperatureField (gridSize w) h) as [t h1].
      destruct (random_catalyser (gridSize w) h1) as [up h2].
      pose proof (initializeCores_dormant (gridSize w) h2) as Hd.
      destruct (initializeCores (gridSize w) h2) as [cs h3]. exact Hd. }
  exact (Forall_lookup_1 _ _ _ _ Hall Hc).
Qed.

(** The core in slot [i] before and after a round. *)
Lemma round_core w0 rounds k i c'' :
  cores (world_at w0 rounds (S k)) !! i = Some c'' ->
  exists c c',
    cores (world_at w0 rounds k) !! i = Some c /\
    cores (fst (step (world_at w0 rounds k) (host_state (rounds k)))) !! i = Some c' /\
    same_stage c' c'' /\
    tick (world_at w0 rounds (S k))
    = tick (fst (step (world_at w0 rounds k) (host_state (rounds k)))).
Proof.
  simpl. intros Hc''.
  set (w := world_at w0 rounds k) in *.
  set (w' := fst (step w (host_state (rounds k)))) in *.
  pose proof (feed_stage (meals (rounds k)) w') as (Ht & Hl & Hcs).
  assert (Hi : (i < length (cores w'))%nat).
  { rewrite <- Hl. eapply lookup_lt_Some, Hc''. }
  destruct (lookup_lt_is_Some_2 (cores w') i Hi) as [c' Hc'].
  destruct (Hcs i c' Hc') as (c2 & Hc2 & Hs).
  assert (c2 = c'') by congruence. subst c2.
  assert (Hi0 : (i < length (cores w))%nat).
  { unfold w' in Hi. rewrite step_cores_length in Hi. exact Hi. }
  destruct (lookup_lt_is_Some_2 (cores w) i Hi0) as [c Hc].
  exists c, c'. split_and!; assumption.
Qed.

Lemma counted_always w0 rounds k :
  fresh w0 -> counted w0 rounds k.
Proof.
  intros Hfresh. induction k as [|k IH].
  - intros i c Hc. simpl in Hc.
    pose proof (fresh_dormant w0 Hfresh i c Hc) as Hd.
    split; intros; congruence.
  - intros i c'' Hc''.
    destruct (round_core _ _ _ _ _ Hc'') as (c & c' & Hc & Hc' & Hs & Ht).
    destruct (step_core _ (host_state (rounds k)) _ _ Hc)
      as (c1 & cat & temp & c0 & Hread & Hc0 & Hupd).
    assert (c0 = c') by congruence. subst c0.
    pose proof (step_tick (world_at w0 rounds k) (host_state (rounds k))) as Hstep.
    destruct (IH i c Hc) as [IHinc IHbl].
    destruct Hs as (Hs1 & Hs2 & Hs3 & _).
    destruct Hupd as (Hd & Hi & Hb).
    assert (Hnow : forall j : nat, j = 0%nat ->
              (j < S k)%nat /\
              (reads_warm i (world_at w0 rounds k) (host_state (rounds k)) ->
               reads_warm i (world_at w0 rounds (S k - 1 - j))
                            (host_state (rounds (S k - 1 - j)%nat))) /\
              (state c'' = incubated -> incubated_at w0 rounds i (S k - j))).
    { intros j ->. split; [lia|].
      replace (S k - 1 - 0)%nat with k by lia.
      replace (S k - 0)%nat with (S k) by lia.
      split; [auto|]. intros Hinc. exists c''. split; assumption. }
    destruct (state c) eqn:Hstate.
    + destruct (Hd eq_refl) as (Hd1 & Hd2 & _).
      destruct (Qlt_le_dec 0.2 cat) as [Hcat|Hcat].
      * destruct (Hd1 Hcat) as [Hinc Hcount]. split; [|intros; congruence].
        intros Hinc''. rewrite Hs2.
        destruct Hcount as [[Hwarm H1] | [Hcold H0]]; rewrite ?H1, ?H0.
        -- split; [lia|]. intros j Hj.
           destruct (Hnow j ltac:(lia)) as (Hlt & Hw & Hin).
           split; [exact Hlt|]. split; [|exact (Hin Hinc'')].
           apply Hw. exists c1, cat, temp. split; assumption.
        -- split; [lia|]. intros j Hj. lia.
      * specialize (Hd2 Hcat). split; intros; congruence.
    + destruct (Hi eq_refl) as (Hi1 & Hi2 & Hi3).
      destruct (IHinc eq_refl) as [Hrange Hhist].
      destruct (Qlt_le_dec 0.2 temp) as [Htemp|Htemp].
      * destruct (Z_lt_le_dec (consecutiveHighTemp c) 4) as [Hlow|Hhigh].
        -- destruct (Hi2 (conj Htemp Hlow)) as (Hinc & Hcount & _).
           split; [|intros; congruence].
           intros Hinc''. rewrite Hs2, Hcount. split; [lia|].
           intros j Hj. destruct j as [|j].
           ++ destruct (Hnow 0%nat eq_refl) as (Hlt & Hw & Hin).
              split; [exact Hlt|]. split; [|exact (Hin Hinc'')].
              apply Hw. exists c1, cat, temp. split; assumption.
           ++ destruct (Hhist j ltac:(lia)) as (Hlt & Hw & Hin).
              split; [lia|].
              replace (S k - 1 - S j)%nat with (k - 1 - j)%nat by lia.
              replace (S k - S j)%nat with (k - j)%nat by lia.
              split; assumption.
        -- destruct (Hi1 (conj Htemp Hhigh)) as (Hbl & Hbt & _).
           split; [intros; congruence|].
           intros _. rewrite Ht, Hs3, Hbt. lia.
      * destruct (Hi3 Htemp) as (Hinc & Hcount & _).
        split; [|intros; congruence].
        intros _. rewrite Hs2, Hcount. split; [lia|]. intros j Hj. lia.
    + destruct (Hb eq_refl) as (Hb1 & Hb2 & _).
      specialize (IHbl eq_refl).
      destruct (Z_lt_le_dec (tick (fst (step (world_at w0 rounds k)
                                              (host_state (rounds k))))
                             - bloomTime c) 5) as [Hlow|Hhigh].
      * destruct (Hb2 Hlow) as [Hbl Hbt].
        split; [intros; congruence|].
        intros _. rewrite Ht, Hs3, Hbt. lia.
      * specialize (Hb1 Hhigh). split; intros; congruence.
Qed.

(** What the loop over the cores pushes stays in the list until the loop
    ends. *)
Lemma updateCore_energies c w h :
  exists extra, energies (snd (fst (updateCore c w h))) = energies w ++ extra.
Proof.
  pose proof (updateCore_summary c w h) as (Hd & Hi & Hb). cbv zeta in *.
  destruct (state c) eqn:Hstate.
  - destruct (Hd eq_refl) as (_ & _ & ->). exists []. symmetry. apply app_nil_r.
  - destruct (Hi eq_refl) as (Hi1 & Hi2 & Hi3).
    match type of Hi3 with
    | (?t <= 0.2)%Q -> _ => destruct (Qlt_le_dec 0.2 t) as [Htemp|Htemp]
    end.
    + destruct (Z_lt_le_dec (consecutiveHighTemp c) 4) as [Hlow|Hhigh].
      * destruct (Hi2 (conj Htemp Hlow)) as (_ & _ & ->).
        exists []. symmetry. apply app_nil_r.
      * destruct (Hi1 (conj Htemp Hhigh)) as (_ & _ & ->). eexists. reflexivity.
    + destruct (Hi3 Htemp) as (_ & _ & ->). exists []. symmetry. apply app_nil_r.
  - destruct (Hb eq_refl) as (_ & _ & ->). exists []. symmetry. apply app_nil_r.
Qed.

Lemma updateCores_loop_energies cs w h :
  exists extra,
    energies (snd (fst (updateCores_loop cs w h))) = energies w ++ extra.
Proof.
  revert w h. induction cs as [|c cs IH]; intros w h; simpl.
  - exists []. symmetry. apply app_nil_r.
  - unfold bind. destruct (updateCore_energies c w h) as [e1 He1].
    destruct (updateCore c w h) as [[c' w1] h1]. simpl in He1.
    destruct (IH w1 h1) as [e2 He2].
    destruct (updateCores_loop cs w1 h1) as [[rest w2] h2]. simpl in *.
    exists (e1 ++ e2). rewrite He2, He1, app_assoc. reflexivity.
Qed.

(** An energy present after the turn of a core and created at the current
    tick is in the world when [step] returns. *)
Lemma energy_survives_step w h i c e :
  cores w !! i = Some c ->
  In e (energies_after_turn i w h) ->
  createdAt e = tick (fst (step w h)) ->
  In e (energies (fst (step w h))).
Proof.
  intros Hc Hin Hnew. unfold energies_after_turn in Hin.
  rewrite step_prepared in *.
  pose proof (prepared_keeps w h) as (Hcs & _).
  destruct (prepared w h) as [w2 h2]. cbn [fst snd] in *.
  pose proof (updateCores_result w2 h2) as (_ & Htick & Hen).
  rewrite Hen. apply filter_In. split.
  - rewrite <- (take_drop (S i) (cores w2)), updateCores_loop_app.
    cbv zeta. cbn [fst snd].
    change (updateCores_loop (take (S i) (cores w2)) w2 h2).1.2
      with (fst (turn (S i) w2 h2)).
    change (updateCores_loop (take (S i) (cores w2)) w2 h2).2
      with (snd (turn (S i) w2 h2)).
    destruct (updateCores_loop_energies (drop (S i) (cores w2))
                (fst (turn (S i) w2 h2)) (snd (turn (S i) w2 h2))) as [extra ->].
    apply in_or_app. left. exact Hin.
  - unfold still_fresh. rewrite Hnew, Htick.
    replace (tick w2 - tick w2)%Z with 0%Z by lia. reflexivity.
Qed.

(** C2.  Take a freshly constructed or reset world and run it for any
    number of rounds ([step], then any consumption of energy).  At the next
    call of [step], for every core:
    - its state stays or moves one arc along dormant, incubated, bloomed,
      dormant: no arc is skipped and none is taken backwards;
    - a dormant core becomes incubated exactly when the lower catalyser it
      reads at its cell exceeds 0.2;
    - an incubated core blooms exactly when it reads a temperature above
      0.2 with its counter at 4; this update and the four before it then
      all read a temperature above 0.2 at the core's cell, the core was
      incubated throughout, [bloomTime] is the current tick, and the update
      pushes one energy manifestation at the core's cell, which is in the
      world when [step] returns; no other update of a core pushes one;
    - a bloomed core returns to dormant exactly when the tick is
      [bloomTime + 5].
    The five warm readings are five consecutive calls of [step]; the delay
    of a bloomed core is counted on [tick], which advances on every second
    call. *)
Theorem core_cycle (w0 : World) (rounds : nat -> Round) (k i : nat) (c c' : Core) :
  fresh w0 ->
  cores (world_at w0 rounds k) !! i = Some c ->
  cores (fst (step (world_at w0 rounds k) (host_state (rounds k)))) !! i = Some c' ->
  let w := world_at w0 rounds k in
  let h := host_state (rounds k) in
  let now := tick (fst (step w h)) in
  exists c1 cat temp,
    reading i w h = Some (c1, cat, temp) /\
    (state c' = state c \/
     (state c = dormant /\ state c' = incubated) \/
     (state c = incubated /\ state c' = bloomed) \/
     (state c = bloomed /\ state c' = dormant)) /\
    (state c = dormant -> (state c' = incubated <-> 0.2 < cat)) /\
    (state c = incubated ->
       (state c' = bloomed <-> 0.2 < temp /\ consecutiveHighTemp c = 4%Z)) /\
    (state c = incubated -> state c' = bloomed ->
       (4 <= k)%nat /\
       (forall j, (j <= 4)%nat ->
          reads_warm i (world_at w0 rounds (k - j)) (host_state (rounds (k - j)%nat))) /\
       (forall j, (j <= 3)%nat -> incubated_at w0 rounds i (k - j)) /\
       bloomTime c' = now /\
       let e := {| energy_x := x c1; energy_y := y c1; createdAt := now;
                   active := true; coreId := id c |} in
       energies_after_turn i w h = energies_before_turn i w h ++ [e] /\
       In e (energies (fst (step w h)))) /\
    (~ (state c = incubated /\ state c' = bloomed) ->
       energies_after_turn i w h = energies_before_turn i w h) /\
    (state c = bloomed ->
       (state c' = dormant <-> now = (bloomTime c + 5)%Z)).
Proof.
  intros Hfresh Hc Hc' w h now.
  destruct (step_core w h i c Hc) as (c1 & cat & temp & c0 & Hread & Hc0 & Hupd).
  assert (c0 = c') by (unfold w, h in Hc0; congruence). subst c0.
  pose proof (step_tick w h) as Hstep. fold now in Hstep, Hupd.
  destruct (counted_always w0 rounds k Hfresh i c Hc) as [Hinc Hbl].
  fold w in Hbl.
  exists c1, cat, temp. split; [exact Hread|].
  destruct Hupd as (Hd & Hi & Hb).
  destruct (state c) eqn:Hstate.
  - destruct (Hd eq_refl) as (Hd1 & Hd2 & Hen).
    destruct (Qlt_le_dec 0.2 cat) as [Hcat|Hcat].
    + destruct (Hd1 Hcat) as [Hs _]. rewrite Hs.
      split_and!; try (intros; congruence); auto.
      split; auto.
    + specialize (Hd2 Hcat). rewrite Hd2.
      split_and!; try (intros; congruence); auto.
      split; [intros; congruence | intros; lra].
  - destruct (Hi eq_refl) as (Hi1 & Hi2 & Hi3).
    destruct (Hinc eq_refl) as [Hrange Hhist].
    destruct (Qlt_le_dec 0.2 temp) as [Htemp|Htemp].
    + destruct (Z_lt_le_dec (consecutiveHighTemp c) 4) as [Hlow|Hhigh].
      * destruct (Hi2 (conj Htemp Hlow)) as (Hs & _ & Hen). rewrite Hs.
        split_and!; try (intros; congruence); auto.
        split; [intros; congruence | intros [_ ?]; lia].
      * destruct (Hi1 (conj Htemp Hhigh)) as (Hs & Hbt & Hen). rewrite Hs.
        assert (Hfour : consecutiveHighTemp c = 4%Z) by lia.
        split_and!; try (intros; congruence); auto.
        -- split; auto.
        -- intros _ _.
           destruct (Hhist 3%nat ltac:(lia)) as (Hk & _ & _).
           split; [lia|]. split; [|split; [|split; [exact Hbt|]]].
           ++ intros j Hj. destruct j as [|j].
              ** replace (k - 0)%nat with k by lia.
                 exists c1, cat, temp. split; assumption.
              ** destruct (Hhist j ltac:(lia)) as (_ & Hw & _).
                 replace (k - S j)%nat with (k - 1 - j)%nat by lia. exact Hw.
           ++ intros j Hj. destruct (Hhist j ltac:(lia)) as (_ & _ & Hin).
              exact Hin.
           ++ cbv zeta. split; [exact Hen|].
              apply (energy_survives_step w h i c); [exact Hc | | reflexivity].
              rewrite Hen. apply in_or_app. right. left. reflexivity.
        -- intros Hno. exfalso. apply Hno. split; reflexivity.
    + destruct (Hi3 Htemp) as (Hs & _ & Hen). rewrite Hs.
      split_and!; try (intros; congruence); auto.
      split; [intros; congruence | intros [? _]; lra].
  - destruct (Hb eq_refl) as (Hb1 & Hb2 & Hen).
    specialize (Hbl eq_refl).
    destruct (Z_lt_le_dec (now - bloomTime c) 5) as [Hlow|Hhigh].
    + destruct (Hb2 Hlow) as [Hs _]. rewrite Hs.
      split_and!; try (intros; congruence); auto.
      intros _. split; [intros; congruence | intros; lia].
    + specialize (Hb1 Hhigh). rewrite Hb1.
      split_and!; try (intros; congruence); auto.
      intros _. split; [intros _; lia | reflexivity].
Qed.

End CoreMachine.

(** In the newborn world the first core is dormant; the first call of
    [step] emits catalyser onto its cell and incubates it. *)
Lemma core_cycle_witness :
  fresh (rt := Sample.steady) Sample.newborn /\
  WorldPhysics.cores (world_at (rt := Sample.steady) Sample.newborn Sample.quiet 0)
    !! 0%nat = Some Sample.newborn_core /\
  WorldPhysics.cores
    (fst (WorldPhysics.step (rt := Sample.steady)
            (world_at (rt := Sample.steady) Sample.newborn Sample.quiet 0)
            (host_state (Sample.quiet 0%nat))))
    !! 0%nat = Some Sample.incubating_core /\
  exists c1 cat temp,
    reading (rt := Sample.steady) 0
      (world_at (rt := Sample.steady) Sample.newborn Sample.quiet 0)
      (host_state (Sample.quiet 0%nat)) = Some (c1, cat, temp) /\
    (0.2 < cat)%Q.
Proof.
  assert (Hfresh : fresh (rt := Sample.steady) Sample.newborn).
  { exact (fresh_new (rt := Sample.steady) 2 Sample.start ltac:(lia)). }
  assert (Hc : WorldPhysics.cores
                 (world_at (rt := Sample.steady) Sample.newborn Sample.quiet 0)
                 !! 0%nat = Some Sample.newborn_core).
  { vm_compute. reflexivity. }
  assert (Hc' : WorldPhysics.cores
                  (fst (WorldPhysics.step (rt := Sample.steady)
                          (world_at (rt := Sample.steady) Sample.newborn Sample.quiet 0)
                          (host_state (Sample.quiet 0%nat))))
                  !! 0%nat = Some Sample.incubating_core).
  { vm_compute. reflexivity. }
  split; [exact Hfresh|]. split; [exact Hc|]. split; [exact Hc'|].
  destruct (core_cycle (rt := Sample.steady) Sample.newborn Sample.quiet 0 0
              Sample.newborn_core Sample.incubating_core Hfresh Hc Hc')
    as (c1 & cat & temp & Hread & _ & Hd & _).
  exists c1, cat, temp. split; [exact Hread|].
  apply Hd; reflexivity.
Defined.

(** ** NeuralNetwork: the forward pass *)

Section Numbers.
Local Open Scope Q_scope.

Lemma overflow_threshold_large : 5 < overflow_threshold.
Proof. reflexivity. Qed.

Lemma number_in_range (v : Q) :
  Qabs v < overflow_threshold -> number v = Finite v.
Proof.
  intros Hv. unfold number.
  apply Qabs_Qlt_condition in Hv as [Hlow Hhigh].
  destruct (Qlt_le_dec v overflow_threshold) as [_|Hle]; [|lra].
  destruct (Qlt_le_dec (- overflow_threshold) v) as [_|Hle]; [reflexivity|lra].
Qed.

Lemma Number_add_NaN_l (a : Number) : Number_add NaN a = NaN.
Proof. destruct a; reflexivity. Qed.

Lemma Number_add_NaN_r (a : Number) : Number_add a NaN = NaN.
Proof. destruct a; reflexivity. Qed.

Lemma Number_mul_NaN_r (a : Number) : Number_mul a NaN = NaN.
Proof. destruct a; reflexivity. Qed.

Lemma Number_sub_NaN_r (a : Number) : Number_sub a NaN = NaN.
Proof. destruct a; reflexivity. Qed.

Lemma Number_div_NaN_r (a : Number) : Number_div a NaN = NaN.
Proof. destruct a; reflexivity. Qed.

Lemma Number_max_NaN_l (a : Number) : Number_max NaN a = NaN.
Proof. destruct a; reflexivity. Qed.

Lemma Number_max_NaN_r (a : Number) : Number_max a NaN = NaN.
Proof. destruct a; reflexivity. Qed.

Lemma Math_max_0_abs (v : Q) : Qabs (Math_max 0 v) <= Qabs v.
Proof.
  unfold Math_max. destruct (Qlt_le_dec 0 v) as [Hpos|Hneg].
  - apply Qle_refl.
  - rewrite (Qabs_pos 0) by lra. apply Qabs_nonneg.
Qed.

End Numbers.

Section Forward.
Import NeuralNetwork.
Context {rt : Runtime}.
Local Open Scope Q_scope.

(** *** Lengths *)

Lemma neurons_out_length is_output rows bs activation :
  length (neurons_out is_output rows bs activation) = length rows.
Proof.
  revert bs. induction rows as [|row rows IH]; intros bs; [reflexivity|].
  cbn [neurons_out length]. rewrite IH. reflexivity.
Qed.

Lemma forward_layers_length ls activation outputLayer :
  last ls = Some outputLayer ->
  length (forward_layers ls activation) = length (weights outputLayer).
Proof.
  revert activation. induction ls as [|l ls IH]; intros activation; [discriminate|].
  cbn [forward_layers]. destruct ls as [|l' ls].
  - intros [= <-]. cbn [forward_layers]. apply neurons_out_length.
  - intros Hlast. apply IH. exact Hlast.
Qed.

Lemma softmax_length arr : length (softmax arr) = length arr.
Proof. unfold softmax. rewrite !length_map. reflexivity. Qed.

Lemma last_cons_default {A} (a : A) (l : list A) (d : A) :
  List.last (a :: l) d = List.last l a.
Proof.
  revert a d. induction l as [|b l IH]; intros a d; [reflexivity|].
  change (List.last (a :: b :: l) d) with (List.last (b :: l) d).
  rewrite (IH b d), (IH b a). reflexivity.
Qed.

(** The layers the constructor builds return as many values as the last
    of them has neurons. *)
Lemma forward_layers_shaped sizes previous ls activation :
  map shape_of ls = shapes_for previous sizes ->
  length activation = previous ->
  length (forward_layers ls activation) = List.last sizes previous.
Proof.
  revert previous ls activation.
  induction sizes as [|size sizes IH]; intros previous ls activation Hshape Hlen.
  - destruct ls; [|discriminate]. exact Hlen.
  - destruct ls as [|l ls]; [discriminate|].
    cbn [map shapes_for] in Hshape. injection Hshape as Hrows Hcols Hbias Hrest.
    cbn [forward_layers].
    rewrite (IH size ls _ Hrest); [symmetry; apply last_cons_default|].
    rewrite neurons_out_length. exact Hrows.
Qed.

(** *** Sums that stay in range *)

Lemma count_step (n : nat) (P : Q) :
  inject_Z (Z.of_nat (S n)) * P == inject_Z (Z.of_nat n) * P + P.
Proof. rewrite Nat2Z.inj_succ. unfold Z.succ. rewrite inject_Z_plus. ring. Qed.

Lemma count_nonneg (n : nat) : 0 <= inject_Z (Z.of_nat n).
Proof. change 0 with (inject_Z 0). rewrite <- Zle_Qle. lia. Qed.

Lemma weighted_sum_finite (B A : Q) row acts s M :
  0 <= B -> 0 <= A ->
  Qabs s <= M ->
  Forall (fun w => Qabs w <= B) row ->
  Forall (fun a => Qabs a <= A) acts ->
  (length acts <= length row)%nat ->
  M + inject_Z (Z.of_nat (length acts)) * (B * A) < overflow_threshold ->
  exists v, weighted_sum (Finite s) row (map Finite acts) = Finite v /\
            Qabs v <= M + inject_Z (Z.of_nat (length acts)) * (B * A).
Proof.
  intros HB HA. assert (HP : 0 <= B * A) by (apply Qmult_le_0_compat; assumption).
  revert row s M.
  induction acts as [|a acts IH]; intros row s M Hs Hrow Hacts Hlen Hbound.
  - exists s. split; [reflexivity|].
    cbn [length]. change (inject_Z (Z.of_nat 0)) with 0. lra.
  - destruct row as [|w row]; [cbn [length] in Hlen; lia|].
    apply Forall_cons in Hrow as [Hw Hrow]. apply Forall_cons in Hacts as [Ha Hacts].
    cbn [length] in Hlen, Hbound |- *.
    pose proof (count_step (length acts) (B * A)) as Hstep.
    pose proof (Qmult_le_0_compat _ _ (count_nonneg (length acts)) HP) as Hrest.
    set (T := inject_Z (Z.of_nat (length acts)) * (B * A)) in *.
    set (T' := inject_Z (Z.of_nat (Datatypes.S (length acts))) * (B * A)) in *.
    assert (Hprod : Qabs (w * a) <= B * A).
    { rewrite Qabs_Qmult.
      pose proof (Qabs_nonneg w). pose proof (Qabs_nonneg a). nra. }
    assert (Hsum : Qabs (s + w * a) <= M + B * A).
    { eapply Qle_trans; [apply Qabs_triangle|]. lra. }
    pose proof (Qabs_nonneg s) as Hs0.
    cbn [map weighted_sum Number_mul].
    rewrite (number_in_range (w * a)) by lra.
    cbn [Number_add]. rewrite (number_in_range (s + w * a)) by lra.
    destruct (IH row (s + w * a) (M + B * A) Hsum Hrow Hacts ltac:(lia))
      as (v & Hv & Hbv).
    { fold T. lra. }
    exists v. split; [exact Hv|]. fold T in Hbv. lra.
Qed.

Lemma neurons_out_finite (B A : Q) is_output rows bs acts :
  0 <= B -> 0 <= A ->
  Forall (fun row => Forall (fun w => Qabs w <= B) row /\
                     (length acts <= length row)%nat) rows ->
  Forall (fun b => Qabs b <= B) bs ->
  (length rows <= length bs)%nat ->
  Forall (fun a => Qabs a <= A) acts ->
  neuron_bound B (length acts) A < overflow_threshold ->
  exists outs,
    neurons_out is_output rows bs (map Finite acts) = map Finite outs /\
    Forall (fun o => Qabs o <= neuron_bound B (length acts) A) outs.
Proof.
  intros HB HA Hrows Hbs Hlen Hacts Hbound. revert bs Hbs Hlen.
  induction Hrows as [|row rows [Hrow Hlong] _ IH]; intros bs Hbs Hlen.
  - exists []. split; [reflexivity | constructor].
  - destruct bs as [|b bs]; [cbn [length] in Hlen; lia|].
    apply Forall_cons in Hbs as [Hb Hbs]. cbn [length] in Hlen.
    destruct (weighted_sum_finite B A row acts b B HB HA Hb Hrow Hacts Hlong Hbound)
      as (v & Hv & Hbv).
    destruct (IH bs Hbs ltac:(lia)) as (outs & Houts & Hbouts).
    cbn [neurons_out List.tl]. rewrite Hv, Houts.
    fold (neuron_bound B (length acts) A) in Hbv.
    destruct is_output.
    + exists (v :: outs). split; [reflexivity|]. constructor; assumption.
    + exists (Math_max 0 v :: outs). split; [reflexivity|].
      constructor; [|assumption].
      eapply Qle_trans; [apply Math_max_0_abs | exact Hbv].
Qed.

Lemma neuron_bound_nonneg (B A : Q) (n : nat) :
  0 <= B -> 0 <= A -> 0 <= neuron_bound B n A.
Proof.
  intros HB HA. unfold neuron_bound.
  pose proof (Qmult_le_0_compat _ _ HB HA).
  pose proof (Qmult_le_0_compat _ _ (count_nonneg n) H). lra.
Qed.

(** Weights, biases and activations of bounded magnitude give finite
    activations as long as [stays_in_range] says so. *)
Lemma forward_layers_finite (B : Q) sizes previous ls acts A :
  0 <= B -> 0 <= A ->
  map shape_of ls = shapes_for previous sizes ->
  Forall (fun l => Forall (Forall (fun w => Qabs w <= B)) (weights l) /\
                   Forall (fun b => Qabs b <= B) (biases l)) ls ->
  length acts = previous ->
  Forall (fun a => Qabs a <= A) acts ->
  stays_in_range B previous sizes A ->
  exists values,
    forward_layers ls (map Finite acts) = map Finite values /\
    Forall (fun v => Qabs v <= activation_bound B previous sizes A) values.
Proof.
  intros HB. revert previous ls acts A.
  induction sizes as [|size sizes IH];
    intros previous ls acts A HA Hshape Hmoderate Hlen Hacts Hrange.
  - destruct ls; [|discriminate]. exists acts. split; [reflexivity | exact Hacts].
  - destruct ls as [|l ls]; [discriminate|].
    cbn [map shapes_for] in Hshape. injection Hshape as Hrows Hcols Hbias Hrest.
    apply Forall_cons in Hmoderate as [[Hw Hb] Hmoderate].
    destruct Hrange as [Hbound Hrange]. rewrite <- Hlen in Hbound.
    destruct (neurons_out_finite B A (match ls with [] => true | _ => false end)
                (weights l) (biases l) acts HB HA) as (outs & Houts & Hbouts).
    + apply Forall_forall. intros row Hin. split.
      * rewrite Forall_forall in Hw. apply Hw. exact Hin.
      * assert (Hrow : In (length row) (map length (weights l))).
        { apply in_map, list_elem_of_In, Hin. }
        rewrite Hcols in Hrow. apply list_elem_of_In, elem_of_replicate in Hrow.
        lia.
    + exact Hb.
    + lia.
    + exact Hacts.
    + exact Hbound.
    + cbn [forward_layers activation_bound]. rewrite Houts, <- Hlen.
      apply (IH size ls outs (neuron_bound B (length acts) A)).
      * apply neuron_bound_nonneg; assumption.
      * exact Hrest.
      * exact Hmoderate.
      * apply (f_equal (@length _)) in Houts.
        rewrite neurons_out_length, length_map in Houts. lia.
      * exact Hbouts.
      * rewrite Hlen. exact Hrange.
Qed.

Lemma standard_stays_in_range :
  stays_in_range magnitude_limit 542 [256; 128; 64; 5]%nat magnitude_limit.
Proof.
  cbn [stays_in_range]. split_and!; try exact I; vm_compute; reflexivity.
Qed.

(** The difference of two logits of the standard architecture stays in
    range as well. *)
Lemma standard_logits_in_range :
  2 * activation_bound magnitude_limit 542 [256; 128; 64; 5]%nat magnitude_limit
  < overflow_threshold.
Proof. vm_compute. reflexivity. Qed.

(** *** The softmax of finite logits *)

(** Sums as [reduce] computes them. *)
Lemma sum_list_from (l : list Q) (a : Q) :
  for_each l (fun b a => a + b) a == a + sum_list l.
Proof.
  unfold sum_list, for_each. revert a.
  induction l as [|b l IH]; intros a; simpl.
  - lra.
  - rewrite IH, (IH (0 + b)). lra.
Qed.

Lemma sum_list_cons (b : Q) (l : list Q) : sum_list (b :: l) == b + sum_list l.
Proof.
  unfold sum_list at 1. unfold for_each. simpl.
  change (fold_left (fun s a => s + a) l (0 + b)) with
    (for_each l (fun b a => a + b) (0 + b)).
  rewrite sum_list_from. lra.
Qed.

Lemma sum_list_nonneg (l : list Q) :
  Forall (fun v => 0 <= v) l -> 0 <= sum_list l.
Proof.
  induction 1 as [|v l Hv _ IH].
  - unfold sum_list, for_each. simpl. lra.
  - rewrite sum_list_cons. lra.
Qed.

Lemma sum_list_member (l : list Q) (v : Q) :
  Forall (fun v => 0 <= v) l -> In v l -> v <= sum_list l.
Proof.
  intros Hl. induction Hl as [|w l Hw Hl IH]; intros Hin; [contradiction|].
  rewrite sum_list_cons. pose proof (sum_list_nonneg l Hl).
  destruct Hin as [->|Hin]; [lra|]. specialize (IH Hin). lra.
Qed.

Lemma sum_list_scaled (l : list Q) (d : Q) :
  ~ d == 0 -> sum_list (map (fun e => e / d) l) == sum_list l / d.
Proof.
  intros Hd. induction l as [|e l IH]; simpl.
  - unfold sum_list, for_each. simpl. field. exact Hd.
  - rewrite !sum_list_cons, IH. field. exact Hd.
Qed.

(** [Math.max(...arr)] of finite numbers is one of them and bounds all of
    them. *)
Lemma maximum_finite (a : Q) (rest : list Q) :
  exists top,
    maximum (map Finite (a :: rest)) = Finite top /\
    In top (a :: rest) /\ forall v, In v (a :: rest) -> v <= top.
Proof.
  unfold maximum, for_each. cbn [map fold_left Number_max].
  revert a. induction rest as [|b rest IH]; intros a.
  - exists a. split; [reflexivity|]. split; [left; reflexivity|].
    intros v [->|[]]. lra.
  - cbn [map fold_left Number_max].
    destruct (IH (Math_max a b)) as (top & Htop & Hin & Hmax).
    exists top. split; [exact Htop|]. split.
    + destruct Hin as [Heq|Hin]; [|right; right; exact Hin].
      rewrite <- Heq. unfold Math_max.
      destruct (Qlt_le_dec a b); [right; left | left]; reflexivity.
    + intros v Hv.
      assert (Hab : a <= Math_max a b /\ b <= Math_max a b).
      { unfold Math_max. destruct (Qlt_le_dec a b); lra. }
      pose proof (Hmax (Math_max a b) (or_introl eq_refl)) as Hbound.
      destruct Hv as [->|[->|Hv]]; [lra | lra |].
      apply Hmax. right. exact Hv.
Qed.

Hypothesis exp_at_most_1 : forall x, x <= 0 -> Math_exp x <= 1.

(** The exponential of a logit less the maximum. *)
Lemma exponential_finite (v top L : Q) :
  v <= top -> Qabs v <= L -> Qabs top <= L -> 2 * L < overflow_threshold ->
  Number_exp (Number_sub (Finite v) (Finite top)) = Finite (Math_exp (v - top)) /\
  0 <= Math_exp (v - top) /\ Math_exp (v - top) <= 1.
Proof.
  intros Hv Hbv Hbtop HL. pose proof overflow_threshold_large as Hlarge.
  pose proof (Math_exp_nonneg (v - top)) as H0.
  pose proof (exp_at_most_1 (v - top) ltac:(lra)) as H1.
  unfold Number_sub. cbn [Number_opposite Number_add].
  change (v + - top) with (v - top).
  rewrite (number_in_range (v - top)).
  - cbn [Number_exp]. rewrite number_in_range.
    + split_and!; [reflexivity | exact H0 | exact H1].
    + rewrite Qabs_pos by exact H0. lra.
  - eapply Qle_lt_trans; [|exact HL].
    eapply Qle_trans; [apply Qabs_triangle|].
    rewrite Qabs_opp. lra.
Qed.

Lemma exponentials_finite (values : list Q) (top L : Q) :
  (forall v, In v values -> v <= top) ->
  Forall (fun v => Qabs v <= L) values -> Qabs top <= L ->
  2 * L < overflow_threshold ->
  map (fun x => Number_exp (Number_sub x (Finite top))) (map Finite values)
  = map Finite (map (fun v => Math_exp (v - top)) values) /\
  Forall (fun e => 0 <= e /\ e <= 1) (map (fun v => Math_exp (v - top)) values).
Proof.
  intros Hmax Hvalues Htop HL.
  induction Hvalues as [|v values Hv _ IH].
  - split; [reflexivity | constructor].
  - destruct (exponential_finite v top L) as (He & He0 & He1); try assumption.
    { apply Hmax. left. reflexivity. }
    destruct IH as (Hexps & Hrange).
    { intros u Hu. apply Hmax. right. exact Hu. }
    cbn [map]. rewrite He, Hexps.
    split; [reflexivity|]. constructor; [split|]; assumption.
Qed.

Lemma sum_numbers_finite (exps : list Q) :
  Forall (fun e => 0 <= e /\ e <= 1) exps ->
  inject_Z (Z.of_nat (length exps)) < overflow_threshold ->
  sum_numbers (map Finite exps) = Finite (sum_list exps).
Proof.
  intros Hexps Hlen. unfold sum_numbers, sum_list, for_each.
  assert (Hfrom : forall a,
            0 <= a -> a + inject_Z (Z.of_nat (length exps)) < overflow_threshold ->
            fold_left (fun s a => Number_add s a) (map Finite exps) (Finite a)
            = Finite (fold_left (fun s a => s + a) exps a)).
  { clear Hlen. induction Hexps as [|e exps [He0 He1] _ IH]; intros a Ha Hbound.
    - reflexivity.
    - cbn [map fold_left Number_add length] in *.
      rewrite Nat2Z.inj_succ in Hbound. unfold Z.succ in Hbound.
      rewrite inject_Z_plus in Hbound. change (inject_Z 1) with 1 in Hbound.
      pose proof (count_nonneg (length exps)).
      rewrite (number_in_range (a + e)).
      + apply IH; lra.
      + rewrite Qabs_pos by lra. lra. }
  apply Hfrom; lra.
Qed.

(** The softmax of finite logits whose differences stay in range is a
    vector of probabilities. *)
Lemma softmax_finite (values : list Q) (L : Q) :
  values <> [] ->
  Forall (fun v => Qabs v <= L) values -> 2 * L < overflow_threshold ->
  inject_Z (Z.of_nat (length values)) < overflow_threshold ->
  exists top,
    In top values /\ (forall v, In v values -> v <= top) /\
    let exps := map (fun v => Math_exp (v - top)) values in
    let probs := map (fun e => e / sum_list exps) exps in
    softmax (map Finite values) = map Finite probs /\
    Forall (fun p => 0 <= p /\ p <= 1) probs /\
    sum_list probs == 1.
Proof.
  intros Hne Hvalues HL Hlen. destruct values as [|a rest]; [contradiction|].
  destruct (maximum_finite a rest) as (top & Htop & Hin & Hmax).
  assert (Hbtop : Qabs top <= L).
  { rewrite Forall_forall in Hvalues. apply Hvalues, list_elem_of_In, Hin. }
  destruct (exponentials_finite (a :: rest) top L Hmax Hvalues Hbtop HL)
    as (Hexps & Hrange).
  exists top. split; [exact Hin|]. split; [exact Hmax|]. cbv zeta.
  set (exps := map (fun v => Math_exp (v - top)) (a :: rest)) in *.
  assert (Hone : In (Math_exp (top - top)) exps).
  { unfold exps. apply in_map_iff. exists top. split; [reflexivity | exact Hin]. }
  assert (Hsame : length exps = length (a :: rest)).
  { unfold exps. apply length_map. }
  assert (Hnonneg : Forall (fun e => 0 <= e) exps).
  { eapply Forall_impl; [exact Hrange|]. intros e [He _]. exact He. }
  assert (Hsum : 1 <= sum_list exps).
  { pose proof (sum_list_member exps _ Hnonneg Hone) as Hle.
    rewrite (Math_exp_0 (top - top)) in Hle by lra. exact Hle. }
  pose proof (sum_numbers_finite exps Hrange ltac:(rewrite Hsame; exact Hlen)) as Hs.
  assert (Hprobs : Forall (fun p => 0 <= p /\ p <= 1)
                     (map (fun e => e / sum_list exps) exps)).
  { apply Forall_forall. intros p Hp. apply list_elem_of_In, in_map_iff in Hp.
    destruct Hp as (e & <- & He).
    pose proof (sum_list_member exps e Hnonneg He) as Hle.
    rewrite Forall_forall in Hnonneg. apply list_elem_of_In, Hnonneg in He.
    split.
    - apply Qle_shift_div_l; lra.
    - apply Qle_shift_div_r; lra. }
  split_and!.
  - unfold softmax. rewrite Htop, Hexps, Hs.
    rewrite !map_map. apply map_ext_in. intros e He.
    cbn [Number_div].
    destruct (Qeq_dec (sum_list exps) 0) as [Hzero|_]; [lra|].
    apply number_in_range.
    rewrite Forall_forall in Hprobs.
    destruct (Hprobs (e / sum_list exps)) as [H0 H1].
    { apply list_elem_of_In, in_map_iff. exists e. split; [reflexivity | exact He]. }
    pose proof overflow_threshold_large. rewrite Qabs_pos by exact H0. lra.
  - exact Hprobs.
  - rewrite sum_list_scaled by lra. field. lra.
Qed.

(** C6.  For a network with the standard architecture (542 inputs, hidden
    layers of 256, 128 and 64 neurons, 5 outputs) and every input of 542
    numbers, [forward] returns 5 values.  When no weight, no bias and no
    entry of the input is above [magnitude_limit] in magnitude, and the
    exponential of the host is at most 1 on numbers that are not positive,
    no sum of the pass overflows: the 5 logits of the last layer are
    finite, and the 5 values are their softmax, computed by subtracting
    their maximum [top] (one of the logits, at least as large as each)
    before exponentiating and dividing by the sum of the exponentials.
    They are probabilities, and their sum is within 1e-6 of 1. *)
Theorem forward_distribution (net : Network) (input : list Q) :
  has_architecture 542 [256; 128; 64]%nat 5 net ->
  length input = 542%nat ->
  length (forward net input) = 5%nat /\
  (moderate_network net -> Forall moderate input ->
   exists logits top,
     forward_layers (layers net) (map Finite input) = map Finite logits /\
     length logits = 5%nat /\
     In top logits /\ (forall v, In v logits -> v <= top) /\
     let exps := map (fun v => Math_exp (v - top)) logits in
     let probs := map (fun e => e / sum_list exps) exps in
     forward net input = map Finite probs /\
     Forall (fun p => 0 <= p /\ p <= 1) probs /\
     Qabs (sum_list probs - 1) <= 0.000001).
Proof.
  intros Hshape Hlen.
  assert (Hfive : length (forward_layers (layers net) (map Finite input)) = 5%nat).
  { rewrite (forward_layers_shaped ([256; 128; 64] ++ [5])%nat 542 (layers net)
               (map Finite input) Hshape);
      [reflexivity | rewrite length_map; exact Hlen]. }
  split.
  - unfold forward. rewrite softmax_length. exact Hfive.
  - intros Hnet Hinput.
    assert (Hlimit : 0 <= magnitude_limit) by (vm_compute; discriminate).
    destruct (forward_layers_finite magnitude_limit ([256; 128; 64] ++ [5])%nat 542
                (layers net) input magnitude_limit Hlimit Hlimit Hshape Hnet Hlen
                Hinput standard_stays_in_range) as (logits & Hlogits & Hbound).
    assert (Hlength : length logits = 5%nat).
    { rewrite Hlogits, length_map in Hfive. exact Hfive. }
    destruct (softmax_finite logits _ ltac:(intros ->; discriminate) Hbound
                standard_logits_in_range
                ltac:(rewrite Hlength; vm_compute; reflexivity))
      as (top & Hin & Hmax & Hsoftmax).
    cbv zeta in Hsoftmax. destruct Hsoftmax as (Hforward & Hprobs & Hsum).
    exists logits, top. cbv zeta. unfold forward. rewrite Hlogits.
    split_and!; try assumption; try reflexivity.
    apply Qabs_Qle_condition. lra.
Qed.

End Forward.

(** The blank network on the zero input. *)
Lemma forward_distribution_witness :
  (forall x, (x <= 0)%Q -> (Math_exp (Runtime := Sample.steady) x <= 1)%Q) /\
  has_architecture 542 [256; 128; 64]%nat 5 Sample.blank_brain /\
  length (replicate 542 0%Q) = 542%nat /\
  moderate_network Sample.blank_brain /\
  Forall moderate (replicate 542 0%Q) /\
  exists probs,
    NeuralNetwork.forward (rt := Sample.steady) Sample.blank_brain
      (replicate 542 0%Q) = map Finite probs /\
    length probs = 5%nat /\
    (Qabs (NeuralNetwork.sum_list probs - 1) <= 0.000001)%Q.
Proof.
  assert (Hexp : forall x, (x <= 0)%Q ->
                   (Math_exp (Runtime := Sample.steady) x <= 1)%Q).
  { intros x _. apply Qle_refl. }
  assert (Hshape : has_architecture 542 [256; 128; 64]%nat 5 Sample.blank_brain).
  { vm_compute. reflexivity. }
  assert (Hlen : length (replicate 542 0%Q) = 542%nat).
  { vm_compute. reflexivity. }
  assert (Hzero : moderate 0%Q).
  { vm_compute. discriminate. }
  assert (Hlayer : forall inputs outputs,
            Forall (Forall moderate)
              (NeuralNetwork.weights (Sample.blank_layer inputs outputs)) /\
            Forall moderate (NeuralNetwork.biases (Sample.blank_layer inputs outputs))).
  { intros inputs outputs. split; repeat apply Forall_replicate; exact Hzero. }
  assert (Hnet : moderate_network Sample.blank_brain).
  { unfold moderate_network, Sample.blank_brain. cbn [NeuralNetwork.layers].
    do 4 (constructor; [apply Hlayer|]). constructor. }
  assert (Hinput : Forall moderate (replicate 542 0%Q)).
  { apply Forall_replicate, Hzero. }
  split; [exact Hexp|]. split; [exact Hshape|]. split; [exact Hlen|].
  split; [exact Hnet|]. split; [exact Hinput|].
  destruct (forward_distribution (rt := Sample.steady) Hexp Sample.blank_brain
              (replicate 542 0%Q) Hshape Hlen) as (Hfive & Hsoftmax).
  destruct (Hsoftmax Hnet Hinput)
    as (logits & top & _ & _ & _ & _ & Hforward & _ & Hsum).
  cbv zeta in Hforward, Hsum.
  eexists. split; [exact Hforward|]. split; [|exact Hsum].
  rewrite Hforward, length_map in Hfive. exact Hfive.
Defined.

(** The loud network on the huge input: the first neuron overflows to
    infinity, the second layer multiplies the infinity by its zero weights,
    and not-a-number is all that is left. *)
Lemma forward_of_huge_input :
  NeuralNetwork.forward (rt := Sample.steady) Sample.loud_brain Sample.huge_input
  = [NaN; NaN; NaN; NaN; NaN].
Proof. vm_compute. reflexivity. Qed.

(** C6, as stated, fails: there are inputs of the correct size for which
    the outputs are no numbers at all. *)
Lemma forward_overflows : ~ always_sums_to_one.
Proof.
  intros Hclaim.
  destruct (Hclaim Sample.steady Sample.loud_brain Sample.huge_input)
    as (probs & Hprobs & _).
  - vm_compute. reflexivity.
  - vm_compute. reflexivity.
  - rewrite forward_of_huge_input in Hprobs.
    destruct probs; discriminate Hprobs.
Qed.

(** ** Calls that return *)

Section Ensures.
Context {rt : Runtime}.

Lemma ensures_return {A} (a : A) (P : A -> Prop) : P a -> ensures (return_ a) P.
Proof. intros Ha h. exists a, h. split; [reflexivity | exact Ha]. Qed.

Lemma ensures_and_then {A B} (m : Run A) (k : A -> Run B) (P : A -> Prop)
    (R : B -> Prop) :
  ensures m P -> (forall a, P a -> ensures (k a) R) -> ensures (and_then m k) R.
Proof.
  intros Hm Hk h. destruct (Hm h) as (a & h1 & Hrun & Ha).
  destruct (Hk a Ha h1) as (b & h2 & Hrun' & Hb).
  exists b, h2. unfold and_then. rewrite Hrun. split; assumption.
Qed.

Lemma ensures_lift {A} (m : Rand A) (P : A -> Prop) :
  (forall h, P (fst (m h))) -> ensures (lift m) P.
Proof.
  intros Hm h. specialize (Hm h). unfold lift.
  destruct (m h) as [a h1]. exists a, h1. split; [reflexivity | exact Hm].
Qed.

Lemma ensures_of_except {A} (a : A) (P : A -> Prop) :
  P a -> ensures (of_except (inr a)) P.
Proof. intros Ha h. exists a, h. split; [reflexivity | exact Ha]. Qed.

Lemma ensures_weaken {A} (m : Run A) (P R : A -> Prop) :
  ensures m P -> (forall a, P a -> R a) -> ensures m R.
Proof.
  intros Hm HPR h. destruct (Hm h) as (a & h1 & Hrun & Ha).
  exists a, h1. split; [exact Hrun | apply HPR, Ha].
Qed.

Lemma ensures_for_each_run {A S} (I : S -> Prop) (l : list A)
    (body : A -> S -> Run S) (s : S) :
  I s -> (forall a s, I s -> ensures (body a s) I) ->
  ensures (for_each_run l body s) I.
Proof.
  revert s. induction l as [|a l IH]; intros s Hs Hbody; simpl.
  - apply ensures_return, Hs.
  - eapply ensures_and_then; [apply Hbody, Hs|].
    intros s' Hs'. apply IH; assumption.
Qed.

End Ensures.

(** ** NeuralNetwork: construction *)

Section Construction.
Import NeuralNetwork.
Context {rt : Runtime}.
Hypothesis random_is_fair : fair.
Local Open Scope Q_scope.

Lemma draw_nonzero_returns fuel n clock k :
  (k < fuel)%nat -> ~ random_value (n + k) == 0 ->
  exists u h', draw_nonzero fuel {| randoms_drawn := n; clock_reads := clock |}
               = Returned u h'.
Proof.
  revert n k. induction fuel as [|fuel IH]; intros n k Hk Hnz; [lia|].
  simpl. unfold and_then, lift, Math_random. simpl.
  destruct (Qeq_bool (random_value n) 0) eqn:Hzero.
  - apply Qeq_bool_eq in Hzero.
    destruct k as [|k].
    + exfalso. apply Hnz. rewrite Nat.add_0_r. exact Hzero.
    + apply (IH (S n) k); [lia|].
      replace (S n + k)%nat with (n + S k)%nat by lia. exact Hnz.
  - eexists _, _. reflexivity.
Qed.

Lemma draw_nonzero_ensures : ensures (draw_nonzero spin_limit) (fun _ => True).
Proof.
  intros [n clock]. destruct (random_is_fair n) as (k & Hk & Hnz).
  destruct (draw_nonzero_returns spin_limit n clock k Hk Hnz) as (u & h' & Hrun).
  exists u, h'. split; [exact Hrun | exact I].
Qed.

Lemma gaussianRandom_ensures this :
  ensures (gaussianRandom this) (fun r => layers (snd r) = layers this).
Proof.
  unfold gaussianRandom. destruct (hasSpareGaussian this).
  - apply ensures_return. reflexivity.
  - eapply ensures_and_then; [apply draw_nonzero_ensures|]. intros u _.
    eapply ensures_and_then; [apply draw_nonzero_ensures|]. intros v _.
    apply ensures_return. reflexivity.
Qed.

Lemma randomArray_ensures size std this :
  ensures (randomArray size std this)
    (fun r => length (fst r) = size /\ layers (snd r) = layers this).
Proof.
  revert this. induction size as [|size IH]; intros this; simpl.
  - apply ensures_return. split; reflexivity.
  - eapply ensures_and_then; [apply gaussianRandom_ensures|].
    intros [z this1] H1. simpl in H1.
    eapply ensures_and_then; [apply IH|].
    intros [rest this2] [Hlen H2]. simpl in *.
    apply ensures_return. simpl. split; congruence.
Qed.

Lemma randomMatrix_ensures rows cols std this :
  ensures (randomMatrix rows cols std this)
    (fun r => length (fst r) = rows /\ map length (fst r) = replicate rows cols /\
              layers (snd r) = layers this).
Proof.
  revert this. induction rows as [|rows IH]; intros this; simpl.
  - apply ensures_return. split_and!; reflexivity.
  - eapply ensures_and_then; [apply randomArray_ensures|].
    intros [row this1] [Hrow H1]. simpl in *.
    eapply ensures_and_then; [apply IH|].
    intros [rest this2] (Hlen & Hcols & H2). simpl in *.
    apply ensures_return. simpl. split_and!; congruence.
Qed.

Lemma initial_layers_ensures previous sizes this :
  ensures (initial_layers previous sizes this)
    (fun net => map shape_of (layers net)
                = map shape_of (layers this) ++ shapes_for previous sizes).
Proof.
  revert previous this. induction sizes as [|size sizes IH]; intros previous this; simpl.
  - apply ensures_return. symmetry. apply app_nil_r.
  - eapply ensures_and_then; [apply randomMatrix_ensures|].
    intros [w this1] (Hrows & Hcols & H1). simpl in *.
    eapply ensures_and_then; [apply randomArray_ensures|].
    intros [b this2] [Hb H2]. simpl in *.
    eapply ensures_weaken; [apply IH|].
    intros net Hnet. rewrite Hnet. simpl.
    rewrite H2, H1, map_app, <- app_assoc. simpl.
    unfold shape_of at 2. simpl. rewrite Hrows, Hcols, Hb. reflexivity.
Qed.

(** The constructor returns a network with the architecture asked for
    and an empty generator cache. *)
Lemma constructor_ensures inputSize hiddenSizes outputSize :
  ensures (constructor inputSize hiddenSizes outputSize)
    (fun net => has_architecture inputSize hiddenSizes outputSize net /\
                hasSpareGaussian net = false /\ spareGaussian net = 0).
Proof.
  unfold constructor.
  eapply ensures_and_then; [apply initial_layers_ensures|].
  intros net Hnet. apply ensures_return. simpl in *.
  split_and!; try reflexivity. exact Hnet.
Qed.

End Construction.

(** ** NeuralNetwork: serialisation *)

Section Serialisation.
Import NeuralNetwork.
Context {rt : Runtime}.
Local Open Scope Q_scope.

Lemma copy_layer (l : Layer) :
  {| weights := map (fun row => row) (weights l); biases := biases l |} = l.
Proof. destruct l as [w b]. simpl. rewrite map_id. reflexivity. Qed.

Lemma layer_info_defined (l : Layer) :
  weights l <> [] -> layer_info l = inr (layer_record l).
Proof.
  intros Hw. unfold layer_info, layer_record.
  destruct (weights l) as [|row0 rows]; [contradiction | reflexivity].
Qed.

Lemma architecture_loop_defined (ls : list Layer) (acc : Architecture) :
  Forall (fun l => weights l <> []) ls ->
  exists arch, architecture_loop ls acc = inr arch /\
               structure arch = structure acc ++ map layer_record ls.
Proof.
  intros Hls. revert acc. induction Hls as [|l ls Hl _ IH]; intros acc; simpl.
  - exists acc. split; [reflexivity | symmetry; apply app_nil_r].
  - rewrite (layer_info_defined l Hl).
    destruct (IH {| arch_layers := arch_layers acc;
                    structure := structure acc ++ [layer_record l];
                    totalParameters :=
                      (totalParameters acc + parameters (layer_record l))%nat |})
      as (arch & Hrun & Hs).
    exists arch. split; [exact Hrun|].
    rewrite Hs. simpl. rewrite <- app_assoc. reflexivity.
Qed.

(** The [forEach] of [deserialize], entry by entry. *)
Lemma overwrite_layers_lookup (data own : list Layer) :
  length (overwrite_layers data own) = length own /\
  forall i, overwrite_layers data own !! i =
            if decide (i < length data /\ i < length own)%nat
            then data !! i else own !! i.
Proof.
  unfold overwrite_layers, for_each.
  induction data as [|d data IH] using rev_ind; simpl.
  - split; [reflexivity|]. intros i. reflexivity.
  - rewrite imap_app, fold_left_app. simpl.
    destruct IH as [Hlen Hlook].
    set (R := fold_left _ (imap _ data) own) in *.
    rewrite Nat.add_0_r, copy_layer, length_app. simpl.
    destruct (length data <? length R)%nat eqn:Hin.
    + apply Nat.ltb_lt in Hin. split; [rewrite length_insert; exact Hlen|].
      intros i. rewrite list_lookup_insert.
      destruct (decide (length data = i /\ (length data < length R)%nat))
        as [[<- _]|Hne].
      * rewrite decide_True by lia.
        rewrite lookup_app_r by lia. rewrite Nat.sub_diag. reflexivity.
      * rewrite Hlook.
        destruct (decide (i < length data /\ i < length own)%nat) as [[H1 H2]|H].
        -- rewrite decide_True by lia. rewrite lookup_app_l by lia. reflexivity.
        -- rewrite decide_False by lia. reflexivity.
    + apply Nat.ltb_ge in Hin. split; [exact Hlen|].
      intros i. rewrite Hlook.
      destruct (decide (i < length data /\ i < length own)%nat) as [[H1 H2]|H].
      * rewrite decide_True by lia. rewrite lookup_app_l by lia. reflexivity.
      * rewrite decide_False by lia. reflexivity.
Qed.

Lemma overwrite_layers_all (data own : list Layer) :
  length data = length own -> overwrite_layers data own = data.
Proof.
  intros Hlen. destruct (overwrite_layers_lookup data own) as [Hl Hlook].
  apply list_eq. intros i. rewrite Hlook.
  case_decide as H; [reflexivity|].
  rewrite !(proj2 (lookup_ge_None _ _)) by lia. reflexivity.
Qed.

Lemma shapes_for_length previous sizes :
  length (shapes_for previous sizes) = length sizes.
Proof.
  revert previous. induction sizes as [|size sizes IH]; intros previous; simpl;
    [reflexivity | rewrite IH; reflexivity].
Qed.

Lemma sizes_of_structure (first : LayerInfo) (rest : list LayerInfo) :
  map neurons (removelast (first :: rest)) ++ [neurons (List.last (first :: rest) first)]
  = map neurons (first :: rest).
Proof.
  rewrite (app_removelast_last first (l := first :: rest)) at 3 by discriminate.
  rewrite map_app. reflexivity.
Qed.

(** What [deserialize] does once both fields are present and the
    architecture lists a layer. *)
Lemma deserialize_present (data : Serialized) ls arch :
  fair ->
  data_layers data = Some ls ->
  data_architecture data = Some arch ->
  structure arch <> [] ->
  ensures (deserialize data)
    (fun net => exists own,
       map shape_of own = constructed_shapes arch /\
       layers net = overwrite_layers ls own).
Proof.
  intros Hfair Hls Harch Hne. unfold deserialize. rewrite Hls, Harch.
  unfold constructed_shapes.
  destruct (structure arch) as [|first rest] eqn:Hs; [contradiction|].
  eapply ensures_and_then; [apply (constructor_ensures Hfair)|].
  intros network (Hshape & _ & _). apply ensures_return.
  exists (layers network). split; [|reflexivity].
  unfold has_architecture in Hshape. rewrite Hshape, sizes_of_structure.
  reflexivity.
Qed.

(** C5.  For every policy [p] with at least one layer and at least one
    neuron in every layer (as every network built from positive sizes
    has), on a host whose random generator is fair, [serialize] returns and
    [deserialize] applied to its result returns a network with exactly the
    layers of [p]: the same shapes and the same weights and biases; the
    architecture records of the two networks are equal. *)
Theorem deserialize_serialize (p : Network) (h : Host) :
  fair ->
  layers p <> [] ->
  Forall (fun l => weights l <> []) (layers p) ->
  exists data h1 net h2,
    serialize p h = Returned data h1 /\
    deserialize data h1 = Returned net h2 /\
    layers net = layers p /\
    map shape_of (layers net) = map shape_of (layers p) /\
    getArchitecture net = getArchitecture p.
Proof.
  intros Hfair Hne Hrows.
  destruct (architecture_loop_defined (layers p)
              {| arch_layers := length (layers p); structure := [];
                 totalParameters := 0 |} Hrows) as (arch & Harch & Hs).
  simpl in Hs.
  set (data := {| data_layers :=
                    Some (map (fun layer => {| weights := weights layer;
                                               biases := biases layer |}) (layers p));
                  data_architecture := Some arch; version := "1.0";
                  serializedAt := clock_value (clock_reads h) |}).
  assert (Hser : serialize p h = Returned data
                   {| randoms_drawn := randoms_drawn h;
                      clock_reads := S (clock_reads h) |}).
  { unfold serialize, and_then, of_except, getArchitecture. rewrite Harch.
    reflexivity. }
  assert (Hcopy : map (fun layer => {| weights := weights layer;
                                       biases := biases layer |}) (layers p)
                  = layers p).
  { rewrite <- (map_id (layers p)) at 2. apply map_ext.
    intros [w b]. reflexivity. }
  assert (Hstruct : structure arch <> []).
  { rewrite Hs. destruct (layers p); [contradiction | discriminate]. }
  destruct (deserialize_present data (layers p) arch Hfair
              ltac:(simpl; rewrite Hcopy; reflexivity) eq_refl Hstruct
              {| randoms_drawn := randoms_drawn h; clock_reads := S (clock_reads h) |})
    as (net & h2 & Hdes & own & Hown & Hlayers).
  assert (Hlen : length (layers p) = length own).
  { rewrite <- (length_map shape_of own), Hown. unfold constructed_shapes.
    destruct (structure arch) as [|first rest] eqn:Hfirst; [contradiction|].
    rewrite shapes_for_length, length_map, Hs, length_map.
    reflexivity. }
  rewrite (overwrite_layers_all _ _ Hlen) in Hlayers.
  exists data, {| randoms_drawn := randoms_drawn h; clock_reads := S (clock_reads h) |},
         net, h2.
  split; [exact Hser|]. split; [exact Hdes|]. split; [exact Hlayers|].
  split; [rewrite Hlayers; reflexivity|].
  unfold getArchitecture. rewrite Hlayers. reflexivity.
Qed.

(** C4, as amended.  On a host whose random generator is fair,
    [deserialize] throws [Error("Invalid serialized network data")] exactly
    when the [layers] or the [architecture] field is missing.  When both
    are present and the architecture lists at least one layer, it returns
    without comparing any shape: the network has as many layers as the
    architecture lists; layer [i] is entry [i] of the data, whatever its
    shape, wherever the data has such an entry; the remaining layers are
    the randomly initialised ones of the constructor; entries of the data
    beyond the layers of the architecture are ignored. *)
Theorem deserialize_checks_presence (data : Serialized) (h : Host) :
  fair ->
  (data_layers data = None \/ data_architecture data = None ->
   deserialize data h = Thrown (Error "Invalid serialized network data")) /\
  (forall ls arch,
     data_layers data = Some ls ->
     data_architecture data = Some arch ->
     structure arch <> [] ->
     exists net h',
       deserialize data h = Returned net h' /\
       length (layers net) = length (structure arch) /\
       (forall i, (i < length ls)%nat -> (i < length (structure arch))%nat ->
                  layers net !! i = ls !! i) /\
       (forall i, (length ls <= i)%nat ->
                  shape_of <$> (layers net !! i) = constructed_shapes arch !! i)).
Proof.
  intros Hfair. split.
  - intros Hmissing. unfold deserialize.
    destruct (data_layers data) as [ls|]; destruct (data_architecture data) as [arch|];
      try reflexivity.
    destruct Hmissing; discriminate.
  - intros ls arch Hls Harch Hne.
    destruct (deserialize_present data ls arch Hfair Hls Harch Hne h)
      as (net & h' & Hrun & own & Hown & Hlayers).
    destruct (overwrite_layers_lookup ls own) as [Hlen Hlook].
    assert (Hcount : length own = length (structure arch)).
    { rewrite <- (length_map shape_of own), Hown. unfold constructed_shapes.
      destruct (structure arch) as [|first rest]; [contradiction|].
      rewrite shapes_for_length, length_map. reflexivity. }
    exists net, h'. split; [exact Hrun|]. rewrite Hlayers.
    split; [congruence|]. split.
    + intros i Hi Hi'. rewrite Hlook, decide_True by lia. reflexivity.
    + intros i Hi. rewrite Hlook, decide_False by lia.
      rewrite <- Hown, list_lookup_fmap. reflexivity.
Qed.

End Serialisation.

Lemma steady_is_fair : fair (rt := Sample.steady).
Proof.
  intros n. exists 0%nat. split; [simpl; lia|]. simpl. discriminate.
Qed.

(** The small network survives the round trip. *)
Lemma deserialize_serialize_witness :
  fair (rt := Sample.steady) /\
  NeuralNetwork.layers Sample.small_brain <> [] /\
  Forall (fun l => NeuralNetwork.weights l <> [])
         (NeuralNetwork.layers Sample.small_brain) /\
  exists data h1 net h2,
    NeuralNetwork.serialize (rt := Sample.steady) Sample.small_brain Sample.start
      = Returned data h1 /\
    NeuralNetwork.deserialize (rt := Sample.steady) data h1 = Returned net h2 /\
    NeuralNetwork.layers net = NeuralNetwork.layers Sample.small_brain.
Proof.
  assert (Hne : NeuralNetwork.layers Sample.small_brain <> []).
  { simpl. discriminate. }
  assert (Hrows : Forall (fun l => NeuralNetwork.weights l <> [])
                         (NeuralNetwork.layers Sample.small_brain)).
  { simpl. repeat constructor; simpl; discriminate. }
  split; [exact steady_is_fair|]. split; [exact Hne|]. split; [exact Hrows|].
  destruct (deserialize_serialize (rt := Sample.steady) Sample.small_brain
              Sample.start steady_is_fair Hne Hrows)
    as (data & h1 & net & h2 & Hser & Hdes & Hlayers & _).
  exists data, h1, net, h2. split; [exact Hser|]. split; [exact Hdes | exact Hlayers].
Defined.

(** What [deserialize] makes of the surplus data: it returns a network whose
    only layer is the 2 by 3 layer of the data, under an architecture
    record that declares one layer of 1 by 1; the second layer of the data
    is gone. *)
Lemma deserialize_surplus :
  exists h',
    NeuralNetwork.deserialize (rt := Sample.steady) Sample.surplus Sample.start
    = Returned {| NeuralNetwork.layers := [Sample.wide_layer];
                  NeuralNetwork.hasSpareGaussian := false;
                  NeuralNetwork.spareGaussian := 0 |} h'.
Proof. eexists. vm_compute. reflexivity. Qed.

(** C4, as stated, fails: [deserialize] accepts data whose layers disagree
    with its architecture record in number and in size. *)
Lemma deserialize_accepts_mismatch : ~ validates_shapes.
Proof.
  intros Hvalid.
  destruct (Hvalid Sample.steady Sample.surplus Sample.start
              [Sample.wide_layer; Sample.narrow_layer]
              {| NeuralNetwork.arch_layers := 1;
                 NeuralNetwork.structure :=
                   [ {| NeuralNetwork.neurons := 1; NeuralNetwork.inputs := 1;
                        NeuralNetwork.info_weights := 1;
                        NeuralNetwork.info_biases := 1;
                        NeuralNetwork.parameters := 2 |} ];
                 NeuralNetwork.totalParameters := 2 |}
              eq_refl eq_refl) as [message Hthrown].
  - unfold consistent. vm_compute. discriminate.
  - destruct deserialize_surplus as [h' Hreturned].
    rewrite Hreturned in Hthrown. discriminate.
Qed.

(** The surplus data is accepted. *)
Lemma deserialize_checks_presence_witness :
  fair (rt := Sample.steady) /\
  exists net h',
    NeuralNetwork.deserialize (rt := Sample.steady) Sample.surplus Sample.start
      = Returned net h' /\
    length (NeuralNetwork.layers net) = 1%nat /\
    NeuralNetwork.layers net !! 0%nat = Some Sample.wide_layer.
Proof.
  split; [exact steady_is_fair|].
  destruct (deserialize_checks_presence (rt := Sample.steady) Sample.surplus
              Sample.start steady_is_fair) as [_ Hpresent].
  destruct (Hpresent [Sample.wide_layer; Sample.narrow_layer]
              {| NeuralNetwork.arch_layers := 1;
                 NeuralNetwork.structure :=
                   [ {| NeuralNetwork.neurons := 1; NeuralNetwork.inputs := 1;
                        NeuralNetwork.info_weights := 1;
                        NeuralNetwork.info_biases := 1;
                        NeuralNetwork.parameters := 2 |} ];
                 NeuralNetwork.totalParameters := 2 |}
              eq_refl eq_refl ltac:(discriminate))
    as (net & h' & Hrun & Hlen & Hcopy & _).
  exists net, h'. split; [exact Hrun|]. split; [exact Hlen|].
  apply (Hcopy 0%nat); simpl; lia.
Defined.

(** ** ConsciousEntity: one tick *)

Section Tick.
Import ConsciousEntity.
Context {rt : Runtime}.
Local Open Scope Q_scope.

Lemma updateVision_keeps w others this h :
  let this' := fst (updateVision w others this h) in
  brain this' = brain this /\ lastActionIndex this' = lastActionIndex this /\
  energy this' = energy this /\ fitness this' = fitness this /\
  age this' = age this /\ totalEnergyGained this' = totalEnergyGained this /\
  gridSize this' = gridSize this /\ x this' = x this /\ y this' = y this.
Proof.
  unfold updateVision, bind.
  destruct (for_each_rand _ _ _ h) as [points h1]. simpl.
  split_and!; reflexivity.
Qed.

Lemma recordExperience_keeps now this :
  let this' := recordExperience now this in
  brain this' = brain this /\ lastActionIndex this' = lastActionIndex this /\
  energy this' = energy this /\ fitness this' = fitness this /\
  age this' = age this /\ totalEnergyGained this' = totalEnergyGained this /\
  gridSize this' = gridSize this /\ x this' = x this /\ y this' = y this /\
  vision this' = vision this.
Proof.
  unfold recordExperience.
  destruct (List.find _ (vision this)) as [point|]; simpl;
    split_and!; reflexivity.
Qed.

(** The first half of [update] leaves the brain and the last action
    alone. *)
Lemma sense_keeps w others now this h :
  let this' := fst (fst (sense w others now this h)) in
  brain this' = brain this /\ lastActionIndex this' = lastActionIndex this /\
  gridSize this' = gridSize this /\ x this' = x this /\ y this' = y this.
Proof.
  unfold sense. cbv zeta.
  set (fed := WorldPhysics.consumeEnergy (x (decay this)) (y (decay this)) w).
  set (e := prune now (warn now (credit (fst fed) now (decay this)))).
  assert (He : brain e = brain this /\ lastActionIndex e = lastActionIndex this /\
               gridSize e = gridSize this /\ x e = x this /\ y e = y this).
  { unfold e, prune, warn, credit, decay.
    destruct (0 <? fst fed)%Z; simpl;
      match goal with
      | |- context [Qlt_le_dec ?a ?b] => destruct (Qlt_le_dec a b)
      end; simpl; split_and!; reflexivity. }
  clearbody e fed. unfold bind.
  pose proof (updateVision_keeps (snd fed) (resolve e others) e h) as Hv.
  destruct (updateVision _ _ _ h) as [seen h1]. simpl in *.
  pose proof (recordExperience_keeps now seen) as Hr. simpl in Hr.
  destruct Hv as (? & ? & _ & _ & _ & _ & ? & ? & ?).
  destruct Hr as (? & ? & _ & _ & _ & _ & ? & ? & ? & _).
  destruct He as (? & ? & ? & ? & ?).
  split_and!; congruence.
Qed.

Lemma executeAction_keeps action this acted :
  executeAction action this = inr acted ->
  lastActionIndex acted = action /\ brain acted = brain this /\
  energy acted = energy this /\ age acted = age this /\
  totalEnergyGained acted = totalEnergyGained this /\
  (action < 5)%nat.
Proof.
  unfold executeAction. intros Hrun.
  destruct (action_moves !! action) as [move|] eqn:Hmove; [|discriminate].
  injection Hrun as <-. simpl. split_and!; try reflexivity.
  apply lookup_lt_Some in Hmove. exact Hmove.
Qed.

(** C7, as amended.  Whenever [update] returns, it has first done the
    sensing half (decay, feeding, feedback, vision, memory), which leaves
    the policy as it was on entry; then chosen the action with that policy;
    then applied the nudge of [applyREINFORCELearning] to the policy; then
    carried out the action chosen before the nudge.  So the nudge comes
    after the choice of the tick's action and before the action is acted
    on: the entity that acts already holds the nudged policy. *)
Theorem update_decides_then_nudges
    (w : WorldPhysics.World) (others : list (option Entity)) (now : Z)
    (this : Entity) (h : Host)
    (survived : bool) (this' : Entity) (w' : WorldPhysics.World) (h' : Host) :
  update w others now this h = Returned (survived, this', w') h' ->
  exists sensed h1 action h2 nudged acted,
    sense w others now this h = ((sensed, w'), h1) /\
    brain sensed = brain this /\
    makeDecision now sensed h1 = (action, h2) /\
    applyREINFORCELearning sensed h2 = Returned nudged h' /\
    executeAction action nudged = inr acted /\
    lastActionIndex this' = action /\
    brain this' = brain nudged.
Proof.
  intros Hrun. unfold update, and_then, lift in Hrun.
  pose proof (sense_keeps w others now this h) as (Hbrain & _).
  destruct (sense w others now this h) as [[sensed w1] h1] eqn:Hsense.
  simpl in Hbrain.
  destruct (makeDecision now sensed h1) as [action h2] eqn:Hdecide.
  destruct (applyREINFORCELearning sensed h2) as [nudged h3| |] eqn:Hnudge;
    try discriminate.
  unfold of_except in Hrun.
  destruct (executeAction action nudged) as [e|acted] eqn:Hact; [discriminate|].
  unfold return_ in Hrun. injection Hrun as _ <- <- <-.
  destruct (executeAction_keeps _ _ _ Hact) as (Hidx & Hb & _).
  exists sensed, h1, action, h2, nudged, acted.
  split_and!; try reflexivity; assumption.
Qed.

End Tick.

(** Both orders on the hungry entity in the crowded world: the source
    takes action 1, chosen before the nudge; with the nudge first the
    action would be 0. *)
Lemma update_orders_differ :
  action_taken (ConsciousEntity.update (rt := Sample.coarse) Sample.crowded
                  [None] 0 Sample.hungry Sample.start) = Some 1%nat /\
  action_taken (update_nudge_first (rt := Sample.coarse) Sample.crowded
                  [None] 0 Sample.hungry Sample.start) = Some 0%nat.
Proof. split; vm_compute; reflexivity. Qed.

(** C7, as stated, fails: the action taken is chosen before the nudge. *)
Lemma update_chooses_before_nudge : ~ nudge_precedes_choice.
Proof.
  intros Hclaim.
  destruct update_orders_differ as [Hsource Hspec].
  pose proof (eq_trans (eq_trans (eq_sym Hsource)
                          (Hclaim Sample.coarse Sample.crowded [None] 0%Z
                             Sample.hungry Sample.start)) Hspec) as Habsurd.
  discriminate Habsurd.
Qed.

(** The update of the hungry entity returns, and follows that order. *)
Lemma update_decides_then_nudges_witness :
  exists survived this' w' h',
    ConsciousEntity.update (rt := Sample.coarse) Sample.crowded [None] 0
      Sample.hungry Sample.start = Returned (survived, this', w') h' /\
    exists sensed h1 action h2 nudged acted,
      ConsciousEntity.sense (rt := Sample.coarse) Sample.crowded [None] 0
        Sample.hungry Sample.start = ((sensed, w'), h1) /\
      ConsciousEntity.brain sensed = ConsciousEntity.brain Sample.hungry /\
      ConsciousEntity.makeDecision (rt := Sample.coarse) 0 sensed h1 = (action, h2) /\
      ConsciousEntity.applyREINFORCELearning (rt := Sample.coarse) sensed h2
        = Returned nudged h' /\
      ConsciousEntity.executeAction action nudged = inr acted /\
      ConsciousEntity.lastActionIndex this' = action /\
      ConsciousEntity.brain this' = ConsciousEntity.brain nudged.
Proof.
  destruct (ConsciousEntity.update (rt := Sample.coarse) Sample.crowded [None] 0
              Sample.hungry Sample.start)
    as [[[survived this'] w'] h' | e |] eqn:Hrun.
  - exists survived, this', w', h'. split; [reflexivity|].
    exact (update_decides_then_nudges (rt := Sample.coarse) _ _ _ _ _ _ _ _ _ Hrun).
  - exfalso. vm_compute in Hrun. discriminate.
  - exfalso. vm_compute in Hrun. discriminate.
Defined.

(** ** NeuralNetwork: mutation, cloning, learning *)

Section Mutation.
Import NeuralNetwork.
Context {rt : Runtime}.
Hypothesis random_is_fair : fair.
Local Open Scope Q_scope.

Lemma map_run_ensures {A B S} (f : A -> S -> Run (B * S)) (I : S -> Prop)
    (P : A -> B -> Prop) (l : list A) (s : S) :
  I s ->
  (forall a s, I s -> ensures (f a s) (fun r => P a (fst r) /\ I (snd r))) ->
  ensures (map_run f l s) (fun r => Forall2 P l (fst r) /\ I (snd r)).
Proof.
  intros Hs Hf. revert s Hs. induction l as [|a l IH]; intros s Hs; simpl.
  - apply ensures_return. split; [constructor | exact Hs].
  - eapply ensures_and_then; [apply Hf, Hs|].
    intros [b s1] [Hb Hs1]. simpl in *.
    eapply ensures_and_then; [apply IH, Hs1|].
    intros [bs s2] [Hbs Hs2]. simpl in *.
    apply ensures_return. simpl. split; [constructor; assumption | exact Hs2].
Qed.

Lemma mutate_value_ensures rate strength (ls : list Layer) w this :
  layers this = ls ->
  ensures (mutate_value rate strength w this)
    (fun r => True /\ layers (snd r) = ls).
Proof.
  intros Hthis. unfold mutate_value.
  eapply ensures_and_then; [apply (ensures_lift Math_random (fun _ => True)); auto|].
  intros r _. destruct (Qlt_le_dec r rate).
  - eapply ensures_and_then; [apply (gaussianRandom_ensures random_is_fair)|].
    intros [z this1] H1. simpl in H1. apply ensures_return. simpl.
    split; [exact I | congruence].
  - apply ensures_return. simpl. split; [exact I | exact Hthis].
Qed.

Lemma Forall2_same_length_map {A B} (l : list (list A)) (l' : list (list B)) :
  Forall2 (fun row row' => length row' = length row) l l' ->
  length l' = length l /\ map length l' = map length l.
Proof.
  induction 1 as [|row row' l l' Hrow _ [IH1 IH2]]; simpl; [split; reflexivity|].
  split; congruence.
Qed.

Lemma mutate_layer_ensures rate strength (ls : list Layer) layer this :
  layers this = ls ->
  ensures (mutate_layer rate strength layer this)
    (fun r => shape_of (fst r) = shape_of layer /\ layers (snd r) = ls).
Proof.
  intros Hthis. unfold mutate_layer.
  eapply ensures_and_then.
  { apply (map_run_ensures _ (fun this' => layers this' = ls)
             (fun (row row' : list Q) => length row' = length row));
      [exact Hthis|].
    intros row this1 H1.
    eapply ensures_weaken.
    - apply (map_run_ensures _ (fun this' => layers this' = ls)
               (fun (_ _ : Q) => True)); [exact H1|].
      intros w this2 H2. apply mutate_value_ensures, H2.
    - intros [row' this3] [Hrow H3]. simpl in *.
      split; [symmetry; eapply Forall2_length, Hrow | exact H3]. }
  intros [w this1] [Hw H1]. simpl in *.
  eapply ensures_and_then.
  { apply (map_run_ensures _ (fun this' => layers this' = ls)
             (fun (_ _ : Q) => True)); [exact H1|].
    intros b this2 H2. apply mutate_value_ensures, H2. }
  intros [b this2] [Hb H2]. simpl in *.
  apply ensures_return. simpl. split; [|exact H2].
  destruct (Forall2_same_length_map _ _ Hw) as [Hrows Hcols].
  unfold shape_of. simpl. rewrite Hrows, Hcols.
  rewrite (Forall2_length _ _ _ Hb). reflexivity.
Qed.

(** [mutate] returns a network of the same shapes, and leaves the layers
    of [this] as they are. *)
Lemma mutate_ensures rate strength this :
  ensures (mutate rate strength this)
    (fun r => map shape_of (layers (fst r)) = map shape_of (layers this) /\
              layers (snd r) = layers this).
Proof.
  unfold mutate.
  eapply ensures_and_then; [apply (constructor_ensures random_is_fair)|].
  intros newNetwork _.
  eapply ensures_and_then.
  { apply (map_run_ensures _ (fun this' => layers this' = layers this)
             (fun (layer layer' : Layer) => shape_of layer' = shape_of layer));
      [reflexivity|].
    intros layer this1 H1. apply mutate_layer_ensures, H1. }
  intros [ls this1] [Hls H1]. simpl in *.
  apply ensures_return. simpl. split; [|exact H1].
  clear -Hls. induction Hls as [|l l' ls ls' Hl _ IH]; simpl; congruence.
Qed.

(** [clone] returns a network with the same layers. *)
Lemma clone_ensures this :
  ensures (clone this) (fun net => layers net = layers this).
Proof.
  unfold clone.
  eapply ensures_and_then; [apply (constructor_ensures random_is_fair)|].
  intros newNetwork _. apply ensures_return. simpl.
  rewrite <- (map_id (layers this)) at 2. apply map_ext.
  intros l. apply copy_layer.
Qed.

End Mutation.

Section Learning.
Import NeuralNetwork.
Local Open Scope Q_scope.

Lemma shapes_for_snoc previous sizes size :
  shapes_for previous (sizes ++ [size])
  = shapes_for previous sizes
    ++ [(size, replicate size (List.last sizes previous), size)].
Proof.
  revert previous. induction sizes as [|a sizes IH]; intros previous.
  - reflexivity.
  - change (shapes_for previous ((a :: sizes) ++ [size]))
      with ((a, replicate a previous, a) :: shapes_for a (sizes ++ [size])).
    rewrite IH, last_cons_default. reflexivity.
Qed.

(** The output layer of a network built for [outputSize] outputs. *)
Lemma output_layer inputSize hiddenSizes outputSize this :
  has_architecture inputSize hiddenSizes outputSize this ->
  exists outputLayer,
    last (layers this) = Some outputLayer /\
    length (weights outputLayer) = outputSize /\
    length (biases outputLayer) = outputSize.
Proof.
  unfold has_architecture. rewrite shapes_for_snoc. intros Hshape.
  assert (Hlast : last (map shape_of (layers this))
                  = Some (outputSize,
                          replicate outputSize (List.last hiddenSizes inputSize),
                          outputSize)).
  { rewrite Hshape. apply last_snoc. }
  change (map shape_of (layers this)) with (shape_of <$> layers this) in Hlast.
  rewrite fmap_last in Hlast.
  destruct (last (layers this)) as [outputLayer|]; [|discriminate].
  exists outputLayer. split; [reflexivity|].
  simpl in Hlast. injection Hlast as Hrows _ Hbias. split; assumption.
Qed.

(** The nudge of an existing output succeeds and keeps every shape. *)
Lemma applyREINFORCE_shapes input actionIndex reward learningRate this outputLayer :
  last (layers this) = Some outputLayer ->
  (actionIndex < length (weights outputLayer))%nat ->
  exists net,
    applyREINFORCE input actionIndex reward learningRate this = inr net /\
    map shape_of (layers net) = map shape_of (layers this).
Proof.
  intros Hlast Hidx. unfold applyREINFORCE.
  destruct (Qlt_le_dec (Qabs reward) 0.01); [exists this; split; reflexivity|].
  rewrite Hlast.
  destruct (lookup_lt_is_Some_2 (weights outputLayer) actionIndex Hidx) as [row Hrow].
  rewrite Hrow. eexists. split; [reflexivity|]. simpl.
  apply last_Some in Hlast. destruct Hlast as [front Hfront].
  rewrite Hfront, length_app. simpl.
  replace (Nat.pred (length front + 1)) with (length front + 0)%nat by lia.
  rewrite insert_app_r. simpl. rewrite !map_app. simpl. f_equal. f_equal.
  unfold shape_of. simpl.
  rewrite length_insert, length_alter. f_equal. f_equal.
  apply list_eq. intros i.
  change (map length ?l) with (length <$> l).
  rewrite !list_lookup_fmap, list_lookup_insert.
  case_decide as Hi; [|reflexivity].
  destruct Hi as [<- _]. rewrite Hrow. simpl.
  unfold nudged_row. rewrite length_imap. reflexivity.
Qed.

(** On a network with the standard architecture the nudge of one of the
    five outputs succeeds and keeps the architecture. *)
Lemma applyREINFORCE_standard input actionIndex reward learningRate this :
  standard this -> (actionIndex < 5)%nat ->
  exists net,
    applyREINFORCE input actionIndex reward learningRate this = inr net /\
    standard net.
Proof.
  intros Hstd Hidx.
  destruct (output_layer _ _ _ _ Hstd) as (outputLayer & Hlast & Hrows & _).
  destruct (applyREINFORCE_shapes input actionIndex reward learningRate this
              outputLayer Hlast) as (net & Hrun & Hshape).
  - rewrite Hrows. exact Hidx.
  - exists net. split; [exact Hrun|].
    unfold standard, has_architecture in *. rewrite Hshape. exact Hstd.
Qed.

End Learning.

(** ** ConsciousEntity: calls that return *)

Section EntityCalls.
Import ConsciousEntity.
Context {rt : Runtime}.
Hypothesis random_is_fair : fair.
Local Open Scope Q_scope.

Lemma is_living_hundred e : energy e = 100 -> PopulationManager.is_living e = true.
Proof.
  intros He. unfold PopulationManager.is_living. rewrite He.
  destruct (Qlt_le_dec 0 100) as [_|Hle]; [reflexivity|].
  exfalso. apply Qle_not_lt in Hle. apply Hle. reflexivity.
Qed.

(** A newly constructed entity. *)
Lemma entity_constructor_ensures ox oy n :
  ensures (constructor ox oy None n)
    (fun e => sound e /\ energy e = 100 /\ age e = 0%Z /\ fitness e = 0%Z /\
              totalEnergyGained e = 0%Z /\ memory e = [] /\ gridSize e = n).
Proof.
  unfold constructor.
  eapply ensures_and_then;
    [apply (ensures_lift (or_random_cell ox n) (fun _ => True)); auto|].
  intros px _.
  eapply ensures_and_then;
    [apply (ensures_lift (or_random_cell oy n) (fun _ => True)); auto|].
  intros py _.
  eapply ensures_and_then;
    [apply (constructor_ensures random_is_fair)|].
  intros b (Hb & _ & _).
  eapply ensures_and_then;
    [apply (ensures_lift Math_random (fun _ => True)); auto|].
  intros r _. apply ensures_return. simpl.
  unfold sound. simpl. split_and!; try reflexivity; try lia. exact Hb.
Qed.

Lemma consumeEnergy_gain px py w :
  (0 <= fst (WorldPhysics.consumeEnergy px py w))%Z.
Proof.
  unfold WorldPhysics.consumeEnergy.
  destruct (list_find _ (WorldPhysics.energies w)) as [[k e]|]; simpl; lia.
Qed.

(** The first half of [update] keeps an entity sound, and leaves its
    fitness alone. *)
Lemma sense_sound w others now this h :
  sound this ->
  let this' := fst (fst (sense w others now this h)) in
  standard (brain this') /\ (lastActionIndex this' < 5)%nat /\
  (0 <= age this')%Z /\ (0 <= totalEnergyGained this')%Z.
Proof.
  intros (Hb & Hidx & Hage & Htot & _).
  unfold sense. cbv zeta.
  pose proof (consumeEnergy_gain (x (decay this)) (y (decay this)) w) as Hgain.
  set (fed := WorldPhysics.consumeEnergy (x (decay this)) (y (decay this)) w) in *.
  set (e := prune now (warn now (credit (fst fed) now (decay this)))).
  assert (He : brain e = brain this /\ lastActionIndex e = lastActionIndex this /\
               age e = (age this + 1)%Z /\
               (totalEnergyGained this <= totalEnergyGained e)%Z).
  { unfold e, prune, warn, credit, decay.
    destruct (0 <? fst fed)%Z; simpl;
      match goal with
      | |- context [Qlt_le_dec ?a ?b] => destruct (Qlt_le_dec a b)
      end; simpl; split_and!; try reflexivity; lia. }
  clearbody e fed. unfold bind.
  pose proof (updateVision_keeps (snd fed) (resolve e others) e h) as Hv.
  destruct (updateVision _ _ _ h) as [seen h1]. simpl in *.
  pose proof (recordExperience_keeps now seen) as Hr. simpl in Hr.
  destruct Hv as (Hv1 & Hv2 & _ & _ & Hv3 & Hv4 & _).
  destruct Hr as (Hr1 & Hr2 & _ & _ & Hr3 & Hr4 & _).
  destruct He as (He1 & He2 & He3 & He4).
  rewrite Hr1, Hr2, Hr3, Hr4, Hv1, Hv2, Hv3, Hv4, He1, He2, He3.
  split_and!; try assumption; lia.
Qed.

Lemma sample_bound rand cumProb i probs :
  (sample rand cumProb i probs < i + length probs)%nat \/
  sample rand cumProb i probs = 4%nat.
Proof.
  revert cumProb i. induction probs as [|p probs IH]; intros cumProb i;
    cbn [sample length].
  - right. reflexivity.
  - destruct (Number_less _ _); [left; lia|].
    destruct (IH (Number_add cumProb p) (S i)) as [H|H]; [left; lia | right; exact H].
Qed.

(** A standard brain decides for one of the five actions. *)
Lemma makeDecision_bound now this h :
  standard (brain this) -> (fst (makeDecision now this h) < 5)%nat.
Proof.
  intros Hstd. unfold makeDecision, bind.
  destruct (getCellInput now this h) as [input h1].
  destruct (Math_random h1) as [rand h2]. cbn [ret fst].
  destruct (output_layer _ _ _ _ Hstd) as (outputLayer & Hlast & Hrows & _).
  destruct (sample_bound rand (Finite 0) 0 (NeuralNetwork.forward (brain this) input))
    as [H|H]; [|lia].
  unfold NeuralNetwork.forward in H at 2.
  rewrite softmax_length, (forward_layers_length _ _ _ Hlast), Hrows in H. exact H.
Qed.

(** The nudge returns and changes the brain only, which stays standard. *)
Lemma applyREINFORCELearning_ensures this :
  standard (brain this) -> (lastActionIndex this < 5)%nat ->
  ensures (applyREINFORCELearning this)
    (fun this' => exists b, standard b /\ this' = set_brain b this).
Proof.
  intros Hstd Hidx.
  assert (Hsame : exists b, standard b /\ this = set_brain b this).
  { exists (brain this). split; [exact Hstd|]. destruct this; reflexivity. }
  unfold applyREINFORCELearning.
  destruct (recentOutcomes this) as [|o os]; [apply ensures_return, Hsame|].
  destruct (Qlt_le_dec _ 0.01); [apply ensures_return, Hsame|].
  eapply ensures_and_then;
    [apply (ensures_lift (getCellInput 0 this) (fun _ => True)); auto|].
  intros input _.
  match goal with
  | |- context [NeuralNetwork.applyREINFORCE input ?a ?r ?lr ?b] =>
      destruct (applyREINFORCE_standard input a r lr b Hstd Hidx) as (net & -> & Hnet)
  end.
  eapply ensures_and_then; [apply (ensures_of_except net (fun b => standard b)), Hnet|].
  intros b Hb. apply ensures_return. exists b. split; [exact Hb | reflexivity].
Qed.

(** [update] returns for a sound entity, which stays sound; the flag it
    returns says whether the entity is living afterwards. *)
Lemma update_ensures w others now this :
  sound this ->
  ensures (update w others now this)
    (fun r => sound (snd (fst r)) /\
              fst (fst r) = PopulationManager.is_living (snd (fst r))).
Proof.
  intros Hsound h. unfold update, and_then, lift.
  pose proof (sense_sound w others now this h Hsound) as (Hb & Hidx & Hage & Htot).
  destruct (sense w others now this h) as [[sensed w1] h1]. simpl in *.
  pose proof (makeDecision_bound now sensed h1 Hb) as Haction.
  destruct (makeDecision now sensed h1) as [action h2]. simpl in *.
  destruct (applyREINFORCELearning_ensures sensed Hb Hidx h2)
    as (nudged & h3 & -> & b & Hstd & ->).
  unfold of_except, executeAction.
  destruct (lookup_lt_is_Some_2 action_moves action Haction) as [move ->].
  eexists _, _. split; [reflexivity|]. simpl.
  split; [|reflexivity].
  unfold sound. simpl. split_and!; try assumption; lia.
Qed.

(** [reproduce] returns a sound, living offspring; the parent is the same
    individual afterwards. *)
Lemma reproduce_ensures rate strength this :
  sound this ->
  ensures (reproduce rate strength this)
    (fun r => sound (fst r) /\ PopulationManager.is_living (fst r) = true /\
              offspring rate strength this (fst r) /\
              same_individual this (snd r) /\ sound (snd r)).
Proof.
  intros Hsound h. unfold reproduce, and_then.
  destruct (entity_constructor_ensures None None (gridSize this) h)
    as (child & h1 & -> & Hchild & Hen & Hage & Hfit & Htot & Hmem & _).
  destruct (mutate_ensures random_is_fair rate strength (brain this) h1)
    as ([b own] & h2 & Hmut & Hshape & Hown).
  rewrite Hmut. simpl in *.
  eexists _, _. split; [reflexivity|]. simpl.
  destruct Hsound as (Hstd & Hidx & Ha & Ht & Hf).
  destruct Hchild as (_ & Hcidx & Hca & Hct & Hcf).
  split_and!.
  - unfold sound. simpl. split_and!; try assumption.
    unfold standard, has_architecture in *. rewrite Hshape. exact Hstd.
  - apply is_living_hundred. exact Hen.
  - exists h1, own, h2. simpl. split_and!; assumption.
  - exists own. split; [exact Hown | reflexivity].
  - unfold sound. simpl. split_and!; try assumption.
    unfold standard, has_architecture in *. rewrite Hown. exact Hstd.
Qed.

(** [clone] returns. *)
Lemma entity_clone_ensures this : ensures (clone this) (fun _ => True).
Proof.
  unfold clone.
  eapply ensures_and_then; [apply entity_constructor_ensures|]. intros copy _.
  eapply ensures_and_then; [apply (clone_ensures random_is_fair)|]. intros b _.
  apply ensures_return. exact I.
Qed.

End EntityCalls.

(** ** PopulationManager: the roster *)

Section RosterFacts.
Import ConsciousEntity PopulationManager.
Context {rt : Runtime}.

Lemma same_individual_refl e : same_individual e e.
Proof. exists (brain e). split; [reflexivity|]. destruct e; reflexivity. Qed.

Lemma same_individual_trans e1 e2 e3 :
  same_individual e1 e2 -> same_individual e2 e3 -> same_individual e1 e3.
Proof.
  intros (own & Hown & ->) (own' & Hown' & ->).
  exists own'. split; [|reflexivity].
  simpl in Hown'. rewrite Hown'. exact Hown.
Qed.

Lemma same_individual_sound e e' : same_individual e e' -> sound e -> sound e'.
Proof.
  intros (own & Hown & ->) (Hstd & Hrest).
  split; [|exact Hrest].
  simpl. unfold standard, has_architecture in *. rewrite Hown. exact Hstd.
Qed.

(** The state of the loop of [findBestLivingEntity] after the whole roster. *)
Lemma findBest_loop es :
  Forall (fun e => (0 <= fitness e)%Z) es ->
  let r := for_each (imap (fun i e => (i, e)) es)
             (fun '(i, entity) '(bestEntity, bestFitness) =>
                if is_living entity then
                  if (bestFitness <? fitness entity)%Z
                  then (Some (i, entity), fitness entity)
                  else (bestEntity, bestFitness)
                else (bestEntity, bestFitness))
             (None, (-1)%Z) in
  match fst r with
  | Some (j, parent) => snd r = fitness parent /\ fittest_living es j parent
  | None => snd r = (-1)%Z /\
            forall k e, es !! k = Some e -> is_living e = false
  end.
Proof.
  induction es as [|e es IH] using rev_ind; intros Hfit.
  - simpl. split; [reflexivity|]. intros k e. rewrite lookup_nil. discriminate.
  - apply Forall_app in Hfit as [Hes He]. apply Forall_inv in He. simpl in He.
    specialize (IH Hes). cbv zeta in *. unfold for_each in *.
    rewrite imap_app, fold_left_app. simpl.
    destruct (fold_left _ (imap _ es) _) as [best bf]. simpl in IH.
    rewrite Nat.add_0_r.
    destruct (is_living e) eqn:Hliving.
    + destruct (Z.ltb_spec bf (fitness e)) as [Hlt|Hge]; simpl.
      * split; [reflexivity|]. split_and!.
        -- rewrite lookup_app_r, Nat.sub_diag; [reflexivity|lia].
        -- exact Hliving.
        -- intros k e0 Hk Hl.
           apply lookup_app_Some in Hk as [Hk | [Hlen Hk]].
           ++ destruct best as [[j parent]|].
              ** destruct IH as (-> & _ & _ & Hmax).
                 destruct (Hmax k e0 Hk Hl). split; lia.
              ** destruct IH as (_ & Hnone).
                 rewrite (Hnone k e0 Hk) in Hl. discriminate.
           ++ apply list_lookup_singleton_Some in Hk as [Hk0 <-]. split; lia.
      * destruct best as [[j parent]|].
        -- destruct IH as (-> & Hj & Hpl & Hmax). split; [reflexivity|]. split_and!.
           ++ apply lookup_app_l_Some. exact Hj.
           ++ exact Hpl.
           ++ intros k e0 Hk Hl.
              apply lookup_app_Some in Hk as [Hk | [Hlen Hk]].
              ** apply Hmax; assumption.
              ** apply list_lookup_singleton_Some in Hk as [Hk0 <-].
                 apply lookup_lt_Some in Hj. split; [lia|]. intros _. lia.
        -- destruct IH as (-> & _). lia.
    + destruct best as [[j parent]|].
      * destruct IH as (-> & Hj & Hpl & Hmax). split; [reflexivity|]. split_and!.
        -- apply lookup_app_l_Some. exact Hj.
        -- exact Hpl.
        -- intros k e0 Hk Hl.
           apply lookup_app_Some in Hk as [Hk | [Hlen Hk]].
           ++ apply Hmax; assumption.
           ++ apply list_lookup_singleton_Some in Hk as [Hk0 <-].
              rewrite Hliving in Hl. discriminate.
      * destruct IH as (-> & Hnone). split; [reflexivity|].
        intros k e0 Hk.
        apply lookup_app_Some in Hk as [Hk | [Hlen Hk]].
        -- apply (Hnone k e0 Hk).
        -- apply list_lookup_singleton_Some in Hk as [Hk0 <-]. exact Hliving.
Qed.

(** [findBestLivingEntity] finds the fittest living entity, the first of
    them, when fitness is not negative; it finds none only when none is
    living. *)
Lemma findBestLivingEntity_spec es :
  Forall sound es ->
  match findBestLivingEntity es with
  | Some (j, parent) => fittest_living es j parent
  | None => forall k e, es !! k = Some e -> is_living e = false
  end.
Proof.
  intros Hsound.
  assert (Hfit : Forall (fun e => (0 <= fitness e)%Z) es).
  { eapply Forall_impl; [exact Hsound|]. intros e (_ & _ & _ & _ & Hf). exact Hf. }
  pose proof (findBest_loop es Hfit) as Hloop. cbv zeta in Hloop.
  unfold findBestLivingEntity.
  destruct (fst _) as [[j parent]|]; apply Hloop.
Qed.

End RosterFacts.

(** ** PopulationManager: deaths and births *)

Section Replacement.
Import ConsciousEntity PopulationManager.
Context {rt : Runtime}.
Hypothesis random_is_fair : fair.

Lemma for_each_run_app {A S} (l1 l2 : list A) (body : A -> S -> Run S) s h :
  for_each_run (l1 ++ l2) body s h
  = and_then (for_each_run l1 body s) (for_each_run l2 body) h.
Proof.
  revert s h. induction l1 as [|a l1 IH]; intros s h; simpl; [reflexivity|].
  unfold and_then.
  destruct (body a s h) as [s1 h1| |]; [|reflexivity..].
  rewrite IH. reflexivity.
Qed.

(** [handleEntityDeath] returns when the dead entity is in the roster, and
    does what it is meant to. *)
Lemma handleEntityDeath_ensures i p deadEntity h :
  Forall sound (entities p) ->
  entities p !! i = Some deadEntity ->
  is_living deadEntity = false ->
  exists p' h',
    handleEntityDeath i p h = Returned p' h' /\
    generation p' = (generation p + 1)%Z /\
    totalDeaths p' = (totalDeaths p + 1)%Z /\
    Forall sound (entities p') /\
    match findBestLivingEntity (entities p) with
    | Some (j, parent) =>
        fittest_living (entities p) j parent /\ j <> i /\
        exists child parent',
          offspring (mutationRate p) (mutationStrength p) parent child /\
          same_individual parent parent' /\
          entities p' = <[i := child]> (<[j := parent']> (entities p))
    | None =>
        (forall k e, entities p !! k = Some e -> is_living e = false) /\
        exists fresh,
          newcomer (pop_gridSize p) fresh /\
          entities p' = <[i := fresh]> (entities p)
    end.
Proof.
  intros Hsound Hi Hdead.
  unfold handleEntityDeath. rewrite Hi. cbv zeta.
  set (p0 := set_totalDeaths (totalDeaths p + 1) p).
  assert (Hfirst : exists p1 h1,
    (if (bestFitness p0 <? fitness deadEntity)%Z
     then and_then (clone deadEntity)
            (fun copy => return_ (set_best (fitness deadEntity) copy p0))
     else return_ p0) h = Returned p1 h1 /\
    entities p1 = entities p /\ generation p1 = generation p /\
    totalDeaths p1 = (totalDeaths p + 1)%Z /\
    mutationRate p1 = mutationRate p /\
    mutationStrength p1 = mutationStrength p /\
    pop_gridSize p1 = pop_gridSize p).
  { destruct (bestFitness p0 <? fitness deadEntity)%Z.
    - destruct (entity_clone_ensures random_is_fair deadEntity h)
        as (copy & h1 & Hclone & _).
      exists (set_best (fitness deadEntity) copy p0), h1.
      unfold and_then. rewrite Hclone. split_and!; reflexivity.
    - exists p0, h. split_and!; reflexivity. }
  destruct Hfirst as (p1 & h1 & Hrun & Hes & Hgen & Hdeaths & Hrate & Hstrength & Hgrid).
  unfold and_then at 1. rewrite Hrun. clear Hrun. clearbody p0.
  rewrite Hes, Hrate, Hstrength, Hgrid.
  pose proof (findBestLivingEntity_spec (entities p) Hsound) as Hbest.
  destruct (findBestLivingEntity (entities p)) as [[j parent]|].
  - assert (Hparent : sound parent).
    { destruct Hbest as (Hj & _). exact (Forall_lookup_1 _ _ _ _ Hsound Hj). }
    destruct (reproduce_ensures random_is_fair (mutationRate p) (mutationStrength p)
                parent Hparent h1)
      as ([child parent'] & h2 & Hrep & Hchild & _ & Hoff & Hsame & Hparent').
    simpl in Hchild, Hoff, Hsame, Hparent'.
    unfold and_then. rewrite Hrep.
    eexists _, _. split; [reflexivity|]. cbn [generation totalDeaths entities
      set_generation set_entities].
    split_and!.
    + rewrite Hgen. reflexivity.
    + exact Hdeaths.
    + rewrite ?Hes. apply Forall_insert; [apply Forall_insert|]; assumption.
    + exact Hbest.
    + intros ->. destruct Hbest as (Hj & Hliving & _).
      rewrite Hi in Hj. injection Hj as ->. rewrite Hliving in Hdead. discriminate.
    + exists child, parent'. rewrite ?Hes. split_and!; [assumption..|reflexivity].
  - destruct (entity_constructor_ensures random_is_fair None None (pop_gridSize p) h1)
      as (fresh & h2 & Hnew & Hfresh & _).
    unfold and_then. rewrite Hnew.
    eexists _, _. split; [reflexivity|]. cbn [generation totalDeaths entities
      set_generation set_entities].
    split_and!.
    + rewrite Hgen. reflexivity.
    + exact Hdeaths.
    + rewrite ?Hes. apply Forall_insert; assumption.
    + exact Hbest.
    + exists fresh. rewrite ?Hes. split; [|reflexivity]. exists h1, h2. exact Hnew.
Qed.

(** One turn of the loop of [update]: it returns, the roster keeps its
    length and stays sound, every other slot keeps its entity, and the slot
    itself is treated as [slot_outcome] says. *)
Lemma update_slot_ensures now m st h :
  Forall sound (entities (loop_population st)) ->
  exists st' h',
    update_slot now m st h = Returned st' h' /\
    Forall sound (entities (loop_population st')) /\
    length (entities (loop_population st'))
      = length (entities (loop_population st)) /\
    (forall i e, i <> m -> entities (loop_population st) !! i = Some e ->
       exists e', entities (loop_population st') !! i = Some e' /\
                  same_individual e e') /\
    ((m < length (entities (loop_population st)))%nat ->
       slot_outcome now m st h st').
Proof.
  intros Hsound.
  assert (Hkeep : forall i e, entities (loop_population st) !! i = Some e ->
            exists e', entities (loop_population st) !! i = Some e' /\
                       same_individual e e').
  { intros i e Hi. exists e. split; [exact Hi | apply same_individual_refl]. }
  unfold update_slot. cbv zeta.
  destruct (entities (loop_population st) !! m) as [entity|] eqn:Hm.
  2:{ exists st, h. split_and!; try reflexivity; try assumption.
      - intros i e _. apply Hkeep.
      - intros Hlt. apply lookup_ge_None in Hm. lia. }
  destruct (is_living entity) eqn:Hliving.
  2:{ exists st, h. split_and!; try reflexivity; try assumption.
      - intros i e _. apply Hkeep.
      - intros _. exists entity. split_and!; [exact Hm | reflexivity |].
        intros Habs. rewrite Hliving in Habs. discriminate. }
  assert (Hentity : sound entity) by exact (Forall_lookup_1 _ _ _ _ Hsound Hm).
  pose proof (lookup_lt_Some _ _ _ Hm) as Hlt.
  destruct (update_ensures (loop_world st)
              (view (entities (loop_population st)) m (loop_living st)) now entity
              Hentity h)
    as ([[survived entity'] w1] & h1 & Hrun & Hsound' & Hsurvived).
  simpl in Hsound', Hsurvived.
  unfold and_then at 1. rewrite Hrun.
  set (roster := <[m := entity']> (entities (loop_population st))).
  assert (Hroster : Forall sound roster) by (apply Forall_insert; assumption).
  destruct survived.
  - eexists _, _. split; [reflexivity|].
    cbn [loop_population entities set_entities]. fold roster.
    split_and!.
    + exact Hroster.
    + apply length_insert.
    + intros i e Hne Hi. exists e. split; [|apply same_individual_refl].
      unfold roster. rewrite list_lookup_insert_ne by congruence. exact Hi.
    + intros _. exists entity. split_and!; [exact Hm | congruence |].
      intros _. exists true, entity', w1, h1.
      split_and!; [exact Hrun | exact Hsurvived |]. cbv zeta.
      split; [intros _ | discriminate]. split_and!; reflexivity.
  - set (p2 := set_entities roster (loop_population st)).
    assert (Hdead : entities p2 !! m = Some entity').
    { apply list_lookup_insert_eq. exact Hlt. }
    destruct (handleEntityDeath_ensures m p2 entity' h1 Hroster Hdead
                (eq_sym Hsurvived))
      as (p' & h2 & Hdeath & Hgen & Hdeaths & Hsound2 & Hborn).
    unfold and_then. rewrite Hdeath.
    eexists _, _. split; [reflexivity|]. cbn [loop_population].
    cbn [entities p2 set_entities mutationRate mutationStrength pop_gridSize] in Hborn.
    split_and!.
    + exact Hsound2.
    + destruct (findBestLivingEntity roster) as [[j parent]|].
      * destruct Hborn as (_ & _ & child & parent' & _ & _ & ->).
        unfold roster. rewrite !length_insert. reflexivity.
      * destruct Hborn as (_ & fresh & _ & ->).
        unfold roster. rewrite !length_insert. reflexivity.
    + intros i e Hne Hi.
      assert (Hri : roster !! i = Some e).
      { unfold roster. rewrite list_lookup_insert_ne by congruence. exact Hi. }
      destruct (findBestLivingEntity roster) as [[j parent]|].
      * destruct Hborn as ((Hj & _) & _ & child & parent' & _ & Hsame & ->).
        rewrite list_lookup_insert_ne by congruence.
        destruct (decide (j = i)) as [->|Hji].
        -- exists parent'. rewrite list_lookup_insert_eq
             by (apply lookup_lt_Some in Hj; exact Hj).
           split; [reflexivity|]. rewrite Hri in Hj. injection Hj as ->. exact Hsame.
        -- exists e. rewrite list_lookup_insert_ne by exact Hji.
           split; [exact Hri | apply same_individual_refl].
      * destruct Hborn as (_ & fresh & _ & ->).
        exists e. rewrite list_lookup_insert_ne by congruence.
        split; [exact Hri | apply same_individual_refl].
    + intros _. exists entity. split_and!; [exact Hm | congruence |].
      intros _. exists false, entity', w1, h1.
      split_and!; [exact Hrun | exact Hsurvived |]. cbv zeta.
      split; [discriminate | intros _]. cbn [loop_population]. fold roster.
      split_and!; [exact Hgen | exact Hdeaths | exact Hborn].
Qed.

(** Turns of the loop for the slots in [l]: the loop returns, and a slot
    that is not in [l] keeps its entity. *)
Lemma update_slots_ensures now l st h :
  Forall sound (entities (loop_population st)) ->
  exists st' h',
    for_each_run l (update_slot now) st h = Returned st' h' /\
    Forall sound (entities (loop_population st')) /\
    length (entities (loop_population st'))
      = length (entities (loop_population st)) /\
    (forall i e, i ∉ l -> entities (loop_population st) !! i = Some e ->
       exists e', entities (loop_population st') !! i = Some e' /\
                  same_individual e e').
Proof.
  revert st h. induction l as [|m l IH]; intros st h Hsound.
  - exists st, h. split_and!; try reflexivity; try assumption.
    intros i e _ Hi. exists e. split; [exact Hi | apply same_individual_refl].
  - destruct (update_slot_ensures now m st h Hsound)
      as (st1 & h1 & Hrun & Hsound1 & Hlen1 & Hkeep1 & _).
    destruct (IH st1 h1 Hsound1) as (st2 & h2 & Hrun2 & Hsound2 & Hlen2 & Hkeep2).
    exists st2, h2. simpl. unfold and_then. rewrite Hrun.
    split_and!; try assumption; [congruence|].
    intros i e Hnot Hi. apply not_elem_of_cons in Hnot as [Hne Hnot].
    destruct (Hkeep1 i e Hne Hi) as (e1 & Hi1 & Hsame1).
    destruct (Hkeep2 i e1 Hnot Hi1) as (e2 & Hi2 & Hsame2).
    exists e2. split; [exact Hi2|]. eapply same_individual_trans; eassumption.
Qed.

(** *** C1 *)

(** Claim C1.  When every entity of the roster is sound and the random
    generator is fair, [update(world, tick)] returns, the roster keeps its
    length, and for every slot [i] the loop reaches the slot in some state
    [st] and leaves it in a state [st'] related by [slot_outcome]: the
    entity in the slot, if it is living, is updated; if its update returns
    [false], then within this turn of the loop [generation] and [totalDeaths]
    each grow by exactly 1 and the slot receives a new entity, which is a
    mutated offspring of the living entity of the roster with the highest
    fitness, the first of them in the order of the slots, or, when no entity
    of the roster is living, a newly and randomly constructed entity.  What
    the slot holds after its turn is still in that slot when [update]
    returns. *)
Theorem update_replaces_dead w now p h :
  Forall sound (entities p) ->
  exists p' w' h',
    PopulationManager.update w now p h = Returned (p', w') h' /\
    length (entities p') = length (entities p) /\
    forall i, (i < length (entities p))%nat ->
      exists st h_i st' h_i',
        reaching now i p w h = Returned st h_i /\
        reaching now (S i) p w h = Returned st' h_i' /\
        slot_outcome now i st h_i st' /\
        exists e e',
          entities (loop_population st') !! i = Some e /\
          entities p' !! i = Some e' /\
          same_individual e e'.
Proof.
  intros Hsound.
  set (st0 := {| loop_population := p; loop_world := w;
                 loop_living := take_snapshot (entities p) |}).
  set (n := length (entities p)).
  destruct (update_slots_ensures now (seq 0 n) st0 h Hsound)
    as (st_n & h_n & Hrun_n & _ & Hlen_n & _).
  exists (loop_population st_n), (loop_world st_n), h_n.
  split_and!.
  - unfold PopulationManager.update, and_then. fold st0 n. rewrite Hrun_n. reflexivity.
  - exact Hlen_n.
  - intros i Hi.
    destruct (update_slots_ensures now (seq 0 i) st0 h Hsound)
      as (st & h_i & Hrun_i & Hsound_i & Hlen_i & _).
    destruct (update_slot_ensures now i st h_i Hsound_i)
      as (st' & h_i' & Hrun' & Hsound' & Hlen' & _ & Houtcome).
    destruct (update_slots_ensures now (seq (S i) (n - S i)) st' h_i' Hsound')
      as (st_f & h_f & Hrun_f & _ & _ & Hkeep).
    assert (Hnext : for_each_run (seq 0 (S i)) (update_slot now) st0 h
                    = Returned st' h_i').
    { rewrite seq_S, for_each_run_app. unfold and_then at 1. rewrite Hrun_i.
      simpl. unfold and_then. rewrite Hrun'. reflexivity. }
    assert (Hall : for_each_run (seq 0 n) (update_slot now) st0 h
                   = Returned st_f h_f).
    { replace n with (S i + (n - S i))%nat at 1 by lia.
      rewrite seq_app, for_each_run_app. unfold and_then. rewrite Hnext.
      exact Hrun_f. }
    rewrite Hrun_n in Hall. injection Hall as -> ->.
    exists st, h_i, st', h_i'. split_and!.
    + exact Hrun_i.
    + exact Hnext.
    + apply Houtcome. simpl in Hlen_i. fold n in Hlen_i. lia.
    + destruct (lookup_lt_is_Some_2 (entities (loop_population st')) i) as [e He].
      { simpl in Hlen_i. fold n in Hlen_i. lia. }
      destruct (Hkeep i e) as (e' & He' & Hsame); [|exact He|].
      { rewrite elem_of_seq. lia. }
      exists e, e'. split_and!; assumption.
Qed.

End Replacement.

(** The starving entity and the well fed one. *)
Lemma update_replaces_dead_witness :
  fair (rt := Sample.steady) /\
  Forall sound (PopulationManager.entities Sample.pair) /\
  exists p' w' h',
    PopulationManager.update (rt := Sample.steady) Sample.newborn 1 Sample.pair
      Sample.start = Returned (p', w') h' /\
    length (PopulationManager.entities p')
    = length (PopulationManager.entities Sample.pair) /\
    exists st h0 st' h0',
      reaching (rt := Sample.steady) 1 0 Sample.pair Sample.newborn Sample.start
        = Returned st h0 /\
      reaching (rt := Sample.steady) 1 1 Sample.pair Sample.newborn Sample.start
        = Returned st' h0' /\
      slot_outcome (rt := Sample.steady) 1 0 st h0 st'.
Proof.
  assert (Hstd : standard Sample.blank_brain).
  { vm_compute. reflexivity. }
  assert (Hsound : Forall sound (PopulationManager.entities Sample.pair)).
  { repeat constructor; try exact Hstd;
      cbn [Sample.with_energy ConsciousEntity.lastActionIndex ConsciousEntity.age
           ConsciousEntity.totalEnergyGained ConsciousEntity.fitness]; lia. }
  split; [exact steady_is_fair|]. split; [exact Hsound|].
  destruct (update_replaces_dead (rt := Sample.steady) steady_is_fair
              Sample.newborn 1 Sample.pair Sample.start Hsound)
    as (p' & w' & h' & Hrun & Hlen & Hslots).
  exists p', w', h'. split; [exact Hrun|]. split; [exact Hlen|].
  destruct (Hslots 0%nat ltac:(cbn; lia))
    as (st & h0 & st' & h0' & Hreach & Hnext & Houtcome & _).
  exists st, h0, st', h0'. split_and!; assumption.
Defined.

(** ** PopulationManager: the size of the roster *)

Section RosterSize.
Import ConsciousEntity PopulationManager.
Context {rt : Runtime}.

(** A property kept by the body of a loop whenever it returns holds when
    the loop has returned. *)
Lemma for_each_run_returned {A S} (I : S -> Prop) (l : list A)
    (body : A -> S -> Run S) s h s' h' :
  I s ->
  (forall a s h s' h', I s -> body a s h = Returned s' h' -> I s') ->
  for_each_run l body s h = Returned s' h' -> I s'.
Proof.
  intros Hs Hbody. revert s h Hs.
  induction l as [|a l IH]; intros s h Hs; cbn [for_each_run].
  - intros [= <- _]. exact Hs.
  - unfold and_then. destruct (body a s h) as [s1 h1| |] eqn:Hrun; try discriminate.
    apply IH. eapply Hbody; eassumption.
Qed.

Lemma initializePopulation_length count n h es h' :
  initializePopulation count n h = Returned es h' -> length es = count.
Proof.
  revert h es h'. induction count as [|count IH]; intros h es h';
    cbn [initializePopulation]; unfold and_then, return_.
  - intros [= <- _]. reflexivity.
  - destruct (constructor None None None n h) as [e h1| |]; try discriminate.
    destruct (initializePopulation count n h1) as [rest h2| |] eqn:Hrest;
      try discriminate.
    intros [= <- _]. cbn [length]. f_equal. exact (IH _ _ _ Hrest).
Qed.

Lemma handleEntityDeath_size i p h p' h' :
  handleEntityDeath i p h = Returned p' h' ->
  length (entities p') = length (entities p) /\
  populationSize p' = populationSize p.
Proof.
  unfold handleEntityDeath.
  destruct (entities p !! i) as [deadEntity|]; [|discriminate].
  cbv zeta. unfold and_then at 1.
  set (p0 := set_totalDeaths (totalDeaths p + 1) p).
  assert (Hfirst : forall p1 h1,
    (if (bestFitness p0 <? fitness deadEntity)%Z
     then and_then (clone deadEntity)
            (fun copy => return_ (set_best (fitness deadEntity) copy p0))
     else return_ p0) h = Returned p1 h1 ->
    entities p1 = entities p /\ populationSize p1 = populationSize p).
  { intros p1 h1. destruct (bestFitness p0 <? fitness deadEntity)%Z.
    - unfold and_then, return_.
      destruct (clone deadEntity h) as [copy h2| |]; try discriminate.
      intros [= <- _]. split; reflexivity.
    - intros [= <- _]. split; reflexivity. }
  destruct (_ h) as [p1 h1| |] eqn:Hrun; try discriminate.
  destruct (Hfirst p1 h1 eq_refl) as [Hes Hsize]. clear Hfirst Hrun. clearbody p0.
  unfold and_then, return_.
  destruct (findBestLivingEntity (entities p1)) as [[j parent]|].
  - destruct (reproduce _ _ parent h1) as [[child parent'] h2| |]; try discriminate.
    intros [= <- _]. cbn [entities populationSize set_generation set_entities].
    rewrite !length_insert, Hes, Hsize. split; reflexivity.
  - destruct (constructor None None None _ h1) as [fresh h2| |]; try discriminate.
    intros [= <- _]. cbn [entities populationSize set_generation set_entities].
    rewrite !length_insert, Hes, Hsize. split; reflexivity.
Qed.

Lemma update_slot_size now i st h st' h' :
  update_slot now i st h = Returned st' h' ->
  length (entities (loop_population st'))
    = length (entities (loop_population st)) /\
  populationSize (loop_population st') = populationSize (loop_population st).
Proof.
  unfold update_slot. cbv zeta.
  destruct (entities (loop_population st) !! i) as [entity|];
    [|intros [= <- _]; split; reflexivity].
  destruct (is_living entity); [|intros [= <- _]; split; reflexivity].
  unfold and_then at 1.
  destruct (ConsciousEntity.update _ _ now entity h) as [[[survived entity'] w1] h1| |];
    try discriminate.
  destruct survived.
  - intros [= <- _]. cbn [loop_population entities populationSize set_entities].
    rewrite length_insert. split; reflexivity.
  - unfold and_then, return_.
    destruct (handleEntityDeath i _ h1) as [p2 h2| |] eqn:Hdeath; try discriminate.
    intros [= <- _]. cbn [loop_population].
    apply handleEntityDeath_size in Hdeath as [Hlen Hsize].
    cbn [entities populationSize set_entities] in Hlen, Hsize.
    rewrite length_insert in Hlen. split; assumption.
Qed.

Lemma update_size w now p h p' w' h' :
  PopulationManager.update w now p h = Returned (p', w') h' ->
  length (entities p') = length (entities p) /\
  populationSize p' = populationSize p.
Proof.
  unfold PopulationManager.update, and_then, return_.
  destruct (for_each_run _ _ _ h) as [st h1| |] eqn:Hloop; try discriminate.
  intros [= <- _ _].
  apply (for_each_run_returned
           (fun st => length (entities (loop_population st)) = length (entities p) /\
                      populationSize (loop_population st) = populationSize p))
    in Hloop; [exact Hloop | split; reflexivity |].
  intros a s h2 s' h2' [Hlen Hsize] Hslot.
  apply update_slot_size in Hslot as [Hlen' Hsize']. split; congruence.
Qed.

Lemma forceEvolution_size p h p' h' :
  forceEvolution p h = Returned p' h' ->
  length (entities p') = length (entities p) /\
  populationSize p' = populationSize p.
Proof.
  unfold forceEvolution.
  destruct (entities p) as [|e0 es] eqn:Hes;
    [intros [= <- _]; rewrite Hes; split; reflexivity|].
  rewrite <- Hes.
  destruct (getLivingEntities p); [intros [= <- _]; split; reflexivity|].
  destruct (extremes (entities p)) as [[[weakestIndex weakestFitness]|]
                                       [[[slot strongest]|] strongestFitness]];
    try (intros [= <- _]; split; reflexivity).
  unfold and_then, return_.
  destruct (reproduce _ _ strongest h) as [[child strongest'] h1| |]; try discriminate.
  intros [= <- _]. cbn [entities populationSize set_entities].
  rewrite !length_insert. split; reflexivity.
Qed.

(** *** C8 *)

(** Claim C8.  A population made by [new PopulationManager(size, n)], after
    any sequence of [update], [forceEvolution] and [reset] calls that
    returned, has [populationSize] equal to [size] and a roster [entities]
    of exactly [size] slots. *)
Theorem roster_size_invariant size p :
  reachable_population size p ->
  populationSize p = size /\ length (entities p) = size.
Proof.
  induction 1 as [n h p h' Hnew | p h p' h' _ IH Hreset
                 | p w now h p' w' h' _ IH Hupdate | p h p' h' _ IH Hforce].
  - unfold new, and_then, return_ in Hnew.
    destruct (initializePopulation size n h) as [es h1| |] eqn:Hinit; try discriminate.
    injection Hnew as <- _. cbn [populationSize entities].
    split; [reflexivity | exact (initializePopulation_length _ _ _ _ _ Hinit)].
  - destruct IH as [Hsize _].
    unfold reset, and_then, return_ in Hreset.
    destruct (initializePopulation _ _ h) as [es h1| |] eqn:Hinit; try discriminate.
    injection Hreset as <- _. cbn [populationSize entities].
    split; [exact Hsize|].
    rewrite (initializePopulation_length _ _ _ _ _ Hinit). exact Hsize.
  - apply update_size in Hupdate as [Hlen Hsize]. destruct IH. split; congruence.
  - apply forceEvolution_size in Hforce as [Hlen Hsize]. destruct IH. split; congruence.
Qed.

End RosterSize.

(** ** PopulationManager: calls that return *)

Section RosterCalls.
Import ConsciousEntity PopulationManager.
Context {rt : Runtime}.
Hypothesis random_is_fair : fair.

Lemma initializePopulation_ensures count n :
  ensures (initializePopulation count n) (Forall sound).
Proof.
  induction count as [|count IH]; cbn [initializePopulation].
  - apply ensures_return. constructor.
  - eapply ensures_and_then; [apply (entity_constructor_ensures random_is_fair)|].
    intros e (He & _).
    eapply ensures_and_then; [exact IH|]. intros rest Hrest.
    apply ensures_return. constructor; assumption.
Qed.

Lemma new_ensures size n :
  ensures (new size n) (fun p => Forall sound (entities p)).
Proof.
  unfold new.
  eapply ensures_and_then; [apply initializePopulation_ensures|].
  intros es Hes. apply ensures_return. exact Hes.
Qed.

(** [update] returns on a sound roster, which stays sound. *)
Lemma update_returns w now p :
  Forall sound (entities p) ->
  ensures (PopulationManager.update w now p) (fun r => Forall sound (entities (fst r))).
Proof.
  intros Hsound h.
  destruct (update_slots_ensures random_is_fair now (seq 0 (length (entities p)))
              {| loop_population := p; loop_world := w;
                 loop_living := take_snapshot (entities p) |} h Hsound)
    as (st & h1 & Hrun & Hsound1 & _).
  exists (loop_population st, loop_world st), h1.
  unfold PopulationManager.update, and_then. rewrite Hrun.
  split; [reflexivity | exact Hsound1].
Qed.

End RosterCalls.

(** Five entities, made by the steady host and updated once. *)
Lemma roster_size_invariant_witness :
  exists p h1 p' w' h2,
    PopulationManager.new (rt := Sample.steady) 5 100 Sample.start
      = Returned p h1 /\
    PopulationManager.update (rt := Sample.steady) Sample.newborn 1 p h1
      = Returned (p', w') h2 /\
    reachable_population (rt := Sample.steady) 5 p' /\
    PopulationManager.populationSize p' = 5%nat /\
    length (PopulationManager.entities p') = 5%nat.
Proof.
  destruct (new_ensures (rt := Sample.steady) steady_is_fair 5 100 Sample.start)
    as (p & h1 & Hnew & Hsound).
  destruct (update_returns (rt := Sample.steady) steady_is_fair Sample.newborn 1 p
              Hsound h1) as ([p' w'] & h2 & Hupdate & _).
  assert (Hreach : reachable_population (rt := Sample.steady) 5 p').
  { eapply population_update; [|exact Hupdate].
    eapply population_new. exact Hnew. }
  exists p, h1, p', w', h2.
  split; [exact Hnew|]. split; [exact Hupdate|]. split; [exact Hreach|].
  exact (roster_size_invariant (rt := Sample.steady) 5 p' Hreach).
Defined.

(** * Further properties of the engine *)

(** ** WorldPhysics: readings *)

Section Readings.
Import WorldPhysics.
Context {rt : Runtime}.
Local Open Scope Q_scope.

Lemma baseConfidence_range distance :
  0.1 <= baseConfidence distance /\ baseConfidence distance <= 1.
Proof.
  unfold baseConfidence.
  repeat match goal with
         | |- context [(?a =? ?b)%Z] => destruct (a =? b)%Z
         end; split; lra.
Qed.

Lemma energyMultiplier_range observerEnergy :
  0.1 <= Math_max 0.1 (Math_min 1.0 (observerEnergy / 100.0)) /\
  Math_max 0.1 (Math_min 1.0 (observerEnergy / 100.0)) <= 1.
Proof.
  unfold Math_max, Math_min.
  repeat match goal with
         | |- context [Qlt_le_dec ?a ?b] => destruct (Qlt_le_dec a b)
         end; split; lra.
Qed.

(** X1.  Whatever the cell, the distance and the energy of the observer,
    the five fields and the confidence of a reading lie between 0 and 1;
    on the grid the confidence is at least 0.01. *)
Theorem reading_in_range w px py distance observerEnergy h :
  let r := fst (getRawPhysicalProperties w px py distance observerEnergy h) in
  unit_interval (field1 r) /\ unit_interval (field2 r) /\
  unit_interval (field3 r) /\ unit_interval (field4 r) /\
  unit_interval (field5 r) /\ unit_interval (confidence r) /\
  (out_of_bounds w px py = false -> 0.01 <= confidence r).
Proof.
  cbv zeta. unfold getRawPhysicalProperties.
  destruct (out_of_bounds w px py).
  { simpl. unfold unit_interval. split_and!; try lra; discriminate. }
  destruct (neighbour_influence w px py) as [neighborInfluence neighborCount].
  pose proof (baseConfidence_range distance) as [Hb1 Hb2].
  pose proof (energyMultiplier_range observerEnergy) as [Hm1 Hm2].
  set (multiplier := Math_max 0.1 (Math_min 1.0 (observerEnergy / 100.0))) in *.
  assert (Hconf : 0.01 <= baseConfidence distance * multiplier /\
                  baseConfidence distance * multiplier <= 1) by (split; nra).
  clearbody multiplier.
  unfold bind.
  destruct (_ || _); unfold bind, ret, Math_random; cbn [fst field1 field2 field3
    field4 field5 confidence];
    (split_and!; try apply clamp01_range; [unfold unit_interval; lra | intros _; lra]).
Qed.

(** X2.  On the grid, a reading at distance 0 by an observer with at least
    100 energy has confidence 1 and draws no random number; every other
    reading on the grid draws exactly five. *)
Theorem reading_noise w px py distance observerEnergy h :
  on_grid (gridSize w) px py ->
  let r := getRawPhysicalProperties w px py distance observerEnergy h in
  (distance = 0%Z -> 100 <= observerEnergy ->
     snd r = h /\ confidence (fst r) == 1) /\
  ((0 < distance)%Z \/ observerEnergy < 100 ->
     randoms_drawn (snd r) = (randoms_drawn h + 5)%nat /\
     clock_reads (snd r) = clock_reads h).
Proof.
  intros [[Hx1 Hx2] [Hy1 Hy2]]. cbv zeta. unfold getRawPhysicalProperties.
  assert (Hin : out_of_bounds w px py = false).
  { unfold out_of_bounds.
    destruct (Z.ltb_spec px 0); [lia|].
    destruct (Z.leb_spec (gridSize w) px); [lia|].
    destruct (Z.ltb_spec py 0); [lia|].
    destruct (Z.leb_spec (gridSize w) py); [lia|]. reflexivity. }
  rewrite Hin.
  destruct (neighbour_influence w px py) as [neighborInfluence neighborCount].
  split.
  - intros -> Henergy.
    destruct (Qlt_le_dec observerEnergy 100) as [Hlt|_]; [lra|].
    cbn [Z.ltb Z.compare orb]. unfold bind, ret. cbn [fst snd confidence].
    split; [reflexivity|].
    unfold baseConfidence. cbn [Z.eqb].
    assert (Hdiv : observerEnergy / 100.0 == observerEnergy * (1 # 100)) by field.
    unfold Math_min. destruct (Qlt_le_dec _ _); [lra|].
    unfold Math_max. destruct (Qlt_le_dec _ _); lra.
  - intros Hnoisy.
    assert (Hcond : (0 <? distance)%Z
                    || (if Qlt_le_dec observerEnergy 100 then true else false) = true).
    { destruct Hnoisy as [Hd|He].
      - destruct (Z.ltb_spec 0 distance); [reflexivity | lia].
      - destruct (Qlt_le_dec observerEnergy 100); [apply orb_true_r | lra]. }
    rewrite Hcond. unfold bind, ret, Math_random. cbn [fst snd randoms_drawn clock_reads].
    split; [lia | reflexivity].
Qed.

End Readings.

(** The own cell at full energy, on the crowded world. *)
Lemma reading_noise_witness :
  on_grid (WorldPhysics.gridSize Sample.crowded) 1 1 /\
  snd (WorldPhysics.getRawPhysicalProperties (rt := Sample.steady)
         Sample.crowded 1 1 0 100 Sample.start) = Sample.start /\
  randoms_drawn (snd (WorldPhysics.getRawPhysicalProperties (rt := Sample.steady)
                        Sample.crowded 1 1 2 100 Sample.start)) = 5%nat.
Proof.
  assert (Hgrid : on_grid (WorldPhysics.gridSize Sample.crowded) 1 1).
  { unfold on_grid. simpl. lia. }
  split; [exact Hgrid|]. split.
  - apply (reading_noise (rt := Sample.steady) Sample.crowded 1 1 0 100 Sample.start
             Hgrid); [reflexivity | discriminate].
  - apply (reading_noise (rt := Sample.steady) Sample.crowded 1 1 2 100 Sample.start
             Hgrid). left. reflexivity.
Defined.

(** ** WorldPhysics: the grid, the cores and the energies *)

Section Placement.
Import WorldPhysics.
Context {rt : Runtime}.
Local Open Scope Q_scope.

Lemma floor_scaled_range r n :
  0 <= r -> r < 1 -> (0 < n)%Z -> (0 <= floor_scaled r n < n)%Z.
Proof.
  intros Hr0 Hr1 Hn. unfold floor_scaled.
  assert (Hn' : inject_Z 0 < inject_Z n) by (rewrite <- Zlt_Qlt; exact Hn).
  change (inject_Z 0) with 0 in Hn'.
  split.
  - change 0%Z with (Qfloor (inject_Z 0)). apply Qfloor_resp_le.
    change (inject_Z 0) with 0. nra.
  - rewrite Zlt_Qlt. eapply Qle_lt_trans; [apply Qfloor_le|]. nra.
Qed.

(** A loop whose body appends the index to a projection of its state. *)
Lemma for_each_rand_collect {A S B} (f : S -> list B) (g : A -> B) (l : list A)
    (body : A -> S -> Rand S) s h :
  (forall a s h, f (fst (body a s h)) = f s ++ [g a]) ->
  f (fst (for_each_rand l body s h)) = f s ++ map g l.
Proof.
  intros Hbody. revert s h.
  induction l as [|a l IH]; intros s h; simpl; [symmetry; apply app_nil_r|].
  unfold bind. specialize (Hbody a s h).
  destruct (body a s h) as [s1 h1]. simpl in Hbody.
  rewrite IH, Hbody, <- app_assoc. reflexivity.
Qed.

Lemma initializeCores_ids n h :
  map id (fst (initializeCores n h)) = upto numCores.
Proof.
  unfold initializeCores.
  rewrite (for_each_rand_collect (map id) (fun i => i)).
  - rewrite map_id. reflexivity.
  - intros i cs h1. simpl. rewrite map_app. reflexivity.
Qed.

Lemma initializeCores_placed n h :
  (0 < n)%Z ->
  Forall (fun c => on_grid n (x c) (y c)) (fst (initializeCores n h)).
Proof.
  intros Hn. unfold initializeCores.
  apply for_each_rand_invariant; [constructor|].
  intros i cs h1 _ Hcs. simpl.
  apply Forall_app. split; [exact Hcs|]. constructor; [|constructor]. simpl.
  split; apply floor_scaled_range; try exact Hn; apply random_range.
Qed.

Lemma generateTemperatureField_shaped n h :
  grid_shaped n (fst (generateTemperatureField n h)).
Proof.
  unfold generateTemperatureField.
  apply for_each_rand_invariant; [apply grid_shaped_zero|].
  intros cx g h1 _ Hg.
  apply for_each_rand_invariant; [exact Hg|].
  intros cy g' h2 _ Hg'. simpl. apply grid_shaped_set_cell, Hg'.
Qed.

Lemma random_catalyser_shaped n h :
  grid_shaped n (fst (random_catalyser n h)).
Proof.
  unfold random_catalyser.
  apply for_each_rand_invariant; [apply grid_shaped_zero|].
  intros cx g h1 _ Hg.
  apply for_each_rand_invariant; [exact Hg|].
  intros cy g' h2 _ Hg'. simpl. apply grid_shaped_set_cell, Hg'.
Qed.

Lemma built_well_placed n h :
  (0 < n)%Z ->
  let w := fst (constructor n h) in
  well_placed w /\ map id (cores w) = upto numCores /\ energies w = [] /\
  gridSize w = n.
Proof.
  intros Hn. cbv zeta. unfold constructor, bind.
  pose proof (generateTemperatureField_shaped n h) as Ht.
  destruct (generateTemperatureField n h) as [t h1].
  pose proof (random_catalyser_shaped n h1) as Hup.
  destruct (random_catalyser n h1) as [up h2].
  pose proof (initializeCores_placed n h2 Hn) as Hcs.
  pose proof (initializeCores_ids n h2) as Hids.
  destruct (initializeCores n h2) as [cs h3]. simpl in *.
  split_and!; try reflexivity; try assumption.
  unfold well_placed. simpl.
  split_and!; try assumption; [apply grid_shaped_zero | constructor].
Qed.

Lemma shifted_shaped n old : grid_shaped n (shifted n old).
Proof.
  unfold shifted.
  apply for_each_invariant; [apply grid_shaped_zero|].
  intros cx g _ Hg.
  apply for_each_invariant; [exact Hg|].
  intros cy g' _ Hg'. apply grid_shaped_set_cell, Hg'.
Qed.

Lemma shiftTemperature_shaped w h :
  grid_shaped (gridSize w) (temperature (fst (shiftTemperature w h))).
Proof.
  unfold shiftTemperature, bind.
  match goal with
  | |- context [for_each_rand ?l ?b ?s h] =>
      pose proof (for_each_rand_invariant (grid_shaped (gridSize w)) l b s h) as Hloop;
      destruct (for_each_rand l b s h) as [g h1]
  end.
  simpl in *. apply Hloop; [apply shifted_shaped|].
  intros cx g0 h0 _ Hg0.
  apply for_each_rand_invariant; [exact Hg0|].
  intros cy g1 h2 _ Hg1. unfold diffuse_cell.
  destruct (neighbours8 _ g1 cx cy) as [neighborSum neighborCount]. simpl.
  apply grid_shaped_set_cell, Hg1.
Qed.

Lemma emitPhase_shaped w :
  let n := gridSize w in
  temperature (emitPhase w) = temperature w /\ phase (emitPhase w) = phase w /\
  tick (emitPhase w) = tick w /\
  (grid_shaped n (catalyserLower w) -> grid_shaped n (catalyserUpper w) ->
   grid_shaped n (catalyserLower (emitPhase w)) /\
   grid_shaped n (catalyserUpper (emitPhase w))).
Proof.
  cbv zeta. unfold emitPhase.
  match goal with
  | |- context [for_each ?l ?b ?s] =>
      pose proof (for_each_invariant
                    (fun st => grid_shaped (gridSize w) (fst st)
                               /\ grid_shaped (gridSize w) (snd st)) l b s) as Hloop;
      destruct (for_each l b s) as [lo up]
  end.
  simpl in *. split_and!; try reflexivity.
  intros Hlo Hup. apply Hloop; [split; assumption|].
  intros cx st _ Hst.
  apply for_each_invariant; [exact Hst|].
  intros cy [lo1 up1] _ [Hlo1 Hup1]. simpl in *.
  split; apply grid_shaped_set_cell; assumption.
Qed.

Lemma collectPhase_shaped w :
  let n := gridSize w in
  temperature (collectPhase w) = temperature w /\
  phase (collectPhase w) = phase w /\ tick (collectPhase w) = tick w /\
  (grid_shaped n (catalyserLower w) -> grid_shaped n (catalyserUpper w) ->
   grid_shaped n (catalyserLower (collectPhase w)) /\
   grid_shaped n (catalyserUpper (collectPhase w))).
Proof.
  cbv zeta. unfold collectPhase.
  match goal with
  | |- context [for_each ?l ?b (zero_grid ?n, ?lo0)] =>
      pose proof (for_each_invariant
                    (fun st => grid_shaped (gridSize w) (snd st)) l b
                    (zero_grid n, lo0)) as Hloop;
      destruct (for_each l b (zero_grid n, lo0)) as [newCatalyser lo]
  end.
  simpl in *. split_and!; try reflexivity.
  intros Hlo Hup. split.
  - apply Hloop; [exact Hlo|].
    intros cx st _ Hst.
    apply for_each_invariant; [exact Hst|].
    intros cy [new1 lo1] _ Hlo1. simpl in *. unfold collect_cell.
    destruct (Qlt_le_dec 0 (cell lo1 cx cy)); simpl; [|exact Hlo1].
    apply grid_shaped_set_cell, Hlo1.
  - apply for_each_invariant; [exact Hup|].
    intros cx up _ Hup1.
    apply for_each_invariant; [exact Hup1|].
    intros cy up' _ Hup2. do 2 apply grid_shaped_set_cell. exact Hup2.
Qed.

(** The catalyser exchange flips the phase, and a collect phase ends the
    tick. *)
Lemma exchange_effect w :
  let n := gridSize w in
  phase (exchange w) = other_phase (phase w) /\
  tick (exchange w) = match phase w with
                      | emit => tick w
                      | collect => (tick w + 1)%Z
                      end /\
  temperature (exchange w) = temperature w /\
  (grid_shaped n (catalyserLower w) -> grid_shaped n (catalyserUpper w) ->
   grid_shaped n (catalyserLower (exchange w)) /\
   grid_shaped n (catalyserUpper (exchange w))).
Proof.
  cbv zeta. unfold exchange. destruct (phase w) eqn:Hphase.
  - pose proof (emitPhase_shaped w) as (Ht & Hp & Hk & Hs).
    simpl. split_and!; try reflexivity; assumption.
  - pose proof (collectPhase_shaped w) as (Ht & Hp & Hk & Hs).
    simpl. split_and!; try reflexivity; try assumption. f_equal. exact Hk.
Qed.

Lemma moves_near k :
  (-1 <= fst (nth k moves (0, 0)%Z) <= 1 /\ -1 <= snd (nth k moves (0, 0)%Z) <= 1)%Z.
Proof.
  unfold moves. do 8 (destruct k as [|k]; [simpl; lia|]). destruct k; simpl; lia.
Qed.

Lemma wrap_on_grid n p d :
  (0 < n)%Z -> (0 <= p < n)%Z -> (-1 <= d <= 1)%Z ->
  (0 <= Z.rem (p + d + n) n < n)%Z.
Proof.
  intros Hn Hp Hd. rewrite Z.rem_mod_nonneg by lia. apply Z.mod_pos_bound, Hn.
Qed.

Lemma moveCore_effect n c h :
  let c' := fst (moveCore n c h) in
  id c' = id c /\
  ((0 < n)%Z -> on_grid n (x c) (y c) -> on_grid n (x c') (y c')).
Proof.
  cbv zeta. unfold moveCore, bind, ret, Math_random. simpl.
  split; [reflexivity|]. intros Hn [Hx Hy].
  pose proof (moves_near (Z.to_nat (floor_scaled (random_value (randoms_drawn h)) 8)))
    as [Hdx Hdy].
  split; apply wrap_on_grid; assumption.
Qed.

Lemma delayed_move_effect n now c h :
  let c' := fst (delayed_move n now c h) in
  id c' = id c /\
  ((0 < n)%Z -> on_grid n (x c) (y c) -> on_grid n (x c') (y c')).
Proof.
  cbv zeta. unfold delayed_move.
  destruct (move_is_due now c); [|simpl; auto].
  unfold bind. pose proof (moveCore_effect n c h) as Hmove.
  destruct (moveCore n c h) as [c1 h1]. simpl in *. exact Hmove.
Qed.

Lemma incubate_position now cat c :
  x (incubate now cat c) = x c /\ y (incubate now cat c) = y c /\
  id (incubate now cat c) = id c.
Proof.
  unfold incubate. destruct (decide _) as [Hs|Hs]; [|auto].
  destruct (Qlt_le_dec _ _) as [Hc|Hc]; simpl; auto.
Qed.

Lemma warm_effect now temp c :
  let r := warm now temp c in
  x (fst r) = x c /\ y (fst r) = y c /\ id (fst r) = id c /\
  forall e, snd r = Some e ->
    energy_x e = x c /\ energy_y e = y c /\ active e = true /\ createdAt e = now.
Proof.
  cbv zeta. unfold warm.
  destruct (decide _) as [Hs|Hs]; [|simpl; split_and!; auto; discriminate].
  destruct (Qlt_le_dec _ _) as [Ht|Ht]; [|simpl; split_and!; auto; discriminate].
  destruct (_ <=? _)%Z; simpl; split_and!; auto; try discriminate.
  intros e0 [= <-]. simpl. auto.
Qed.

(** What one turn of the loop of [updateCores] does to the core and to the
    world, as far as places and energies go. *)
Lemma updateCore_effect c w h :
  let n := gridSize w in
  let r := fst (updateCore c w h) in
  id (fst r) = id c /\
  ((0 < n)%Z -> on_grid n (x c) (y c) -> on_grid n (x (fst r)) (y (fst r))) /\
  (grid_shaped n (catalyserLower w) -> grid_shaped n (catalyserLower (snd r))) /\
  exists extra,
    energies (snd r) = energies w ++ extra /\
    Forall (fun e => active e = true /\ createdAt e = tick w /\
                     ((0 < n)%Z -> on_grid n (x c) (y c) ->
                      on_grid n (energy_x e) (energy_y e))) extra.
Proof.
  cbv zeta. unfold updateCore, bind.
  pose proof (delayed_move_effect (gridSize w) (tick w) c h) as [Hid1 Hgrid1].
  destruct (delayed_move (gridSize w) (tick w) c h) as [c1 h1]. simpl in Hid1, Hgrid1.
  pose proof (incubate_position (tick w) (cell (catalyserLower w) (x c1) (y c1)) c1)
    as (Hx2 & Hy2 & Hid2).
  set (c2 := incubate (tick w) (cell (catalyserLower w) (x c1) (y c1)) c1) in *.
  pose proof (warm_effect (tick w) (cell (temperature w) (x c1) (y c1)) c2)
    as (Hx3 & Hy3 & Hid3 & Hpush).
  cbv zeta in Hpush.
  destruct (warm (tick w) (cell (temperature w) (x c1) (y c1)) c2) as [c3 pushed].
  simpl in Hx3, Hy3, Hid3, Hpush.
  assert (Hextra : exists extra,
             energies (match pushed with
                       | Some e => set_energies (energies w ++ [e]) w
                       | None => w
                       end) = energies w ++ extra /\
             Forall (fun e => active e = true /\ createdAt e = tick w /\
                       ((0 < gridSize w)%Z -> on_grid (gridSize w) (x c) (y c) ->
                        on_grid (gridSize w) (energy_x e) (energy_y e))) extra).
  { destruct pushed as [e|].
    - exists [e]. split; [reflexivity|]. constructor; [|constructor].
      destruct (Hpush e eq_refl) as (Hex & Hey & Hactive & Hcreated).
      split_and!; try assumption.
      intros Hn Hc. rewrite Hex, Hey, Hx2, Hy2. apply Hgrid1; assumption.
    - exists []. split; [symmetry; apply app_nil_r | constructor]. }
  assert (Hsame : forall w0 : World,
             w0 = w ->
             gridSize (match pushed with
                       | Some e => set_energies (energies w0 ++ [e]) w0
                       | None => w0
                       end) = gridSize w /\
             tick (match pushed with
                   | Some e => set_energies (energies w0 ++ [e]) w0
                   | None => w0
                   end) = tick w /\
             catalyserLower (match pushed with
                             | Some e => set_energies (energies w0 ++ [e]) w0
                             | None => w0
                             end) = catalyserLower w).
  { intros w0 ->. destruct pushed; simpl; auto. }
  destruct (Hsame w eq_refl) as (Hn1 & Ht1 & Hlo1). clear Hsame.
  set (w1 := match pushed with
             | Some e => set_energies (energies w ++ [e]) w
             | None => w
             end) in *.
  clearbody w1. rewrite Ht1.
  destruct (bloom_is_over (tick w) c3).
  - cbn [gridSize set_catalyserLower].
    set (c4 := set_consecutiveHighTemp 0 (set_state dormant c3)).
    pose proof (moveCore_effect (gridSize w1) c4 h1) as [Hid5 Hgrid5].
    destruct (moveCore (gridSize w1) c4 h1) as [c5 h5]. simpl in Hid5, Hgrid5.
    cbn [fst snd ret energies catalyserLower set_catalyserLower].
    split_and!.
    + rewrite Hid5. simpl. congruence.
    + intros Hn Hc. rewrite Hn1 in Hgrid5. apply Hgrid5; [exact Hn|].
      simpl. rewrite Hx3, Hy3, Hx2, Hy2. apply Hgrid1; assumption.
    + intros Hlo. apply grid_shaped_set_cell. rewrite Hlo1. exact Hlo.
    + exact Hextra.
  - cbn [fst snd ret]. split_and!.
    + congruence.
    + intros Hn Hc. rewrite Hx3, Hy3, Hx2, Hy2. apply Hgrid1; assumption.
    + intros Hlo. rewrite Hlo1. exact Hlo.
    + exact Hextra.
Qed.

Lemma updateCores_loop_effect cs w h :
  let n := gridSize w in
  let r := fst (updateCores_loop cs w h) in
  map id (fst r) = map id cs /\
  ((0 < n)%Z -> Forall (fun c => on_grid n (x c) (y c)) cs ->
   Forall (fun c => on_grid n (x c) (y c)) (fst r)) /\
  (grid_shaped n (catalyserLower w) -> grid_shaped n (catalyserLower (snd r))) /\
  exists extra,
    energies (snd r) = energies w ++ extra /\
    Forall (fun e => active e = true /\ createdAt e = tick w /\
                     ((0 < n)%Z -> Forall (fun c => on_grid n (x c) (y c)) cs ->
                      on_grid n (energy_x e) (energy_y e))) extra.
Proof.
  cbv zeta. revert w h. induction cs as [|c cs IH]; intros w h; simpl.
  - split_and!; auto. exists []. split; [symmetry; apply app_nil_r | constructor].
  - unfold bind.
    pose proof (updateCore_effect c w h) as (Hid & Hgrid & Hlo & extra1 & He1 & Hx1).
    pose proof (updateCore_world c w h) as (Hn1 & Ht1 & _).
    destruct (updateCore c w h) as [[c' w1] h1]. simpl in Hid, Hgrid, Hlo, He1, Hn1, Ht1.
    specialize (IH w1 h1) as (Hids & Hgrids & Hlos & extra2 & He2 & Hx2).
    destruct (updateCores_loop cs w1 h1) as [[rest w2] h2].
    simpl in Hids, Hgrids, Hlos, He2 |- *.
    rewrite Hn1, ?Ht1 in *.
    split_and!.
    + congruence.
    + intros Hn Hall. apply Forall_cons in Hall as [Hc Hall].
      constructor; [apply Hgrid | apply Hgrids]; assumption.
    + intros Hshape. apply Hlos, Hlo, Hshape.
    + exists (extra1 ++ extra2). rewrite He2, He1, app_assoc.
      split; [reflexivity|]. apply Forall_app. split.
      * eapply Forall_impl; [exact Hx1|]. intros e (Ha & Hc & Hg).
        split_and!; try assumption. intros Hn Hall.
        apply Forall_cons in Hall as [Hc0 _]. apply Hg; assumption.
      * eapply Forall_impl; [exact Hx2|]. intros e (Ha & Hc & Hg).
        split_and!; try assumption. intros Hn Hall.
        apply Forall_cons in Hall as [_ Hall]. apply Hg; assumption.
Qed.

(** The effect of [updateCores] on a world whose energies are fresh. *)
Lemma updateCores_effect w h (before : Z) :
  let w' := fst (updateCores w h) in
  (before <= tick w)%Z ->
  Forall (fun e => active e = true /\ (createdAt e <= before)%Z) (energies w) ->
  map id (cores w') = map id (cores w) /\
  Forall (fresh_energy w') (energies w') /\
  (well_placed w -> well_placed w').
Proof.
  cbv zeta. intros Hbefore Hold. unfold updateCores, bind.
  pose proof (updateCores_loop_effect (cores w) w h)
    as (Hids & Hgrid & Hlo & extra & Hextra & Hnew).
  pose proof (updateCores_loop_world (cores w) w h)
    as (Hn & Ht & _ & Htemp & Hup & _).
  destruct (updateCores_loop (cores w) w h) as [[cs w1] h1].
  simpl in Hids, Hgrid, Hlo, Hextra, Hn, Ht, Htemp, Hup |- *.
  split_and!.
  - exact Hids.
  - apply Forall_forall. intros e He.
    apply list_elem_of_In, filter_In in He as [He Hfresh].
    unfold still_fresh in Hfresh. rewrite Ht in *.
    assert (Hcreated : active e = true /\ (createdAt e <= tick w)%Z).
    { rewrite Hextra in He. apply in_app_or in He as [He|He].
      - rewrite Forall_forall in Hold.
        destruct (Hold e) as [Ha Hc]; [apply list_elem_of_In, He|]. split; [exact Ha | lia].
      - rewrite Forall_forall in Hnew.
        destruct (Hnew e) as (Ha & Hc & _); [apply list_elem_of_In, He|].
        split; [exact Ha | lia]. }
    destruct Hcreated as [Ha Hc]. unfold fresh_energy. simpl. rewrite Ht.
    destruct (Z.leb_spec 5 (tick w - createdAt e)); [discriminate|].
    split_and!; [exact Ha | exact Hc | lia].
  - intros (Hpos & Hshape_t & Hshape_lo & Hshape_up & Hcores & Henergies).
    unfold well_placed. simpl. rewrite Hn, Htemp, Hup.
    split_and!; try assumption.
    + apply Hlo, Hshape_lo.
    + apply Hgrid; assumption.
    + apply Forall_forall. intros e He.
      apply list_elem_of_In, filter_In in He as [He _].
      rewrite Hextra in He. apply in_app_or in He as [He|He].
      * rewrite Forall_forall in Henergies. apply Henergies, list_elem_of_In, He.
      * rewrite Forall_forall in Hnew.
        destruct (Hnew e) as (_ & _ & Hg); [apply list_elem_of_In, He|].
        apply Hg; assumption.
Qed.

Lemma step_effect w h :
  let w' := fst (step w h) in
  Forall (fresh_energy w) (energies w) ->
  phase w' = other_phase (phase w) /\
  tick w' = match phase w with
            | emit => tick w
            | collect => (tick w + 1)%Z
            end /\
  gridSize w' = gridSize w /\
  map id (cores w') = map id (cores w) /\
  Forall (fresh_energy w') (energies w') /\
  (well_placed w -> well_placed w').
Proof.
  cbv zeta. intros Hfresh. rewrite step_prepared. unfold prepared.
  pose proof (shiftTemperature_keeps w h) as (Hc1 & He1 & Ht1 & Hn1 & Hp1).
  pose proof (shiftTemperature_others w h) as (Hlo1 & Hup1).
  pose proof (shiftTemperature_shaped w h) as Hshape1.
  destruct (shiftTemperature w h) as [w1 h1]. simpl in *.
  pose proof (exchange_effect w1) as (Hp2 & Ht2 & Htemp2 & Hshape2).
  pose proof (exchange_keeps w1) as (Hc2 & He2 & Hn2 & Hbound).
  set (w2 := exchange w1) in *.
  assert (Hold : Forall (fun e => active e = true /\ (createdAt e <= tick w)%Z)
                        (energies w2)).
  { rewrite He2, He1. eapply Forall_impl; [exact Hfresh|].
    intros e (Ha & Hc & _). split; assumption. }
  destruct (updateCores_effect w2 h1 (tick w) ltac:(lia) Hold) as (Hids & Hnew & Hplaced).
  pose proof (updateCores_result w2 h1) as (_ & Ht3 & _).
  pose proof (updateCores_loop_world (cores w2) w2 h1) as Hworld.
  assert (Hphase3 : phase (fst (updateCores w2 h1)) = phase w2 /\
                    gridSize (fst (updateCores w2 h1)) = gridSize w2).
  { unfold updateCores, bind.
    destruct (updateCores_loop (cores w2) w2 h1) as [[cs w3] h3].
    simpl in *. destruct Hworld as (Hn3 & _ & Hp3 & _). split; assumption. }
  destruct Hphase3 as [Hp3 Hn3].
  split_and!.
  - rewrite Hp3, Hp2, Hp1. reflexivity.
  - rewrite Ht3, Ht2, Hp1, Ht1. reflexivity.
  - rewrite Hn3, Hn2, Hn1. reflexivity.
  - rewrite Hids, Hc2, Hc1. reflexivity.
  - exact Hnew.
  - intros (Hpos & Hshape_t & Hshape_lo & Hshape_up & Hcores & Henergies).
    apply Hplaced. unfold well_placed.
    rewrite Hn2, Hn1, Htemp2, Hc2, Hc1, He2, He1.
    destruct Hshape2 as [Hlo2 Hup2].
    { rewrite Hn1, Hlo1. exact Hshape_lo. }
    { rewrite Hn1, Hup1. exact Hshape_up. }
    rewrite Hn1 in Hlo2, Hup2.
    split_and!; assumption.
Qed.

Lemma consumeEnergy_effect px py w :
  let w' := snd (consumeEnergy px py w) in
  map id (cores w') = map id (cores w) /\
  (Forall (fresh_energy w) (energies w) -> Forall (fresh_energy w') (energies w')) /\
  (well_placed w -> well_placed w') /\
  (length (energies w') <= length (energies w))%nat.
Proof.
  cbv zeta. unfold consumeEnergy.
  destruct (list_find _ (energies w)) as [[k e]|]; [|auto].
  assert (Hsched : forall w0, w0 = scheduleCoreMovement (coreId e) 3 w ->
            map id (cores w0) = map id (cores w) /\
            Forall2 (fun c c0 => x c0 = x c /\ y c0 = y c) (cores w) (cores w0) /\
            energies w0 = energies w /\ tick w0 = tick w /\
            gridSize w0 = gridSize w /\ temperature w0 = temperature w /\
            catalyserLower w0 = catalyserLower w /\
            catalyserUpper w0 = catalyserUpper w).
  { intros w0 ->. unfold scheduleCoreMovement.
    destruct (list_find _ (cores w)) as [[j cj]|]; simpl.
    - split_and!; try reflexivity.
      + apply list_eq. intros i. rewrite !list_lookup_fmap.
        destruct (decide (j = i)) as [->|Hne].
        * rewrite list_lookup_alter_eq. destruct (cores w !! i); reflexivity.
        * rewrite list_lookup_alter_ne by exact Hne. reflexivity.
      + apply Forall2_same_length_lookup. split; [symmetry; apply length_alter|].
        intros i c c0 Hc Hc0. destruct (decide (j = i)) as [->|Hne].
        * rewrite list_lookup_alter_eq, Hc in Hc0. injection Hc0 as <-. simpl. auto.
        * rewrite list_lookup_alter_ne, Hc in Hc0 by exact Hne.
          injection Hc0 as <-. auto.
    - split_and!; try reflexivity.
      apply Forall2_same_length_lookup. split; [reflexivity|].
      intros i c c0 Hc Hc0. rewrite Hc in Hc0. injection Hc0 as <-. auto. }
  destruct (Hsched _ eq_refl) as (Hids & Hpos & He & Ht & Hn & Htemp & Hlo & Hup).
  clear Hsched.
  set (w1 := scheduleCoreMovement (coreId e) 3 w) in *. clearbody w1.
  cbn [snd cores energies set_energies]. rewrite He.
  split_and!.
  - exact Hids.
  - intros Hfresh. apply Forall_delete.
    eapply Forall_impl; [exact Hfresh|]. intros e0 He0.
    unfold fresh_energy in *. simpl. rewrite Ht. exact He0.
  - intros (Hpos0 & Hshape_t & Hshape_lo & Hshape_up & Hcores & Henergies).
    unfold well_placed. simpl. rewrite Hn, Htemp, Hlo, Hup.
    split_and!; try assumption.
    + apply Forall_forall. intros c0 Hc0.
      apply list_elem_of_lookup in Hc0 as [i Hc0].
      destruct (Forall2_lookup_r _ _ _ _ _ Hpos Hc0) as (c & Hc & Hx & Hy).
      rewrite Hx, Hy. exact (Forall_lookup_1 _ _ _ _ Hcores Hc).
    + apply Forall_delete. exact Henergies.
  - apply sublist_length, sublist_delete.
Qed.

Lemma step_phase_tick w h :
  phase (fst (step w h)) = other_phase (phase w) /\
  tick (fst (step w h)) = match phase w with
                          | emit => tick w
                          | collect => (tick w + 1)%Z
                          end.
Proof.
  rewrite step_prepared. unfold prepared.
  pose proof (shiftTemperature_keeps w h) as (_ & _ & Ht1 & _ & Hp1).
  destruct (shiftTemperature w h) as [w1 h1]. simpl in *.
  pose proof (exchange_effect w1) as (Hp2 & Ht2 & _).
  pose proof (updateCores_result (exchange w1) h1) as (_ & Ht3 & _).
  pose proof (updateCores_loop_world (cores (exchange w1)) (exchange w1) h1)
    as (_ & _ & Hp3 & _).
  unfold updateCores, bind in *.
  destruct (updateCores_loop (cores (exchange w1)) (exchange w1) h1) as [[cs w3] h3].
  simpl in *. rewrite Hp3, Hp2, Ht3, Ht2, Hp1, Ht1. split; reflexivity.
Qed.

(** What holds of every world a host can hold. *)
Lemma reachable_invariant w :
  reachable w ->
  well_placed w /\ map id (cores w) = upto numCores /\
  Forall (fresh_energy w) (energies w).
Proof.
  induction 1 as [n h Hn | w h _ IH | w h _ IH | w px py _ IH].
  - destruct (built_well_placed n h Hn) as (Hplaced & Hids & Hnone & _).
    split_and!; [exact Hplaced | exact Hids |]. rewrite Hnone. constructor.
  - destruct IH as ((Hn & _) & _).
    change (reset w h) with (constructor (gridSize w) h).
    destruct (built_well_placed (gridSize w) h Hn) as (Hplaced & Hids & Hnone & _).
    split_and!; [exact Hplaced | exact Hids |]. rewrite Hnone. constructor.
  - destruct IH as (Hplaced & Hids & Hfresh).
    destruct (step_effect w h Hfresh) as (_ & _ & _ & Hids' & Hfresh' & Hplaced').
    split_and!; [apply Hplaced', Hplaced | congruence | exact Hfresh'].
  - destruct IH as (Hplaced & Hids & Hfresh).
    destruct (consumeEnergy_effect px py w) as (Hids' & Hfresh' & Hplaced' & _).
    split_and!; [apply Hplaced', Hplaced | congruence | apply Hfresh', Hfresh].
Qed.

(** X3.  In every world a host can hold, the grid size is positive, the
    three fields are arrays of that size in both directions, and every
    core and every energy manifestation sits on a cell of the grid: the
    reads [catalyser[core.x][core.y]] and [temperature[core.x][core.y]] of
    [updateCores] never leave the arrays. *)
Theorem reachable_well_placed w :
  reachable w ->
  let n := gridSize w in
  (0 < n)%Z /\
  grid_shaped n (temperature w) /\ grid_shaped n (catalyserLower w) /\
  grid_shaped n (catalyserUpper w) /\
  Forall (fun c => (0 <= x c < n)%Z /\ (0 <= y c < n)%Z) (cores w) /\
  Forall (fun e => (0 <= energy_x e < n)%Z /\ (0 <= energy_y e < n)%Z) (energies w).
Proof.
  intros Hw. destruct (reachable_invariant w Hw) as (Hplaced & _).
  exact Hplaced.
Qed.

(** X4.  A world always has its fifty cores, with the ids 0 to 49 in the
    order of the array: no call adds, removes or reorders cores. *)
Theorem reachable_core_ids w :
  reachable w ->
  map id (cores w) = seqZ 0 50 /\ length (cores w) = 50%nat.
Proof.
  intros Hw. destruct (reachable_invariant w Hw) as (_ & Hids & _).
  split; [exact Hids|].
  rewrite <- (length_map id), Hids. reflexivity.
Qed.

(** X5.  Every energy manifestation of a world is active, was created at
    a tick that is not in the future, and is less than five ticks old:
    [updateCores] has removed the older ones at the end of each step. *)
Theorem reachable_energies_fresh w :
  reachable w ->
  Forall (fun e => active e = true /\ (createdAt e <= tick w)%Z /\
                   (tick w - createdAt e < 5)%Z) (energies w).
Proof.
  intros Hw. destruct (reachable_invariant w Hw) as (_ & _ & Hfresh).
  exact Hfresh.
Qed.

(** X6.  Each [step] flips the phase; the tick does not change on a step
    that starts in the emit phase and grows by one on a step that starts
    in the collect phase, so that two steps in a row bring back the phase
    and advance the tick by exactly one. *)
Theorem step_alternates w h h' :
  let w1 := fst (step w h) in
  let w2 := fst (step w1 h') in
  phase w1 = other_phase (phase w) /\
  tick w1 = match phase w with emit => tick w | collect => (tick w + 1)%Z end /\
  phase w2 = phase w /\
  tick w2 = (tick w + 1)%Z.
Proof.
  cbv zeta.
  destruct (step_phase_tick w h) as [Hp1 Ht1].
  destruct (step_phase_tick (fst (step w h)) h') as [Hp2 Ht2].
  rewrite Hp2, Ht2, Hp1, Ht1.
  destruct (phase w); simpl; split_and!; reflexivity || lia.
Qed.

Lemma count_state_partition cs :
  (count_state dormant cs + count_state incubated cs + count_state bloomed cs
   = length cs)%nat.
Proof.
  unfold count_state. induction cs as [|c cs IH]; [reflexivity|].
  simpl. destruct (state c); simpl; lia.
Qed.

(** X7.  The three state counts of [getWorldState()] add up to its number
    of cores, and it never counts more active energies than energies. *)
Theorem getWorldState_counts w :
  let s := getWorldState w in
  (dormantCores s + incubatedCores s + bloomedCores s = ws_cores s)%nat /\
  (activeEnergies s <= ws_energies s)%nat.
Proof.
  cbv zeta. unfold getWorldState. simpl. split.
  - apply count_state_partition.
  - apply filter_length_le.
Qed.

End Placement.

(** The world built by the steady host, after one step. *)
Lemma reachable_well_placed_witness :
  let w := fst (WorldPhysics.step (rt := Sample.steady) Sample.newborn Sample.start) in
  reachable (rt := Sample.steady) w /\ (0 < WorldPhysics.gridSize w)%Z /\
  grid_shaped (WorldPhysics.gridSize w) (WorldPhysics.temperature w).
Proof.
  assert (Hw : reachable (rt := Sample.steady)
                 (fst (WorldPhysics.step (rt := Sample.steady) Sample.newborn
                         Sample.start))).
  { apply reachable_step.
    exact (reachable_new (rt := Sample.steady) 2 Sample.start ltac:(lia)). }
  split; [exact Hw|].
  destruct (reachable_well_placed (rt := Sample.steady) _ Hw) as (Hn & Ht & _).
  split; assumption.
Defined.

Lemma reachable_core_ids_witness :
  let w := fst (WorldPhysics.step (rt := Sample.steady) Sample.newborn Sample.start) in
  reachable (rt := Sample.steady) w /\ length (WorldPhysics.cores w) = 50%nat.
Proof.
  assert (Hw : reachable (rt := Sample.steady)
                 (fst (WorldPhysics.step (rt := Sample.steady) Sample.newborn
                         Sample.start))).
  { apply reachable_step.
    exact (reachable_new (rt := Sample.steady) 2 Sample.start ltac:(lia)). }
  split; [exact Hw|].
  exact (proj2 (reachable_core_ids (rt := Sample.steady) _ Hw)).
Defined.

(** *** A world with energy *)

Section Sprouting.
Import WorldPhysics.
Local Open Scope Q_scope.

Lemma exchange_temperature w : temperature (exchange w) = temperature w.
Proof.
  unfold exchange. destruct (phase w).
  - unfold emitPhase. destruct (for_each _ _ _) as [lo up]. reflexivity.
  - unfold collectPhase.
    destruct (for_each (upto (gridSize w)) _ (zero_grid (gridSize w), _)) as [nc lo].
    reflexivity.
Qed.

Lemma updateCores_temperature {rt : Runtime} w h :
  temperature (fst (updateCores w h)) = temperature w /\
  gridSize (fst (updateCores w h)) = gridSize w.
Proof.
  unfold updateCores, bind.
  pose proof (updateCores_loop_world (cores w) w h) as (Hg & _ & _ & Ht & _).
  destruct (updateCores_loop (cores w) w h) as [[cs w'] h']. cbn [fst snd] in *.
  split; assumption.
Qed.

(** On the steady host the noise of the diffusion is zero, and a cell
    that is its own neighbour keeps its temperature. *)
Lemma steady_shiftTemperature w h :
  temperate w ->
  temperate (fst (shiftTemperature (rt := Sample.steady) w h)).
Proof.
  intros (Hn & v & Ht & Hv).
  pose proof (shiftTemperature_keeps (rt := Sample.steady) w h) as (_ & _ & _ & Hg & _).
  split; [rewrite Hg; exact Hn|].
  unfold shiftTemperature. rewrite Hn, Ht.
  change (shifted 1 [[v]]) with [[v]].
  change (upto 1) with [0%Z]. cbn [for_each_rand]. unfold bind, ret.
  unfold diffuse_cell.
  change (neighbours8 1 [[v]] 0 0)
    with (0 + v + v + v + v + v + v + v + v, 8%Z).
  cbn [fst snd]. change (0 <? 8)%Z with true. cbv iota.
  unfold bind, ret, Math_random. cbn [fst snd temperature set_temperature].
  change (cell [[v]] 0 0) with v.
  eexists. split; [reflexivity|].
  change (random_value (Runtime := Sample.steady) (randoms_drawn h)) with (1 # 2).
  change (inject_Z 8) with 8. unfold diffusionStrength.
  match goal with
  | |- clamp01 ?e == _ => assert (He : e == 1 # 2) by (rewrite Hv; reflexivity);
                          set (diffused := e) in *
  end.
  unfold clamp01, Math_max, Math_min.
  destruct (Qlt_le_dec diffused 1) as [_|Hhigh]; [|lra].
  destruct (Qlt_le_dec 0 diffused) as [_|Hlow]; [exact He | lra].
Qed.

Lemma steady_step_temperate w h :
  temperate w -> temperate (fst (step (rt := Sample.steady) w h)).
Proof.
  intros Hw. apply (steady_shiftTemperature w h) in Hw.
  unfold step, bind. destruct (shiftTemperature w h) as [w1 h1]. cbn [fst] in *.
  destruct Hw as (Hn & v & Ht & Hv).
  pose proof (updateCores_temperature (rt := Sample.steady) (exchange w1) h1)
    as [Htemp Hsize].
  pose proof (exchange_keeps w1) as (_ & _ & Hg & _).
  split; [congruence|].
  exists v. split; [|exact Hv].
  rewrite Htemp, exchange_temperature. exact Ht.
Qed.

(** In such a world the first core reads a temperature above 0.2. *)
Lemma steady_reading_warm w h c1 cat temp :
  temperate w -> well_placed w ->
  reading (rt := Sample.steady) 0 w h = Some (c1, cat, temp) ->
  0.2 < temp.
Proof.
  intros Hw Hplaced. unfold reading.
  destruct (cores w !! 0%nat) as [c|] eqn:Hc; [|discriminate].
  pose proof (steady_shiftTemperature w h Hw) as (Hn1 & v & Ht1 & Hv).
  pose proof (prepared_keeps (rt := Sample.steady) w h) as (_ & _ & Hg2 & _).
  unfold prepared in *. destruct (shiftTemperature w h) as [w1 h1].
  cbn [fst snd] in *.
  unfold turn. cbn [take updateCores_loop]. unfold ret. cbn [fst snd].
  intros [= <- _ <-].
  destruct Hw as (Hn & _).
  destruct Hplaced as (_ & _ & _ & _ & Hcores & _).
  apply (Forall_lookup_1 _ _ _ _ Hcores) in Hc.
  rewrite Hn in Hc.
  pose proof (delayed_move_effect (rt := Sample.steady) (gridSize (exchange w1))
                (tick (exchange w1)) c h1) as (_ & Hon).
  rewrite Hg2, Hn in Hon. specialize (Hon ltac:(lia) Hc).
  destruct Hon as [Hx Hy].
  rewrite Hg2, Hn.
  replace (x (fst (delayed_move 1 (tick (exchange w1)) c h1))) with 0%Z by lia.
  replace (y (fst (delayed_move 1 (tick (exchange w1)) c h1))) with 0%Z by lia.
  rewrite exchange_temperature, Ht1.
  change (cell [[v]] 0 0) with v. rewrite Hv. reflexivity.
Qed.

(** One more warm update of the first core, incubated: its counter grows,
    and at five the core blooms and its energy is in the world. *)
Lemma steady_step_warm w h c :
  temperate w -> reachable (rt := Sample.steady) w ->
  cores w !! 0%nat = Some c -> state c = incubated ->
  exists c',
    cores (fst (step (rt := Sample.steady) w h)) !! 0%nat = Some c' /\
    ((consecutiveHighTemp c < 4)%Z ->
     state c' = incubated /\
     consecutiveHighTemp c' = (consecutiveHighTemp c + 1)%Z) /\
    ((4 <= consecutiveHighTemp c)%Z ->
     exists e, In e (energies (fst (step (rt := Sample.steady) w h)))).
Proof.
  intros Hw Hreach Hc Hstate.
  destruct (reachable_invariant w Hreach) as (Hplaced & _ & _).
  destruct (step_core (rt := Sample.steady) w h 0 c Hc)
    as (c1 & cat & temp & c' & Hread & Hc' & Hupdate).
  pose proof (steady_reading_warm w h c1 cat temp Hw Hplaced Hread) as Hwarm.
  destruct Hupdate as (_ & Hincubated & _).
  destruct (Hincubated Hstate) as (Hbloom & Hgrow & _).
  exists c'. split; [exact Hc'|]. split.
  - intros Hfew. destruct (Hgrow (conj Hwarm Hfew)) as (Hs & Hk & _).
    split; assumption.
  - intros Hfull. destruct (Hbloom (conj Hwarm Hfull)) as (_ & _ & Hafter).
    eexists. eapply (energy_survives_step (rt := Sample.steady) w h 0 c).
    + exact Hc.
    + rewrite Hafter. apply in_or_app. right. left. reflexivity.
    + reflexivity.
Qed.

End Sprouting.

(** After five steps the cores of the seedling world have bloomed. *)
Lemma sprouted_has_energy :
  exists e, In e (WorldPhysics.energies Sample.sprouted).
Proof.
  pose (w1 := Sample.stepped Sample.seedling).
  assert (Hreach0 : reachable (rt := Sample.steady) Sample.seedling).
  { exact (reachable_new (rt := Sample.steady) 1 Sample.start ltac:(lia)). }
  assert (Hreach1 : reachable (rt := Sample.steady) w1).
  { apply reachable_step. exact Hreach0. }
  assert (Htemp1 : temperate w1).
  { apply steady_step_temperate. split; [reflexivity|].
    exists (2000000 # 4000000)%Q. split; [vm_compute; reflexivity | reflexivity]. }
  assert (Hcore1 : exists c, WorldPhysics.cores w1 !! 0%nat = Some c /\
                             WorldPhysics.state c = WorldPhysics.incubated /\
                             WorldPhysics.consecutiveHighTemp c = 1%Z).
  { exists {| WorldPhysics.x := 0; WorldPhysics.y := 0;
              WorldPhysics.state := WorldPhysics.incubated;
              WorldPhysics.incubationTime := 0; WorldPhysics.bloomTime := 0;
              WorldPhysics.temperatureExposure := 0;
              WorldPhysics.consecutiveHighTemp := 1; WorldPhysics.id := 0;
              WorldPhysics.moveAfterTick := None |}.
    split; [vm_compute; reflexivity|]. split; reflexivity. }
  destruct Hcore1 as (c1 & Hc1 & Hs1 & Hk1).
  destruct (steady_step_warm w1 Sample.start c1 Htemp1 Hreach1 Hc1 Hs1)
    as (c2 & Hc2 & Hgrow2 & _).
  destruct (Hgrow2 ltac:(lia)) as [Hs2 Hk2].
  pose proof (steady_step_temperate w1 Sample.start Htemp1) as Htemp2.
  pose proof (reachable_step (rt := Sample.steady) w1 Sample.start Hreach1) as Hreach2.
  destruct (steady_step_warm _ Sample.start c2 Htemp2 Hreach2 Hc2 Hs2)
    as (c3 & Hc3 & Hgrow3 & _).
  destruct (Hgrow3 ltac:(lia)) as [Hs3 Hk3].
  pose proof (steady_step_temperate _ Sample.start Htemp2) as Htemp3.
  pose proof (reachable_step (rt := Sample.steady) _ Sample.start Hreach2) as Hreach3.
  destruct (steady_step_warm _ Sample.start c3 Htemp3 Hreach3 Hc3 Hs3)
    as (c4 & Hc4 & Hgrow4 & _).
  destruct (Hgrow4 ltac:(lia)) as [Hs4 Hk4].
  pose proof (steady_step_temperate _ Sample.start Htemp3) as Htemp4.
  pose proof (reachable_step (rt := Sample.steady) _ Sample.start Hreach3) as Hreach4.
  destruct (steady_step_warm _ Sample.start c4 Htemp4 Hreach4 Hc4 Hs4)
    as (c5 & _ & _ & Hbloom).
  exact (Hbloom ltac:(lia)).
Qed.

(** The seedling world after five steps, in which the cores have bloomed
    at tick 2. *)
Lemma reachable_energies_fresh_witness :
  reachable (rt := Sample.steady) Sample.sprouted /\
  (exists e, In e (WorldPhysics.energies Sample.sprouted)) /\
  Forall (fun e => WorldPhysics.active e = true /\
                   (WorldPhysics.createdAt e <= WorldPhysics.tick Sample.sprouted)%Z /\
                   (WorldPhysics.tick Sample.sprouted - WorldPhysics.createdAt e < 5)%Z)
         (WorldPhysics.energies Sample.sprouted).
Proof.
  assert (Hw : reachable (rt := Sample.steady) Sample.sprouted).
  { do 5 apply reachable_step.
    exact (reachable_new (rt := Sample.steady) 1 Sample.start ltac:(lia)). }
  split; [exact Hw|]. split; [exact sprouted_has_energy|].
  exact (reachable_energies_fresh (rt := Sample.steady) _ Hw).
Defined.

(** ** ConsciousEntity: perception and the input of the brain *)

Section Perception.
Import WorldPhysics ConsciousEntity.
Context {rt : Runtime}.
Local Open Scope Q_scope.

(** A loop whose body appends a list that depends on the index only to a
    projection of its state. *)
Lemma for_each_rand_gather {A S B} (f : S -> list B) (g : A -> list B)
    (l : list A) (body : A -> S -> Rand S) s h :
  (forall a s h, f (fst (body a s h)) = f s ++ g a) ->
  f (fst (for_each_rand l body s h)) = f s ++ flat_map g l.
Proof.
  intros Hbody. revert s h.
  induction l as [|a l IH]; intros s h; simpl; [symmetry; apply app_nil_r|].
  unfold bind. specialize (Hbody a s h).
  destruct (body a s h) as [s1 h1]. simpl in Hbody.
  rewrite IH, Hbody, <- app_assoc. reflexivity.
Qed.

(** The offsets and distances of the points of [vision] after
    [updateVision], in the order of the array. *)
Lemma updateVision_points w others this h :
  map (fun p => (relativeX p, relativeY p, distance p))
      (vision (fst (updateVision w others this h)))
  = flat_map (fun dx => map (fun dy => (dx, dy, Z.abs dx + Z.abs dy)%Z) window) window.
Proof.
  unfold updateVision, bind.
  match goal with
  | |- context [for_each_rand window ?b [] h] =>
      pose proof (for_each_rand_gather
                    (map (fun p => (relativeX p, relativeY p, distance p)))
                    (fun dx => map (fun dy => (dx, dy, Z.abs dx + Z.abs dy)%Z) window)
                    window b [] h) as Hloop;
      destruct (for_each_rand window b [] h) as [points h1]
  end.
  cbn [fst] in Hloop. cbn [vision set_vision ret fst]. apply Hloop.
  intros dx s h0. cbv beta.
  rewrite (for_each_rand_gather
             (map (fun p => (relativeX p, relativeY p, distance p)))
             (fun dy => [(dx, dy, Z.abs dx + Z.abs dy)%Z])).
  - reflexivity.
  - intros dy s0 h2. cbv beta zeta. unfold bind.
    destruct (getRawPhysicalProperties _ _ _ _ _ h2) as [properties h3].
    destruct (calculateLifeForce _ _ _ _ h3) as [f5 h4]. simpl.
    rewrite map_app. reflexivity.
Qed.

Lemma updateVision_length w others this h :
  length (vision (fst (updateVision w others this h))) = 81%nat.
Proof.
  rewrite <- (length_map (fun p => (relativeX p, relativeY p, distance p))).
  rewrite updateVision_points. reflexivity.
Qed.

(** After [updateVision] the entity sees its own cell: [vision] has a
    point at distance 0. *)
Lemma updateVision_own_cell w others this h :
  exists point,
    List.find (fun v => (distance v =? 0)%Z)
              (vision (fst (updateVision w others this h))) = Some point /\
    distance point = 0%Z.
Proof.
  pose proof (updateVision_points w others this h) as Hpoints.
  destruct (List.find _ _) as [point|] eqn:Hfind.
  - exists point. split; [reflexivity|].
    apply find_some in Hfind as [_ Hd]. apply Z.eqb_eq, Hd.
  - exfalso.
    assert (Hin : In (0, 0, 0)%Z
                     (map (fun p => (relativeX p, relativeY p, distance p))
                          (vision (fst (updateVision w others this h))))).
    { rewrite Hpoints. vm_compute. do 40 right. left. reflexivity. }
    apply in_map_iff in Hin as (p & Hp & Hin).
    pose proof (find_none _ _ Hfind p Hin) as Hnone. simpl in Hnone.
    injection Hp as _ _ Hd. rewrite Hd in Hnone. discriminate.
Qed.

Lemma flat_map_constant_length {A B} (block : list B) (l : list A) :
  length (flat_map (fun _ => block) l) = (length l * length block)%nat.
Proof.
  induction l as [|a l IH]; [reflexivity|].
  simpl. rewrite length_app, IH. reflexivity.
Qed.

Lemma last_five_length {A} (l : list A) : (length (last_five l) <= 5)%nat.
Proof. unfold last_five. rewrite length_drop. lia. Qed.

Lemma getMemorySummary_length this h :
  length (fst (getMemorySummary this h)) = 50%nat.
Proof.
  unfold getMemorySummary.
  destruct (memory this) as [|m ms] eqn:Hmem; [apply length_replicate|].
  rewrite <- Hmem. unfold bind.
  match goal with
  | |- context [for_each_rand ?l ?b [] h] =>
      pose proof (for_each_rand_gather (fun acc : list Q => map (fun _ => tt) acc)
                    (fun _ => replicate 10 tt) l b [] h) as Hloop;
      destruct (for_each_rand l b [] h) as [encoded h1]
  end.
  cbn [fst] in Hloop. cbn [ret fst].
  assert (Hlen : length encoded = (10 * length (last_five (memory this)))%nat).
  { rewrite <- (length_map (fun _ => tt) encoded), Hloop.
    - cbn [map app]. rewrite flat_map_constant_length, length_replicate, length_rev.
      lia.
    - intros mem acc h2. cbv beta. unfold bind.
      destruct (Date_now h2) as [now0 h3]. simpl. rewrite map_app. reflexivity. }
  pose proof (last_five_length (memory this)) as Hfive.
  rewrite length_app, length_replicate. lia.
Qed.

(** X8.  The vector [getCellInput] builds has five fields and a
    confidence for every vision point, six values of internal state and a
    memory summary of fifty values, whatever the number of memories; after
    [updateVision], which always records 81 points, it has exactly the 542
    entries the brain is built for. *)
Theorem getCellInput_length w others now this h h' :
  length (fst (getCellInput now this h))
    = (6 * length (vision this) + 56)%nat /\
  length (vision (fst (updateVision w others this h))) = 81%nat /\
  length (fst (getCellInput now (fst (updateVision w others this h)) h'))
    = inputSize.
Proof.
  assert (Hinput : forall e h0,
            length (fst (getCellInput now e h0)) = (6 * length (vision e) + 56)%nat).
  { intros e h0. unfold getCellInput, bind.
    pose proof (getMemorySummary_length e h0) as Hsummary.
    destruct (getMemorySummary e h0) as [memorySummary h1]. simpl in *.
    rewrite !length_app, length_map. cbn [length]. rewrite Hsummary.
    assert (Hfields : forall l : list VisionPoint,
              length (flat_map (fun p => [field1 (seen p); field2 (seen p);
                                          field3 (seen p); field4 (seen p);
                                          field5 (seen p)]) l)
              = (5 * length l)%nat).
    { induction l as [|p l IH]; [reflexivity|]. simpl in *. lia. }
    rewrite Hfields. lia. }
  split; [apply Hinput|]. split; [apply updateVision_length|].
  rewrite Hinput, updateVision_length. reflexivity.
Qed.

End Perception.

(** ** ConsciousEntity: one tick *)

Section OneTick.
Import WorldPhysics ConsciousEntity.
Context {rt : Runtime}.
Local Open Scope Q_scope.

Lemma wrap_is_mod n p d :
  (0 < n)%Z -> (0 <= p < n)%Z -> (-1 <= d <= 1)%Z ->
  Z.rem (p + d + n) n = ((p + d) mod n)%Z.
Proof.
  intros Hn Hp Hd. rewrite Z.rem_mod_nonneg by lia.
  replace (p + d + n)%Z with (p + d + 1 * n)%Z by lia.
  apply Z_mod_plus_full.
Qed.

Lemma action_moves_near action move :
  action_moves !! action = Some move ->
  (-1 <= fst move <= 1)%Z /\ (-1 <= snd move <= 1)%Z /\
  exists name, actionNames !! action = Some name /\
               nth action actionNames ""%string = name.
Proof.
  unfold action_moves, actionNames.
  do 5 (destruct action as [|action];
        [intros [= <-]; simpl; split_and!; try lia; eexists; split; reflexivity|]).
  discriminate.
Qed.

(** X9.  On a grid of positive size, [executeAction] moves an entity that
    is on the grid by the move of the action, wrapping around the edges,
    so that the entity stays on the grid; it records the action and its
    name, and leaves the energy alone.  An action that is not one of the
    five throws a [TypeError]. *)
Theorem executeAction_wraps action this :
  (0 < gridSize this)%Z -> on_grid (gridSize this) (x this) (y this) ->
  match action_moves !! action with
  | Some (dx, dy) =>
      exists acted,
        executeAction action this = inr acted /\
        x acted = ((x this + dx) mod gridSize this)%Z /\
        y acted = ((y this + dy) mod gridSize this)%Z /\
        on_grid (gridSize this) (x acted) (y acted) /\
        lastActionIndex acted = action /\
        actionNames !! action = Some (lastAction acted) /\
        energy acted = energy this /\ gridSize acted = gridSize this
  | None =>
      (5 <= action)%nat /\ executeAction action this = inl TypeError
  end.
Proof.
  intros Hn [Hx Hy]. unfold executeAction.
  destruct (action_moves !! action) as [[dx dy]|] eqn:Hmove.
  - destruct (action_moves_near _ _ Hmove) as (Hdx & Hdy & name & Hname & Hnth).
    simpl in Hdx, Hdy.
    eexists. split; [reflexivity|].
    cbn [x y lastActionIndex lastAction energy gridSize set_lastAction set_xy fst snd].
    rewrite !wrap_is_mod by assumption. rewrite Hnth.
    split_and!; try reflexivity; try assumption.
    split; apply Z.mod_pos_bound, Hn.
  - split; [|reflexivity]. apply lookup_ge_None in Hmove. exact Hmove.
Qed.

Lemma applyREINFORCELearning_inversion this h this' h' :
  applyREINFORCELearning this h = Returned this' h' ->
  exists b, this' = set_brain b this.
Proof.
  assert (Hsame : exists b, this = set_brain b this).
  { exists (brain this). destruct this; reflexivity. }
  unfold applyREINFORCELearning.
  destruct (recentOutcomes this) as [|o os]; [intros [= <- _]; exact Hsame|].
  destruct (Qlt_le_dec _ _); [intros [= <- _]; exact Hsame|].
  unfold and_then, lift.
  destruct (getCellInput 0 this h) as [input h1].
  unfold of_except.
  destruct (NeuralNetwork.applyREINFORCE _ _ _ _ _) as [e|b]; [discriminate|].
  intros [= <- _]. exists b. reflexivity.
Qed.

(** The entity [update] returns, in terms of the one its first half
    leaves. *)
Lemma update_inversion w others now this h survived this' w' h' :
  update w others now this h = Returned (survived, this', w') h' ->
  exists sensed h1 action move b,
    sense w others now this h = ((sensed, w'), h1) /\
    action_moves !! action = Some move /\
    this' = set_fitness (age sensed + totalEnergyGained sensed)%Z
              (set_lastAction (nth action actionNames ""%string) action
                 (set_xy (Z.rem (x sensed + fst move + gridSize sensed) (gridSize sensed))
                         (Z.rem (y sensed + snd move + gridSize sensed) (gridSize sensed))
                         (set_brain b sensed))) /\
    survived = (if Qlt_le_dec 0 (energy sensed) then true else false).
Proof.
  intros Hrun. unfold update, and_then, lift in Hrun.
  destruct (sense w others now this h) as [[sensed w1] h1] eqn:Hsense.
  destruct (makeDecision now sensed h1) as [action h2].
  destruct (applyREINFORCELearning sensed h2) as [nudged h3| |] eqn:Hnudge;
    try discriminate.
  apply applyREINFORCELearning_inversion in Hnudge as [b ->].
  unfold of_except, executeAction in Hrun.
  destruct (action_moves !! action) as [move|] eqn:Hmove; [|discriminate].
  unfold return_ in Hrun. injection Hrun as <- <- <- _.
  exists sensed, h1, action, move, b. split_and!; try reflexivity. exact Hmove.
Qed.

Lemma addMemory_effect point action outcome now this :
  let this' := addMemory point action outcome now this in
  memoryCapacity this' = memoryCapacity this /\
  recentOutcomes this' = recentOutcomes this /\
  id this' = id this /\
  (length (memory this) <= memoryCapacity this ->
   length (memory this') <= memoryCapacity this)%nat /\
  exists m,
    mem_tick m = now /\ mem_x m = x this /\ mem_y m = y this /\
    mem_energy m = energy this /\ mem_age m = age this /\
    mem_fields m = seen point /\
    memory this' = (if (memoryCapacity this <? length (memory this ++ [m]))%nat
                    then List.tl (memory this ++ [m]) else memory this ++ [m]).
Proof.
  cbv zeta. unfold addMemory. cbv zeta.
  match goal with
  | |- context [memory this ++ [?m0]] => set (m := m0)
  end.
  cbn [memoryCapacity recentOutcomes id memory set_memory].
  split_and!; try reflexivity.
  - intros Hlen.
    destruct (Nat.ltb_spec (memoryCapacity this) (length (memory this ++ [m])))
      as [Hover|Hfits]; [|exact Hfits].
    rewrite length_app in Hover. simpl in Hover.
    destruct (memory this) as [|m0 ms]; simpl in *; [lia|].
    rewrite length_app. simpl. lia.
  - exists m. split_and!; reflexivity.
Qed.

(** The first half of [update], in figures. *)
Lemma sense_bookkeeping w others now this h :
  let fed := consumeEnergy (x this) (y this) w in
  let r := sense w others now this h in
  let sensed := fst (fst r) in
  snd (fst r) = snd fed /\
  age sensed = (age this + 1)%Z /\
  totalEnergyGained sensed = (totalEnergyGained this + fst fed)%Z /\
  energy sensed == energy this - 0.5 + inject_Z (fst fed) /\
  memoryCapacity sensed = memoryCapacity this /\
  id sensed = id this /\
  Forall (fun o => (now - fb_tick o <= 10)%Z) (recentOutcomes sensed) /\
  (length (memory this) <= memoryCapacity this ->
   length (memory sensed) <= memoryCapacity this)%nat /\
  exists m,
    mem_tick m = now /\ mem_x m = x this /\ mem_y m = y this /\
    mem_energy m = energy sensed /\ mem_age m = age sensed /\
    memory sensed = (if (memoryCapacity this <? length (memory this ++ [m]))%nat
                     then List.tl (memory this ++ [m]) else memory this ++ [m]).
Proof.
  cbv zeta. unfold sense. cbv zeta.
  change (x (decay this)) with (x this). change (y (decay this)) with (y this).
  pose proof (consumeEnergy_gain (x this) (y this) w) as Hgain.
  set (fed := consumeEnergy (x this) (y this) w) in *.
  set (e := prune now (warn now (credit (fst fed) now (decay this)))).
  assert (He : age e = (age this + 1)%Z /\
               totalEnergyGained e = (totalEnergyGained this + fst fed)%Z /\
               energy e == energy this - 0.5 + inject_Z (fst fed) /\
               memoryCapacity e = memoryCapacity this /\ id e = id this /\
               x e = x this /\ y e = y this /\ memory e = memory this /\
               Forall (fun o => (now - fb_tick o <= 10)%Z) (recentOutcomes e)).
  { assert (Hpruned : Forall (fun o => (now - fb_tick o <= 10)%Z) (recentOutcomes e)).
    { unfold e, prune. cbn [recentOutcomes set_recentOutcomes].
      apply Forall_forall. intros o Ho.
      apply list_elem_of_In, filter_In in Ho as [_ Ho].
      unfold is_recent in Ho. apply Z.leb_le, Ho. }
    split_and!; try exact Hpruned; unfold e, prune, warn, credit, decay;
      destruct (Z.ltb_spec 0 (fst fed)); simpl;
      match goal with
      | |- context [Qlt_le_dec ?a ?b] => destruct (Qlt_le_dec a b)
      end; simpl; try reflexivity; try lia;
      try (replace (fst fed) with 0%Z by lia; unfold inject_Z; lra). }
  clearbody e fed. unfold bind.
  pose proof (updateVision_keeps (snd fed) (resolve e others) e h) as Hv.
  pose proof (updateVision_own_cell (snd fed) (resolve e others) e h)
    as (point & Hfind & _).
  assert (Hv' : let seen := fst (updateVision (snd fed) (resolve e others) e h) in
                memoryCapacity seen = memoryCapacity e /\ id seen = id e /\
                memory seen = memory e /\ recentOutcomes seen = recentOutcomes e /\
                lastAction seen = lastAction e /\
                lastTotalEnergy seen = lastTotalEnergy e).
  { unfold updateVision, bind.
    destruct (for_each_rand _ _ _ h) as [points h0]. simpl. split_and!; reflexivity. }
  destruct (updateVision _ _ _ h) as [seen h1]. cbn [fst snd] in *. cbn [ret fst snd].
  destruct Hv as (_ & _ & Hen & _ & Hage & Htot & _ & Hx & Hy).
  destruct Hv' as (Hcap & Hid & Hmem & Hout & _ & _).
  destruct He as (Hage0 & Htot0 & Hen0 & Hcap0 & Hid0 & Hx0 & Hy0 & Hmem0 & Hout0).
  unfold recordExperience. rewrite Hfind.
  match goal with
  | |- context [addMemory point ?a ?o now seen] =>
      pose proof (addMemory_effect point a o now seen)
        as (Hcap1 & Hout1 & Hid1 & Hlen1 & m & Hm1 & Hm2 & Hm3 & Hm4 & Hm5 & _ & Hm6);
      set (remembered := addMemory point a o now seen) in *
  end.
  assert (Hkeep : age remembered = age seen /\
                  totalEnergyGained remembered = totalEnergyGained seen /\
                  energy remembered = energy seen).
  { unfold remembered, addMemory. simpl. split_and!; reflexivity. }
  destruct Hkeep as (Hage1 & Htot1 & Hen1). clearbody remembered.
  cbn [age totalEnergyGained energy memoryCapacity id recentOutcomes memory
       set_lastTotalEnergy].
  split_and!.
  - reflexivity.
  - congruence.
  - congruence.
  - rewrite Hen1, Hen. exact Hen0.
  - congruence.
  - congruence.
  - rewrite Hout1, Hout. exact Hout0.
  - intros Hlen. rewrite <- Hcap0, <- Hcap. apply Hlen1.
    rewrite Hmem, Hmem0, Hcap, Hcap0. exact Hlen.
  - exists m. rewrite Hm6, Hmem, Hmem0, Hcap, Hcap0.
    split_and!; try reflexivity; congruence.
Qed.

(** X10.  When [update] returns, the world it leaves is the world after
    [consumeEnergy] at the cell the entity stood on; the entity is one tick
    older, its energy is the old one less 0.5 plus what it ate (0 or 10),
    [totalEnergyGained] has grown by what it ate, [fitness] is the new age
    plus the new [totalEnergyGained], and the value returned says whether
    the energy is still positive.  Grid size and id do not change, and an
    entity on a grid of positive size stays on it. *)
Theorem update_bookkeeping w others now this h survived this' w' h' :
  update w others now this h = Returned (survived, this', w') h' ->
  let fed := consumeEnergy (x this) (y this) w in
  w' = snd fed /\
  (fst fed = 0%Z \/ fst fed = 10%Z) /\
  age this' = (age this + 1)%Z /\
  totalEnergyGained this' = (totalEnergyGained this + fst fed)%Z /\
  energy this' == energy this - 0.5 + inject_Z (fst fed) /\
  fitness this' = (age this' + totalEnergyGained this')%Z /\
  (survived = true <-> 0 < energy this') /\
  gridSize this' = gridSize this /\ id this' = id this /\
  ((0 < gridSize this)%Z -> on_grid (gridSize this) (x this) (y this) ->
   on_grid (gridSize this) (x this') (y this')).
Proof.
  intros Hrun. cbv zeta.
  destruct (update_inversion _ _ _ _ _ _ _ _ _ Hrun)
    as (sensed & h1 & action & move & b & Hsense & Hmove & -> & ->).
  pose proof (sense_bookkeeping w others now this h)
    as (Hw & Hage & Htot & Hen & _ & Hid & _).
  pose proof (sense_keeps w others now this h) as (_ & _ & Hn & Hx & Hy).
  rewrite Hsense in *. cbn [fst snd] in *. simpl.
  split_and!; try assumption.
  - unfold consumeEnergy. destruct (list_find _ _) as [[k e]|]; simpl; auto.
  - reflexivity.
  - destruct (Qlt_le_dec 0 (energy sensed)) as [Hpos|Hneg].
    + split; [intros _; exact Hpos | reflexivity].
    + split; [discriminate|]. intros Hpos. exfalso.
      apply (Qlt_not_le _ _ Hpos), Hneg.
  - intros Hpos [Hgx Hgy].
    destruct (action_moves_near _ _ Hmove) as (Hdx & Hdy & _).
    rewrite Hn, Hx, Hy. split; apply wrap_on_grid; assumption.
Qed.

(** X11.  [update] never lets the memory grow beyond [memoryCapacity]:
    when it returns, the memories are the old ones followed by one of this
    tick, taken at the cell the entity stood on, without the oldest memory
    if that makes more than [memoryCapacity]. *)
Theorem update_remembers w others now this h survived this' w' h' :
  update w others now this h = Returned (survived, this', w') h' ->
  memoryCapacity this' = memoryCapacity this /\
  (length (memory this) <= memoryCapacity this ->
   length (memory this') <= memoryCapacity this)%nat /\
  exists m,
    mem_tick m = now /\ mem_x m = x this /\ mem_y m = y this /\
    mem_energy m = energy this' /\ mem_age m = age this' /\
    memory this' = (if (memoryCapacity this <? length (memory this ++ [m]))%nat
                    then List.tl (memory this ++ [m]) else memory this ++ [m]).
Proof.
  intros Hrun.
  destruct (update_inversion _ _ _ _ _ _ _ _ _ Hrun)
    as (sensed & h1 & action & move & b & Hsense & Hmove & -> & _).
  pose proof (sense_bookkeeping w others now this h)
    as (_ & _ & _ & _ & Hcap & _ & _ & Hlen & m & Hm).
  rewrite Hsense in *. cbn [fst snd] in *. simpl.
  split_and!; [exact Hcap | exact Hlen |].
  exists m. exact Hm.
Qed.

(** X12.  When [update] returns at tick [now], no outcome kept in
    [recentOutcomes] is more than ten ticks old. *)
Theorem update_prunes w others now this h survived this' w' h' :
  update w others now this h = Returned (survived, this', w') h' ->
  Forall (fun o => (now - fb_tick o <= 10)%Z) (recentOutcomes this').
Proof.
  intros Hrun.
  destruct (update_inversion _ _ _ _ _ _ _ _ _ Hrun)
    as (sensed & h1 & action & move & b & Hsense & Hmove & -> & _).
  pose proof (sense_bookkeeping w others now this h)
    as (_ & _ & _ & _ & _ & _ & Hrecent & _).
  rewrite Hsense in *. cbn [fst snd] in *. simpl. exact Hrecent.
Qed.

End OneTick.

(** The hungry entity on the crowded world, under the coarse host. *)
Lemma hungry_update_returns :
  exists r h',
    ConsciousEntity.update (rt := Sample.coarse) Sample.crowded [None] 0
      Sample.hungry Sample.start = Returned r h'.
Proof.
  destruct (ConsciousEntity.update (rt := Sample.coarse) Sample.crowded [None] 0
              Sample.hungry Sample.start) as [r h'| e |] eqn:Hrun.
  - exists r, h'. reflexivity.
  - exfalso. vm_compute in Hrun. discriminate.
  - exfalso. vm_compute in Hrun. discriminate.
Qed.

Lemma executeAction_wraps_witness :
  (0 < ConsciousEntity.gridSize Sample.hungry)%Z /\
  on_grid (ConsciousEntity.gridSize Sample.hungry)
    (ConsciousEntity.x Sample.hungry) (ConsciousEntity.y Sample.hungry) /\
  exists acted,
    ConsciousEntity.executeAction 0 Sample.hungry = inr acted /\
    ConsciousEntity.y acted = 1%Z.
Proof.
  assert (Hn : (0 < ConsciousEntity.gridSize Sample.hungry)%Z) by (cbn; lia).
  assert (Hgrid : on_grid (ConsciousEntity.gridSize Sample.hungry)
                    (ConsciousEntity.x Sample.hungry) (ConsciousEntity.y Sample.hungry))
    by (unfold on_grid; cbn; lia).
  split; [exact Hn|]. split; [exact Hgrid|].
  pose proof (executeAction_wraps 0 Sample.hungry Hn Hgrid) as Hact.
  change (ConsciousEntity.action_moves !! 0%nat) with (Some (0, -1)%Z) in Hact.
  destruct Hact as (acted & Hrun & _ & Hy & _).
  exists acted. split; [exact Hrun|]. rewrite Hy. reflexivity.
Defined.

Lemma update_bookkeeping_witness :
  exists survived this' w' h',
    ConsciousEntity.update (rt := Sample.coarse) Sample.crowded [None] 0
      Sample.hungry Sample.start = Returned (survived, this', w') h' /\
    ConsciousEntity.age this' = 4%Z /\
    ConsciousEntity.fitness this'
    = (ConsciousEntity.age this' + ConsciousEntity.totalEnergyGained this')%Z.
Proof.
  destruct hungry_update_returns as ([[survived this'] w'] & h' & Hrun).
  exists survived, this', w', h'. split; [exact Hrun|].
  destruct (update_bookkeeping (rt := Sample.coarse) _ _ _ _ _ _ _ _ _ Hrun)
    as (_ & _ & Hage & _ & _ & Hfit & _).
  split; [exact Hage | exact Hfit].
Defined.

Lemma update_remembers_witness :
  exists survived this' w' h',
    ConsciousEntity.update (rt := Sample.coarse) Sample.crowded [None] 0
      Sample.hungry Sample.start = Returned (survived, this', w') h' /\
    ConsciousEntity.memoryCapacity this' = 50%nat.
Proof.
  destruct hungry_update_returns as ([[survived this'] w'] & h' & Hrun).
  exists survived, this', w', h'. split; [exact Hrun|].
  destruct (update_remembers (rt := Sample.coarse) _ _ _ _ _ _ _ _ _ Hrun)
    as (Hcap & _).
  exact Hcap.
Defined.

Lemma update_prunes_witness :
  exists survived this' w' h',
    ConsciousEntity.update (rt := Sample.coarse) Sample.crowded [None] 0
      Sample.hungry Sample.start = Returned (survived, this', w') h' /\
    Forall (fun o => (0 - ConsciousEntity.fb_tick o <= 10)%Z)
           (ConsciousEntity.recentOutcomes this').
Proof.
  destruct hungry_update_returns as ([[survived this'] w'] & h' & Hrun).
  exists survived, this', w', h'. split; [exact Hrun|].
  exact (update_prunes (rt := Sample.coarse) _ _ _ _ _ _ _ _ _ Hrun).
Defined.

(** ** ConsciousEntity: life force and copies *)

Section LifeForce.
Import ConsciousEntity.
Context {rt : Runtime}.
Local Open Scope Q_scope.

Lemma filter_none {A} (f : A -> bool) (l : list A) :
  Forall (fun a => f a = false) l -> List.filter f l = [].
Proof.
  induction 1 as [|a l Ha _ IH]; [reflexivity|]. simpl. rewrite Ha. exact IH.
Qed.

(** X13.  The life force an entity senses on a cell lies between 0 and 1.
    It is 0, and the clock is not read, for a cell off the grid and when
    every other entity is dead, stands on the cell of the observer itself,
    or is more than two steps away from the cell. *)
Theorem calculateLifeForce_range this px py others h :
  let r := calculateLifeForce this px py others h in
  unit_interval (fst r) /\
  ((px < 0 \/ gridSize this <= px \/ py < 0 \/ gridSize this <= py)%Z ->
   r = (0, h)) /\
  (Forall (fun e => energy e <= 0 \/ (x e = x this /\ y e = y this) \/
                    (2 < manhattan (x e) (y e) px py)%Z) others ->
   r = (0, h)).
Proof.
  cbv zeta. unfold calculateLifeForce.
  destruct ((px <? 0)%Z || (gridSize this <=? px)%Z || (py <? 0)%Z
            || (gridSize this <=? py)%Z) eqn:Hout.
  { split_and!; try reflexivity. unfold unit_interval, ret. simpl. lra. }
  split_and!.
  - destruct (List.filter _ others) as [|e0 es]; [unfold unit_interval, ret; simpl; lra|].
    unfold bind. destruct (Date_now h) as [now h1]. cbn [ret fst].
    apply clamp01_range.
  - intros Hoff. exfalso.
    apply orb_false_elim in Hout as [Hout H4].
    apply orb_false_elim in Hout as [Hout H3].
    apply orb_false_elim in Hout as [H1 H2].
    apply Z.ltb_ge in H1, H3. apply Z.leb_gt in H2, H4. lia.
  - intros Hfar. rewrite filter_none; [reflexivity|].
    eapply Forall_impl; [exact Hfar|]. intros e He. unfold is_nearby.
    destruct (Qlt_le_dec 0 (energy e)) as [Hpos|_]; [|reflexivity].
    destruct He as [Hdead | [[Hx Hy] | Hfar']].
    + exfalso. apply (Qlt_not_le _ _ Hpos), Hdead.
    + rewrite Hx, Hy, !Z.eqb_refl. reflexivity.
    + destruct (_ && _); [reflexivity|]. apply Z.leb_gt, Hfar'.
Qed.

(** X14.  With a fair random generator [clone()] returns; the copy has
    the position, grid size, energy, age, [totalEnergyGained] and fitness
    of the entity and a brain with the same layers, but it is a new entity
    otherwise: it has no vision, no memory and no recent outcomes, and its
    last action is ['unknown'] with index 4. *)
Theorem clone_copies this h :
  fair ->
  exists copy h',
    clone this h = Returned copy h' /\
    x copy = x this /\ y copy = y this /\ gridSize copy = gridSize this /\
    energy copy = energy this /\ age copy = age this /\
    totalEnergyGained copy = totalEnergyGained this /\
    fitness copy = fitness this /\
    NeuralNetwork.layers (brain copy) = NeuralNetwork.layers (brain this) /\
    vision copy = [] /\ memory copy = [] /\ recentOutcomes copy = [] /\
    lastAction copy = "unknown"%string /\ lastActionIndex copy = 4%nat.
Proof.
  intros Hfair.
  unfold clone, constructor, and_then, lift, or_random_cell, ret.
  destruct (constructor_ensures Hfair inputSize hiddenSizes outputSize h)
    as (b0 & h1 & Hb0 & _).
  rewrite Hb0. destruct (Math_random h1) as [r h2]. unfold return_ at 1.
  destruct (clone_ensures Hfair (brain this) h2) as (b & h3 & Hb & Hlayers).
  cbn [x y gridSize brain]. rewrite Hb.
  eexists _, _. split; [reflexivity|]. simpl.
  split_and!; try reflexivity. exact Hlayers.
Qed.

End LifeForce.

Lemma clone_copies_witness :
  fair (rt := Sample.steady) /\
  exists copy h',
    ConsciousEntity.clone (rt := Sample.steady) Sample.hungry Sample.start
      = Returned copy h' /\
    ConsciousEntity.energy copy = ConsciousEntity.energy Sample.hungry /\
    ConsciousEntity.memory copy = [].
Proof.
  split; [exact steady_is_fair|].
  destruct (clone_copies (rt := Sample.steady) Sample.hungry Sample.start steady_is_fair)
    as (copy & h' & Hrun & _ & _ & _ & Hen & _ & _ & _ & _ & _ & Hmem & _).
  exists copy, h'. split; [exact Hrun|]. split; [exact Hen | exact Hmem].
Defined.

(** ** NeuralNetwork: construction, mutation and copies *)

Section Networks.
Import NeuralNetwork.
Context {rt : Runtime}.
Hypothesis random_is_fair : fair.
Local Open Scope Q_scope.

(** X15.  With a fair random generator,
    [new NeuralNetwork(inputSize, hiddenSizes, outputSize)] returns a
    network with one layer per hidden size and one for the output, where
    layer [i] has [sizes[i+1]] rows of [sizes[i]] weights and [sizes[i+1]]
    biases, and with an empty generator cache. *)
Theorem constructor_architecture inputSize hiddenSizes outputSize h :
  exists net h',
    constructor inputSize hiddenSizes outputSize h = Returned net h' /\
    length (layers net) = S (length hiddenSizes) /\
    map shape_of (layers net) = shapes_for inputSize (hiddenSizes ++ [outputSize]) /\
    hasSpareGaussian net = false.
Proof.
  destruct (constructor_ensures random_is_fair inputSize hiddenSizes outputSize h)
    as (net & h' & Hrun & Hshape & Hcache & _).
  exists net, h'. split_and!; try assumption.
  rewrite <- (length_map shape_of), Hshape, shapes_for_length, length_app.
  simpl. lia.
Qed.

(** X16.  With a fair random generator, [mutate] returns a network whose
    layers have the shapes of the layers of the parent, so that the child
    has every architecture the parent has, and it leaves the weights and
    biases of the parent as they are. *)
Theorem mutate_keeps_architecture rate strength this h :
  exists child this' h',
    mutate rate strength this h = Returned (child, this') h' /\
    map shape_of (layers child) = map shape_of (layers this) /\
    (forall inputSize hiddenSizes outputSize,
       has_architecture inputSize hiddenSizes outputSize this ->
       has_architecture inputSize hiddenSizes outputSize child) /\
    layers this' = layers this.
Proof.
  destruct (mutate_ensures random_is_fair rate strength this h)
    as ([child this'] & h' & Hrun & Hshape & Hparent).
  exists child, this', h'. simpl in *. split_and!; try assumption.
  intros inputSize hiddenSizes outputSize Harch.
  unfold has_architecture in *. rewrite Hshape. exact Harch.
Qed.

Lemma Forall2_same {A} (l l' : list A) : Forall2 (fun a b => b = a) l l' -> l' = l.
Proof. induction 1 as [|a b l l' Hab _ IH]; [reflexivity|]. congruence. Qed.

Lemma mutate_value_idle rate strength w this :
  rate <= 0 ->
  ensures (mutate_value rate strength w this) (fun r => fst r = w /\ snd r = this).
Proof.
  intros Hrate. unfold mutate_value.
  eapply ensures_and_then.
  { apply (ensures_lift Math_random (fun r => 0 <= r)).
    intros h. simpl. apply random_range. }
  intros r Hr. cbv beta in Hr. destruct (Qlt_le_dec r rate) as [Hlt|_]; [lra|].
  apply ensures_return. split; reflexivity.
Qed.

Lemma mutate_values_idle rate strength (values : list Q) this :
  rate <= 0 ->
  ensures (map_run (mutate_value rate strength) values this)
    (fun r => fst r = values /\ snd r = this).
Proof.
  intros Hrate. eapply ensures_weaken.
  - apply (map_run_ensures _ (fun this' => this' = this) (fun (w w' : Q) => w' = w));
      [reflexivity|].
    intros w this1 ->. apply mutate_value_idle, Hrate.
  - intros [values' this1] [Hvalues H1]. simpl in *.
    split; [apply Forall2_same, Hvalues | exact H1].
Qed.

(** X17.  With a mutation rate of 0 or less no weight is ever chosen for
    mutation: [mutate] returns a network with exactly the layers of the
    parent, and does not use the generator cache of the parent. *)
Theorem mutate_without_rate rate strength this h :
  rate <= 0 ->
  exists child h',
    mutate rate strength this h = Returned (child, this) h' /\
    layers child = layers this.
Proof.
  intros Hrate.
  assert (Hrun : ensures (mutate rate strength this)
                   (fun r => layers (fst r) = layers this /\ snd r = this)).
  { unfold mutate.
    eapply ensures_and_then; [apply (constructor_ensures random_is_fair)|].
    intros newNetwork _.
    eapply ensures_and_then.
    { apply (map_run_ensures _ (fun this' => this' = this)
               (fun (layer layer' : Layer) => layer' = layer)); [reflexivity|].
      intros layer this1 ->. unfold mutate_layer.
      apply (ensures_and_then _ _ (fun r => fst r = weights layer /\ snd r = this)).
      { eapply ensures_weaken.
        - apply (map_run_ensures _ (fun this' => this' = this)
                   (fun (row row' : list Q) => row' = row)); [reflexivity|].
          intros row this1 ->. apply mutate_values_idle, Hrate.
        - intros [w this1] [Hw H1]. simpl in *.
          exact (conj (Forall2_same _ _ Hw) H1). }
      intros [w this1] [Hw H1]. simpl in *. subst.
      eapply ensures_and_then; [apply mutate_values_idle, Hrate|].
      intros [b this1] [Hb H1]. simpl in *. subst.
      apply ensures_return. simpl. split; [|reflexivity].
      destruct layer; reflexivity. }
    intros [ls this1] [Hls H1]. simpl in *.
    apply ensures_return. simpl. split; [apply Forall2_same, Hls | exact H1]. }
  destruct (Hrun h) as ([child this'] & h' & Hmut & Hlayers & Hthis).
  simpl in *. subst this'. exists child, h'. split; assumption.
Qed.

(** X18.  With a fair random generator [clone()] returns a network with
    the layers of the original and an empty generator cache; the copy
    computes the same outputs and is as similar to any network as the
    original is. *)
Theorem clone_same_function this h :
  exists copy h',
    clone this h = Returned copy h' /\
    layers copy = layers this /\
    (forall input, forward copy input = forward this input) /\
    (forall other, calculateSimilarity copy other = calculateSimilarity this other).
Proof.
  destruct (clone_ensures random_is_fair this h) as (copy & h' & Hrun & Hlayers).
  exists copy, h'. split_and!; try assumption.
  - intros input. unfold forward. rewrite Hlayers. reflexivity.
  - intros other. unfold calculateSimilarity. rewrite Hlayers. reflexivity.
Qed.

End Networks.

Lemma constructor_architecture_witness :
  fair (rt := Sample.steady) /\
  exists net h',
    NeuralNetwork.constructor (rt := Sample.steady) 3 [2%nat] 1 Sample.start
      = Returned net h' /\
    length (NeuralNetwork.layers net) = 2%nat.
Proof.
  split; [exact steady_is_fair|].
  destruct (constructor_architecture (rt := Sample.steady) steady_is_fair 3 [2%nat] 1
              Sample.start) as (net & h' & Hrun & Hlen & _).
  exists net, h'. split; [exact Hrun | exact Hlen].
Defined.

Lemma mutate_keeps_architecture_witness :
  fair (rt := Sample.steady) /\
  exists child this' h',
    NeuralNetwork.mutate (rt := Sample.steady) (1 # 10) (1 # 10) Sample.small_brain
      Sample.start = Returned (child, this') h' /\
    map shape_of (NeuralNetwork.layers child)
    = map shape_of (NeuralNetwork.layers Sample.small_brain).
Proof.
  split; [exact steady_is_fair|].
  destruct (mutate_keeps_architecture (rt := Sample.steady) steady_is_fair
              (1 # 10) (1 # 10) Sample.small_brain Sample.start)
    as (child & this' & h' & Hrun & Hshape & _).
  exists child, this', h'. split; [exact Hrun | exact Hshape].
Defined.

Lemma mutate_without_rate_witness :
  fair (rt := Sample.steady) /\ (0 <= 0)%Q /\
  exists child h',
    NeuralNetwork.mutate (rt := Sample.steady) 0 (1 # 10) Sample.small_brain
      Sample.start = Returned (child, Sample.small_brain) h' /\
    NeuralNetwork.layers child = NeuralNetwork.layers Sample.small_brain.
Proof.
  split; [exact steady_is_fair|]. split; [apply Qle_refl|].
  exact (mutate_without_rate (rt := Sample.steady) steady_is_fair 0 (1 # 10)
           Sample.small_brain Sample.start (Qle_refl 0)).
Defined.

Lemma clone_same_function_witness :
  fair (rt := Sample.steady) /\
  exists copy h',
    NeuralNetwork.clone (rt := Sample.steady) Sample.small_brain Sample.start
      = Returned copy h' /\
    NeuralNetwork.layers copy = NeuralNetwork.layers Sample.small_brain.
Proof.
  split; [exact steady_is_fair|].
  destruct (clone_same_function (rt := Sample.steady) steady_is_fair
              Sample.small_brain Sample.start) as (copy & h' & Hrun & Hlayers & _).
  exists copy, h'. split; [exact Hrun | exact Hlayers].
Defined.

(** ** NeuralNetwork: similarity *)

Section Similarity.
Import NeuralNetwork.
Local Open Scope Q_scope.

Lemma for_each_except_returned {A S} (I : S -> Prop) (l : list A)
    (body : A -> S -> Except S) s s' :
  I s -> (forall a s s', I s -> body a s = inr s' -> I s') ->
  for_each_except l body s = inr s' -> I s'.
Proof.
  intros Hs Hbody. revert s Hs.
  induction l as [|a l IH]; intros s Hs; simpl.
  - intros [= <-]. exact Hs.
  - destruct (body a s) as [e|s1] eqn:Hrun; [discriminate|].
    apply IH. eapply Hbody; eassumption.
Qed.

Lemma compare_values_nonneg mine theirs acc :
  total_nonneg acc -> total_nonneg (compare_values mine theirs acc).
Proof.
  intros Hacc. unfold compare_values.
  apply for_each_invariant; [exact Hacc|].
  intros [k a] [total n] _ Hs. unfold total_nonneg, add_difference in *.
  cbn [fst snd] in *.
  destruct total as [t|]; [|discriminate].
  destruct (theirs !! k) as [b|]; [|discriminate].
  intros total Heq. replace total with (t + Qabs (a - b)) by congruence.
  specialize (Hs t eq_refl). pose proof (Qabs_nonneg (a - b)). lra.
Qed.

Lemma compare_rows_nonneg mine theirs acc acc' :
  total_nonneg acc -> compare_rows mine theirs acc = inr acc' -> total_nonneg acc'.
Proof.
  intros Hacc. unfold compare_rows.
  apply for_each_except_returned; [exact Hacc|].
  intros [j row] s s' Hs. destruct row as [|v row]; [intros [= <-]; exact Hs|].
  destruct (theirs !! j) as [otherRow|]; [|discriminate].
  intros [= <-]. apply compare_values_nonneg, Hs.
Qed.

(** X19.  [calculateSimilarity] answers 0 for networks with different
    numbers of layers, and whenever it answers with a number, the number
    lies between 0 and 1. *)
Theorem calculateSimilarity_range this other :
  (length (layers this) <> length (layers other) ->
   calculateSimilarity this other = inr (Some 0)) /\
  (forall v, calculateSimilarity this other = inr (Some v) -> 0 <= v /\ v <= 1).
Proof.
  unfold calculateSimilarity. split.
  - intros Hne. apply Nat.eqb_neq in Hne. rewrite Hne. reflexivity.
  - intros v. destruct (negb _); [intros [= <-]; lra|].
    destruct (for_each_except _ _ _) as [e|[totalDifference totalParameters]] eqn:Hloop;
      [discriminate|].
    assert (Hnonneg : total_nonneg (totalDifference, totalParameters)).
    { revert Hloop. apply for_each_except_returned.
      - intros total [= <-]. lra.
      - intros [thisLayer otherLayer] s s' Hs.
        destruct (compare_rows _ _ s) as [e|s1] eqn:Hrows; [discriminate|].
        intros [= <-]. apply compare_values_nonneg.
        eapply compare_rows_nonneg; eassumption. }
    destruct totalDifference as [total|]; [|discriminate].
    destruct totalParameters as [|n]; [discriminate|].
    intros [= <-]. specialize (Hnonneg total eq_refl).
    assert (Hcount : 0 < inject_Z (Z.of_nat (S n))).
    { change 0 with (inject_Z 0). rewrite <- Zlt_Qlt. lia. }
    assert (Haverage : 0 <= total / inject_Z (Z.of_nat (S n))).
    { apply Qle_shift_div_l; [exact Hcount | lra]. }
    unfold Math_max. destruct (Qlt_le_dec _ _); lra.
Qed.

Lemma compare_values_same (values : list Q) :
  forall (f : nat -> nat) (theirs : list Q) acc,
    (forall k a, values !! k = Some a -> theirs !! f k = Some a) ->
    no_difference acc
      (for_each (imap (fun k a => (f k, a)) values)
         (fun '(k, a) acc => add_difference a (theirs !! k) acc) acc)
      (length values).
Proof.
  induction values as [|a values IH]; intros f theirs acc Hsame.
  - split; [simpl; lia|]. intros total Htotal. exists total. split; [exact Htotal | reflexivity].
  - simpl. unfold for_each in *. simpl.
    specialize (IH (fun k => f (S k)) theirs
                  (add_difference a (theirs !! f 0%nat) acc)
                  (fun k b Hk => Hsame (S k) b Hk)) as [Hcount Htotal].
    split.
    + unfold compose. rewrite Hcount. simpl. lia.
    + intros total Hacc. unfold compose.
      destruct (Htotal (total + Qabs (a - a))) as (total' & Hfst & Heq).
      { unfold add_difference. rewrite Hacc, (Hsame 0%nat a eq_refl). reflexivity. }
      exists total'. split; [exact Hfst|]. rewrite Heq.
      assert (Hzero : Qabs (a - a) == 0).
      { rewrite (Qabs_wd (a - a) 0) by ring. reflexivity. }
      rewrite Hzero. ring.
Qed.

Lemma compare_rows_same (rows : list (list Q)) :
  forall (f : nat -> nat) (theirs : list (list Q)) acc,
    (forall j row, rows !! j = Some row -> theirs !! f j = Some row) ->
    exists acc',
      for_each_except (imap (fun j row => (f j, row)) rows)
        (fun '(j, row) acc =>
           match row with
           | [] => inr acc
           | _ :: _ =>
               match theirs !! j with
               | None => inl TypeError
               | Some otherRow => inr (compare_values row otherRow acc)
               end
           end) acc = inr acc' /\
      no_difference acc acc' (list_sum (map length rows)).
Proof.
  induction rows as [|row rows IH]; intros f theirs acc Hsame.
  - exists acc. split; [reflexivity|]. split; [simpl; lia|].
    intros total Htotal. exists total. split; [exact Htotal | reflexivity].
  - cbn [imap for_each_except].
    match goal with
    | |- context [match ?m with inl e => inl e | inr s' => _ end] => set (first := m)
    end.
    assert (Hrow : exists acc1, first = inr acc1 /\ no_difference acc acc1 (length row)).
    { unfold first. destruct row as [|v row0] eqn:Hv.
      - exists acc. split; [reflexivity|]. split; [simpl; lia|].
        intros total Htotal. exists total. split; [exact Htotal | reflexivity].
      - rewrite (Hsame 0%nat (v :: row0) eq_refl). eexists. split; [reflexivity|].
        apply (compare_values_same (v :: row0) (fun k => k)). auto. }
    clearbody first.
    destruct Hrow as (acc1 & -> & Hcount1 & Htotal1).
    destruct (IH (fun j => f (S j)) theirs acc1 (fun j r Hj => Hsame (S j) r Hj))
      as (acc' & Hrun & Hcount & Htotal).
    exists acc'. split; [exact Hrun|]. split; [unfold list_sum in *; cbn [map fold_right]; lia|].
    intros total Hacc.
    destruct (Htotal1 total Hacc) as (total1 & Hfst1 & Heq1).
    destruct (Htotal total1 Hfst1) as (total' & Hfst & Heq).
    exists total'. split; [exact Hfst|]. rewrite Heq. exact Heq1.
Qed.

(** X20.  A network compared with itself has similarity 1, unless it has
    no weight and no bias at all, in which case the average is 0/0 and
    [calculateSimilarity] answers not-a-number. *)
Theorem calculateSimilarity_self this :
  match parameter_count this with
  | O => calculateSimilarity this this = inr None
  | S _ => exists v, calculateSimilarity this this = inr (Some v) /\ v == 1
  end.
Proof.
  unfold calculateSimilarity, parameter_count.
  rewrite Nat.eqb_refl. simpl negb. cbv iota.
  assert (Hloop : forall ls acc, exists acc',
             for_each_except (combine ls ls)
               (fun '(thisLayer, otherLayer) acc =>
                  match compare_rows (weights thisLayer) (weights otherLayer) acc with
                  | inl e => inl e
                  | inr acc =>
                      inr (compare_values (biases thisLayer) (biases otherLayer) acc)
                  end) acc = inr acc' /\
             no_difference acc acc'
               (list_sum (map (fun l => (list_sum (map length (weights l))
                                         + length (biases l))%nat) ls))).
  { induction ls as [|l ls IH]; intros acc.
    - exists acc. split; [reflexivity|]. split; [simpl; lia|].
      intros total Htotal. exists total. split; [exact Htotal | reflexivity].
    - simpl.
      destruct (compare_rows_same (weights l) (fun j => j) (weights l) acc)
        as (acc1 & Hrows & Hcount1 & Htotal1); [auto|].
      unfold compare_rows. rewrite Hrows.
      pose proof (compare_values_same (biases l) (fun k => k) (biases l) acc1)
        as [Hcount2 Htotal2]; [auto|].
      fold (compare_values (biases l) (biases l) acc1) in Hcount2, Htotal2.
      destruct (IH (compare_values (biases l) (biases l) acc1))
        as (acc' & Hrun & Hcount & Htotal).
      exists acc'. split; [exact Hrun|]. split; [unfold list_sum in *; cbn [map fold_right]; lia|].
      intros total Hacc.
      destruct (Htotal1 total Hacc) as (total1 & Hfst1 & Heq1).
      destruct (Htotal2 total1 Hfst1) as (total2 & Hfst2 & Heq2).
      destruct (Htotal total2 Hfst2) as (total' & Hfst & Heq).
      exists total'. split; [exact Hfst|]. rewrite Heq, Heq2. exact Heq1. }
  destruct (Hloop (layers this) (Some 0, 0%nat)) as ([total' count] & -> & Hcount & Htotal).
  simpl in Hcount. destruct (Htotal 0 eq_refl) as (total & Hfst & Hzero).
  simpl in Hfst. subst total' count.
  destruct (list_sum _) as [|n]; [reflexivity|].
  eexists. split; [reflexivity|].
  assert (Haverage : total / inject_Z (Z.of_nat (S n)) == 0).
  { rewrite Hzero. unfold Qdiv. ring. }
  unfold Math_max. destruct (Qlt_le_dec _ _) as [_|Hle]; [rewrite Haverage; ring|].
  exfalso. rewrite Haverage in Hle. lra.
Qed.

End Similarity.

(** ** NeuralNetwork: learning, inputs, the generator and the architecture *)

Section NetworkEdges.
Import NeuralNetwork.
Context {rt : Runtime}.
Local Open Scope Q_scope.

(** X21.  [applyREINFORCE] does nothing for a reward below 0.01 in
    absolute value.  Otherwise it throws a [TypeError] when the output
    layer has no row for the action, and else changes the output layer
    only, and there only the row and the bias of the action: every weight
    of the row moves by [learningRate * reward * input[i]] and the bias by
    [learningRate * reward]. *)
Theorem applyREINFORCE_frame input actionIndex reward learningRate this :
  (Qabs reward < 0.01 ->
   applyREINFORCE input actionIndex reward learningRate this = inr this) /\
  (0.01 <= Qabs reward ->
   forall front outputLayer,
     layers this = front ++ [outputLayer] ->
     match weights outputLayer !! actionIndex with
     | None =>
         applyREINFORCE input actionIndex reward learningRate this = inl TypeError
     | Some row =>
         exists outputLayer' row',
           applyREINFORCE input actionIndex reward learningRate this
           = inr (set_layers (front ++ [outputLayer']) this) /\
           (forall j, j <> actionIndex ->
              weights outputLayer' !! j = weights outputLayer !! j /\
              biases outputLayer' !! j = biases outputLayer !! j) /\
           weights outputLayer' !! actionIndex = Some row' /\
           length row' = length row /\
           (forall i v a, row !! i = Some v -> input !! i = Some a ->
              row' !! i = Some (v + learningRate * reward * a)) /\
           (forall b, biases outputLayer !! actionIndex = Some b ->
              biases outputLayer' !! actionIndex = Some (b + learningRate * reward))
     end).
Proof.
  unfold applyREINFORCE. split.
  - intros Hsmall. destruct (Qlt_le_dec _ _) as [_|Hbig]; [reflexivity|].
    exfalso. apply (Qlt_not_le _ _ Hsmall), Hbig.
  - intros Hbig front outputLayer Hlayers.
    destruct (Qlt_le_dec _ _) as [Hsmall|_];
      [exfalso; apply (Qlt_not_le _ _ Hsmall), Hbig|].
    rewrite Hlayers, last_snoc.
    destruct (weights outputLayer !! actionIndex) as [row|] eqn:Hrow; [|reflexivity].
    eexists _, (nudged_row learningRate reward input row).
    split.
    { rewrite length_app. simpl.
      replace (Nat.pred (length front + 1)) with (length front + 0)%nat by lia.
      rewrite insert_app_r. simpl. reflexivity. }
    cbn [weights biases].
    pose proof (lookup_lt_Some _ _ _ Hrow) as Hidx.
    split_and!.
    + intros j Hj. split.
      * apply list_lookup_insert_ne. congruence.
      * apply list_lookup_alter_ne. congruence.
    + apply list_lookup_insert_eq, Hidx.
    + unfold nudged_row. apply length_imap.
    + intros i v a Hv Ha. unfold nudged_row.
      rewrite list_lookup_imap, Hv. simpl.
      rewrite (nth_lookup_Some _ _ _ _ Ha). reflexivity.
    + intros b Hb. rewrite list_lookup_alter_eq, Hb. reflexivity.
Qed.

Lemma weighted_sum_NaN row activation : weighted_sum NaN row activation = NaN.
Proof.
  revert row. induction activation as [|a activation IH]; intros row; [reflexivity|].
  destruct row as [|w row]; cbn [weighted_sum]; rewrite Number_add_NaN_l; apply IH.
Qed.

Lemma weighted_sum_short sum row activation :
  (length row < length activation)%nat -> weighted_sum sum row activation = NaN.
Proof.
  revert sum row. induction activation as [|a activation IH]; intros sum row Hlen.
  - cbn [length] in Hlen. lia.
  - destruct row as [|w row]; cbn [weighted_sum].
    + rewrite Number_add_NaN_r. apply weighted_sum_NaN.
    + apply IH. cbn [length] in Hlen. lia.
Qed.

Lemma weighted_sum_poisoned sum row activation :
  weighted_sum sum row (NaN :: activation) = NaN.
Proof.
  destruct row as [|w row]; cbn [weighted_sum];
    rewrite ?Number_mul_NaN_r, Number_add_NaN_r; apply weighted_sum_NaN.
Qed.

Lemma neurons_out_poisoned is_output rows bs activation :
  neurons_out is_output rows bs (NaN :: activation) = replicate (length rows) NaN.
Proof.
  revert bs. induction rows as [|row rows IH]; intros bs; [reflexivity|].
  cbn [neurons_out length replicate]. rewrite weighted_sum_poisoned, IH.
  destruct is_output; reflexivity.
Qed.

Lemma maximum_poisoned arr : maximum (NaN :: arr) = NaN.
Proof.
  unfold maximum, for_each. cbn [fold_left Number_max].
  induction arr as [|a arr IH]; [reflexivity|].
  cbn [fold_left]. rewrite Number_max_NaN_l. exact IH.
Qed.

Lemma sum_numbers_poisoned l : sum_numbers (NaN :: l) = NaN.
Proof.
  unfold sum_numbers, for_each. cbn [fold_left Number_add].
  induction l as [|a l IH]; [reflexivity|].
  cbn [fold_left]. rewrite Number_add_NaN_l. exact IH.
Qed.

(** One not-a-number among the logits, here the first, and the softmax
    holds nothing else. *)
Lemma softmax_poisoned arr : softmax (NaN :: arr) = replicate (S (length arr)) NaN.
Proof.
  unfold softmax. rewrite maximum_poisoned.
  assert (Hexps : forall l : list Number,
            map (fun x => Number_exp (Number_sub x NaN)) l
            = replicate (length l) NaN).
  { induction l as [|a l IH]; [reflexivity|].
    cbn [map length replicate]. rewrite Number_sub_NaN_r, IH. reflexivity. }
  rewrite Hexps. cbn [length replicate]. rewrite sum_numbers_poisoned.
  cbn [map Number_div]. f_equal.
  induction (length arr) as [|n IH]; [reflexivity|].
  cbn [replicate map Number_div]. rewrite IH. reflexivity.
Qed.

Lemma forward_layers_poisoned ls activation :
  Forall (fun l => weights l <> []) ls ->
  exists rest, forward_layers ls (NaN :: activation) = NaN :: rest.
Proof.
  intros Hls. revert activation.
  induction Hls as [|l ls Hl _ IH]; intros activation.
  - exists activation. reflexivity.
  - cbn [forward_layers]. rewrite neurons_out_poisoned.
    destruct (weights l) as [|row rows]; [contradiction|].
    cbn [length replicate]. apply IH.
Qed.

(** Behind a layer without neurons nothing of the input is left. *)
Lemma forward_layers_forgets ls activation activation' :
  Exists (fun l => weights l = []) ls ->
  forward_layers ls activation = forward_layers ls activation'.
Proof.
  intros Hls. revert activation activation'.
  induction Hls as [l ls Hl | l ls _ IH]; intros activation activation';
    cbn [forward_layers].
  - rewrite Hl. reflexivity.
  - apply IH.
Qed.

(** X22.  [forward] does not check the length of its input.  When the
    input is longer than the first row of weights of the first layer, the
    sum of the first neuron reaches a weight that does not exist and is
    not-a-number; if every later layer has a neuron, every output is
    not-a-number.  A later layer without a neuron, on the other hand,
    hands on an empty activation, and the outputs are those of any other
    input. *)
Theorem forward_long_input this input first rest row rows :
  layers this = first :: rest ->
  weights first = row :: rows ->
  (length row < length input)%nat ->
  (Forall (fun l => weights l <> []) rest ->
   exists n, forward this input = replicate (S n) NaN) /\
  (Exists (fun l => weights l = []) rest ->
   forall input', forward this input' = forward this input).
Proof.
  intros Hlayers Hweights Hlen. unfold forward. rewrite Hlayers. split.
  - intros Hrest. cbn [forward_layers]. rewrite Hweights. cbn [neurons_out].
    rewrite (weighted_sum_short _ row (map Finite input))
      by (rewrite length_map; exact Hlen).
    destruct (forward_layers_poisoned rest
                (neurons_out (match rest with [] => true | _ => false end) rows
                   (List.tl (biases first)) (map Finite input)) Hrest)
      as [outs Houts].
    replace (if match rest with [] => true | _ => false end
             then NaN else Number_max (Finite 0) NaN) with NaN
      by (destruct rest; reflexivity).
    rewrite Houts. exists (length outs). apply softmax_poisoned.
  - intros Hrest input'. f_equal.
    apply forward_layers_forgets. right. exact Hrest.
Qed.

(** X23.  The Box-Muller generator hands out its numbers in pairs: a call
    on a network without a spare value draws random numbers and keeps a
    spare value, and the next call returns that value without drawing any
    random number and empties the cache again.  The layers are not
    touched. *)
Theorem gaussianRandom_pairs this h z0 this1 h1 :
  hasSpareGaussian this = false ->
  gaussianRandom this h = Returned (z0, this1) h1 ->
  hasSpareGaussian this1 = true /\
  (randoms_drawn h + 2 <= randoms_drawn h1)%nat /\
  exists this2,
    gaussianRandom this1 h1 = Returned (spareGaussian this1, this2) h1 /\
    hasSpareGaussian this2 = false /\
    layers this2 = layers this.
Proof.
  intros Hcache. unfold gaussianRandom at 1. rewrite Hcache.
  unfold and_then.
  assert (Hdraw : forall fuel h0 u h',
            draw_nonzero fuel h0 = Returned u h' ->
            (randoms_drawn h0 + 1 <= randoms_drawn h')%nat).
  { induction fuel as [|fuel IH]; intros h0 u h'; simpl; [discriminate|].
    unfold and_then, lift, Math_random.
    destruct (Qeq_bool _ 0).
    - intros Hrest. apply IH in Hrest. simpl in Hrest. lia.
    - intros [= _ <-]. simpl. lia. }
  destruct (draw_nonzero spin_limit h) as [u hu| |] eqn:Hu; try discriminate.
  destruct (draw_nonzero spin_limit hu) as [v hv| |] eqn:Hv; try discriminate.
  intros [= _ <- <-].
  apply Hdraw in Hu, Hv.
  split; [reflexivity|]. split; [lia|].
  eexists. unfold gaussianRandom. cbn [hasSpareGaussian set_cache].
  split; [reflexivity|]. split; reflexivity.
Qed.

Lemma architecture_loop_spec (ls : list Layer) :
  forall acc,
    (Exists (fun l => weights l = []) ls ->
     architecture_loop ls acc = inl TypeError) /\
    (Forall (fun l => weights l <> []) ls ->
     exists arch,
       architecture_loop ls acc = inr arch /\
       arch_layers arch = arch_layers acc /\
       structure arch = structure acc ++ map layer_record ls /\
       totalParameters arch
       = (totalParameters acc + list_sum (map parameters (map layer_record ls)))%nat).
Proof.
  induction ls as [|l ls IH]; intros acc.
  - split.
    + intros Hex. inversion Hex.
    + intros _. exists acc. simpl. rewrite app_nil_r. split_and!; try reflexivity. lia.
  - simpl. unfold layer_info.
    destruct (weights l) as [|row0 rows] eqn:Hweights.
    + split; [reflexivity|]. intros Hall. apply Forall_inv in Hall. contradiction.
    + match goal with
      | |- context [architecture_loop ls ?acc1] => specialize (IH acc1) as [IHthrow IHrun]
      end.
      assert (Hrecord : layer_record l
                        = {| neurons := length (row0 :: rows); inputs := length row0;
                             info_weights := length (row0 :: rows) * length row0;
                             info_biases := length (biases l);
                             parameters := length (row0 :: rows) * length row0
                                           + length (biases l) |}).
      { unfold layer_record. rewrite Hweights. reflexivity. }
      split.
      * intros Hex. apply Exists_cons in Hex as [Hl|Hex]; [congruence|].
        apply IHthrow, Hex.
      * intros Hall. apply Forall_cons in Hall as [_ Hall].
        destruct (IHrun Hall) as (arch & Hrun & Hn & Hstructure & Htotal).
        exists arch. cbn [arch_layers structure totalParameters map] in *.
        rewrite Hrecord. split_and!; [exact Hrun | exact Hn | |].
        -- rewrite Hstructure, <- app_assoc. reflexivity.
        -- rewrite Htotal. unfold list_sum. cbn [fold_right parameters]. lia.
Qed.

(** X24.  [getArchitecture] throws a [TypeError] when some layer has no
    neuron, and so does [serialize].  Otherwise it returns the number of
    layers, one record per layer with its number of neurons, the length
    of its first row as number of inputs, their product as number of
    weights and its number of biases, and the sum of the parameters of the
    records as [totalParameters]. *)
Theorem getArchitecture_records this h :
  (Exists (fun l => weights l = []) (layers this) ->
   getArchitecture this = inl TypeError /\ serialize this h = Thrown TypeError) /\
  (Forall (fun l => weights l <> []) (layers this) ->
   exists arch,
     getArchitecture this = inr arch /\
     arch_layers arch = length (layers this) /\
     structure arch = map layer_record (layers this) /\
     totalParameters arch = list_sum (map parameters (structure arch))).
Proof.
  unfold getArchitecture.
  match goal with
  | |- context [architecture_loop (layers this) ?acc0] =>
      destruct (architecture_loop_spec (layers this) acc0) as [Hthrow Hrun]
  end.
  split.
  - intros Hex. specialize (Hthrow Hex). split; [exact Hthrow|].
    unfold serialize, getArchitecture, and_then, of_except. rewrite Hthrow. reflexivity.
  - intros Hall. destruct (Hrun Hall) as (arch & Harch & Hn & Hstructure & Htotal).
    exists arch. simpl in *. split_and!; try assumption.
    rewrite Hstructure. exact Htotal.
Qed.

End NetworkEdges.

Lemma forward_long_input_witness :
  NeuralNetwork.layers Sample.small_brain
  = Sample.wide_layer :: [ {| NeuralNetwork.weights := [[1 # 2; -1 # 3]]%Q;
                              NeuralNetwork.biases := [1 # 4]%Q |} ] /\
  NeuralNetwork.weights Sample.wide_layer = [1; 2; 3]%Q :: [[4; 5; 6]%Q] /\
  (length [1; 2; 3]%Q < length [1; 1; 1; 1]%Q)%nat /\
  exists n,
    NeuralNetwork.forward (rt := Sample.steady) Sample.small_brain [1; 1; 1; 1]%Q
    = replicate (S n) NaN.
Proof.
  split; [reflexivity|]. split; [reflexivity|]. split; [simpl; lia|].
  apply (forward_long_input (rt := Sample.steady) Sample.small_brain [1; 1; 1; 1]%Q
           Sample.wide_layer _ [1; 2; 3]%Q [[4; 5; 6]%Q] eq_refl eq_refl).
  - simpl. lia.
  - constructor; [discriminate | constructor].
Defined.

Lemma gaussianRandom_pairs_witness :
  NeuralNetwork.hasSpareGaussian Sample.flat_brain = false /\
  exists z0 this1 h1,
    NeuralNetwork.gaussianRandom (rt := Sample.steady) Sample.flat_brain Sample.start
      = Returned (z0, this1) h1 /\
    NeuralNetwork.hasSpareGaussian this1 = true.
Proof.
  split; [reflexivity|].
  destruct (NeuralNetwork.gaussianRandom (rt := Sample.steady) Sample.flat_brain
              Sample.start) as [[z0 this1] h1| e |] eqn:Hrun.
  - exists z0, this1, h1. split; [reflexivity|].
    exact (proj1 (gaussianRandom_pairs (rt := Sample.steady) Sample.flat_brain
                    Sample.start z0 this1 h1 eq_refl Hrun)).
  - exfalso. vm_compute in Hrun. discriminate.
  - exfalso. vm_compute in Hrun. discriminate.
Defined.

(** ** PopulationManager: counters and records *)

Section PopulationCounters.
Import ConsciousEntity PopulationManager.
Context {rt : Runtime}.

Lemma entity_clone_fitness this h copy h' :
  clone this h = Returned copy h' -> fitness copy = fitness this.
Proof.
  unfold clone, and_then, return_.
  destruct (constructor _ _ None _ h) as [copy0 h1| |]; try discriminate.
  destruct (NeuralNetwork.clone _ h1) as [b h2| |]; try discriminate.
  intros [= <- _]. reflexivity.
Qed.

Lemma counters_advance_refl p : counters_advance p p.
Proof. unfold counters_advance. split_and!; try reflexivity; lia. Qed.

Lemma counters_advance_trans p1 p2 p3 :
  counters_advance p1 p2 -> counters_advance p2 p3 -> counters_advance p1 p3.
Proof.
  unfold counters_advance.
  intros (? & ? & ? & ? & ? & ? & ? & ?) (? & ? & ? & ? & ? & ? & ? & ?).
  split_and!; try congruence; lia.
Qed.

(** What [handleEntityDeath] does to the counters and the records when it
    returns. *)
Lemma handleEntityDeath_counters i p h p' h' :
  handleEntityDeath i p h = Returned p' h' ->
  generation p' = (generation p + 1)%Z /\
  totalDeaths p' = (totalDeaths p + 1)%Z /\
  counters_advance p p' /\
  (snapshot_consistent p -> snapshot_consistent p') /\
  exists deadEntity,
    entities p !! i = Some deadEntity /\
    bestFitness p' = Z.max (bestFitness p) (fitness deadEntity).
Proof.
  unfold handleEntityDeath.
  destruct (entities p !! i) as [deadEntity|]; [|discriminate].
  cbv zeta. unfold and_then at 1.
  set (p0 := set_totalDeaths (totalDeaths p + 1) p).
  assert (Hfirst : forall p1 h1,
    (if (bestFitness p0 <? fitness deadEntity)%Z
     then and_then (clone deadEntity)
            (fun copy => return_ (set_best (fitness deadEntity) copy p0))
     else return_ p0) h = Returned p1 h1 ->
    generation p1 = generation p /\
    totalDeaths p1 = (totalDeaths p + 1)%Z /\
    bestFitness p1 = Z.max (bestFitness p) (fitness deadEntity) /\
    populationSize p1 = populationSize p /\ pop_gridSize p1 = pop_gridSize p /\
    mutationRate p1 = mutationRate p /\ mutationStrength p1 = mutationStrength p /\
    generationStats p1 = generationStats p /\
    (snapshot_consistent p -> snapshot_consistent p1)).
  { intros p1 h1. change (bestFitness p0) with (bestFitness p).
    destruct (Z.ltb_spec (bestFitness p) (fitness deadEntity)) as [Hbetter|Hnot].
    - unfold and_then, return_.
      destruct (clone deadEntity h) as [copy h2| |] eqn:Hclone; try discriminate.
      apply entity_clone_fitness in Hclone.
      intros [= <- _]. simpl. split_and!; try reflexivity; [lia|].
      intros _. unfold snapshot_consistent. simpl. exact Hclone.
    - intros [= <- _]. simpl. split_and!; try reflexivity; [lia|].
      intros Hp. exact Hp. }
  destruct (_ h) as [p1 h1| |] eqn:Hrun; try discriminate.
  destruct (Hfirst p1 h1 eq_refl)
    as (Hgen & Hdeaths & Hbest & Hsize & Hgrid & Hrate & Hstrength & Hstats & Hsnap).
  clear Hfirst Hrun. clearbody p0.
  unfold and_then, return_.
  assert (Hend : forall p2 : Population,
            generation p2 = (generation p1 + 1)%Z ->
            totalDeaths p2 = totalDeaths p1 ->
            bestFitness p2 = bestFitness p1 ->
            allTimeBest p2 = allTimeBest p1 ->
            populationSize p2 = populationSize p1 ->
            pop_gridSize p2 = pop_gridSize p1 ->
            mutationRate p2 = mutationRate p1 ->
            mutationStrength p2 = mutationStrength p1 ->
            generationStats p2 = generationStats p1 ->
            generation p2 = (generation p + 1)%Z /\
            totalDeaths p2 = (totalDeaths p + 1)%Z /\
            counters_advance p p2 /\
            (snapshot_consistent p -> snapshot_consistent p2) /\
            exists deadEntity0,
              Some deadEntity = Some deadEntity0 /\
              bestFitness p2 = Z.max (bestFitness p) (fitness deadEntity0)).
  { intros p2 E1 E2 E3 E4 E5 E6 E7 E8 E9. unfold counters_advance.
    split_and!; try congruence; try lia.
    - intros Hp. apply Hsnap in Hp. unfold snapshot_consistent in *.
      rewrite E4, E3. exact Hp.
    - exists deadEntity. split; [reflexivity | congruence]. }
  destruct (findBestLivingEntity (entities p1)) as [[j parent]|].
  - destruct (reproduce _ _ parent h1) as [[child parent'] h2| |]; try discriminate.
    intros [= <- _]. apply Hend; reflexivity.
  - destruct (constructor None None None _ h1) as [fresh h2| |]; try discriminate.
    intros [= <- _]. apply Hend; reflexivity.
Qed.

Lemma update_slot_counters now i st h st' h' :
  update_slot now i st h = Returned st' h' ->
  counters_advance (loop_population st) (loop_population st') /\
  (generation (loop_population st') <= generation (loop_population st) + 1)%Z /\
  (snapshot_consistent (loop_population st) ->
   snapshot_consistent (loop_population st')).
Proof.
  assert (Hsame : counters_advance (loop_population st) (loop_population st) /\
                  (generation (loop_population st)
                   <= generation (loop_population st) + 1)%Z /\
                  (snapshot_consistent (loop_population st) ->
                   snapshot_consistent (loop_population st))).
  { split_and!; [apply counters_advance_refl | lia | auto]. }
  unfold update_slot. cbv zeta.
  destruct (entities (loop_population st) !! i) as [entity|];
    [|intros [= <- _]; exact Hsame].
  destruct (is_living entity); [|intros [= <- _]; exact Hsame].
  unfold and_then at 1.
  destruct (ConsciousEntity.update _ _ now entity h) as [[[survived entity'] w1] h1| |];
    try discriminate.
  destruct survived.
  - intros [= <- _]. exact Hsame.
  - unfold and_then, return_.
    destruct (handleEntityDeath i _ h1) as [p2 h2| |] eqn:Hdeath; try discriminate.
    intros [= <- _]. cbn [loop_population].
    apply handleEntityDeath_counters in Hdeath
      as (Hgen & _ & Hadvance & Hsnap & _).
    split_and!; [exact Hadvance | | exact Hsnap].
    rewrite Hgen. simpl. lia.
Qed.

Lemma update_slots_counters now l st h st' h' :
  for_each_run l (update_slot now) st h = Returned st' h' ->
  counters_advance (loop_population st) (loop_population st') /\
  (generation (loop_population st')
   <= generation (loop_population st) + Z.of_nat (length l))%Z /\
  (snapshot_consistent (loop_population st) ->
   snapshot_consistent (loop_population st')).
Proof.
  revert st h. induction l as [|i l IH]; intros st h; cbn [for_each_run].
  - intros [= <- _]. split_and!; [apply counters_advance_refl | simpl; lia | auto].
  - unfold and_then.
    destruct (update_slot now i st h) as [st1 h1| |] eqn:Hslot; try discriminate.
    intros Hrest.
    apply update_slot_counters in Hslot as (Ha1 & Hg1 & Hs1).
    apply IH in Hrest as (Ha2 & Hg2 & Hs2).
    split_and!; [eapply counters_advance_trans; eassumption | | auto].
    cbn [length]. lia.
Qed.

Lemma update_advance w now p h p' w' h' :
  PopulationManager.update w now p h = Returned (p', w') h' ->
  counters_advance p p' /\
  (generation p' <= generation p + Z.of_nat (length (entities p)))%Z /\
  (snapshot_consistent p -> snapshot_consistent p').
Proof.
  unfold PopulationManager.update, and_then, return_.
  destruct (for_each_run _ _ _ h) as [st h1| |] eqn:Hloop; try discriminate.
  intros [= <- _ _].
  apply update_slots_counters in Hloop. rewrite length_seq in Hloop. exact Hloop.
Qed.

Lemma forceEvolution_keeps p h p' h' :
  forceEvolution p h = Returned p' h' ->
  generation p' = generation p /\ totalDeaths p' = totalDeaths p /\
  bestFitness p' = bestFitness p /\ allTimeBest p' = allTimeBest p /\
  mutationRate p' = mutationRate p /\ mutationStrength p' = mutationStrength p /\
  generationStats p' = generationStats p.
Proof.
  unfold forceEvolution.
  destruct (entities p) as [|e0 es] eqn:Hes;
    [intros [= <- _]; split_and!; reflexivity|].
  rewrite <- Hes.
  destruct (getLivingEntities p); [intros [= <- _]; split_and!; reflexivity|].
  destruct (extremes (entities p)) as [[[weakestIndex weakestFitness]|]
                                       [[[slot strongest]|] strongestFitness]];
    try (intros [= <- _]; split_and!; reflexivity).
  unfold and_then, return_.
  destruct (reproduce _ _ strongest h) as [[child strongest'] h1| |]; try discriminate.
  intros [= <- _]. split_and!; reflexivity.
Qed.

(** X25.  When [update] returns, [generation] and [totalDeaths] have
    grown by the same amount, which is at most the number of slots;
    [bestFitness] has not fallen; the configured size, the grid size, the
    mutation parameters and the recorded statistics are unchanged. *)
Theorem update_counters w now p h p' w' h' :
  PopulationManager.update w now p h = Returned (p', w') h' ->
  (generation p <= generation p' <= generation p + Z.of_nat (length (entities p)))%Z /\
  (generation p' - generation p = totalDeaths p' - totalDeaths p)%Z /\
  (bestFitness p <= bestFitness p')%Z /\
  populationSize p' = populationSize p /\ pop_gridSize p' = pop_gridSize p /\
  mutationRate p' = mutationRate p /\ mutationStrength p' = mutationStrength p /\
  generationStats p' = generationStats p.
Proof.
  intros Hrun.
  destruct (update_advance _ _ _ _ _ _ _ Hrun) as (Hadvance & Hbound & _).
  destruct Hadvance as (Hgen & Hdeaths & Hbest & Hrest).
  split_and!; [exact Hgen | exact Hbound | exact Hdeaths | exact Hbest | apply Hrest..].
Qed.

(** X26.  In every population a host can hold, [generation] equals
    [totalDeaths], neither is negative, and [bestFitness] is the fitness
    of the snapshot [allTimeBest], or 0 when there is no snapshot yet. *)
Theorem reachable_population_counters size p :
  reachable_population size p ->
  generation p = totalDeaths p /\ (0 <= generation p)%Z /\
  (0 <= bestFitness p)%Z /\
  match allTimeBest p with
  | Some snapshot => fitness snapshot = bestFitness p
  | None => bestFitness p = 0%Z
  end.
Proof.
  induction 1 as [n h p h' Hnew | p h p' h' _ IH Hreset
                 | p w now h p' w' h' _ IH Hupdate | p h p' h' _ IH Hforce].
  - unfold new, and_then, return_ in Hnew.
    destruct (initializePopulation size n h) as [es h1| |]; try discriminate.
    injection Hnew as <- _. simpl. split_and!; reflexivity || lia.
  - unfold reset, and_then, return_ in Hreset.
    destruct (initializePopulation _ _ h) as [es h1| |]; try discriminate.
    injection Hreset as <- _. simpl. split_and!; reflexivity || lia.
  - destruct IH as (Heq & Hgen & Hbest & Hsnap).
    destruct (update_advance _ _ _ _ _ _ _ Hupdate)
      as ((Hgen' & Hdeaths' & Hbest' & _) & _ & Hsnap').
    split_and!; try lia. apply Hsnap', Hsnap.
  - destruct IH as (Heq & Hgen & Hbest & Hsnap).
    destruct (forceEvolution_keeps _ _ _ _ Hforce) as (-> & -> & -> & -> & _).
    split_and!; assumption.
Qed.

(** X27.  [forceEvolution] is not a death: when it returns, [generation],
    [totalDeaths], [bestFitness] and the snapshot [allTimeBest] are as
    before and the roster has kept its length; when no entity is living it
    returns at once, without drawing a random number, and the population is
    unchanged. *)
Theorem forceEvolution_frame p h :
  (getLivingEntities p = [] -> forceEvolution p h = Returned p h) /\
  (forall p' h',
     forceEvolution p h = Returned p' h' ->
     generation p' = generation p /\ totalDeaths p' = totalDeaths p /\
     bestFitness p' = bestFitness p /\ allTimeBest p' = allTimeBest p /\
     length (entities p') = length (entities p)).
Proof.
  split.
  - intros Hnone. unfold forceEvolution.
    destruct (entities p); [reflexivity|]. rewrite Hnone. reflexivity.
  - intros p' h' Hrun.
    destruct (forceEvolution_keeps _ _ _ _ Hrun) as (Hg & Hd & Hb & Ha & _).
    destruct (forceEvolution_size _ _ _ _ Hrun) as [Hlen _].
    split_and!; assumption.
Qed.

End PopulationCounters.

(** ** PopulationManager: who is in the roster *)

Section PopulationLiving.
Import ConsciousEntity PopulationManager.
Context {rt : Runtime}.

Lemma entity_constructor_energy ox oy obrain n h e h' :
  constructor ox oy obrain n h = Returned e h' -> energy e = 100%Q.
Proof.
  unfold constructor, and_then, lift, return_.
  destruct (or_random_cell ox n h) as [px h1].
  destruct (or_random_cell oy n h1) as [py h2].
  destruct obrain as [b0|].
  - unfold return_. destruct (Math_random h2) as [r h4].
    intros [= <- _]. reflexivity.
  - destruct (NeuralNetwork.constructor _ _ _ h2) as [b h3| |]; try discriminate.
    destruct (Math_random h3) as [r h4].
    intros [= <- _]. reflexivity.
Qed.

Lemma reproduce_energy rate strength this h child this' h' :
  reproduce rate strength this h = Returned (child, this') h' ->
  is_living child = true /\ is_living this' = is_living this.
Proof.
  unfold reproduce, and_then, return_.
  destruct (constructor None None None _ h) as [c h1| |] eqn:Hc; try discriminate.
  destruct (NeuralNetwork.mutate _ _ _ h1) as [[b own] h2| |]; try discriminate.
  intros [= <- <- _]. apply entity_constructor_energy in Hc.
  split; [|reflexivity].
  apply is_living_hundred. exact Hc.
Qed.

Lemma update_survival w others now this h survived this' w' h' :
  ConsciousEntity.update w others now this h = Returned (survived, this', w') h' ->
  survived = is_living this'.
Proof.
  intros Hrun.
  apply update_inversion in Hrun
    as (sensed & h1 & action & move & b & _ & _ & -> & ->).
  reflexivity.
Qed.

Lemma initializePopulation_living count n h es h' :
  initializePopulation count n h = Returned es h' -> all_living es.
Proof.
  revert h es h'. induction count as [|count IH]; intros h es h';
    cbn [initializePopulation]; unfold and_then, return_.
  - intros [= <- _]. constructor.
  - destruct (constructor None None None n h) as [e h1| |] eqn:He; try discriminate.
    destruct (initializePopulation count n h1) as [rest h2| |] eqn:Hrest;
      try discriminate.
    intros [= <- _]. constructor; [|exact (IH _ _ _ Hrest)].
    apply is_living_hundred. exact (entity_constructor_energy _ _ _ _ _ _ _ He).
Qed.

(** The entity [findBestLivingEntity] finds is a living one of the
    roster, whatever the fitnesses are. *)
Lemma findBestLivingEntity_living es j parent :
  findBestLivingEntity es = Some (j, parent) ->
  es !! j = Some parent /\ is_living parent = true.
Proof.
  unfold findBestLivingEntity, for_each. revert j parent.
  induction es as [|e es IH] using rev_ind; intros j parent; [discriminate|].
  rewrite imap_app, fold_left_app. simpl.
  destruct (fold_left _ (imap _ es) _) as [best bf]. simpl in IH.
  rewrite Nat.add_0_r.
  assert (Hold : best = Some (j, parent) ->
                 (es ++ [e]) !! j = Some parent /\ is_living parent = true).
  { intros Hbest. destruct (IH _ _ Hbest) as [Hj Hl].
    split; [apply lookup_app_l_Some; exact Hj | exact Hl]. }
  destruct (is_living e) eqn:Hliving; [|exact Hold].
  destruct (bf <? fitness e)%Z; [|exact Hold].
  simpl. intros [= <- <-].
  split; [|exact Hliving].
  rewrite lookup_app_r, Nat.sub_diag; [reflexivity|lia].
Qed.

(** The strongest entity of [forceEvolution] is a living one. *)
Lemma extremes_living es weakest j strongest f :
  extremes es = (weakest, (Some (j, strongest), f)) ->
  is_living strongest = true.
Proof.
  unfold extremes, for_each. revert weakest j strongest f.
  induction es as [|e es IH] using rev_ind; intros weakest j strongest f;
    [discriminate|].
  rewrite imap_app, fold_left_app. simpl.
  destruct (fold_left _ (imap _ es) _) as [wk [st sf]].
  destruct (is_living e) eqn:Hliving.
  - destruct (sf <? fitness e)%Z.
    + intros [= _ _ <- _]. exact Hliving.
    + intros [= _ -> ->]. eapply IH. reflexivity.
  - intros [= -> -> ->]. eapply IH. reflexivity.
Qed.

Lemma all_living_insert es i e :
  (forall k e0, k <> i -> es !! k = Some e0 -> is_living e0 = true) ->
  is_living e = true -> all_living (<[i := e]> es).
Proof.
  intros Hothers He. apply Forall_lookup. intros k e0 Hk.
  destruct (decide (k = i)) as [->|Hne].
  - pose proof (lookup_lt_Some _ _ _ Hk) as Hlt. rewrite length_insert in Hlt.
    rewrite list_lookup_insert_eq in Hk by exact Hlt.
    injection Hk as <-. exact He.
  - rewrite list_lookup_insert_ne in Hk by congruence.
    eapply Hothers; eassumption.
Qed.

(** After a death every slot holds a living entity, provided every other
    slot did. *)
Lemma handleEntityDeath_living i p h p' h' :
  handleEntityDeath i p h = Returned p' h' ->
  (forall k e, k <> i -> entities p !! k = Some e -> is_living e = true) ->
  all_living (entities p').
Proof.
  unfold handleEntityDeath.
  destruct (entities p !! i) as [deadEntity|]; [|discriminate].
  cbv zeta. unfold and_then at 1.
  set (p0 := set_totalDeaths (totalDeaths p + 1) p).
  assert (Hfirst : forall p1 h1,
    (if (bestFitness p0 <? fitness deadEntity)%Z
     then and_then (clone deadEntity)
            (fun copy => return_ (set_best (fitness deadEntity) copy p0))
     else return_ p0) h = Returned p1 h1 ->
    entities p1 = entities p).
  { intros p1 h1. destruct (bestFitness p0 <? fitness deadEntity)%Z.
    - unfold and_then, return_.
      destruct (clone deadEntity h) as [copy h2| |]; try discriminate.
      intros [= <- _]. reflexivity.
    - intros [= <- _]. reflexivity. }
  destruct (_ h) as [p1 h1| |] eqn:Hrun; try discriminate.
  pose proof (Hfirst p1 h1 eq_refl) as Hes. clear Hfirst Hrun. clearbody p0.
  unfold and_then, return_. intros Hrun Hothers.
  destruct (findBestLivingEntity (entities p1)) as [[j parent]|] eqn:Hbest.
  - destruct (reproduce _ _ parent h1) as [[child parent'] h2| |] eqn:Hchild;
      try discriminate.
    injection Hrun as <- _. cbn [entities set_generation set_entities].
    apply reproduce_energy in Hchild as [Hchild Hparent].
    apply findBestLivingEntity_living in Hbest as [_ Hliving].
    apply all_living_insert; [|exact Hchild].
    intros k e Hki Hk.
    destruct (decide (k = j)) as [->|Hne].
    + pose proof (lookup_lt_Some _ _ _ Hk) as Hlt. rewrite length_insert in Hlt.
      rewrite list_lookup_insert_eq in Hk by exact Hlt.
      injection Hk as <-. congruence.
    + rewrite list_lookup_insert_ne in Hk by congruence.
      rewrite Hes in Hk. eapply Hothers; eassumption.
  - destruct (constructor None None None _ h1) as [fresh h2| |] eqn:Hfresh;
      try discriminate.
    injection Hrun as <- _. cbn [entities set_generation set_entities].
    apply all_living_insert.
    + intros k e Hki Hk. rewrite Hes in Hk. eapply Hothers; eassumption.
    + apply is_living_hundred. exact (entity_constructor_energy _ _ _ _ _ _ _ Hfresh).
Qed.

Lemma update_slot_living now i st h st' h' :
  update_slot now i st h = Returned st' h' ->
  all_living (entities (loop_population st)) ->
  all_living (entities (loop_population st')).
Proof.
  unfold update_slot. cbv zeta.
  destruct (entities (loop_population st) !! i) as [entity|];
    [|intros [= <- _] Hall; exact Hall].
  destruct (is_living entity); [|intros [= <- _] Hall; exact Hall].
  unfold and_then at 1.
  destruct (ConsciousEntity.update _ _ now entity h) as [[[survived entity'] w1] h1| |]
    eqn:Hupdate; try discriminate.
  apply update_survival in Hupdate.
  intros Hrun Hall.
  assert (Hothers : forall k e, k <> i ->
            <[i := entity']> (entities (loop_population st)) !! k = Some e ->
            is_living e = true).
  { intros k e Hki Hk. rewrite list_lookup_insert_ne in Hk by congruence.
    exact (Forall_lookup_1 _ _ _ _ Hall Hk). }
  destruct survived.
  - injection Hrun as <- _. cbn [loop_population entities set_entities].
    apply all_living_insert; [|congruence].
    intros k e Hki Hk. exact (Forall_lookup_1 _ _ _ _ Hall Hk).
  - unfold and_then, return_ in Hrun.
    destruct (handleEntityDeath i _ h1) as [p2 h2| |] eqn:Hdeath; try discriminate.
    injection Hrun as <- _. cbn [loop_population].
    eapply handleEntityDeath_living; [exact Hdeath|].
    cbn [entities set_entities]. exact Hothers.
Qed.

Lemma update_living w now p h p' w' h' :
  PopulationManager.update w now p h = Returned (p', w') h' ->
  all_living (entities p) -> all_living (entities p').
Proof.
  unfold PopulationManager.update, and_then, return_.
  destruct (for_each_run _ _ _ h) as [st h1| |] eqn:Hloop; try discriminate.
  intros [= <- _ _] Hall.
  apply (for_each_run_returned
           (fun st => all_living (entities (loop_population st)))) in Hloop;
    [exact Hloop | exact Hall |].
  intros a s h2 s' h2' Hs Hslot. eapply update_slot_living; eassumption.
Qed.

Lemma forceEvolution_living p h p' h' :
  forceEvolution p h = Returned p' h' ->
  all_living (entities p) -> all_living (entities p').
Proof.
  unfold forceEvolution.
  destruct (entities p) as [|e0 es] eqn:Hes;
    [intros [= <- _] Hall; rewrite Hes; exact Hall|].
  rewrite <- Hes. clear Hes.
  destruct (getLivingEntities p); [intros [= <- _] Hall; exact Hall|].
  destruct (extremes (entities p)) as [[[weakestIndex weakestFitness]|]
                                       [[[slot strongest]|] strongestFitness]]
    eqn:Hextremes;
    try (intros [= <- _] Hall; exact Hall).
  unfold and_then, return_.
  destruct (reproduce _ _ strongest h) as [[child strongest'] h1| |] eqn:Hchild;
    try discriminate.
  intros [= <- _] Hall. cbn [entities set_entities].
  apply reproduce_energy in Hchild as [Hchild Hparent].
  apply extremes_living in Hextremes.
  apply all_living_insert; [|exact Hchild].
  intros k e1 _ Hk.
  assert (Hin : all_living (<[slot := strongest']> (entities p))).
  { apply all_living_insert; [|congruence].
    intros k0 e2 _ Hk0. exact (Forall_lookup_1 _ _ _ _ Hall Hk0). }
  exact (Forall_lookup_1 _ _ _ _ Hin Hk).
Qed.

Lemma filter_all {A} (f : A -> bool) (l : list A) :
  Forall (fun a => f a = true) l -> List.filter f l = l.
Proof.
  induction 1 as [|a l Ha _ IH]; simpl; [reflexivity|].
  rewrite Ha, IH. reflexivity.
Qed.

(** X28.  In every population a host can hold, each of the [size] slots
    of the roster holds a living entity: [getLivingEntities] returns the
    whole roster, and the [livingCount] of [getPopulationStats] is
    [size]. *)
Theorem reachable_population_living size p :
  reachable_population size p ->
  Forall (fun e => is_living e = true) (entities p) /\
  getLivingEntities p = entities p /\
  stats_livingCount (getPopulationStats p) = size.
Proof.
  intros Hreach.
  assert (Hboth : all_living (entities p) /\ length (entities p) = size /\
                  populationSize p = size).
  { induction Hreach as [n h p h' Hnew | p h p' h' _ IH Hreset
                        | p w now h p' w' h' _ IH Hupdate | p h p' h' _ IH Hforce].
    - unfold new, and_then, return_ in Hnew.
      destruct (initializePopulation size n h) as [es h1| |] eqn:Hinit;
        try discriminate.
      injection Hnew as <- _. cbn [entities populationSize].
      split_and!; [exact (initializePopulation_living _ _ _ _ _ Hinit)
                  | exact (initializePopulation_length _ _ _ _ _ Hinit)
                  | reflexivity].
    - destruct IH as (_ & _ & Hsize).
      unfold reset, and_then, return_ in Hreset.
      destruct (initializePopulation _ _ h) as [es h1| |] eqn:Hinit;
        try discriminate.
      injection Hreset as <- _. cbn [entities populationSize].
      split_and!; [exact (initializePopulation_living _ _ _ _ _ Hinit) | | exact Hsize].
      rewrite (initializePopulation_length _ _ _ _ _ Hinit). exact Hsize.
    - destruct IH as (Hall & Hlen & Hsize).
      pose proof (update_size _ _ _ _ _ _ _ Hupdate) as [-> ->].
      split_and!; [|assumption..]. eapply update_living; eassumption.
    - destruct IH as (Hall & Hlen & Hsize).
      pose proof (forceEvolution_size _ _ _ _ Hforce) as [-> ->].
      split_and!; [|assumption..]. eapply forceEvolution_living; eassumption. }
  destruct Hboth as (Hall & Hlen & _).
  assert (Hliving : getLivingEntities p = entities p).
  { unfold getLivingEntities. apply filter_all. exact Hall. }
  split_and!; [exact Hall | exact Hliving |].
  unfold getPopulationStats. cbv zeta. rewrite Hliving.
  destruct (entities p) as [|first rest]; [exact Hlen|].
  cbn [stats_livingCount]. exact Hlen.
Qed.

End PopulationLiving.

(** ** PopulationManager: statistics *)

Section PopulationStatistics.
Import ConsciousEntity PopulationManager.
Context {rt : Runtime}.
Local Open Scope Q_scope.

(** [Math.round] of an integer is that integer. *)
Lemma Math_round_integer (z : Z) : Math_round (inject_Z z) = z.
Proof.
  unfold Math_round, Qfloor, Qplus, inject_Z. cbn [Qnum Qden].
  change (Z.pos (1 * 2)) with 2%Z.
  symmetry. apply (Z.div_unique _ _ _ 1); lia.
Qed.

Lemma Math_round_monotone (a b : Q) : a <= b -> (Math_round a <= Math_round b)%Z.
Proof.
  intros Hab. unfold Math_round. apply Qfloor_resp_le. lra.
Qed.

(** The rounded mean of a total lies between integer bounds of the
    terms. *)
Lemma rounded_mean_between (total count : Q) (lo hi : Z) :
  0 < count ->
  count * inject_Z lo <= total -> total <= count * inject_Z hi ->
  (lo <= Math_round (total / count) <= hi)%Z.
Proof.
  intros Hcount Hlo Hhi.
  assert (Hmean : inject_Z lo <= total / count /\ total / count <= inject_Z hi).
  { split.
    - apply Qle_shift_div_l; [exact Hcount|]. lra.
    - apply Qle_shift_div_r; [exact Hcount|]. lra. }
  destruct Hmean as [Hl Hh].
  split.
  - apply Math_round_monotone in Hl. rewrite Math_round_integer in Hl. exact Hl.
  - apply Math_round_monotone in Hh. rewrite Math_round_integer in Hh. exact Hh.
Qed.

Lemma count_successor (n : nat) :
  inject_Z (Z.of_nat (S n)) == inject_Z (Z.of_nat n) + 1.
Proof. rewrite Nat2Z.inj_succ. unfold Z.succ. rewrite inject_Z_plus. reflexivity. Qed.

Lemma sum_between (f : Entity -> Q) (l : list Entity) (lo hi start : Q) :
  (forall e, e ∈ l -> lo <= f e /\ f e <= hi) ->
  let total := for_each l (fun entity sum => sum + f entity) start in
  start + inject_Z (Z.of_nat (length l)) * lo <= total /\
  total <= start + inject_Z (Z.of_nat (length l)) * hi.
Proof.
  cbv zeta. unfold for_each. revert start.
  induction l as [|e l IH]; intros start Hall.
  - cbn [fold_left length]. change (inject_Z (Z.of_nat 0)) with 0. split; lra.
  - cbn [fold_left length]. rewrite count_successor.
    destruct (Hall e) as [Hl Hh]; [left|].
    destruct (IH (start + f e)) as [IHl IHh].
    { intros e0 He0. apply Hall. right. exact He0. }
    split; lra.
Qed.

Lemma integer_sum (f : Entity -> Z) (l : list Entity) (start : Z) :
  inject_Z (for_each l (fun entity sum => (sum + f entity)%Z) start)
  == for_each l (fun entity sum => sum + inject_Z (f entity)) (inject_Z start).
Proof.
  unfold for_each. revert start. induction l as [|e l IH]; intros start.
  - reflexivity.
  - cbn [fold_left]. rewrite IH.
    assert (Hwd : forall a b, a == b ->
              fold_left (fun sum entity => sum + inject_Z (f entity)) l a
              == fold_left (fun sum entity => sum + inject_Z (f entity)) l b).
    { clear. induction l as [|e l IH]; intros a b Hab; [exact Hab|].
      cbn [fold_left]. apply IH. rewrite Hab. reflexivity. }
    apply Hwd. rewrite inject_Z_plus. reflexivity.
Qed.

Lemma integer_mean_between (f : Entity -> Z) (l : list Entity) (lo hi : Z) :
  l <> [] ->
  (forall e, e ∈ l -> (lo <= f e <= hi)%Z) ->
  (lo <= Math_round
           (inject_Z (for_each l (fun entity sum => (sum + f entity)%Z) 0%Z)
            / inject_Z (Z.of_nat (length l))) <= hi)%Z.
Proof.
  intros Hne Hall.
  assert (Hcount : 0 < inject_Z (Z.of_nat (length l))).
  { change 0 with (inject_Z 0). rewrite <- Zlt_Qlt.
    destruct l; [congruence | cbn [length]; lia]. }
  destruct (sum_between (fun e => inject_Z (f e)) l (inject_Z lo) (inject_Z hi) 0)
    as [Hl Hh].
  { intros e He. destruct (Hall e He). rewrite <- !Zle_Qle. split; assumption. }
  pose proof (integer_sum f l 0) as Hsum. change (inject_Z 0) with 0 in Hsum.
  apply rounded_mean_between; [exact Hcount | rewrite Hsum; lra | rewrite Hsum; lra].
Qed.

(** The maximum the loop of [Math.max] keeps. *)
Lemma best_loop (l : list Entity) (start : Z) :
  let best := for_each l (fun entity best => Z.max best (fitness entity)) start in
  (start <= best)%Z /\
  (forall e, e ∈ l -> (fitness e <= best)%Z) /\
  (best = start \/ exists e, e ∈ l /\ fitness e = best).
Proof.
  cbv zeta. unfold for_each. revert start.
  induction l as [|e l IH]; intros start.
  - simpl. split_and!; [lia | | left; reflexivity].
    intros e He. inversion He.
  - cbn [fold_left].
    destruct (IH (Z.max start (fitness e))) as (Hstart & Hall & Hfound).
    split_and!.
    + lia.
    + intros e0 He0. apply elem_of_cons in He0 as [->|He0]; [lia|].
      apply Hall. exact He0.
    + destruct Hfound as [Hsame | (e0 & He0 & Hbest)].
      * destruct (Z.max_spec start (fitness e)) as [[_ Hmax]|[_ Hmax]].
        -- right. exists e. split; [left | congruence].
        -- left. congruence.
      * right. exists e0. split; [right; exact He0 | exact Hbest].
Qed.

(** X29.  [getPopulationStats] counts the living entities and reports
    the counters as they are.  With no living entity every figure about
    them is 0.  Otherwise [bestCurrentFitness] is the highest fitness among
    the living, and each rounded average lies between any integer bounds of
    the values averaged; when no fitness is negative, the parent
    [findBestLivingEntity] picks has exactly [bestCurrentFitness]. *)
Theorem getPopulationStats_summary p :
  let living := getLivingEntities p in
  let stats := getPopulationStats p in
  stats_livingCount stats = length living /\
  stats_generation stats = generation p /\
  stats_totalDeaths stats = totalDeaths p /\
  stats_bestAllTimeFitness stats = bestFitness p /\
  (living = [] ->
   stats_totalEnergy stats = 0%Z /\ stats_totalAge stats = 0%Z /\
   stats_averageEnergy stats = 0%Z /\ stats_averageAge stats = 0%Z /\
   stats_averageFitness stats = 0%Z /\ stats_bestCurrentFitness stats = 0%Z) /\
  (living <> [] ->
   (exists e, e ∈ living /\ fitness e = stats_bestCurrentFitness stats) /\
   (forall e, e ∈ living -> (fitness e <= stats_bestCurrentFitness stats)%Z) /\
   (forall lo hi, (forall e, e ∈ living -> (lo <= fitness e <= hi)%Z) ->
                  (lo <= stats_averageFitness stats <= hi)%Z) /\
   (forall lo hi, (forall e, e ∈ living -> (lo <= age e <= hi)%Z) ->
                  (lo <= stats_averageAge stats <= hi)%Z) /\
   (forall lo hi,
      (forall e, e ∈ living -> inject_Z lo <= energy e /\ energy e <= inject_Z hi) ->
      (lo <= stats_averageEnergy stats <= hi)%Z)) /\
  (Forall (fun e => (0 <= fitness e)%Z) (entities p) ->
   match findBestLivingEntity (entities p) with
   | Some (_, parent) => fitness parent = stats_bestCurrentFitness stats
   | None => stats_livingCount stats = 0%nat
   end).
Proof.
  cbv zeta. unfold getPopulationStats. cbv zeta.
  assert (Hpick : Forall (fun e => (0 <= fitness e)%Z) (entities p) ->
            match findBestLivingEntity (entities p) with
            | Some (_, parent) =>
                parent ∈ getLivingEntities p /\
                forall e, e ∈ getLivingEntities p -> (fitness e <= fitness parent)%Z
            | None => getLivingEntities p = []
            end).
  { intros Hfit. pose proof (findBest_loop (entities p) Hfit) as Hloop.
    cbv zeta in Hloop. unfold findBestLivingEntity, getLivingEntities.
    destruct (fst _) as [[j parent]|].
    - destruct Hloop as (_ & Hj & Hliving & Hmax). split.
      + apply list_elem_of_In, filter_In. split; [|exact Hliving].
        apply list_elem_of_In. eapply list_elem_of_lookup_2. exact Hj.
      + intros e He. apply list_elem_of_In, filter_In in He as [He Hl].
        apply list_elem_of_In, list_elem_of_lookup in He as [k Hk].
        apply (Hmax k e Hk Hl).
    - destruct Hloop as (_ & Hnone).
      apply filter_none. apply Forall_lookup. intros k e Hk.
      apply (Hnone k e Hk). }
  destruct (getLivingEntities p) as [|first rest] eqn:Hliving.
  - cbn [stats_livingCount stats_generation stats_totalDeaths
         stats_bestAllTimeFitness stats_totalEnergy stats_totalAge
         stats_averageEnergy stats_averageAge stats_averageFitness
         stats_bestCurrentFitness length].
    split_and!; try reflexivity.
    + intros _. split_and!; reflexivity.
    + intros Hne. congruence.
    + intros Hfit. specialize (Hpick Hfit).
      destruct (findBestLivingEntity (entities p)) as [[j parent]|]; [|reflexivity].
      destruct Hpick as [Hin _]. inversion Hin.
  - cbn [stats_livingCount stats_generation stats_totalDeaths
         stats_bestAllTimeFitness stats_totalEnergy stats_totalAge
         stats_averageEnergy stats_averageAge stats_averageFitness
         stats_bestCurrentFitness].
    rewrite !Math_round_integer.
    pose proof (best_loop rest (fitness first)) as Hbest. cbv zeta in Hbest.
    set (best := for_each rest _ (fitness first)) in *. clearbody best.
    destruct Hbest as (Hfirst & Hrest & Hfound).
    assert (Hall : forall e, e ∈ first :: rest -> (fitness e <= best)%Z).
    { intros e He. apply elem_of_cons in He as [->|He]; [exact Hfirst|].
      apply Hrest. exact He. }
    assert (Hsome : exists e, e ∈ first :: rest /\ fitness e = best).
    { destruct Hfound as [->|(e & He & Hbest)].
      - exists first. split; [left | reflexivity].
      - exists e. split; [right; exact He | exact Hbest]. }
    split_and!; try reflexivity.
    + intros Hnil. discriminate.
    + intros _. split_and!.
      * exact Hsome.
      * exact Hall.
      * intros lo hi Hbounds.
        apply (integer_mean_between fitness (first :: rest)); [discriminate|exact Hbounds].
      * intros lo hi Hbounds.
        apply (integer_mean_between age (first :: rest)); [discriminate|exact Hbounds].
      * intros lo hi Hbounds.
        destruct (sum_between energy (first :: rest) (inject_Z lo) (inject_Z hi) 0
                    Hbounds) as [Hl Hh].
        apply rounded_mean_between; [|lra..].
        change 0 with (inject_Z 0). rewrite <- Zlt_Qlt. cbn [length]. lia.
    + intros Hfit. specialize (Hpick Hfit).
      destruct (findBestLivingEntity (entities p)) as [[j parent]|]; [|discriminate].
      destruct Hpick as [Hin Hmax].
      destruct Hsome as (e & He & Hbest).
      specialize (Hmax e He). specialize (Hall parent Hin). lia.
Qed.

(** X30.  [recordGenerationStats] touches nothing but the history.  The
    history gains one entry at its end, which carries the tick given and
    the figures of [getPopulationStats]; when that makes more than 100
    entries the oldest one is dropped, so a history of at most 100 entries
    stays one. *)
Theorem recordGenerationStats_history now p :
  let p' := recordGenerationStats now p in
  let stats := getPopulationStats p in
  let history := generationStats p in
  entities p' = entities p /\ generation p' = generation p /\
  totalDeaths p' = totalDeaths p /\ bestFitness p' = bestFitness p /\
  allTimeBest p' = allTimeBest p /\ populationSize p' = populationSize p /\
  getPopulationStats p' = stats /\
  (exists newest,
     stat_tick newest = now /\ stat_generation newest = generation p /\
     livingCount newest = length (getLivingEntities p) /\
     averageEnergy newest = stats_averageEnergy stats /\
     averageFitness newest = stats_averageFitness stats /\
     stat_bestFitness newest = stats_bestCurrentFitness stats /\
     last (generationStats p') = Some newest /\
     generationStats p'
     = if (length history <? 100)%nat then history ++ [newest]
       else List.tl history ++ [newest]) /\
  length (generationStats p')
  = (if (length history <? 100)%nat then S (length history) else length history) /\
  ((length history <= 100)%nat -> (length (generationStats p') <= 100)%nat).
Proof.
  cbv zeta. unfold recordGenerationStats. cbv zeta.
  match goal with
  | |- context [generationStats p ++ [?s]] => set (newest := s)
  end.
  cbn [entities generation totalDeaths bestFitness allTimeBest populationSize
       generationStats set_generationStats].
  assert (Hhistory :
            (if (100 <? length (generationStats p ++ [newest]))%nat
             then List.tl (generationStats p ++ [newest])
             else generationStats p ++ [newest])
            = if (length (generationStats p) <? 100)%nat
              then generationStats p ++ [newest]
              else List.tl (generationStats p) ++ [newest]).
  { rewrite length_app. cbn [length].
    destruct (Nat.ltb_spec 100 (length (generationStats p) + 1)) as [Hover|Hfits];
      destruct (Nat.ltb_spec (length (generationStats p)) 100) as [Hshort|Hfull];
      try lia; try reflexivity.
    destruct (generationStats p); [simpl in Hfull; lia | reflexivity]. }
  rewrite Hhistory.
  split_and!; try reflexivity.
  - exists newest.
    assert (Hfigures : stats_generation (getPopulationStats p) = generation p /\
                       stats_livingCount (getPopulationStats p)
                       = length (getLivingEntities p)).
    { unfold getPopulationStats. cbv zeta.
      destruct (getLivingEntities p); split; reflexivity. }
    destruct Hfigures as [Hgeneration Hcount].
    split_and!; [reflexivity | exact Hgeneration | exact Hcount | reflexivity..| |
                 reflexivity].
    destruct (length (generationStats p) <? 100)%nat; apply last_snoc.
  - destruct (Nat.ltb_spec (length (generationStats p)) 100) as [Hshort|Hfull].
    + rewrite length_app. cbn [length]. lia.
    + rewrite length_app. cbn [length].
      destruct (generationStats p); [simpl in Hfull; lia | simpl; lia].
  - intros Hcap.
    destruct (Nat.ltb_spec (length (generationStats p)) 100) as [Hshort|Hfull].
    + rewrite length_app. cbn [length]. lia.
    + rewrite length_app. cbn [length].
      destruct (generationStats p); [simpl in Hfull; lia | simpl in *; lia].
Qed.

End PopulationStatistics.

(** The starving entity and the well fed one, updated once. *)
Lemma update_counters_witness :
  exists p' w' h',
    PopulationManager.update (rt := Sample.steady) Sample.newborn 1 Sample.pair
      Sample.start = Returned (p', w') h' /\
    (PopulationManager.generation Sample.pair <= PopulationManager.generation p'
     <= PopulationManager.generation Sample.pair
        + Z.of_nat (length (PopulationManager.entities Sample.pair)))%Z /\
    (PopulationManager.generation p' - PopulationManager.generation Sample.pair
     = PopulationManager.totalDeaths p'
       - PopulationManager.totalDeaths Sample.pair)%Z /\
    (PopulationManager.bestFitness Sample.pair
     <= PopulationManager.bestFitness p')%Z.
Proof.
  assert (Hstd : standard Sample.blank_brain).
  { vm_compute. reflexivity. }
  assert (Hsound : Forall sound (PopulationManager.entities Sample.pair)).
  { repeat constructor; try exact Hstd;
      cbn [Sample.with_energy ConsciousEntity.lastActionIndex ConsciousEntity.age
           ConsciousEntity.totalEnergyGained ConsciousEntity.fitness]; lia. }
  destruct (update_returns (rt := Sample.steady) steady_is_fair Sample.newborn 1
              Sample.pair Hsound Sample.start) as ([p' w'] & h' & Hrun & _).
  exists p', w', h'. split; [exact Hrun|].
  destruct (update_counters (rt := Sample.steady) Sample.newborn 1 Sample.pair
              Sample.start p' w' h' Hrun) as (Hgen & Hdeaths & Hbest & _).
  split_and!; [apply Hgen | apply Hgen | exact Hdeaths | exact Hbest].
Defined.

(** ** PopulationManager: a death by starvation *)

Section Starvation.
Import ConsciousEntity PopulationManager.
Context {rt : Runtime}.
Hypothesis random_is_fair : fair.
Local Open Scope Q_scope.

Variable w : WorldPhysics.World.
Hypothesis no_food : WorldPhysics.energies w = [].

(** In a world without energy an update costs the entity half a unit. *)
Lemma hungry_update_energy others now this h survived this' w' h' :
  ConsciousEntity.update w others now this h = Returned (survived, this', w') h' ->
  energy this' == energy this - (1 # 2) /\ w' = w.
Proof.
  intros Hrun.
  destruct (update_inversion _ _ _ _ _ _ _ _ _ Hrun)
    as (sensed & h1 & action & move & b & Hsense & _ & -> & _).
  pose proof (sense_bookkeeping w others now this h) as Hbook. cbv zeta in Hbook.
  rewrite Hsense in Hbook. cbn [fst snd] in Hbook.
  destruct Hbook as (Hworld & _ & _ & Henergy & _).
  assert (Hfed : WorldPhysics.consumeEnergy (x this) (y this) w = (0%Z, w)).
  { unfold WorldPhysics.consumeEnergy. rewrite no_food. reflexivity. }
  rewrite Hfed in Hworld, Henergy. cbn [fst snd] in Hworld, Henergy.
  split; [|exact Hworld].
  cbn [energy set_fitness set_lastAction set_xy set_brain].
  rewrite Henergy. change (inject_Z 0) with 0. lra.
Qed.

(** The update of a roster of one living entity in such a world. *)
Lemma lone_update now p e h :
  entities p = [e] -> sound e -> 0 < energy e ->
  exists p' w' h',
    PopulationManager.update w now p h = Returned (p', w') h' /\
    (1 # 2 < energy e ->
     generation p' = generation p /\
     exists e', entities p' = [e'] /\ sound e' /\
                energy e' == energy e - (1 # 2)) /\
    (energy e <= 1 # 2 -> generation p' = (generation p + 1)%Z).
Proof.
  intros Hes Hsound Hliving.
  set (st := {| loop_population := p; loop_world := w;
                loop_living := take_snapshot (entities p) |}).
  assert (Hroster : Forall sound (entities (loop_population st))).
  { cbn [loop_population st]. rewrite Hes. constructor; [exact Hsound | constructor]. }
  destruct (update_slot_ensures random_is_fair now 0 st h Hroster)
    as (st' & h' & Hrun & Hsound' & _ & _ & Hout).
  exists (loop_population st'), (loop_world st'), h'.
  split.
  { unfold PopulationManager.update.
    replace (seq 0 (length (entities p))) with [0%nat] by (rewrite Hes; reflexivity).
    cbn [for_each_run]. fold st. unfold and_then. rewrite Hrun. reflexivity. }
  specialize (Hout ltac:(cbn [loop_population st]; rewrite Hes; cbn [length]; lia)).
  destruct Hout as (entity & Hentity & _ & Hlive).
  cbn [loop_population loop_world st] in Hentity, Hlive.
  rewrite Hes in Hentity, Hlive. injection Hentity as <-.
  assert (His : is_living e = true).
  { unfold is_living. destruct (Qlt_le_dec 0 (energy e)); [reflexivity | lra]. }
  destruct (Hlive His) as (survived & entity' & w1 & h1 & Hupdate & Hflag & Hrest).
  cbv zeta in Hrest. destruct Hrest as [Hkept Hdied].
  destruct (hungry_update_energy _ _ _ _ _ _ _ _ Hupdate) as [Henergy _].
  unfold is_living in Hflag.
  split.
  - intros Hmore.
    destruct (Qlt_le_dec 0 (energy entity')) as [_|Hle]; [|lra].
    destruct (Hkept Hflag) as (Hentities & Hgen & _).
    split; [exact Hgen|].
    exists entity'. split; [exact Hentities|]. split; [|exact Henergy].
    rewrite Hentities in Hsound'. apply Forall_inv in Hsound'. exact Hsound'.
  - intros Hlast.
    destruct (Qlt_le_dec 0 (energy entity')) as [Hpos|_]; [lra|].
    destruct (Hdied Hflag) as (Hgen & _). exact Hgen.
Qed.

(** A roster of one, after [k] updates in such a world. *)
Lemma starving (n : Z) (k : nat) :
  (k <= 199)%nat ->
  exists p,
    reachable_population 1 p /\ generation p = 0%Z /\
    exists e, entities p = [e] /\ sound e /\
              energy e == 100 - inject_Z (Z.of_nat k) * (1 # 2).
Proof.
  induction k as [|k IH]; intros Hk.
  - destruct (entity_constructor_ensures random_is_fair None None n
                {| randoms_drawn := 0; clock_reads := 0 |})
      as (e & h1 & Hnew & Hsound & Henergy & _).
    exists {| populationSize := 1; pop_gridSize := n; entities := [e];
              generation := 0; totalDeaths := 0; bestFitness := 0;
              allTimeBest := None; mutationRate := 0.1;
              mutationStrength := 0.1; generationStats := [] |}.
    split_and!.
    + eapply (population_new 1 n). unfold new. cbn [initializePopulation].
      unfold and_then, return_. rewrite Hnew. reflexivity.
    + reflexivity.
    + exists e. split; [reflexivity|]. split; [exact Hsound|].
      rewrite Henergy. change (inject_Z (Z.of_nat 0)) with 0. lra.
  - destruct (IH ltac:(lia)) as (p & Hreach & Hgen & e & Hes & Hsound & Henergy).
    assert (Hcount : inject_Z (Z.of_nat k) <= 198).
    { change 198 with (inject_Z 198). rewrite <- Zle_Qle. lia. }
    destruct (lone_update 0 p e {| randoms_drawn := 0; clock_reads := 0 |}
                Hes Hsound ltac:(lra))
      as (p' & w' & h' & Hrun & Hmore & _).
    destruct (Hmore ltac:(lra)) as (Hgen' & e' & Hes' & Hsound' & Henergy').
    exists p'. split_and!.
    + eapply population_update; eassumption.
    + congruence.
    + exists e'. split; [exact Hes'|]. split; [exact Hsound'|].
      rewrite Henergy', Henergy, Nat2Z.inj_succ. unfold Z.succ.
      rewrite inject_Z_plus. change (inject_Z 1) with 1. lra.
Qed.

(** After two hundred updates the entity has starved and been replaced. *)
Lemma starved (n : Z) :
  exists p, reachable_population 1 p /\ generation p = 1%Z.
Proof.
  destruct (starving n 199 ltac:(lia)) as (p & Hreach & Hgen & e & Hes & Hsound & Henergy).
  assert (Hcount : inject_Z (Z.of_nat 199) == 199) by reflexivity.
  destruct (lone_update 0 p e {| randoms_drawn := 0; clock_reads := 0 |}
              Hes Hsound ltac:(lra))
    as (p' & w' & h' & Hrun & _ & Hlast).
  exists p'. split.
  - eapply population_update; eassumption.
  - rewrite (Hlast ltac:(lra)), Hgen. reflexivity.
Qed.

End Starvation.

(** One entity, made by the steady host, after two hundred updates in a
    world without energy: it has starved, and its replacement is the
    first generation. *)
Lemma reachable_population_counters_witness :
  exists p,
    reachable_population (rt := Sample.steady) 1 p /\
    PopulationManager.generation p = 1%Z /\
    PopulationManager.generation p = PopulationManager.totalDeaths p /\
    (0 <= PopulationManager.generation p)%Z /\
    (0 <= PopulationManager.bestFitness p)%Z /\
    match PopulationManager.allTimeBest p with
    | Some snapshot => ConsciousEntity.fitness snapshot = PopulationManager.bestFitness p
    | None => PopulationManager.bestFitness p = 0%Z
    end.
Proof.
  destruct (starved (rt := Sample.steady) steady_is_fair Sample.newborn eq_refl 2)
    as (p & Hreach & Hgen).
  exists p. split; [exact Hreach|]. split; [exact Hgen|].
  exact (reachable_population_counters (rt := Sample.steady) 1 p Hreach).
Defined.

(** Three entities, made by the steady host and updated twice. *)
Lemma reachable_population_living_witness :
  exists p,
    reachable_population (rt := Sample.steady) 3 p /\
    Forall (fun e => PopulationManager.is_living e = true)
      (PopulationManager.entities p) /\
    PopulationManager.getLivingEntities p = PopulationManager.entities p /\
    PopulationManager.stats_livingCount (PopulationManager.getPopulationStats p)
    = 3%nat.
Proof.
  destruct (new_ensures (rt := Sample.steady) steady_is_fair 3 100 Sample.start)
    as (p & h1 & Hnew & Hsound).
  destruct (update_returns (rt := Sample.steady) steady_is_fair Sample.newborn 1 p
              Hsound h1) as ([p1 w1] & h2 & Hupdate & Hsound1).
  destruct (update_returns (rt := Sample.steady) steady_is_fair w1 2 p1
              Hsound1 h2) as ([p2 w2] & h3 & Hupdate2 & _).
  assert (Hreach : reachable_population (rt := Sample.steady) 3 p2).
  { eapply population_update; [|exact Hupdate2].
    eapply population_update; [|exact Hupdate].
    eapply population_new. exact Hnew. }
  exists p2. split; [exact Hreach|].
  exact (reachable_population_living (rt := Sample.steady) 3 p2 Hreach).
Defined.
